(** * LUKE: the dual-stream transformer of [luke/model.py]

    A shallow embedding of the word/entity encoder and of its pretraining
    heads, with the properties of its specification.

    Conventions of the embedding.
    - A tensor is a nested list, outermost dimension first; a tensor with an
      empty leading dimension is the empty list, so its trailing dimensions
      are not recorded.
    - Tensor entries range over a type [A] with the operations of the class
      [Scalar]; the arithmetic facts are proved at the instance [RScalar]:
      entries are exact real numbers, and the rounding of the float32
      backend is not part of the model.
    - Every [nn.Parameter] is a cell of a heap, addressed by a [ref];
      modules hold refs, so two modules that hold the same ref share
      storage, and an in-place update is a heap write.
    - A call that PyTorch or Python rejects returns [Raise e].  Shape checks
      are strict: a dimension of size one is broadcast only where the source
      creates it itself ([unsqueeze], [keepdim]).
    - Dropout takes its mode and its noise as arguments: [training] is the
      module flag, and the noise gives, per element, the factor drawn for it
      (0 or 1/(1-p) in PyTorch). *)

From Stdlib Require Import ZArith String Ascii DecimalString Reals Lra Lia.
From stdpp Require Import base list strings.

Set Default Proof Using "Type".
Set Warnings "-register-all".

(** ** Errors *)

Inductive error :=
| TypeError
| AttributeError
| IndexError
| RuntimeError
| ValueError
| KeyError
| AssertionError
| ZeroDivisionError.

Inductive result (T : Type) :=
| Ok (t : T)
| Raise (e : error).
Arguments Ok {T} t.
Arguments Raise {T} e.

#[global] Instance result_ret : MRet result := fun T t => Ok t.
#[global] Instance result_bind : MBind result := fun T U k m =>
  match m with Ok t => k t | Raise e => Raise e end.
#[global] Instance result_fmap : FMap result := fun T U f m =>
  match m with Ok t => Ok (f t) | Raise e => Raise e end.

(** Two lists of one length, element by element; a difference of lengths is
    PyTorch's shape error. *)
Definition zipM {X Y Z} (f : X → Y → result Z) (xs : list X) (ys : list Y)
  : result (list Z) :=
  if decide (length xs = length ys)
  then mapM (fun xy => f xy.1 xy.2) (zip xs ys)
  else Raise RuntimeError.

(** Monadic map with the index of the element. *)
Fixpoint imapM_go {X Y} (f : nat → X → result Y) (i : nat) (l : list X) : result (list Y) :=
  match l with
  | [] => Ok []
  | x :: l' => y ← f i x; ys ← imapM_go f (S i) l'; Ok (y :: ys)
  end.
Definition imapM {X Y} (f : nat → X → result Y) (l : list X) : result (list Y) :=
  imapM_go f 0 l.

(** A Python dict with string keys, in insertion order. *)
Definition dict (V : Type) := list (string * V).

Fixpoint dict_get {V} (d : dict V) (k : string) : option V :=
  match d with
  | [] => None
  | (k', v) :: d' => if decide (k' = k) then Some v else dict_get d' k
  end.

(** [d[k] = v]: an existing key keeps its place. *)
Fixpoint dict_set {V} (d : dict V) (k : string) (v : V) : dict V :=
  match d with
  | [] => [(k, v)]
  | (k', v') :: d' => if decide (k' = k) then (k, v) :: d' else (k', v') :: dict_set d' k v
  end.

(** [del d[k]] *)
Fixpoint dict_del {V} (d : dict V) (k : string) : dict V :=
  match d with
  | [] => []
  | (k', v') :: d' => if decide (k' = k) then d' else (k', v') :: dict_del d' k
  end.

Definition dict_keys {V} (d : dict V) : list string := map fst d.

(** ** Scalars *)

Class Scalar (A : Type) := {
  of_Z : Z → A;
  lit_1e_12 : A;
  lit_0_5 : A;
  fadd : A → A → A;
  fsub : A → A → A;
  fmul : A → A → A;
  fdiv : A → A → A;
  fsqrt : A → A;
  fexp : A → A;
  flog : A → A;
  ferf : A → A;
  ftanh : A → A;
  fltb : A → A → bool;
}.

Declare Scope fl_scope.
Delimit Scope fl_scope with fl.
Infix "+" := fadd : fl_scope.
Infix "-" := fsub : fl_scope.
Infix "*" := fmul : fl_scope.
Infix "/" := fdiv : fl_scope.

(** The error function on the reals: [2/sqrt(pi)] times the integral of
    [exp(-t^2)] from 0 to [x], extended as an odd function. *)
Definition gauss (t : R) : R := exp (- (t * t)).

Lemma gauss_continuous : continuity gauss.
Proof. unfold gauss. reg. Qed.

Lemma gauss_integrable (a b : R) : (a <= b)%R → Riemann_integrable gauss a b.
Proof.
  intros Hab. apply continuity_implies_RiemannInt; [exact Hab|].
  intros x _. apply gauss_continuous.
Qed.

Definition erf_nonneg (x : R) (H : (0 <= x)%R) : R :=
  (2 / sqrt PI * RiemannInt (gauss_integrable 0 x H))%R.

Lemma Ropp_nonneg (x : R) : ¬ (0 <= x)%R → (0 <= - x)%R.
Proof. lra. Qed.

Definition erf (x : R) : R :=
  match Rle_dec 0 x with
  | left H => erf_nonneg x H
  | right H => (- erf_nonneg (- x) (Ropp_nonneg x H))%R
  end.

(** The reals as scalars. *)
Definition Rltb (x y : R) : bool := if Rlt_dec x y then true else false.

#[global] Instance RScalar : Scalar R := {|
  of_Z := IZR;
  lit_1e_12 := 1e-12%R;
  lit_0_5 := 0.5%R;
  fadd := Rplus;
  fsub := Rminus;
  fmul := Rmult;
  fdiv := Rdiv;
  fsqrt := sqrt;
  fexp := exp;
  flog := ln;
  ferf := erf;
  ftanh := tanh;
  fltb := Rltb;
|}.

(** ** Tensor operations *)

Section Tensor.
Context {A : Type} `{!Scalar A}.

Definition vec := list A.
Definition mat := list (list A).

(** [x.sum(-1)] *)
Definition vsum (v : list A) : A := foldr fadd (of_Z 0) v.

(** [x.mean(-1)] *)
Definition vmean (v : list A) : A := (vsum v / of_Z (Z.of_nat (length v)))%fl.

(** Elementwise binary operation of two tensors of one shape, at rank 1, 2
    and 3: a difference of sizes is PyTorch's shape error. *)
Definition vzip (f : A → A → A) (x y : list A) : result (list A) :=
  if decide (length x = length y) then Ok (zip_with f x y) else Raise RuntimeError.
Definition mzip (f : A → A → A) : list (list A) → list (list A) → result (list (list A)) :=
  zipM (vzip f).
Definition tzip (f : A → A → A)
  : list (list (list A)) → list (list (list A)) → result (list (list (list A))) :=
  zipM (mzip f).

Definition dot (x y : list A) : A := vsum (zip_with fmul x y).

(** [gelu] *)
Definition gelu (x : A) : A :=
  (x * lit_0_5 * (of_Z 1 + ferf (x / fsqrt (of_Z 2))))%fl.

(** [nn.Softmax(dim=-1)] on one row. *)
Definition softmax (x : list A) : list A :=
  let e := map fexp x in
  map (fun ei => (ei / vsum e)%fl) e.

(** Sum of the rows of a matrix whose rows have length [n]
    ([torch.sum] over the dimension before the last one). *)
Definition sum_rows (n : nat) (rows : list (list A)) : list A :=
  foldr (zip_with fadd) (replicate n (of_Z 0)) rows.

(** [x.view(-1, n)] of a flat tensor: rows of [n] consecutive entries. *)
Fixpoint chunks (fuel n : nat) (x : list A) : list (list A) :=
  match fuel with
  | O => []
  | S fuel' =>
      match x with
      | [] => []
      | _ => take n x :: chunks fuel' n (drop n x)
      end
  end.

Definition view_rows (n : nat) (x : list A) : result (list (list A)) :=
  if decide (n = 0) then Raise RuntimeError
  else if decide (length x `mod` n = 0) then Ok (chunks (length x) n x)
  else Raise RuntimeError.

(** [torch.argmax] of one row: the first index of a largest entry. *)
Fixpoint argmax_from (i best : nat) (bv : A) (x : list A) : nat :=
  match x with
  | [] => best
  | y :: x' => if fltb bv y then argmax_from (S i) i y x' else argmax_from (S i) best bv x'
  end.

Definition argmax (x : list A) : result nat :=
  match x with
  | [] => Raise IndexError
  | y :: x' => Ok (argmax_from 1 0 y x')
  end.

End Tensor.

(** ** The parameter heap *)

Inductive tensor (A : Type) :=
| Vec (v : list A)
| Mat (m : list (list A)).
Arguments Vec {A} v.
Arguments Mat {A} m.

Definition ref := nat.
Definition heap (A : Type) := list (tensor A).

Definition hvec {A} (h : heap A) (r : ref) : list A :=
  match h !! r with Some (Vec v) => v | _ => [] end.

Definition hmat {A} (h : heap A) (r : ref) : list (list A) :=
  match h !! r with Some (Mat m) => m | _ => [] end.

(** In-place update of a parameter's storage ([copy_], [normal_], [fill_],
    an optimiser step). *)
Definition hwrite {A} (h : heap A) (r : ref) (t : tensor A) : heap A :=
  <[r := t]> h.

(** [x.size(1)] of a tensor with a non-empty first dimension. *)
Definition size1 {X} (x : list (list X)) : nat := length (default [] (head x)).

(** [t.shape] *)
Definition shape {A} (t : tensor A) : list nat :=
  match t with
  | Vec v => [length v]
  | Mat m => [length m; length (default [] (head m))]
  end.

(** ** Construction of parameters

    A constructor runs in a state that holds the heap and the random
    generator; [nn.Parameter(t)] allocates a fresh cell.  The generator is a
    stream of scalars: its distribution is not modelled, a drawn value is
    arbitrary. *)

Record pstate (A : Type) := PState { cells : heap A; rng : nat → A }.
Arguments PState {A} cells rng.
Arguments cells {A} p.
Arguments rng {A} p.

Definition ctor (A T : Type) := pstate A → result (T * pstate A).

#[global] Instance ctor_ret {A} : MRet (ctor A) := fun T t s => Ok (t, s).
#[global] Instance ctor_bind {A} : MBind (ctor A) := fun T U k m s =>
  match m s with Ok (t, s') => k t s' | Raise e => Raise e end.

Section Construction.
Context {A : Type} `{!Scalar A}.

Definition throw {T} (e : error) : ctor A T := fun _ => Raise e.

(** [nn.Parameter(t)]: fresh storage. *)
Definition alloc (t : tensor A) : ctor A ref := fun s =>
  Ok (length (cells s), PState (cells s ++ [t]) (rng s)).

(** [n] values drawn from the generator. *)
Definition draw (n : nat) : ctor A (list A) := fun s =>
  Ok (map (rng s) (seq 0 n), PState (cells s) (fun i => rng s (n + i))).

Fixpoint draw_rows (r c : nat) : ctor A (list (list A)) :=
  match r with
  | O => mret []
  | S r' => row ← draw c; rows ← draw_rows r' c; mret (row :: rows)
  end.

(** A random tensor of the shape of [t]. *)
Definition draw_like (t : tensor A) : ctor A (tensor A) :=
  match t with
  | Vec v => v' ← draw (length v); mret (Vec v')
  | Mat m => m' ← draw_rows (length m) (length (default [] (head m))); mret (Mat m')
  end.

Definition read (r : ref) : ctor A (option (tensor A)) := fun s => Ok (cells s !! r, s).

Definition write (r : ref) (t : tensor A) : ctor A unit := fun s =>
  Ok (tt, PState (hwrite (cells s) r t) (rng s)).

(** [t.zero_()], [t.fill_(c)], [t.normal_()]: in place, shape kept. *)
Definition fill_like (c : A) (t : tensor A) : tensor A :=
  match t with
  | Vec v => Vec (map (fun _ => c) v)
  | Mat m => Mat (map (map (fun _ => c)) m)
  end.

Definition fill_ (r : ref) (c : A) : ctor A unit :=
  o ← read r;
  match o with Some t => write r (fill_like c t) | None => mret tt end.

Definition normal_ (r : ref) : ctor A unit :=
  o ← read r;
  match o with Some t => t' ← draw_like t; write r t' | None => mret tt end.

(** [copy.deepcopy] of a parameter: fresh storage with the same values. *)
Definition copy_param (r : ref) : ctor A ref :=
  o ← read r;
  alloc (default (Vec []) o).

(** [[c for _ in range(n)]] *)
Fixpoint repeatM {T} (n : nat) (c : ctor A T) : ctor A (list T) :=
  match n with
  | O => mret []
  | S n' => x ← c; xs ← repeatM n' c; mret (x :: xs)
  end.

End Construction.

(** ** Configuration *)

Module LukeConfig.
Record t (A : Type) := {
  vocab_size : nat;
  entity_vocab_size : nat;
  hidden_size : nat;
  entity_emb_size : nat;
  num_hidden_layers : nat;
  num_attention_heads : nat;
  intermediate_size : nat;
  hidden_dropout_prob : A;
  attention_probs_dropout_prob : A;
  max_position_embeddings : nat;
  type_vocab_size : nat;
  initializer_range : A;
}.
Arguments vocab_size {A} _.
Arguments entity_vocab_size {A} _.
Arguments hidden_size {A} _.
Arguments entity_emb_size {A} _.
Arguments num_hidden_layers {A} _.
Arguments num_attention_heads {A} _.
Arguments intermediate_size {A} _.
Arguments hidden_dropout_prob {A} _.
Arguments attention_probs_dropout_prob {A} _.
Arguments max_position_embeddings {A} _.
Arguments type_vocab_size {A} _.
Arguments initializer_range {A} _.
End LukeConfig.

(** ** The module tree of [nn.Module]

    What [apply], [parameters] and [_load_from_state_dict] see of a module:
    its class, its [_parameters] (a [None] entry is a parameter registered
    as absent) and its [_modules], both in registration order. *)

Inductive kind := KLinear | KEmbedding | KLayerNorm | KOther.

Inductive pymodule :=
| PyModule (k : kind) (_parameters : list (string * option ref))
           (_modules : list (string * pymodule)).

Definition mod_kind (m : pymodule) : kind := let 'PyModule k _ _ := m in k.
Definition mod_parameters (m : pymodule) : list (string * option ref) :=
  let 'PyModule _ ps _ := m in ps.
Definition mod_modules (m : pymodule) : list (string * pymodule) :=
  let 'PyModule _ _ ms := m in ms.

(** The parameters present in [_parameters]. *)
Definition local_params (ps : list (string * option ref)) : list (string * ref) :=
  omap (fun p => r ← p.2; Some (p.1, r)) ps.

(** [named_parameters()] without the removal of duplicates: dotted path and
    storage of every parameter, a module's own parameters before those of
    its children. *)
Fixpoint named_parameters (prefix : string) (m : pymodule) : list (string * ref) :=
  let 'PyModule _ ps ms := m in
  map (fun p => (prefix +:+ p.1, p.2)) (local_params ps) ++
  (fix children (ms : list (string * pymodule)) : list (string * ref) :=
     match ms with
     | [] => []
     | (name, c) :: ms' => named_parameters (prefix +:+ name +:+ ".") c ++ children ms'
     end) ms.

Definition parameters (m : pymodule) : list ref := map snd (named_parameters "" m).

(** ** Dropout mode and noise *)

Record mode (A : Type) := Mode { training : bool; nz : list nat → A }.
Arguments Mode {A} training nz.
Arguments training {A} m.
Arguments nz {A} m.

(** The noise of the [k]-th call site below the current one. *)
Definition at_site {A} (k : nat) (md : mode A) : mode A :=
  Mode (training md) (fun ix => nz md (k :: ix)).


(** ** [nn.Dropout] *)

Module Dropout.
Section Defs.
Context {A : Type} `{!Scalar A}.

Record t := { p : A }.

Definition modules (d : t) : pymodule := PyModule KOther [] [].

(** One row whose index in the tensor is [pre]. *)
Definition forward1 (d : t) (md : mode A) (pre : list nat) (x : list A) : list A :=
  if training md then imap (fun j v => (v * nz md (pre ++ [j]))%fl) x else x.

Definition forward2 (d : t) (md : mode A) (pre : list nat) (x : list (list A))
  : list (list A) :=
  imap (fun i => forward1 d md (pre ++ [i])) x.

Definition forward3 (d : t) (md : mode A) (pre : list nat) (x : list (list (list A)))
  : list (list (list A)) :=
  imap (fun i => forward2 d md (pre ++ [i])) x.

End Defs.
Arguments t : clear implicits.
End Dropout.

(** ** [LayerNorm] *)

Module LayerNorm.
Section Defs.
Context {A : Type} `{!Scalar A}.

Record t := { weight : ref; bias : ref; variance_epsilon : A }.

Definition init (hidden_size : nat) (eps : A) : ctor A t :=
  w ← alloc (Vec (replicate hidden_size (of_Z 1)));
  b ← alloc (Vec (replicate hidden_size (of_Z 0)));
  mret {| weight := w; bias := b; variance_epsilon := eps |}.

Definition deepcopy (m : t) : ctor A t :=
  w ← copy_param (weight m);
  b ← copy_param (bias m);
  mret {| weight := w; bias := b; variance_epsilon := variance_epsilon m |}.

Definition modules (m : t) : pymodule :=
  PyModule KLayerNorm [("weight", Some (weight m)); ("bias", Some (bias m))] [].

(** The value before the scale and the shift, on one slice of the last
    dimension: [(x - u) / sqrt(s + eps)]. *)
Definition normalize (eps : A) (x : list A) : list A :=
  let u := vmean x in
  let s := vmean (map (fun xi => ((xi - u) * (xi - u))%fl) x) in
  map (fun xi => ((xi - u) / fsqrt (s + eps))%fl) x.

Definition forward (h : heap A) (m : t) (x : list A) : result (list A) :=
  wx ← vzip fmul (hvec h (weight m)) (normalize (variance_epsilon m) x);
  vzip fadd wx (hvec h (bias m)).

End Defs.
Arguments t : clear implicits.
End LayerNorm.

(** ** [nn.Embedding] *)

Module Embedding.
Section Defs.
Context {A : Type} `{!Scalar A}.

Record t := {
  num_embeddings : nat;
  embedding_dim : nat;
  padding_idx : option nat;
  weight : ref;
}.

Definition init (num dim : nat) (pad : option nat) : ctor A t :=
  w ← draw_rows num dim;
  w ← match pad with
      | Some i =>
          if decide (i < num) then mret (<[i := replicate dim (of_Z 0)]> w)
          else throw AssertionError
      | None => mret w
      end;
  r ← alloc (Mat w);
  mret {| num_embeddings := num; embedding_dim := dim; padding_idx := pad; weight := r |}.

Definition modules (m : t) : pymodule :=
  PyModule KEmbedding [("weight", Some (weight m))] [].

(** The row of one index. *)
Definition forward (h : heap A) (m : t) (i : Z) : result (list A) :=
  if decide (0 ≤ i < Z.of_nat (num_embeddings m))%Z then
    match hmat h (weight m) !! Z.to_nat i with
    | Some row => Ok row
    | None => Raise IndexError
    end
  else Raise IndexError.

End Defs.
End Embedding.

(** ** [nn.Linear] *)

Module Linear.
Section Defs.
Context {A : Type} `{!Scalar A}.

Record t := {
  in_features : nat;
  out_features : nat;
  weight : ref;
  bias : option ref;
}.

Definition init (i o : nat) (with_bias : bool) : ctor A t :=
  w ← draw_rows o i;
  rw ← alloc (Mat w);
  if with_bias then
    b ← draw o;
    rb ← alloc (Vec b);
    mret {| in_features := i; out_features := o; weight := rw; bias := Some rb |}
  else
    mret {| in_features := i; out_features := o; weight := rw; bias := None |}.

Definition deepcopy (m : t) : ctor A t :=
  w ← copy_param (weight m);
  b ← match bias m with
      | Some b => b' ← copy_param b; mret (Some b')
      | None => mret None
      end;
  mret {| in_features := in_features m; out_features := out_features m;
          weight := w; bias := b |}.

Definition modules (m : t) : pymodule :=
  PyModule KLinear [("weight", Some (weight m)); ("bias", bias m)] [].

(** [x W^T + b] on one slice of the last dimension. *)
Definition forward (h : heap A) (m : t) (x : list A) : result (list A) :=
  if decide (length x = in_features m) then
    let y := map (dot x) (hmat h (weight m)) in
    match bias m with
    | Some b => vzip fadd y (hvec h b)
    | None => Ok y
    end
  else Raise RuntimeError.

End Defs.
End Linear.

(** ** [WordEmbeddings] *)

Module WordEmbeddings.
Section Defs.
Context {A : Type} `{!Scalar A}.

Record t := {
  config : LukeConfig.t A;
  word_embeddings : Embedding.t;
  position_embeddings : Embedding.t;
  token_type_embeddings : Embedding.t;
  LayerNorm : LayerNorm.t A;
  dropout : Dropout.t A;
}.

Definition init (config : LukeConfig.t A) : ctor A t :=
  we ← Embedding.init (LukeConfig.vocab_size config) (LukeConfig.hidden_size config) (Some 0);
  pe ← Embedding.init (LukeConfig.max_position_embeddings config) (LukeConfig.hidden_size config) None;
  te ← Embedding.init (LukeConfig.type_vocab_size config) (LukeConfig.hidden_size config) None;
  ln ← LayerNorm.init (LukeConfig.hidden_size config) lit_1e_12;
  mret {| config := config; word_embeddings := we; position_embeddings := pe;
          token_type_embeddings := te; LayerNorm := ln;
          dropout := {| Dropout.p := LukeConfig.hidden_dropout_prob config |} |}.

Definition modules (m : t) : pymodule :=
  PyModule KOther []
    [("word_embeddings", Embedding.modules (word_embeddings m));
     ("position_embeddings", Embedding.modules (position_embeddings m));
     ("token_type_embeddings", Embedding.modules (token_type_embeddings m));
     ("LayerNorm", LayerNorm.modules (LayerNorm m));
     ("dropout", Dropout.modules (dropout m))].

Definition forward (h : heap A) (m : t) (md : mode A)
    (input_ids : list (list Z)) (token_type_ids : option (list (list Z)))
  : result (list (list (list A))) :=
  let position_ids := map (imap (fun j _ => Z.of_nat j)) input_ids in
  let token_type_ids := default (map (map (fun _ => 0%Z)) input_ids) token_type_ids in
  words_embeddings ← mapM (mapM (Embedding.forward h (word_embeddings m))) input_ids;
  position_embeddings ← mapM (mapM (Embedding.forward h (position_embeddings m))) position_ids;
  token_type_embeddings ←
    mapM (mapM (Embedding.forward h (token_type_embeddings m))) token_type_ids;
  embeddings ← tzip fadd words_embeddings position_embeddings;
  embeddings ← tzip fadd embeddings token_type_embeddings;
  embeddings ← mapM (mapM (LayerNorm.forward h (LayerNorm m))) embeddings;
  Ok (Dropout.forward3 (dropout m) md [] embeddings).

End Defs.
Arguments t : clear implicits.
End WordEmbeddings.

(** ** [EntityEmbeddings] *)

Module EntityEmbeddings.
Section Defs.
Context {A : Type} `{!Scalar A}.

Record t := {
  config : LukeConfig.t A;
  entity_embeddings : Embedding.t;
  position_embeddings : Embedding.t;
  token_type_embeddings : Embedding.t;
  entity_dense : option Linear.t;
  LayerNorm : LayerNorm.t A;
  dropout : Dropout.t A;
}.

Definition init (config : LukeConfig.t A) : ctor A t :=
  ee ← Embedding.init (LukeConfig.entity_vocab_size config) (LukeConfig.entity_emb_size config) (Some 0);
  pe ← Embedding.init (LukeConfig.max_position_embeddings config) (LukeConfig.hidden_size config) None;
  te ← Embedding.init (LukeConfig.type_vocab_size config) (LukeConfig.hidden_size config) None;
  ed ← (if decide (LukeConfig.entity_emb_size config ≠ LukeConfig.hidden_size config)
        then d ← Linear.init (LukeConfig.entity_emb_size config) (LukeConfig.hidden_size config) false; mret (Some d)
        else mret None);
  ln ← LayerNorm.init (LukeConfig.hidden_size config) lit_1e_12;
  mret {| config := config; entity_embeddings := ee; position_embeddings := pe;
          token_type_embeddings := te; entity_dense := ed; LayerNorm := ln;
          dropout := {| Dropout.p := LukeConfig.hidden_dropout_prob config |} |}.

Definition modules (m : t) : pymodule :=
  PyModule KOther []
    ([("entity_embeddings", Embedding.modules (entity_embeddings m));
      ("position_embeddings", Embedding.modules (position_embeddings m));
      ("token_type_embeddings", Embedding.modules (token_type_embeddings m))] ++
     match entity_dense m with
     | Some d => [("entity_dense", Linear.modules d)]
     | None => []
     end ++
     [("LayerNorm", LayerNorm.modules (LayerNorm m));
      ("dropout", Dropout.modules (dropout m))]).

(** [(position_ids != -1).type_as(position_embeddings)] on one slot. *)
Definition position_embedding_mask (p : Z) : A :=
  if decide (p ≠ (-1)%Z) then of_Z 1 else of_Z 0.

(** The position contribution of one entity, from its position-id slots:
    the embeddings of the clamped ids, each multiplied by the mask of its
    slot, summed over the slots and divided by the number of valid slots
    plus [1e-12]. *)
Definition entity_position (h : heap A) (m : t) (slots : list Z) : result (list A) :=
  embs ← mapM (fun p => Embedding.forward h (position_embeddings m) (Z.max p 0)) slots;
  let mask := map position_embedding_mask slots in
  let masked := zip_with (fun e mk => map (fun v => (v * mk)%fl) e) embs mask in
  let summed := sum_rows (Embedding.embedding_dim (position_embeddings m)) masked in
  Ok (map (fun v => (v / (vsum mask + lit_1e_12))%fl) summed).

Definition forward (h : heap A) (m : t) (md : mode A)
    (entity_ids : list (list Z)) (position_ids : list (list (list Z)))
    (token_type_ids : option (list (list Z)))
  : result (list (list (list A))) :=
  let token_type_ids := default (map (map (fun _ => 0%Z)) entity_ids) token_type_ids in
  entity_embeddings ← mapM (mapM (Embedding.forward h (entity_embeddings m))) entity_ids;
  entity_embeddings ←
    (if decide (LukeConfig.entity_emb_size (config m) ≠ LukeConfig.hidden_size (config m)) then
       match entity_dense m with
       | Some d => mapM (mapM (Linear.forward h d)) entity_embeddings
       | None => Raise AttributeError
       end
     else Ok entity_embeddings);
  position_embeddings ← mapM (mapM (entity_position h m)) position_ids;
  token_type_embeddings ←
    mapM (mapM (Embedding.forward h (token_type_embeddings m))) token_type_ids;
  embeddings ← tzip fadd entity_embeddings position_embeddings;
  embeddings ← tzip fadd embeddings token_type_embeddings;
  embeddings ← mapM (mapM (LayerNorm.forward h (LayerNorm m))) embeddings;
  Ok (Dropout.forward3 (dropout m) md [] embeddings).

End Defs.
Arguments t : clear implicits.
End EntityEmbeddings.

(** ** [SelfAttention] *)

Module SelfAttention.
Section Defs.
Context {A : Type} `{!Scalar A}.

Record t := {
  num_attention_heads : nat;
  attention_head_size : nat;
  all_head_size : nat;
  query : Linear.t;
  key : Linear.t;
  value : Linear.t;
  dropout : Dropout.t A;
}.

Definition init (config : LukeConfig.t A) : ctor A t :=
  if decide (LukeConfig.num_attention_heads config = 0) then throw ZeroDivisionError
  else
    let heads := LukeConfig.num_attention_heads config in
    let head_size := LukeConfig.hidden_size config / heads in
    let all := heads * head_size in
    q ← Linear.init (LukeConfig.hidden_size config) all true;
    k ← Linear.init (LukeConfig.hidden_size config) all true;
    v ← Linear.init (LukeConfig.hidden_size config) all true;
    mret {| num_attention_heads := heads; attention_head_size := head_size;
            all_head_size := all; query := q; key := k; value := v;
            dropout := {| Dropout.p := LukeConfig.attention_probs_dropout_prob config |} |}.

Definition deepcopy (m : t) : ctor A t :=
  q ← Linear.deepcopy (query m);
  k ← Linear.deepcopy (key m);
  v ← Linear.deepcopy (value m);
  mret {| num_attention_heads := num_attention_heads m;
          attention_head_size := attention_head_size m;
          all_head_size := all_head_size m; query := q; key := k; value := v;
          dropout := dropout m |}.

Definition modules (m : t) : pymodule :=
  PyModule KOther []
    [("query", Linear.modules (query m)); ("key", Linear.modules (key m));
     ("value", Linear.modules (value m)); ("dropout", Dropout.modules (dropout m))].

(** One batch element of [x]: from (length, heads * head_size) to
    (heads, length, head_size). *)
Definition transpose_for_scores (m : t) (x : list (list A)) : result (list (list (list A))) :=
  if decide (Forall (fun row => length row = num_attention_heads m * attention_head_size m) x)
  then Ok (map (fun a => map (fun row => take (attention_head_size m)
                                          (drop (a * attention_head_size m) row)) x)
               (seq 0 (num_attention_heads m)))
  else Raise RuntimeError.

(** The scaled dot products of one batch element: (heads, length, length),
    from the joint sequence. *)
Definition scaled_scores (h : heap A) (m : t) (hidden_states : list (list A))
  : result (list (list (list A))) :=
  mixed_query_layer ← mapM (Linear.forward h (query m)) hidden_states;
  mixed_key_layer ← mapM (Linear.forward h (key m)) hidden_states;
  query_layer ← transpose_for_scores m mixed_query_layer;
  key_layer ← transpose_for_scores m mixed_key_layer;
  let attention_scores :=
    zip_with (fun Q K => map (fun q => map (fun k => dot q k) K) Q) query_layer key_layer in
  Ok (map (map (map (fun s => (s / fsqrt (of_Z (Z.of_nat (attention_head_size m))))%fl)))
          attention_scores).

(** The attention probabilities of one batch element, before dropout: the
    row of the mask added to every row of scores, then the softmax. *)
Definition attention_probs (h : heap A) (m : t)
    (hidden_states : list (list A)) (attention_mask : list A)
  : result (list (list (list A))) :=
  attention_scores ← scaled_scores h m hidden_states;
  attention_scores ← mapM (mapM (fun row => vzip fadd row attention_mask)) attention_scores;
  Ok (map (map softmax) attention_scores).

(** The context of one batch element, (length, all_head_size), from the
    joint sequence alone. *)
Definition joint_context (h : heap A) (m : t) (md : mode A)
    (hidden_states : list (list A)) (attention_mask : list A)
  : result (list (list A)) :=
  attention_probs ← attention_probs h m hidden_states attention_mask;
  mixed_value_layer ← mapM (Linear.forward h (value m)) hidden_states;
  value_layer ← transpose_for_scores m mixed_value_layer;
  let attention_probs := Dropout.forward3 (dropout m) md [] attention_probs in
  let context_layer :=
    zip_with (fun P V =>
                map (fun p => sum_rows (attention_head_size m)
                                       (zip_with (fun pj vj => map (fmul pj) vj) p V)) P)
             attention_probs value_layer in
  Ok (map (fun i => concat (map (fun c => default [] (c !! i)) context_layer))
          (seq 0 (length hidden_states))).

(** [attention_mask] is the tensor of shape (batch, 1, 1, length) that
    [LukeModel.forward] builds, given as its (batch, length) rows. *)
Definition forward (h : heap A) (m : t) (md : mode A)
    (word_hidden_states entity_hidden_states : list (list (list A)))
    (attention_mask : list (list A))
  : result (list (list (list A)) * list (list (list A))) :=
  hidden_states ← zipM (fun w e => Ok (w ++ e)) word_hidden_states entity_hidden_states;
  if decide (length attention_mask = length hidden_states) then
    context_layer ←
      imapM (fun b xm => joint_context h m (at_site b md) xm.1 xm.2)
            (zip hidden_states attention_mask);
    let word_seq_size := size1 word_hidden_states in
    Ok (map (take word_seq_size) context_layer, map (drop word_seq_size) context_layer)
  else Raise RuntimeError.

End Defs.
Arguments t : clear implicits.
End SelfAttention.

(** ** [SelfOutput] *)

Module SelfOutput.
Section Defs.
Context {A : Type} `{!Scalar A}.

Record t := { dense : Linear.t; LayerNorm : LayerNorm.t A; dropout : Dropout.t A }.

Definition init (config : LukeConfig.t A) : ctor A t :=
  d ← Linear.init (LukeConfig.hidden_size config) (LukeConfig.hidden_size config) true;
  ln ← LayerNorm.init (LukeConfig.hidden_size config) lit_1e_12;
  mret {| dense := d; LayerNorm := ln;
          dropout := {| Dropout.p := LukeConfig.hidden_dropout_prob config |} |}.

Definition deepcopy (m : t) : ctor A t :=
  d ← Linear.deepcopy (dense m);
  ln ← LayerNorm.deepcopy (LayerNorm m);
  mret {| dense := d; LayerNorm := ln; dropout := dropout m |}.

Definition modules (m : t) : pymodule :=
  PyModule KOther []
    [("dense", Linear.modules (dense m)); ("LayerNorm", LayerNorm.modules (LayerNorm m));
     ("dropout", Dropout.modules (dropout m))].

Definition forward (h : heap A) (m : t) (md : mode A)
    (hidden_states input_tensor : list (list (list A)))
  : result (list (list (list A))) :=
  hidden_states ← mapM (mapM (Linear.forward h (dense m))) hidden_states;
  let hidden_states := Dropout.forward3 (dropout m) md [] hidden_states in
  hidden_states ← tzip fadd hidden_states input_tensor;
  mapM (mapM (LayerNorm.forward h (LayerNorm m))) hidden_states.

End Defs.
Arguments t : clear implicits.
End SelfOutput.

(** ** [Attention] *)

Module Attention.
Section Defs.
Context {A : Type} `{!Scalar A}.

Record t := { self : SelfAttention.t A; output : SelfOutput.t A }.

Definition init (config : LukeConfig.t A) : ctor A t :=
  s ← SelfAttention.init config;
  o ← SelfOutput.init config;
  mret {| self := s; output := o |}.

Definition deepcopy (m : t) : ctor A t :=
  s ← SelfAttention.deepcopy (self m);
  o ← SelfOutput.deepcopy (output m);
  mret {| self := s; output := o |}.

Definition modules (m : t) : pymodule :=
  PyModule KOther []
    [("self", SelfAttention.modules (self m)); ("output", SelfOutput.modules (output m))].

Definition forward (h : heap A) (m : t) (md : mode A)
    (word_hidden_states entity_hidden_states : list (list (list A)))
    (attention_mask : list (list A))
  : result (list (list (list A)) * list (list (list A))) :=
  '(word_self_output, entity_self_output) ←
    SelfAttention.forward h (self m) (at_site 0 md) word_hidden_states entity_hidden_states
                          attention_mask;
  word_output ← SelfOutput.forward h (output m) (at_site 1 md) word_self_output
                                   word_hidden_states;
  entity_output ← SelfOutput.forward h (output m) (at_site 2 md) entity_self_output
                                     entity_hidden_states;
  Ok (word_output, entity_output).

End Defs.
Arguments t : clear implicits.
End Attention.

(** ** [Intermediate] *)

Module Intermediate.
Section Defs.
Context {A : Type} `{!Scalar A}.

Record t := { dense : Linear.t }.

Definition init (config : LukeConfig.t A) : ctor A t :=
  d ← Linear.init (LukeConfig.hidden_size config) (LukeConfig.intermediate_size config) true;
  mret {| dense := d |}.

Definition deepcopy (m : t) : ctor A t :=
  d ← Linear.deepcopy (dense m);
  mret {| dense := d |}.

Definition modules (m : t) : pymodule :=
  PyModule KOther [] [("dense", Linear.modules (dense m))].

Definition forward (h : heap A) (m : t) (hidden_states : list (list (list A)))
  : result (list (list (list A))) :=
  hidden_states ← mapM (mapM (Linear.forward h (dense m))) hidden_states;
  Ok (map (map (map gelu)) hidden_states).

End Defs.
End Intermediate.

(** ** [Output] *)

Module Output.
Section Defs.
Context {A : Type} `{!Scalar A}.

Record t := { dense : Linear.t; LayerNorm : LayerNorm.t A; dropout : Dropout.t A }.

Definition init (config : LukeConfig.t A) : ctor A t :=
  d ← Linear.init (LukeConfig.intermediate_size config) (LukeConfig.hidden_size config) true;
  ln ← LayerNorm.init (LukeConfig.hidden_size config) lit_1e_12;
  mret {| dense := d; LayerNorm := ln;
          dropout := {| Dropout.p := LukeConfig.hidden_dropout_prob config |} |}.

Definition deepcopy (m : t) : ctor A t :=
  d ← Linear.deepcopy (dense m);
  ln ← LayerNorm.deepcopy (LayerNorm m);
  mret {| dense := d; LayerNorm := ln; dropout := dropout m |}.

Definition modules (m : t) : pymodule :=
  PyModule KOther []
    [("dense", Linear.modules (dense m)); ("LayerNorm", LayerNorm.modules (LayerNorm m));
     ("dropout", Dropout.modules (dropout m))].

Definition forward (h : heap A) (m : t) (md : mode A)
    (hidden_states input_tensor : list (list (list A)))
  : result (list (list (list A))) :=
  hidden_states ← mapM (mapM (Linear.forward h (dense m))) hidden_states;
  let hidden_states := Dropout.forward3 (dropout m) md [] hidden_states in
  hidden_states ← tzip fadd hidden_states input_tensor;
  mapM (mapM (LayerNorm.forward h (LayerNorm m))) hidden_states.

End Defs.
Arguments t : clear implicits.
End Output.

(** ** [Layer] *)

Module Layer.
Section Defs.
Context {A : Type} `{!Scalar A}.

Record t := {
  attention : Attention.t A;
  intermediate : Intermediate.t;
  output : Output.t A;
}.

Definition init (config : LukeConfig.t A) : ctor A t :=
  a ← Attention.init config;
  i ← Intermediate.init config;
  o ← Output.init config;
  mret {| attention := a; intermediate := i; output := o |}.

Definition deepcopy (m : t) : ctor A t :=
  a ← Attention.deepcopy (attention m);
  i ← Intermediate.deepcopy (intermediate m);
  o ← Output.deepcopy (output m);
  mret {| attention := a; intermediate := i; output := o |}.

Definition modules (m : t) : pymodule :=
  PyModule KOther []
    [("attention", Attention.modules (attention m));
     ("intermediate", Intermediate.modules (intermediate m));
     ("output", Output.modules (output m))].

Definition forward (h : heap A) (m : t) (md : mode A)
    (word_hidden_states entity_hidden_states : list (list (list A)))
    (attention_mask : list (list A))
  : result (list (list (list A)) * list (list (list A))) :=
  '(word_attention_output, entity_attention_output) ←
    Attention.forward h (attention m) (at_site 0 md) word_hidden_states entity_hidden_states
                      attention_mask;
  word_intermediate_output ← Intermediate.forward h (intermediate m) word_attention_output;
  entity_intermediate_output ← Intermediate.forward h (intermediate m) entity_attention_output;
  word_layer_output ← Output.forward h (output m) (at_site 1 md) word_intermediate_output
                                     word_attention_output;
  entity_layer_output ← Output.forward h (output m) (at_site 2 md) entity_intermediate_output
                                       entity_attention_output;
  Ok (word_layer_output, entity_layer_output).

End Defs.
Arguments t : clear implicits.
End Layer.

(** ** [Encoder] *)

Module Encoder.
Section Defs.
Context {A : Type} `{!Scalar A}.

(** A (word, entity) pair of hidden states. *)
Definition streams : Type := list (list (list A)) * list (list (list A)).

Record t := { layer : list (Layer.t A) }.

Definition init (config : LukeConfig.t A) : ctor A t :=
  layer ← Layer.init config;
  layers ← repeatM (LukeConfig.num_hidden_layers config) (Layer.deepcopy layer);
  mret {| layer := layers |}.

(** The [nn.ModuleList]: its children are named by their index. *)
Definition modules (m : t) : pymodule :=
  PyModule KOther []
    [("layer",
      PyModule KOther []
        (imap (fun i l => (NilEmpty.string_of_uint (Nat.to_uint i), Layer.modules l))
              (layer m)))].

(** The loop over [self.layer], from the [k]-th layer on. *)
Fixpoint forward_loop (h : heap A) (md : mode A) (layers : list (Layer.t A)) (k : nat)
    (hidden_states : streams) (attention_mask : list (list A))
    (output_all_encoded_layers : bool) (all_encoder_layers : list streams)
  : result (list streams * streams) :=
  match layers with
  | [] => Ok (all_encoder_layers, hidden_states)
  | layer_module :: layers' =>
      hidden_states ← Layer.forward h layer_module (at_site k md)
                                    hidden_states.1 hidden_states.2 attention_mask;
      let all_encoder_layers :=
        if output_all_encoded_layers then all_encoder_layers ++ [hidden_states]
        else all_encoder_layers in
      forward_loop h md layers' (S k) hidden_states attention_mask
                   output_all_encoded_layers all_encoder_layers
  end.

Definition forward (h : heap A) (m : t) (md : mode A)
    (word_hidden_states entity_hidden_states : list (list (list A)))
    (attention_mask : list (list A)) (output_all_encoded_layers : bool)
  : result (list streams) :=
  '(all_encoder_layers, hidden_states) ←
    forward_loop h md (layer m) 0 (word_hidden_states, entity_hidden_states)
                 attention_mask output_all_encoded_layers [];
  Ok (if output_all_encoded_layers then all_encoder_layers
      else all_encoder_layers ++ [hidden_states]).

End Defs.
Arguments t : clear implicits.
End Encoder.

(** ** [Pooler] *)

Module Pooler.
Section Defs.
Context {A : Type} `{!Scalar A}.

Record t := { dense : Linear.t }.

Definition init (config : LukeConfig.t A) : ctor A t :=
  d ← Linear.init (LukeConfig.hidden_size config) (LukeConfig.hidden_size config) true;
  mret {| dense := d |}.

Definition modules (m : t) : pymodule :=
  PyModule KOther [] [("dense", Linear.modules (dense m)); ("activation", PyModule KOther [] [])].

(** [x[:, 0]] *)
Definition first_position {X} (x : list (list X)) : result (list X) :=
  mapM (fun row => match row !! 0 with Some v => Ok v | None => Raise IndexError end) x.

Definition forward (h : heap A) (m : t) (word_hidden_states : list (list (list A)))
  : result (list (list A)) :=
  pooled_output ← first_position word_hidden_states;
  pooled_output ← mapM (Linear.forward h (dense m)) pooled_output;
  Ok (map (map ftanh) pooled_output).

End Defs.
End Pooler.

(** ** [PredictionHeadTransform] *)

Module PredictionHeadTransform.
Section Defs.
Context {A : Type} `{!Scalar A}.

Record t := { dense : Linear.t; LayerNorm : LayerNorm.t A }.

Definition init (config : LukeConfig.t A) (out_hidden_size : option nat) : ctor A t :=
  let out_hidden_size := default (LukeConfig.hidden_size config) out_hidden_size in
  d ← Linear.init (LukeConfig.hidden_size config) out_hidden_size true;
  ln ← LayerNorm.init out_hidden_size lit_1e_12;
  mret {| dense := d; LayerNorm := ln |}.

Definition modules (m : t) : pymodule :=
  PyModule KOther []
    [("dense", Linear.modules (dense m)); ("LayerNorm", LayerNorm.modules (LayerNorm m))].

Definition forward (h : heap A) (m : t) (hidden_states : list (list A))
  : result (list (list A)) :=
  hidden_states ← mapM (Linear.forward h (dense m)) hidden_states;
  let hidden_states := map (map gelu) hidden_states in
  mapM (LayerNorm.forward h (LayerNorm m)) hidden_states.

End Defs.
Arguments t : clear implicits.
End PredictionHeadTransform.

(** [w.size(0)] and [w.size(1)] of the parameter stored at [r]. *)
Definition param_size {A} (r : ref) (i : nat) : ctor A nat :=
  o ← read r;
  match shape (default (Vec []) o) !! i with
  | Some n => mret n
  | None => throw IndexError
  end.

(** ** [LMPredictionHead] *)

Module LMPredictionHead.
Section Defs.
Context {A : Type} `{!Scalar A}.

Record t := { transform : PredictionHeadTransform.t A; decoder : Linear.t; bias : ref }.

(** The decoder is built with a weight of its own, which the assignment
    [self.decoder.weight = word_embedding_weights] then replaces by the
    parameter of the embedding. *)
Definition init (config : LukeConfig.t A) (word_embedding_weights : ref) : ctor A t :=
  tr ← PredictionHeadTransform.init config None;
  size1 ← param_size word_embedding_weights 1;
  size0 ← param_size word_embedding_weights 0;
  d ← Linear.init size1 size0 false;
  let d := {| Linear.in_features := Linear.in_features d;
              Linear.out_features := Linear.out_features d;
              Linear.weight := word_embedding_weights;
              Linear.bias := Linear.bias d |} in
  b ← alloc (Vec (replicate size0 (of_Z 0)));
  mret {| transform := tr; decoder := d; bias := b |}.

Definition modules (m : t) : pymodule :=
  PyModule KOther [("bias", Some (bias m))]
    [("transform", PredictionHeadTransform.modules (transform m));
     ("decoder", Linear.modules (decoder m))].

Definition forward (h : heap A) (m : t) (hidden_states : list (list A))
  : result (list (list A)) :=
  hidden_states ← PredictionHeadTransform.forward h (transform m) hidden_states;
  hidden_states ← mapM (Linear.forward h (decoder m)) hidden_states;
  mapM (fun row => vzip fadd row (hvec h (bias m))) hidden_states.

End Defs.
Arguments t : clear implicits.
End LMPredictionHead.

(** ** [EntityPredictionHead] *)

Module EntityPredictionHead.
Section Defs.
Context {A : Type} `{!Scalar A}.

Record t := { transform : PredictionHeadTransform.t A; decoder : Linear.t; bias : ref }.

Definition init (config : LukeConfig.t A) (entity_embedding_weights : ref) : ctor A t :=
  size1 ← param_size entity_embedding_weights 1;
  tr ← PredictionHeadTransform.init config (Some size1);
  size0 ← param_size entity_embedding_weights 0;
  d ← Linear.init size1 size0 false;
  let d := {| Linear.in_features := Linear.in_features d;
              Linear.out_features := Linear.out_features d;
              Linear.weight := entity_embedding_weights;
              Linear.bias := Linear.bias d |} in
  b ← alloc (Vec (replicate size0 (of_Z 0)));
  mret {| transform := tr; decoder := d; bias := b |}.

Definition modules (m : t) : pymodule :=
  PyModule KOther [("bias", Some (bias m))]
    [("transform", PredictionHeadTransform.modules (transform m));
     ("decoder", Linear.modules (decoder m))].

Definition forward (h : heap A) (m : t) (hidden_states : list (list A))
  : result (list (list A)) :=
  hidden_states ← PredictionHeadTransform.forward h (transform m) hidden_states;
  hidden_states ← mapM (Linear.forward h (decoder m)) hidden_states;
  mapM (fun row => vzip fadd row (hvec h (bias m))) hidden_states.

End Defs.
Arguments t : clear implicits.
End EntityPredictionHead.

(** ** [BertPreTrainingHeads] *)

Module BertPreTrainingHeads.
Section Defs.
Context {A : Type} `{!Scalar A}.

Record t := { predictions : LMPredictionHead.t A; seq_relationship : Linear.t }.

Definition init (config : LukeConfig.t A) (bert_model_embedding_weights : ref) : ctor A t :=
  p ← LMPredictionHead.init config bert_model_embedding_weights;
  s ← Linear.init (LukeConfig.hidden_size config) 2 true;
  mret {| predictions := p; seq_relationship := s |}.

Definition modules (m : t) : pymodule :=
  PyModule KOther []
    [("predictions", LMPredictionHead.modules (predictions m));
     ("seq_relationship", Linear.modules (seq_relationship m))].

Definition forward (h : heap A) (m : t)
    (sequence_output pooled_output : list (list A))
  : result (list (list A) * list (list A)) :=
  prediction_scores ← LMPredictionHead.forward h (predictions m) sequence_output;
  seq_relationship_score ← mapM (Linear.forward h (seq_relationship m)) pooled_output;
  Ok (prediction_scores, seq_relationship_score).

End Defs.
Arguments t : clear implicits.
End BertPreTrainingHeads.

(** ** Strings of Python *)

(** [s.replace(old, new)] for a non-empty [old]: the occurrences of [old]
    from left to right, without overlap.  [skip] counts the characters of an
    occurrence that are still to be passed over. *)
Fixpoint replace_from (old new : string) (skip : nat) (s : string) : string :=
  match s with
  | EmptyString => EmptyString
  | String c s' =>
      match skip with
      | S k => replace_from old new k s'
      | O =>
          if String.prefix old s
          then new +:+ replace_from old new (String.length old - 1) s'
          else String c (replace_from old new 0 s')
      end
  end.

Definition replace (old new s : string) : string := replace_from old new 0 s.

(** [s[n:]] *)
Fixpoint str_drop (n : nat) (s : string) : string :=
  match n, s with
  | S n', String _ s' => str_drop n' s'
  | _, _ => s
  end.

(** [s.split('.', 1)[0]] *)
Fixpoint first_component (s : string) : string :=
  match s with
  | EmptyString => EmptyString
  | String c s' => if Ascii.eqb c "." then EmptyString else String c (first_component s')
  end.

(** [sorted] on strings. *)
Fixpoint insert_sorted (x : string) (l : list string) : list string :=
  match l with
  | [] => [x]
  | y :: l' => if String.leb x y then x :: l else y :: insert_sorted x l'
  end.

Definition sorted (l : list string) : list string := foldr insert_sorted [] l.

(** ** [LukeModel] *)

Module LukeModel.
Section Defs.
Context {A : Type} `{!Scalar A}.

Record t := {
  config : LukeConfig.t A;
  encoder : Encoder.t A;
  pooler : Pooler.t;
  embeddings : WordEmbeddings.t A;
  entity_embeddings : EntityEmbeddings.t A;
}.

Definition init (config : LukeConfig.t A) : ctor A t :=
  enc ← Encoder.init config;
  po ← Pooler.init config;
  emb ← WordEmbeddings.init config;
  ent ← EntityEmbeddings.init config;
  mret {| config := config; encoder := enc; pooler := po; embeddings := emb;
          entity_embeddings := ent |}.

Definition modules (m : t) : pymodule :=
  PyModule KOther []
    [("encoder", Encoder.modules (encoder m));
     ("pooler", Pooler.modules (pooler m));
     ("embeddings", WordEmbeddings.modules (embeddings m));
     ("entity_embeddings", EntityEmbeddings.modules (entity_embeddings m))].

(** The additive attention mask, as the (batch, length) rows of the tensor
    of shape (batch, 1, 1, length). *)
Definition extended_attention_mask (word_attention_mask entity_attention_mask : list (list Z))
  : result (list (list A)) :=
  attention_mask ← zipM (fun w e => Ok (w ++ e)) word_attention_mask entity_attention_mask;
  let extended_attention_mask := map (map of_Z) attention_mask in
  Ok (map (map (fun v => ((of_Z 1 - v) * of_Z (-10000))%fl)) extended_attention_mask).

(** What [forward] returns as [encoded_layers]: the list of every layer's
    pair, or the last pair alone. *)
Inductive encoded_layers :=
| AllLayers (l : list (@Encoder.streams A))
| LastLayer (p : @Encoder.streams A).

Definition forward (h : heap A) (m : t) (md : mode A)
    (word_ids : list (list Z)) (word_segment_ids : option (list (list Z)))
    (word_attention_mask : list (list Z))
    (entity_ids : list (list Z)) (entity_position_ids : list (list (list Z)))
    (entity_segment_ids : option (list (list Z)))
    (entity_attention_mask : list (list Z))
    (output_all_encoded_layers : bool)
  : result (encoded_layers * list (list A)) :=
  extended_attention_mask ← extended_attention_mask word_attention_mask entity_attention_mask;
  word_embedding_output ←
    WordEmbeddings.forward h (embeddings m) (at_site 0 md) word_ids word_segment_ids;
  entity_embedding_output ←
    EntityEmbeddings.forward h (entity_embeddings m) (at_site 1 md) entity_ids
                             entity_position_ids entity_segment_ids;
  encoded_layers ←
    Encoder.forward h (encoder m) (at_site 2 md) word_embedding_output
                    entity_embedding_output extended_attention_mask
                    output_all_encoded_layers;
  match last encoded_layers with
  | None => Raise IndexError
  | Some final =>
      let word_sequence_output := final.1 in
      pooled_output ← Pooler.forward h (pooler m) word_sequence_output;
      Ok (if output_all_encoded_layers then AllLayers encoded_layers else LastLayer final,
          pooled_output)
  end.

(** A call of [forward] by keyword: [None] is an argument that the caller
    does not pass, [Some None] a segment-id argument passed as [None].
    [forward] has a default for [output_all_encoded_layers] only, so Python
    rejects a call that leaves any other parameter without argument. *)
Record call_args := {
  word_ids : option (list (list Z));
  word_segment_ids : option (option (list (list Z)));
  word_attention_mask : option (list (list Z));
  entity_ids : option (list (list Z));
  entity_position_ids : option (list (list (list Z)));
  entity_segment_ids : option (option (list (list Z)));
  entity_attention_mask : option (list (list Z));
  output_all_encoded_layers : option bool;
}.

Definition call (h : heap A) (m : t) (md : mode A) (a : call_args)
  : result (encoded_layers * list (list A)) :=
  match word_ids a, word_segment_ids a, word_attention_mask a, entity_ids a,
        entity_position_ids a, entity_segment_ids a, entity_attention_mask a with
  | Some wi, Some ws, Some wm, Some ei, Some ep, Some es, Some em =>
      forward h m md wi ws wm ei ep es em (default true (output_all_encoded_layers a))
  | _, _, _, _, _, _, _ => Raise TypeError
  end.

(** [init_weights], on the view of a module. *)
Definition init_weights (module : pymodule) : ctor A unit :=
  let 'PyModule k ps _ := module in
  _ ← match k with
      | KLinear | KEmbedding =>
          match dict_get ps "weight" with
          | Some (Some w) => normal_ w
          | _ => mret tt
          end
      | KLayerNorm =>
          _ ← match dict_get ps "bias" with
              | Some (Some b) => fill_ b (of_Z 0)
              | _ => mret tt
              end;
          match dict_get ps "weight" with
          | Some (Some w) => fill_ w (of_Z 1)
          | _ => mret tt
          end
      | KOther => mret tt
      end;
  match k with
  | KLinear =>
      match dict_get ps "bias" with
      | Some (Some b) => fill_ b (of_Z 0)
      | _ => mret tt
      end
  | _ => mret tt
  end.

(** [nn.Module.apply]: the children first, then the module itself. *)
Fixpoint apply (fn : pymodule → ctor A unit) (module : pymodule) : ctor A unit :=
  let 'PyModule _ _ ms := module in
  _ ← (fix children (ms : list (string * pymodule)) : ctor A unit :=
         match ms with
         | [] => mret tt
         | (_, c) :: ms' => _ ← apply fn c; children ms'
         end) ms;
  fn module.

(** *** [load_bert_weights] *)

(** The renamed key of a checkpoint key. *)
Definition new_key (key : string) : string :=
  let new_key := replace "beta" "bias" (replace "gamma" "weight" key) in
  if String.prefix "bert." new_key then str_drop 5 new_key else new_key.

(** One turn of the loop over [list(state_dict.keys())]. *)
Definition rename_key (state_dict : dict (tensor A)) (key : string)
  : result (dict (tensor A)) :=
  let new_key := new_key key in
  if decide (key ≠ new_key) then
    match dict_get state_dict key with
    | Some v => Ok (dict_del (dict_set state_dict new_key v) key)
    | None => Raise KeyError
    end
  else Ok state_dict.

Fixpoint rename_loop (keys : list string) (state_dict : dict (tensor A))
  : result (dict (tensor A)) :=
  match keys with
  | [] => Ok state_dict
  | key :: keys' => sd ← rename_key state_dict key; rename_loop keys' sd
  end.

Definition rename_keys (state_dict : dict (tensor A)) : result (dict (tensor A)) :=
  rename_loop (dict_keys state_dict) state_dict.

(** The parameters and the three lists that loading updates. *)
Record load_state := {
  params : heap A;
  missing_keys : list string;
  unexpected_keys : list string;
  error_msgs : list string;
}.

(** PyTorch's [Module._load_from_state_dict] with [strict=True], for a
    module without buffers: a parameter whose key is in the checkpoint is
    overwritten in place when the shapes agree (a mismatch is an error
    message), one whose key is absent is missing; a key under the prefix
    whose next component names neither a child nor a parameter of the
    module is unexpected. *)
Definition load_param (state_dict : dict (tensor A)) (prefix : string)
    (st : load_state) (p : string * ref) : load_state :=
  let key := prefix +:+ p.1 in
  match dict_get state_dict key with
  | Some input_param =>
      if decide (Some (shape input_param) = shape <$> (params st !! p.2))
      then {| params := hwrite (params st) p.2 input_param;
              missing_keys := missing_keys st;
              unexpected_keys := unexpected_keys st;
              error_msgs := error_msgs st |}
      else {| params := params st;
              missing_keys := missing_keys st;
              unexpected_keys := unexpected_keys st;
              error_msgs := error_msgs st ++ [key] |}
  | None =>
      {| params := params st;
         missing_keys := missing_keys st ++ [key];
         unexpected_keys := unexpected_keys st;
         error_msgs := error_msgs st |}
  end.

Definition is_unexpected (module : pymodule) (prefix key : string) : bool :=
  String.prefix prefix key &&
  (let input_name := first_component (str_drop (String.length prefix) key) in
   negb (bool_decide (input_name ∈ dict_keys (mod_modules module))) &&
   negb (bool_decide (input_name ∈ dict_keys (local_params (mod_parameters module))))).

Definition _load_from_state_dict (module : pymodule) (state_dict : dict (tensor A))
    (prefix : string) (st : load_state) : load_state :=
  let st := foldl (load_param state_dict prefix) st (local_params (mod_parameters module)) in
  {| params := params st;
     missing_keys := missing_keys st;
     unexpected_keys :=
       unexpected_keys st ++
       List.filter (is_unexpected module prefix) (dict_keys state_dict);
     error_msgs := error_msgs st |}.

(** The inner function [load]. *)
Fixpoint load (state_dict : dict (tensor A)) (module : pymodule) (prefix : string)
    (st : load_state) : load_state :=
  let st := _load_from_state_dict module state_dict prefix st in
  (fix children (ms : list (string * pymodule)) (st : load_state) : load_state :=
     match ms with
     | [] => st
     | (name, child) :: ms' =>
         children ms' (load state_dict child (prefix +:+ name +:+ ".") st)
     end) (mod_modules module) st.

(** [load_bert_weights] on the view [self] of the model: the heap after
    loading, the final lists, and the lines that were logged (each the
    sorted list of keys of one message). *)
Definition load_bert_weights (self : pymodule) (h : heap A) (state_dict : dict (tensor A))
  : result (load_state * list (list string)) :=
  state_dict ← rename_keys state_dict;
  let st := load state_dict self ""
                 {| params := h; missing_keys := []; unexpected_keys := [];
                    error_msgs := [] |} in
  Ok (st, if decide (0 < length (unexpected_keys st)) then [sorted (unexpected_keys st)]
          else []).

End Defs.
Arguments t : clear implicits.
Arguments encoded_layers : clear implicits.
Arguments load_state : clear implicits.
End LukeModel.

(** ** [CrossEntropyLoss] and [masked_select] *)

Section Loss.
Context {A : Type} `{!Scalar A}.

(** The term of one row, [None] for the ignored label [-1]: minus the
    logarithm of the softmax probability of the label. *)
Definition nll_row (x : list A) (label : Z) : result (option A) :=
  if decide (label = (-1)%Z) then Ok None
  else if decide (0 ≤ label < Z.of_nat (length x))%Z then
    match x !! Z.to_nat label with
    | Some xc => Ok (Some (of_Z 0 - (xc - flog (vsum (map fexp x))))%fl)
    | None => Raise IndexError
    end
  else Raise IndexError.

(** [CrossEntropyLoss(ignore_index=-1)]: the mean of the terms of the rows
    that are not ignored. *)
Definition loss_fn (scores : list (list A)) (labels : list Z) : result A :=
  if decide (length scores = length labels) then
    terms ← mapM (fun xl => nll_row xl.1 xl.2) (zip scores labels);
    let kept := omap (fun o => o) terms in
    Ok (vsum kept / of_Z (Z.of_nat (length kept)))%fl
  else Raise ValueError.

(** [(torch.argmax(scores, 1).data == labels.data).sum()] *)
Definition count_correct (scores : list (list A)) (labels : list Z) : result Z :=
  predicted ← mapM argmax scores;
  hits ← zipM (fun p l => Ok (bool_decide (Z.of_nat p = l))) predicted labels;
  Ok (Z.of_nat (length (List.filter (fun b : bool => b) hits))).

(** [torch.masked_select(x, mask)] for [x] and [mask] of shape (batch, n):
    the selected entries in row-major order. *)
Definition masked_select2 {X} (x : list (list X)) (mask : list (list bool))
  : result (list X) :=
  rows ← zipM (zipM (fun v (b : bool) => Ok (if b then [v] else []))) x mask;
  Ok (concat (concat rows)).

(** [torch.masked_select(x, mask.unsqueeze(-1))] for [x] of shape
    (batch, n, hidden): every entry of a selected position. *)
Definition masked_select3 (x : list (list (list A))) (mask : list (list bool))
  : result (list A) :=
  rows ← masked_select2 x mask;
  Ok (concat rows).

End Loss.

(** ** [LukePretrainingModel] *)

Module LukePretrainingModel.
Section Defs.
Context {A : Type} `{!Scalar A}.

(** The fields of [LukeModel], which the class extends, are those of [base]. *)
Record t := {
  base : LukeModel.t A;
  cls : BertPreTrainingHeads.t A;
  entity_predictions : EntityPredictionHead.t A;
}.

Definition modules (m : t) : pymodule :=
  PyModule KOther []
    (mod_modules (LukeModel.modules (base m)) ++
     [("cls", BertPreTrainingHeads.modules (cls m));
      ("entity_predictions", EntityPredictionHead.modules (entity_predictions m))]).

Definition init (config : LukeConfig.t A) : ctor A t :=
  b ← LukeModel.init config;
  c ← BertPreTrainingHeads.init config
        (Embedding.weight (WordEmbeddings.word_embeddings (LukeModel.embeddings b)));
  e ← EntityPredictionHead.init config
        (Embedding.weight (EntityEmbeddings.entity_embeddings (LukeModel.entity_embeddings b)));
  let m := {| base := b; cls := c; entity_predictions := e |} in
  _ ← LukeModel.apply LukeModel.init_weights (modules m);
  mret m.

(** *** The result of [forward]

    [ret] maps a key to [None] or to a tensor object; the objects live in
    [objs], so two keys bound to one object see one value, and [+=] on a
    tensor updates the object in place. *)
Inductive obj :=
| Float (a : A)
| Long (z : Z).

Record out := { ret : dict (option ref); objs : list obj }.

Definition new_obj (o : obj) (st : out) : ref * out :=
  (length (objs st), {| ret := ret st; objs := objs st ++ [o] |}).

(** [ret[k] = v] *)
Definition set_item (k : string) (v : option ref) (st : out) : out :=
  {| ret := dict_set (ret st) k v; objs := objs st |}.

(** [ret[k] = t] for a new tensor [t]. *)
Definition set_new (k : string) (o : obj) (st : out) : out :=
  let '(r, st) := new_obj o st in set_item k (Some r) st.

(** [if ret['loss'] is None: ret['loss'] = ret[k] else: ret['loss'] += ret[k]] *)
Definition accumulate_loss (k : string) (st : out) : result out :=
  match dict_get (ret st) "loss", dict_get (ret st) k with
  | Some None, Some v => Ok (set_item "loss" v st)
  | Some (Some r), Some (Some r') =>
      match objs st !! r, objs st !! r' with
      | Some (Float a), Some (Float b) =>
          Ok (set_item "loss" (Some r)
                {| ret := ret st; objs := <[r := Float (a + b)%fl]> (objs st) |})
      | _, _ => Raise TypeError
      end
  | _, _ => Raise KeyError
  end.

(** The value bound to a key, when it is a tensor. *)
Definition item (st : out) (k : string) : option obj :=
  match dict_get (ret st) k with
  | Some (Some r) => objs st !! r
  | _ => None
  end.

(** Loss, number of correct predictions and number of predictions of the
    masked positions of one stream: the statements that the masked-entity
    and the masked-word branches share, with the head, the hidden size and
    the vocabulary size of the branch. *)
Definition masked_scores (head : list (list A) → result (list (list A)))
    (hidden_size vocab_size : nat)
    (sequence_output : list (list (list A))) (labels : list (list Z))
  : result (list (list A) * list Z) :=
  let mask := map (map (fun l => bool_decide (l ≠ (-1)%Z))) labels in
  selected ← masked_select3 sequence_output mask;
  masked_sequence_output ← view_rows hidden_size selected;
  scores ← head masked_sequence_output;
  scores ← view_rows vocab_size (concat scores);
  labels ← masked_select2 labels mask;
  Ok (scores, labels).

Definition masked_prediction (head : list (list A) → result (list (list A)))
    (hidden_size vocab_size : nat)
    (sequence_output : list (list (list A))) (labels : list (list Z))
  : result (A * Z * Z) :=
  '(scores, labels) ← masked_scores head hidden_size vocab_size sequence_output labels;
  loss ← loss_fn scores labels;
  correct ← count_correct scores labels;
  let total := Z.of_nat (length (List.filter (fun l => bool_decide (l ≠ (-1)%Z)) labels)) in
  Ok (loss, correct, total).

Definition masked_entity (h : heap A) (m : t)
    (entity_sequence_output : list (list (list A))) (masked_entity_labels : list (list Z))
  : result (A * Z * Z) :=
  masked_prediction (EntityPredictionHead.forward h (entity_predictions m))
    (LukeConfig.hidden_size (LukeModel.config (base m)))
    (LukeConfig.entity_vocab_size (LukeModel.config (base m)))
    entity_sequence_output masked_entity_labels.

Definition masked_lm (h : heap A) (m : t)
    (word_sequence_output : list (list (list A))) (masked_lm_labels : list (list Z))
  : result (A * Z * Z) :=
  masked_prediction (LMPredictionHead.forward h (BertPreTrainingHeads.predictions (cls m)))
    (LukeConfig.hidden_size (LukeModel.config (base m)))
    (LukeConfig.vocab_size (LukeModel.config (base m)))
    word_sequence_output masked_lm_labels.

Definition nsp (h : heap A) (m : t) (batch_size : nat)
    (pooled_output : list (list A)) (is_random_next : list Z)
  : result (A * Z * Z) :=
  nsp_score ← mapM (Linear.forward h (BertPreTrainingHeads.seq_relationship (cls m)))
                   pooled_output;
  loss ← loss_fn nsp_score is_random_next;
  correct ← count_correct nsp_score is_random_next;
  Ok (loss, correct, Z.of_nat batch_size).

(** The three branches of [forward], on the outputs of the encoder. *)
Definition entity_branch (h : heap A) (m : t)
    (entity_sequence_output : list (list (list A)))
    (masked_entity_labels : option (list (list Z))) (st : out) : result out :=
  match masked_entity_labels with
  | None => Ok st
  | Some masked_entity_labels =>
      '(loss, correct, total) ← masked_entity h m entity_sequence_output masked_entity_labels;
      let st := set_new "masked_entity_loss" (Float loss) st in
      let st := set_new "masked_entity_correct" (Long correct) st in
      let st := set_new "masked_entity_total" (Long total) st in
      match dict_get (ret st) "masked_entity_loss" with
      | Some v => Ok (set_item "loss" v st)
      | None => Raise KeyError
      end
  end.

Definition lm_branch (h : heap A) (m : t)
    (word_sequence_output : list (list (list A)))
    (masked_lm_labels : option (list (list Z))) (st : out) : result out :=
  match masked_lm_labels with
  | None => Ok st
  | Some masked_lm_labels =>
      '(loss, correct, total) ← masked_lm h m word_sequence_output masked_lm_labels;
      let st := set_new "masked_lm_loss" (Float loss) st in
      let st := set_new "masked_lm_correct" (Long correct) st in
      let st := set_new "masked_lm_total" (Long total) st in
      accumulate_loss "masked_lm_loss" st
  end.

Definition nsp_branch (h : heap A) (m : t) (batch_size : nat)
    (pooled_output : list (list A)) (is_random_next : option (list Z)) (st : out)
  : result out :=
  match is_random_next with
  | None => Ok st
  | Some is_random_next =>
      '(loss, correct, total) ← nsp h m batch_size pooled_output is_random_next;
      let st := set_new "nsp_loss" (Float loss) st in
      let st := set_new "nsp_correct" (Long correct) st in
      let st := set_new "nsp_total" (Long total) st in
      accumulate_loss "nsp_loss" st
  end.

Definition forward (h : heap A) (m : t) (md : mode A)
    (word_ids : list (list Z)) (word_segment_ids : option (list (list Z)))
    (word_attention_mask : list (list Z))
    (entity_ids : list (list Z)) (entity_position_ids : list (list (list Z)))
    (entity_segment_ids : option (list (list Z)))
    (entity_attention_mask : list (list Z))
    (masked_entity_labels masked_lm_labels : option (list (list Z)))
    (is_random_next : option (list Z))
  : result out :=
  '(encoded_layers, pooled_output) ←
    LukeModel.forward h (base m) md word_ids word_segment_ids word_attention_mask
                      entity_ids entity_position_ids entity_segment_ids
                      entity_attention_mask false;
  match encoded_layers with
  | LukeModel.AllLayers _ => Raise TypeError
  | LukeModel.LastLayer (word_sequence_output, entity_sequence_output) =>
      let st := {| ret := [("loss", None)]; objs := [] |} in
      st ← entity_branch h m entity_sequence_output masked_entity_labels st;
      st ← lm_branch h m word_sequence_output masked_lm_labels st;
      nsp_branch h m (length word_ids) pooled_output is_random_next st
  end.

End Defs.
Arguments t : clear implicits.
Arguments obj : clear implicits.
Arguments out : clear implicits.
End LukePretrainingModel.

(** ** [LukeSentenceEmbedding] of the BUCC evaluator *)

Module LukeSentenceEmbedding.
Section Defs.
Context {A : Type} `{!Scalar A}.

Record t := { luke_model : LukePretrainingModel.t A }.

(** [tokens["tokens"]] *)
Record input_dict := {
  token_ids : list (list Z);
  type_ids : list (list Z);
  mask : list (list Z);
}.

(** [super(type(self.luke_model), self.luke_model).forward] is the
    [forward] of the class that [LukePretrainingModel] extends; a list, the
    first component of what it returns by default, cannot be indexed by
    [[:, 0]]. *)
Definition forward (h : heap A) (m : t) (md : mode A) (tokens : input_dict)
  : result (list (list A)) :=
  r ← LukeModel.call h (LukePretrainingModel.base (luke_model m)) md
        {| LukeModel.word_ids := Some (token_ids tokens);
           LukeModel.word_segment_ids := Some (Some (type_ids tokens));
           LukeModel.word_attention_mask := Some (mask tokens);
           LukeModel.entity_ids := None;
           LukeModel.entity_position_ids := None;
           LukeModel.entity_segment_ids := None;
           LukeModel.entity_attention_mask := None;
           LukeModel.output_all_encoded_layers := None |};
  match r.1 with
  | LukeModel.AllLayers _ => Raise TypeError
  | LukeModel.LastLayer _ => Raise TypeError
  end.

End Defs.
Arguments t : clear implicits.
End LukeSentenceEmbedding.

(** ** Well-shaped tensors and parameters

    The shapes that PyTorch checks at run time, as predicates: the
    hypotheses of the statements about [forward]. *)

Definition is_mat {X} (n k : nat) (x : list (list X)) : Prop :=
  length x = n ∧ Forall (fun r => length r = k) x.

Definition is_t3 {X} (b n k : nat) (x : list (list (list X))) : Prop :=
  length x = b ∧ Forall (is_mat n k) x.

(** Every index of [ids] is an index of a table of [n] rows. *)
Definition in_range (n : nat) (ids : list (list Z)) : Prop :=
  Forall (Forall (fun i => (0 ≤ i < Z.of_nat n)%Z)) ids.

Section Wf.
Context {A : Type} `{!Scalar A}.

Definition Linear_wf (h : heap A) (i o : nat) (l : Linear.t) : Prop :=
  Linear.in_features l = i ∧ Linear.out_features l = o ∧
  is_mat o i (hmat h (Linear.weight l)) ∧
  match Linear.bias l with
  | Some b => length (hvec h b) = o
  | None => True
  end.

Definition LayerNorm_wf (h : heap A) (n : nat) (m : LayerNorm.t A) : Prop :=
  length (hvec h (LayerNorm.weight m)) = n ∧ length (hvec h (LayerNorm.bias m)) = n.

Definition Embedding_wf (h : heap A) (n d : nat) (m : Embedding.t) : Prop :=
  Embedding.num_embeddings m = n ∧ Embedding.embedding_dim m = d ∧
  is_mat n d (hmat h (Embedding.weight m)).

Definition WordEmbeddings_wf (h : heap A) (c : LukeConfig.t A) (m : WordEmbeddings.t A) : Prop :=
  Embedding_wf h (LukeConfig.vocab_size c) (LukeConfig.hidden_size c)
               (WordEmbeddings.word_embeddings m) ∧
  Embedding_wf h (LukeConfig.max_position_embeddings c) (LukeConfig.hidden_size c)
               (WordEmbeddings.position_embeddings m) ∧
  Embedding_wf h (LukeConfig.type_vocab_size c) (LukeConfig.hidden_size c)
               (WordEmbeddings.token_type_embeddings m) ∧
  LayerNorm_wf h (LukeConfig.hidden_size c) (WordEmbeddings.LayerNorm m).

Definition EntityEmbeddings_wf (h : heap A) (c : LukeConfig.t A) (m : EntityEmbeddings.t A)
  : Prop :=
  LukeConfig.entity_emb_size (EntityEmbeddings.config m) = LukeConfig.entity_emb_size c ∧
  LukeConfig.hidden_size (EntityEmbeddings.config m) = LukeConfig.hidden_size c ∧
  Embedding_wf h (LukeConfig.entity_vocab_size c) (LukeConfig.entity_emb_size c)
               (EntityEmbeddings.entity_embeddings m) ∧
  Embedding_wf h (LukeConfig.max_position_embeddings c) (LukeConfig.hidden_size c)
               (EntityEmbeddings.position_embeddings m) ∧
  Embedding_wf h (LukeConfig.type_vocab_size c) (LukeConfig.hidden_size c)
               (EntityEmbeddings.token_type_embeddings m) ∧
  match EntityEmbeddings.entity_dense m with
  | Some d => Linear_wf h (LukeConfig.entity_emb_size c) (LukeConfig.hidden_size c) d
  | None => LukeConfig.entity_emb_size c = LukeConfig.hidden_size c
  end ∧
  LayerNorm_wf h (LukeConfig.hidden_size c) (EntityEmbeddings.LayerNorm m).

Definition SelfAttention_wf (h : heap A) (hidden : nat) (m : SelfAttention.t A) : Prop :=
  SelfAttention.all_head_size m =
    SelfAttention.num_attention_heads m * SelfAttention.attention_head_size m ∧
  Linear_wf h hidden (SelfAttention.all_head_size m) (SelfAttention.query m) ∧
  Linear_wf h hidden (SelfAttention.all_head_size m) (SelfAttention.key m) ∧
  Linear_wf h hidden (SelfAttention.all_head_size m) (SelfAttention.value m).

Definition SelfOutput_wf (h : heap A) (hidden : nat) (m : SelfOutput.t A) : Prop :=
  Linear_wf h hidden hidden (SelfOutput.dense m) ∧
  LayerNorm_wf h hidden (SelfOutput.LayerNorm m).

(** The heads fill the hidden size: [hidden_size % num_attention_heads == 0]. *)
Definition Attention_wf (h : heap A) (hidden : nat) (m : Attention.t A) : Prop :=
  SelfAttention_wf h hidden (Attention.self m) ∧
  SelfAttention.all_head_size (Attention.self m) = hidden ∧
  SelfOutput_wf h hidden (Attention.output m).

Definition Layer_wf (h : heap A) (hidden : nat) (m : Layer.t A) : Prop :=
  Attention_wf h hidden (Layer.attention m) ∧
  Linear_wf h hidden (Linear.out_features (Intermediate.dense (Layer.intermediate m)))
            (Intermediate.dense (Layer.intermediate m)) ∧
  Linear_wf h (Linear.out_features (Intermediate.dense (Layer.intermediate m))) hidden
            (Output.dense (Layer.output m)) ∧
  LayerNorm_wf h hidden (Output.LayerNorm (Layer.output m)).

Definition LukeModel_wf (h : heap A) (m : LukeModel.t A) : Prop :=
  let c := LukeModel.config m in
  Forall (Layer_wf h (LukeConfig.hidden_size c)) (Encoder.layer (LukeModel.encoder m)) ∧
  Linear_wf h (LukeConfig.hidden_size c) (LukeConfig.hidden_size c)
            (Pooler.dense (LukeModel.pooler m)) ∧
  WordEmbeddings_wf h c (LukeModel.embeddings m) ∧
  EntityEmbeddings_wf h c (LukeModel.entity_embeddings m).

End Wf.

(** Segment ids of shape (b, k): given with values below [n], or absent and
    then all zero. *)
Definition segment_ok (n b k : nat) (ids : list (list Z)) (seg : option (list (list Z)))
  : Prop :=
  match seg with
  | Some s => is_mat b k s ∧ in_range n s
  | None => k = 0 ∨ 0 < n
  end.

(** Position ids of shape (batch, entities, slots), each a position or [-1]. *)
Definition position_ok (n b e : nat) (pos : list (list (list Z))) : Prop :=
  is_mat b e pos ∧ Forall (Forall (Forall (fun p => (-1 ≤ p < Z.of_nat n)%Z))) pos.

(** The shapes of a (word, entity) pair and of what [LukeModel.forward]
    returns as encoded layers. *)
Definition streams_shape {A} (b w e hidden : nat) (p : @Encoder.streams A) : Prop :=
  is_t3 b w hidden p.1 ∧ is_t3 b e hidden p.2.

Definition encoded_shape {A} (output_all_encoded_layers : bool) (b w e hidden n : nat)
    (enc : LukeModel.encoded_layers A) : Prop :=
  match enc with
  | LukeModel.AllLayers l =>
      output_all_encoded_layers = true ∧ length l = n ∧
      Forall (streams_shape b w e hidden) l
  | LukeModel.LastLayer p =>
      output_all_encoded_layers = false ∧ streams_shape b w e hidden p
  end.

(** A computation returns a value that satisfies [P]. *)
Definition returns {T} (m : result T) (P : T → Prop) : Prop :=
  ∃ v, m = Ok v ∧ P v.

(** The layers applied one after the other, each to the pair that the
    previous one returned: the outputs of every layer, in order.  This is
    the specification of [Encoder.forward], in its own words. *)
Fixpoint apply_layers {A} `{!Scalar A} (h : heap A) (md : mode A)
    (layers : list (Layer.t A)) (k : nat) (hidden_states : Encoder.streams)
    (attention_mask : list (list A)) : result (list Encoder.streams) :=
  match layers with
  | [] => Ok []
  | layer_module :: layers' =>
      out ← Layer.forward h layer_module (at_site k md) hidden_states.1 hidden_states.2
                          attention_mask;
      outs ← apply_layers h md layers' (S k) out attention_mask;
      Ok (out :: outs)
  end.

(** Sum, mean and biased variance of a list of real numbers. *)
Definition Rsum (l : list R) : R := foldr Rplus 0%R l.
Definition mean (l : list R) : R := (Rsum l / INR (length l))%R.
Definition variance (l : list R) : R :=
  mean (map (fun x => ((x - mean l) * (x - mean l))%R) l).

(** ** A small attention block

    One head of size one over a hidden size of one: the query and the key
    projections are zero, so every score is zero, and the value projection
    is the identity. *)
Definition attention_1 : SelfAttention.t R :=
  {| SelfAttention.num_attention_heads := 1;
     SelfAttention.attention_head_size := 1;
     SelfAttention.all_head_size := 1;
     SelfAttention.query := {| Linear.in_features := 1; Linear.out_features := 1;
                               Linear.weight := 0; Linear.bias := Some 1 |};
     SelfAttention.key := {| Linear.in_features := 1; Linear.out_features := 1;
                             Linear.weight := 2; Linear.bias := Some 3 |};
     SelfAttention.value := {| Linear.in_features := 1; Linear.out_features := 1;
                               Linear.weight := 4; Linear.bias := Some 5 |};
     SelfAttention.dropout := {| Dropout.p := 0%R |} |}.

Definition attention_1_heap : heap R :=
  [Mat [[0%R]]; Vec [0%R]; Mat [[0%R]]; Vec [0%R]; Mat [[1%R]]; Vec [0%R]].

(** Evaluation mode: dropout is the identity. *)
Definition eval_mode : mode R := Mode false (fun _ => 1%R).

(** ** A layer normalisation of two features, with scale 1 and shift 0 *)
Definition layer_norm_2 : LayerNorm.t R :=
  {| LayerNorm.weight := 0; LayerNorm.bias := 1; LayerNorm.variance_epsilon := lit_1e_12 |}.

Definition layer_norm_2_heap : heap R := [Vec [1%R; 1%R]; Vec [0%R; 0%R]].

(** ** Position embeddings of an entity layer: three positions, two features *)
Definition entity_positions_3 : EntityEmbeddings.t R :=
  let emb n d r := {| Embedding.num_embeddings := n; Embedding.embedding_dim := d;
                      Embedding.padding_idx := None; Embedding.weight := r |} in
  {| EntityEmbeddings.config :=
       {| LukeConfig.vocab_size := 1; LukeConfig.entity_vocab_size := 1;
          LukeConfig.hidden_size := 2; LukeConfig.entity_emb_size := 2;
          LukeConfig.num_hidden_layers := 1; LukeConfig.num_attention_heads := 1;
          LukeConfig.intermediate_size := 2; LukeConfig.hidden_dropout_prob := 0%R;
          LukeConfig.attention_probs_dropout_prob := 0%R;
          LukeConfig.max_position_embeddings := 3; LukeConfig.type_vocab_size := 1;
          LukeConfig.initializer_range := 0%R |};
     EntityEmbeddings.entity_embeddings := emb 1 2 0;
     EntityEmbeddings.position_embeddings := emb 3 2 1;
     EntityEmbeddings.token_type_embeddings := emb 1 2 2;
     EntityEmbeddings.entity_dense := None;
     EntityEmbeddings.LayerNorm := {| LayerNorm.weight := 3; LayerNorm.bias := 4;
                                      LayerNorm.variance_epsilon := lit_1e_12 |};
     EntityEmbeddings.dropout := {| Dropout.p := 0%R |} |}.

Definition entity_positions_3_heap : heap R :=
  [Mat [[0%R; 0%R]]; Mat [[1%R; 2%R]; [3%R; 4%R]; [5%R; 6%R]]; Mat [[0%R; 0%R]];
   Vec [1%R; 1%R]; Vec [0%R; 0%R]].

(** The shape predicates are decidable: on concrete tensors and parameters
    they are settled by evaluation. *)
Section Decidable.
Context {A : Type} `{!Scalar A}.

#[global] Instance is_mat_dec {X} n k (x : list (list X)) : Decision (is_mat n k x).
Proof. unfold is_mat. apply _. Defined.

#[global] Instance is_t3_dec {X} b n k (x : list (list (list X))) : Decision (is_t3 b n k x).
Proof. unfold is_t3. apply _. Defined.

#[global] Instance in_range_dec n ids : Decision (in_range n ids).
Proof. unfold in_range. apply _. Defined.

#[global] Instance segment_ok_dec n b k ids seg : Decision (segment_ok n b k ids seg).
Proof. unfold segment_ok. destruct seg; apply _. Defined.

#[global] Instance position_ok_dec n b e pos : Decision (position_ok n b e pos).
Proof. unfold position_ok. apply _. Defined.

#[global] Instance Linear_wf_dec (h : heap A) i o l : Decision (Linear_wf h i o l).
Proof. unfold Linear_wf. destruct (Linear.bias l); apply _. Defined.

#[global] Instance LayerNorm_wf_dec (h : heap A) n m : Decision (LayerNorm_wf h n m).
Proof. unfold LayerNorm_wf. apply _. Defined.

#[global] Instance Embedding_wf_dec (h : heap A) n d m : Decision (Embedding_wf h n d m).
Proof. unfold Embedding_wf. apply _. Defined.

#[global] Instance WordEmbeddings_wf_dec (h : heap A) c m : Decision (WordEmbeddings_wf h c m).
Proof. unfold WordEmbeddings_wf. apply _. Defined.

#[global] Instance EntityEmbeddings_wf_dec (h : heap A) c m :
  Decision (EntityEmbeddings_wf h c m).
Proof. unfold EntityEmbeddings_wf. destruct (EntityEmbeddings.entity_dense m); apply _. Defined.

#[global] Instance SelfAttention_wf_dec (h : heap A) n m : Decision (SelfAttention_wf h n m).
Proof. unfold SelfAttention_wf. apply _. Defined.

#[global] Instance SelfOutput_wf_dec (h : heap A) n m : Decision (SelfOutput_wf h n m).
Proof. unfold SelfOutput_wf. apply _. Defined.

#[global] Instance Attention_wf_dec (h : heap A) n m : Decision (Attention_wf h n m).
Proof. unfold Attention_wf. apply _. Defined.

#[global] Instance Layer_wf_dec (h : heap A) n m : Decision (Layer_wf h n m).
Proof. unfold Layer_wf. apply _. Defined.

#[global] Instance LukeModel_wf_dec (h : heap A) m : Decision (LukeModel_wf h m).
Proof. unfold LukeModel_wf. apply _. Defined.

End Decidable.

(** ** A small model

    One layer, two heads over a hidden size of four, built by the
    constructors from a generator that counts. *)
Definition tiny_config : LukeConfig.t R :=
  {| LukeConfig.vocab_size := 5; LukeConfig.entity_vocab_size := 3;
     LukeConfig.hidden_size := 4; LukeConfig.entity_emb_size := 2;
     LukeConfig.num_hidden_layers := 1; LukeConfig.num_attention_heads := 2;
     LukeConfig.intermediate_size := 6; LukeConfig.hidden_dropout_prob := 0%R;
     LukeConfig.attention_probs_dropout_prob := 0%R;
     LukeConfig.max_position_embeddings := 8; LukeConfig.type_vocab_size := 2;
     LukeConfig.initializer_range := 1%R |}.

Definition tiny_state : pstate R := PState [] INR.

(** A batch of two sentences of three words. *)
Definition tiny_word_ids : list (list Z) := [[1; 2; 3]; [4; 0; 0]]%Z.
Definition tiny_type_ids : list (list Z) := [[0; 0; 1]; [0; 0; 0]]%Z.
Definition tiny_mask : list (list Z) := [[1; 1; 1]; [1; 0; 0]]%Z.

(** ** The prediction heads *)

(** The scores of one hidden state: transform, decoder, bias. *)
Definition head_row {A} `{!Scalar A} (h : heap A) (transform : PredictionHeadTransform.t A)
    (decoder : Linear.t) (bias : ref) (x : list A) : result (list A) :=
  x ← Linear.forward h (PredictionHeadTransform.dense transform) x;
  x ← LayerNorm.forward h (PredictionHeadTransform.LayerNorm transform) (map gelu x);
  x ← Linear.forward h decoder x;
  vzip fadd x (hvec h bias).

(** A head from [hidden] features to [vocab] scores, through [inner]
    features. *)
Definition head_wf {A} `{!Scalar A} (h : heap A) (hidden inner vocab : nat)
    (transform : PredictionHeadTransform.t A) (decoder : Linear.t) (bias : ref) : Prop :=
  Linear_wf h hidden inner (PredictionHeadTransform.dense transform) ∧
  LayerNorm_wf h inner (PredictionHeadTransform.LayerNorm transform) ∧
  Linear_wf h inner vocab decoder ∧
  length (hvec h bias) = vocab.

(** The masked positions of a stream in row-major order, each with its
    label and its hidden state. *)
Definition masked_positions {X} (labels : list (list Z)) (sequence_output : list (list X))
  : list (Z * X) :=
  filter (fun p => p.1 ≠ (-1)%Z) (zip (concat labels) (concat sequence_output)).

(** The number of entries of a label tensor different from [-1]. *)
Definition count_masked (labels : list (list Z)) : nat :=
  length (filter (fun l => l ≠ (-1)%Z) (concat labels)).

(** Labels of a vocabulary of [n] entries, or [-1]. *)
Definition labels_ok (n : nat) (labels : list (list Z)) : Prop :=
  Forall (Forall (fun l => (-1 ≤ l < Z.of_nat n)%Z)) labels.

(** The sum of the losses that are present, in the order of the branches;
    [None] when none is: the specification of the [loss] entry, in its own
    words. *)
Definition sum_present {A} `{!Scalar A} (losses : list (option A)) : option A :=
  foldl (fun acc l =>
           match acc, l with
           | Some a, Some b => Some (a + b)%fl
           | None, l => l
           | acc, None => acc
           end) None losses.

(** The state in which [forward] enters its branches. *)
Definition initial_out {A} : LukePretrainingModel.out A :=
  {| LukePretrainingModel.ret := [("loss", None)]; LukePretrainingModel.objs := [] |}.

(** What a branch computes for its labels: nothing when they are absent. *)
Definition branch_result {A L} (f : L → result (A * Z * Z)) (labels : option L)
    (r : option (A * Z * Z)) : Prop :=
  match labels, r with
  | None, None => True
  | Some l, Some v => f l = Ok v
  | _, _ => False
  end.

(** The [loss] entry of a state is [None] or a float. *)
Definition loss_ok {A} (st : LukePretrainingModel.out A) : Prop :=
  match dict_get (LukePretrainingModel.ret st) "loss" with
  | Some None => True
  | Some (Some r) => ∃ a, LukePretrainingModel.objs st !! r = Some (LukePretrainingModel.Float a)
  | None => False
  end.

(** The scores and the labels that a branch gathers are those of the masked
    positions, row by row: the [i]-th score row is [row] of the hidden state
    of the [i]-th masked position, whose label is the [i]-th gathered
    label, and there are [count_masked labels] of each. *)
Definition aligned {A} `{!Scalar A} (head : list (list A) → result (list (list A)))
    (row : list A → result (list A)) (hidden vocab : nat)
    (sequence_output : list (list (list A))) (labels : list (list Z)) : Prop :=
  ∃ scores,
    LukePretrainingModel.masked_scores head hidden vocab sequence_output labels
    = Ok (scores, map fst (masked_positions labels sequence_output)) ∧
    Forall2 (fun p s => row p.2 = Ok s) (masked_positions labels sequence_output) scores ∧
    length scores = count_masked labels ∧
    length (map fst (masked_positions labels sequence_output)) = count_masked labels.

Section DecidableHeads.
Context {A : Type} `{!Scalar A}.

#[global] Instance head_wf_dec (h : heap A) hidden inner vocab tr dec bias :
  Decision (head_wf h hidden inner vocab tr dec bias).
Proof. unfold head_wf. apply _. Defined.

#[global] Instance labels_ok_dec n labels : Decision (labels_ok n labels).
Proof. unfold labels_ok. apply _. Defined.

End DecidableHeads.

(** Hidden states of a batch of two sentences of one entity, and of three
    words, for [tiny_config]. *)
Definition tiny_entity_output : list (list (list R)) :=
  [[[1; 2; 3; 4]]; [[5; 6; 7; 8]]]%R.
Definition tiny_word_output : list (list (list R)) :=
  [[[1; 0; 0; 0]; [0; 1; 0; 0]; [0; 0; 1; 0]]; [[0; 0; 0; 1]; [1; 1; 0; 0]; [0; 0; 1; 1]]]%R.

(** The parameters of a pretraining model have the shapes that its
    configuration gives them. *)
Definition LukePretrainingModel_wf {A} `{!Scalar A} (h : heap A)
    (m : LukePretrainingModel.t A) : Prop :=
  let c := LukeModel.config (LukePretrainingModel.base m) in
  let ep := LukePretrainingModel.entity_predictions m in
  let lp := BertPreTrainingHeads.predictions (LukePretrainingModel.cls m) in
  LukeModel_wf h (LukePretrainingModel.base m) ∧
  head_wf h (LukeConfig.hidden_size c) (LukeConfig.entity_emb_size c)
          (LukeConfig.entity_vocab_size c) (EntityPredictionHead.transform ep)
          (EntityPredictionHead.decoder ep) (EntityPredictionHead.bias ep) ∧
  head_wf h (LukeConfig.hidden_size c) (LukeConfig.hidden_size c)
          (LukeConfig.vocab_size c) (LMPredictionHead.transform lp)
          (LMPredictionHead.decoder lp) (LMPredictionHead.bias lp) ∧
  Linear_wf h (LukeConfig.hidden_size c) 2
            (BertPreTrainingHeads.seq_relationship (LukePretrainingModel.cls m)) ∧
  0 < LukeConfig.hidden_size c ∧ 0 < LukeConfig.vocab_size c ∧
  0 < LukeConfig.entity_vocab_size c.

(** Labels of shape (b, k) over a vocabulary of [n] entries, when given. *)
Definition labels_shape (b k n : nat) (labels : option (list (list Z))) : Prop :=
  from_option (fun l => is_mat b k l ∧ labels_ok n l) True labels.

(** [is_random_next] of a batch of [b] sentences, when given. *)
Definition next_shape (b : nat) (is_random_next : option (list Z)) : Prop :=
  from_option (fun l => length l = b ∧ Forall (fun x => (-1 ≤ x < 2)%Z) l) True
              is_random_next.

(** The loss of a branch, when it ran. *)
Definition term {A} (r : option (A * Z * Z)) : option A := (fun v => v.1.1) <$> r.

Section DecidablePretraining.
Context {A : Type} `{!Scalar A}.

#[global] Instance LukePretrainingModel_wf_dec (h : heap A) m :
  Decision (LukePretrainingModel_wf h m).
Proof. unfold LukePretrainingModel_wf. apply _. Defined.

#[global] Instance labels_shape_dec b k n labels : Decision (labels_shape b k n labels).
Proof. unfold labels_shape. destruct labels; cbn; apply _. Defined.

#[global] Instance next_shape_dec b l : Decision (next_shape b l).
Proof. unfold next_shape. destruct l; cbn; apply _. Defined.

End DecidablePretraining.

(** One entity per sentence of the batch of [tiny_word_ids]. *)
Definition tiny_entity_ids : list (list Z) := [[1]; [2]]%Z.
Definition tiny_entity_position_ids : list (list (list Z)) := [[[0; 1]]; [[2; -1]]]%Z.
Definition tiny_entity_mask : list (list Z) := [[1]; [1]]%Z.

(** ** Construction

    A constructor never frees storage: the heap after it is at least as
    long as before. *)
Definition grows {A T} (c : ctor A T) : Prop :=
  ∀ s v s', c s = Ok (v, s') → length (cells s) ≤ length (cells s').

(** The structure of a module tree: kinds and names, without the storage
    of the parameters. *)
Fixpoint skeleton (m : pymodule) : pymodule :=
  let 'PyModule k ps ms := m in
  PyModule k (map (fun p => (p.1, (fun _ => 0) <$> p.2)) ps)
    ((fix children (ms : list (string * pymodule)) : list (string * pymodule) :=
        match ms with
        | [] => []
        | (name, c) :: ms' => (name, skeleton c) :: children ms'
        end) ms).

(** Every parameter of a module tree is stored at a reference of
    [lo, hi). *)
Definition within (lo hi : nat) (m : pymodule) : Prop :=
  Forall (fun r => lo ≤ r < hi) (parameters m).

(** The parameters of the modules of a list are stored in consecutive
    blocks of [lo, hi), in the order of the list. *)
Fixpoint separated (lo hi : nat) (ms : list pymodule) : Prop :=
  match ms with
  | [] => lo ≤ hi
  | m :: ms' => ∃ mid, lo ≤ mid ∧ within lo mid m ∧ separated mid hi ms'
  end.

(** [m'] is a deep copy of [m], made from state [s] to state [s']: the
    same structure, on storage allocated in between. *)
Definition copies {A T} (modules : T → pymodule) (m m' : T) (s s' : pstate A) : Prop :=
  length (cells s) ≤ length (cells s') ∧
  within (length (cells s)) (length (cells s')) (modules m') ∧
  skeleton (modules m') = skeleton (modules m).

(** [tiny_config] with two layers. *)
Definition two_layer_config : LukeConfig.t R :=
  {| LukeConfig.vocab_size := 5; LukeConfig.entity_vocab_size := 3;
     LukeConfig.hidden_size := 4; LukeConfig.entity_emb_size := 2;
     LukeConfig.num_hidden_layers := 2; LukeConfig.num_attention_heads := 2;
     LukeConfig.intermediate_size := 6; LukeConfig.hidden_dropout_prob := 0%R;
     LukeConfig.attention_probs_dropout_prob := 0%R;
     LukeConfig.max_position_embeddings := 8; LukeConfig.type_vocab_size := 2;
     LukeConfig.initializer_range := (2 / 100)%R |}.

(** ** Checkpoints

    The keys of a checkpoint that renaming keeps apart: no two keys are
    renamed to one, and no key is renamed to another key of the
    checkpoint. *)
Definition rename_safe (keys : list string) : Prop :=
  NoDup keys ∧ NoDup (map LukeModel.new_key keys) ∧
  Forall (fun k => LukeModel.new_key k = k ∨ LukeModel.new_key k ∉ keys) keys.

#[global] Instance rename_safe_dec keys : Decision (rename_safe keys).
Proof. unfold rename_safe. apply _. Defined.

(** The path of [key] leaves the module tree below [module], whose
    parameters are addressed under [prefix]: at [module] or at one of its
    descendants, the next component of the path names neither a child nor
    a parameter. *)
Inductive leaves : pymodule → string → string → Prop :=
| leaves_here module prefix key :
    LukeModel.is_unexpected module prefix key = true → leaves module prefix key
| leaves_child module prefix key name child :
    (name, child) ∈ mod_modules module →
    leaves child (prefix +:+ name +:+ ".") key → leaves module prefix key.

(** The state in which [load_bert_weights] starts to load. *)
Definition initial_load {A} (h : heap A) : LukeModel.load_state A :=
  {| LukeModel.params := h; LukeModel.missing_keys := [];
     LukeModel.unexpected_keys := []; LukeModel.error_msgs := [] |}.

(** A loading state without its unexpected keys. *)
Definition strip {A} (st : LukeModel.load_state A) : LukeModel.load_state A :=
  {| LukeModel.params := LukeModel.params st;
     LukeModel.missing_keys := LukeModel.missing_keys st;
     LukeModel.unexpected_keys := [];
     LukeModel.error_msgs := LukeModel.error_msgs st |}.

(** The parameters of a list of named parameters loaded one after the
    other, each under its full path. *)
Definition loaded {A} (state_dict : dict (tensor A)) (st : LukeModel.load_state A)
    (l : list (string * ref)) : LukeModel.load_state A :=
  foldl (LukeModel.load_param state_dict "") st l.

(** A checkpoint in the naming of BERT: a scale for the normalisation of
    the word embeddings of [tiny_config], and the bias of a head that
    [LukeModel] does not have. *)
Definition tiny_checkpoint : dict (tensor R) :=
  [("bert.embeddings.LayerNorm.gamma", Vec [7; 7; 7; 7]%R);
   ("cls.predictions.bias", Vec [0; 0; 0; 0; 0]%R)].

(** The row of a slot of an entity, after the clamp of its position. *)
Definition slot_row (h : heap R) (m : EntityEmbeddings.t R) (p : Z) : list R :=
  default [] (hmat h (Embedding.weight (EntityEmbeddings.position_embeddings m))
                !! Z.to_nat (Z.max p 0)).

(** The mask of the labels that are not ignored. *)
Definition label_mask (labels : list (list Z)) : list (list bool) :=
  map (map (fun l => bool_decide (l ≠ (-1)%Z))) labels.

(** ** Further fixtures and specifications *)

(** [tiny_config] without layers. *)
Definition no_layer_config : LukeConfig.t R :=
  {| LukeConfig.vocab_size := 5; LukeConfig.entity_vocab_size := 3;
     LukeConfig.hidden_size := 4; LukeConfig.entity_emb_size := 2;
     LukeConfig.num_hidden_layers := 0; LukeConfig.num_attention_heads := 2;
     LukeConfig.intermediate_size := 6; LukeConfig.hidden_dropout_prob := 0%R;
     LukeConfig.attention_probs_dropout_prob := 0%R;
     LukeConfig.max_position_embeddings := 8; LukeConfig.type_vocab_size := 2;
     LukeConfig.initializer_range := 1%R |}.

(** [tiny_config] without attention heads. *)
Definition no_head_config : LukeConfig.t R :=
  {| LukeConfig.vocab_size := 5; LukeConfig.entity_vocab_size := 3;
     LukeConfig.hidden_size := 4; LukeConfig.entity_emb_size := 2;
     LukeConfig.num_hidden_layers := 1; LukeConfig.num_attention_heads := 0;
     LukeConfig.intermediate_size := 6; LukeConfig.hidden_dropout_prob := 0%R;
     LukeConfig.attention_probs_dropout_prob := 0%R;
     LukeConfig.max_position_embeddings := 8; LukeConfig.type_vocab_size := 2;
     LukeConfig.initializer_range := 1%R |}.

(** [tiny_config] with a hidden size that its two heads do not divide. *)
Definition odd_hidden_config : LukeConfig.t R :=
  {| LukeConfig.vocab_size := 5; LukeConfig.entity_vocab_size := 3;
     LukeConfig.hidden_size := 5; LukeConfig.entity_emb_size := 2;
     LukeConfig.num_hidden_layers := 1; LukeConfig.num_attention_heads := 2;
     LukeConfig.intermediate_size := 6; LukeConfig.hidden_dropout_prob := 0%R;
     LukeConfig.attention_probs_dropout_prob := 0%R;
     LukeConfig.max_position_embeddings := 8; LukeConfig.type_vocab_size := 2;
     LukeConfig.initializer_range := 1%R |}.

(** An attention bias for the batch of [tiny_word_output] and
    [tiny_entity_output]: nothing is masked. *)
Definition tiny_bias : list (list R) := [[0; 0; 0; 0]; [0; 0; 0; 0]]%R.

(** A computation that returns or raises [e], and nothing else. *)
Definition raises_only {T} (e : error) (m : result T) : Prop :=
  ∀ e', m = Raise e' → e' = e.

(** The keys that a branch of [LukePretrainingModel.forward] adds to the
    mapping when its labels are present. *)
Definition branch_keys {T} (name : string) (r : option T) : list string :=
  match r with
  | Some _ => [name +:+ "_loss"; name +:+ "_correct"; name +:+ "_total"]
  | None => []
  end.

(** A pooled output for a batch of two sentences, for [tiny_config]. *)
Definition tiny_pooled_output : list (list R) := [[1; 0; 1; 0]; [0; 1; 0; 1]]%R.

(** [old in s] *)
Fixpoint contains (old s : string) : bool :=
  String.prefix old s ||
  match s with
  | EmptyString => false
  | String _ s' => contains old s'
  end.

(** [module.state_dict()] for a module without buffers: every parameter
    under its path, with the tensor that its storage holds. *)
Definition own_state {A} (self : pymodule) (h : heap A) : dict (tensor A) :=
  omap (fun p => t ← h !! p.2; Some (p.1, t)) (named_parameters "" self).

(** A checkpoint whose scale has two entries, where [tiny_config] has a
    hidden size of four. *)
Definition short_checkpoint : dict (tensor R) :=
  [("bert.embeddings.LayerNorm.gamma", Vec [7; 7]%R)].

(** ** Parameters as the constructors allocate them

    A reference that holds a matrix of a given shape, or a vector of a
    given length; a heap that keeps them as another has them; and what a
    constructor establishes: it returns, every allocated tensor keeps its
    shape, and the result satisfies a predicate in the final heap. *)
Section Built.
Context {A : Type} `{!Scalar A}.

Definition mat_at (h : heap A) (r : ref) (o i : nat) : Prop :=
  ∃ m, h !! r = Some (Mat m) ∧ is_mat o i m.

Definition vec_at (h : heap A) (r : ref) (n : nat) : Prop :=
  ∃ v, h !! r = Some (Vec v) ∧ length v = n.

Definition refines (h h' : heap A) : Prop :=
  (∀ (r : ref) o i, mat_at h r o i → mat_at h' r o i) ∧
  (∀ (r : ref) n, vec_at h r n → vec_at h' r n).

Definition triple {T} (P : heap A → Prop) (c : ctor A T) (Q : heap A → T → Prop) : Prop :=
  ∀ s, P (cells s) →
    ∃ v s', c s = Ok (v, s') ∧ refines (cells s) (cells s') ∧ Q (cells s') v.

Definition Linear_built (h : heap A) (i o : nat) (l : Linear.t) : Prop :=
  Linear.in_features l = i ∧ Linear.out_features l = o ∧
  mat_at h (Linear.weight l) o i ∧
  from_option (fun b => vec_at h b o) True (Linear.bias l).

Definition LayerNorm_built (h : heap A) (n : nat) (m : LayerNorm.t A) : Prop :=
  vec_at h (LayerNorm.weight m) n ∧ vec_at h (LayerNorm.bias m) n.

Definition Embedding_built (h : heap A) (n d : nat) (m : Embedding.t) : Prop :=
  Embedding.num_embeddings m = n ∧ Embedding.embedding_dim m = d ∧
  mat_at h (Embedding.weight m) n d.

Definition WordEmbeddings_built (h : heap A) (c : LukeConfig.t A) (m : WordEmbeddings.t A)
  : Prop :=
  Embedding_built h (LukeConfig.vocab_size c) (LukeConfig.hidden_size c)
                  (WordEmbeddings.word_embeddings m) ∧
  Embedding_built h (LukeConfig.max_position_embeddings c) (LukeConfig.hidden_size c)
                  (WordEmbeddings.position_embeddings m) ∧
  Embedding_built h (LukeConfig.type_vocab_size c) (LukeConfig.hidden_size c)
                  (WordEmbeddings.token_type_embeddings m) ∧
  LayerNorm_built h (LukeConfig.hidden_size c) (WordEmbeddings.LayerNorm m).

Definition EntityEmbeddings_built (h : heap A) (c : LukeConfig.t A)
    (m : EntityEmbeddings.t A) : Prop :=
  EntityEmbeddings.config m = c ∧
  Embedding_built h (LukeConfig.entity_vocab_size c) (LukeConfig.entity_emb_size c)
                  (EntityEmbeddings.entity_embeddings m) ∧
  Embedding_built h (LukeConfig.max_position_embeddings c) (LukeConfig.hidden_size c)
                  (EntityEmbeddings.position_embeddings m) ∧
  Embedding_built h (LukeConfig.type_vocab_size c) (LukeConfig.hidden_size c)
                  (EntityEmbeddings.token_type_embeddings m) ∧
  match EntityEmbeddings.entity_dense m with
  | Some d => LukeConfig.entity_emb_size c ≠ LukeConfig.hidden_size c ∧
              Linear_built h (LukeConfig.entity_emb_size c) (LukeConfig.hidden_size c) d
  | None => LukeConfig.entity_emb_size c = LukeConfig.hidden_size c
  end ∧
  LayerNorm_built h (LukeConfig.hidden_size c) (EntityEmbeddings.LayerNorm m).

Definition SelfAttention_built (h : heap A) (hidden heads : nat) (m : SelfAttention.t A)
  : Prop :=
  SelfAttention.num_attention_heads m = heads ∧
  SelfAttention.attention_head_size m = hidden / heads ∧
  SelfAttention.all_head_size m = heads * (hidden / heads) ∧
  Linear_built h hidden (heads * (hidden / heads)) (SelfAttention.query m) ∧
  Linear_built h hidden (heads * (hidden / heads)) (SelfAttention.key m) ∧
  Linear_built h hidden (heads * (hidden / heads)) (SelfAttention.value m).

Definition SelfOutput_built (h : heap A) (hidden : nat) (m : SelfOutput.t A) : Prop :=
  Linear_built h hidden hidden (SelfOutput.dense m) ∧
  LayerNorm_built h hidden (SelfOutput.LayerNorm m).

Definition Attention_built (h : heap A) (hidden heads : nat) (m : Attention.t A) : Prop :=
  SelfAttention_built h hidden heads (Attention.self m) ∧
  SelfOutput_built h hidden (Attention.output m).

Definition Layer_built (h : heap A) (hidden heads inter : nat) (m : Layer.t A) : Prop :=
  Attention_built h hidden heads (Layer.attention m) ∧
  Linear_built h hidden inter (Intermediate.dense (Layer.intermediate m)) ∧
  Linear_built h inter hidden (Output.dense (Layer.output m)) ∧
  LayerNorm_built h hidden (Output.LayerNorm (Layer.output m)).

Definition LukeModel_built (h : heap A) (c : LukeConfig.t A) (m : LukeModel.t A) : Prop :=
  LukeModel.config m = c ∧
  length (Encoder.layer (LukeModel.encoder m)) = LukeConfig.num_hidden_layers c ∧
  Forall (Layer_built h (LukeConfig.hidden_size c) (LukeConfig.num_attention_heads c)
                      (LukeConfig.intermediate_size c))
         (Encoder.layer (LukeModel.encoder m)) ∧
  Linear_built h (LukeConfig.hidden_size c) (LukeConfig.hidden_size c)
               (Pooler.dense (LukeModel.pooler m)) ∧
  WordEmbeddings_built h c (LukeModel.embeddings m) ∧
  EntityEmbeddings_built h c (LukeModel.entity_embeddings m).

(** An initialiser that writes in place: it returns, allocates nothing,
    keeps the shape of every cell, and leaves alone the cells that are not
    in [written]. *)
Definition keeps (written : list ref) (c : ctor A unit) : Prop :=
  ∀ s, ∃ s', c s = Ok (tt, s') ∧ refines (cells s) (cells s') ∧
    (∀ r : ref, shape <$> (cells s' !! r) = shape <$> (cells s !! r)) ∧
    (∀ r : ref, r ∉ written → cells s' !! r = cells s !! r).

(** The cell [r'] holds what the allocated cell [r] holds. *)
Definition copy_at (h : heap A) (r r' : ref) : Prop :=
  is_Some (h !! r) ∧ h !! r' = h !! r.

(** [m'] holds the values of [m], parameter by parameter, on a heap that
    was only extended from [s] to [s']. *)
Definition value_copy {T} (modules : T → pymodule) (m m' : T) (s s' : pstate A) : Prop :=
  cells s `prefix_of` cells s' ∧
  Forall2 (copy_at (cells s')) (parameters (modules m)) (parameters (modules m')).

(** A configuration that [LukeModel.__init__] accepts and whose heads fill
    the hidden size. *)
Definition config_ok (c : LukeConfig.t A) : Prop :=
  0 < LukeConfig.num_attention_heads c ∧
  LukeConfig.hidden_size c `mod` LukeConfig.num_attention_heads c = 0 ∧
  0 < LukeConfig.vocab_size c ∧ 0 < LukeConfig.entity_vocab_size c.

End Built.

(** * Properties *)

(** ** Computations that return *)

Section Returns.

Lemma returns_ok {T} (v : T) (P : T → Prop) : P v → returns (Ok v) P.
Proof. intros HP. exists v. done. Qed.

Lemma returns_bind {T U} (m : result T) (k : T → result U) (P : T → Prop) (Q : U → Prop) :
  returns m P → (∀ v, P v → returns (k v) Q) → returns (m ≫= k) Q.
Proof. intros (v & -> & HP) Hk. exact (Hk v HP). Qed.

Lemma returns_mono {T} (m : result T) (P Q : T → Prop) :
  returns m P → (∀ v, P v → Q v) → returns m Q.
Proof. intros (v & -> & HP) HPQ. exists v. auto. Qed.

Lemma returns_mapM {X Y} (f : X → result Y) (Q : Y → Prop) (l : list X) :
  Forall (fun x => returns (f x) Q) l →
  returns (mapM f l) (fun ys => length ys = length l ∧ Forall Q ys).
Proof.
  induction 1 as [|x l Hx _ IH]; cbn.
  - apply returns_ok. done.
  - eapply returns_bind; [exact Hx|]. intros y Hy.
    eapply returns_bind; [exact IH|]. intros ys [Hlen Hys].
    apply returns_ok. cbn. split; [by rewrite Hlen | by constructor].
Qed.

Lemma returns_imapM_go {X Y} (f : nat → X → result Y) (Q : Y → Prop) (l : list X) (i : nat) :
  (∀ j x, l !! j = Some x → returns (f (i + j) x) Q) →
  returns (imapM_go f i l) (fun ys => length ys = length l ∧ Forall Q ys).
Proof.
  revert i. induction l as [|x l IH]; intros i Hf; cbn.
  - apply returns_ok. done.
  - eapply returns_bind.
    { specialize (Hf 0 x eq_refl). rewrite Nat.add_0_r in Hf. exact Hf. }
    intros y Hy. eapply returns_bind.
    { apply IH. intros j x' Hj. replace (S i + j) with (i + S j) by lia. by apply Hf. }
    intros ys [Hlen Hys]. apply returns_ok. cbn. split; [by rewrite Hlen | by constructor].
Qed.

Lemma returns_imapM {X Y} (f : nat → X → result Y) (Q : Y → Prop) (l : list X) :
  (∀ j x, l !! j = Some x → returns (f j x) Q) →
  returns (imapM f l) (fun ys => length ys = length l ∧ Forall Q ys).
Proof. intros Hf. apply returns_imapM_go. exact Hf. Qed.

Lemma returns_zipM {X Y Z} (f : X → Y → result Z) (Q : Z → Prop) (xs : list X) (ys : list Y) :
  length xs = length ys →
  Forall2 (fun x y => returns (f x y) Q) xs ys →
  returns (zipM f xs ys) (fun zs => length zs = length xs ∧ Forall Q zs).
Proof.
  intros Hlen HF. unfold zipM. rewrite decide_True by done.
  eapply returns_mono.
  - apply (returns_mapM _ Q). clear Hlen. induction HF; cbn; constructor; auto.
  - cbn. intros zs [Hl HQ]. split; [|done].
    rewrite Hl, length_zip. lia.
Qed.

Lemma mapM_Ok_Forall2 {X Y} (f : X → result Y) (l : list X) (ys : list Y) :
  mapM f l = Ok ys → Forall2 (fun x y => f x = Ok y) l ys.
Proof.
  revert ys. induction l as [|x l IH]; intros ys; cbn.
  - intros [= <-]. constructor.
  - destruct (f x) as [y|err] eqn:Hy; cbn; [|done].
    destruct (mapM f l) as [ys'|err]; cbn; [|done].
    intros [= <-]. constructor; auto.
Qed.

End Returns.

(** ** Shapes *)

Section ShapeLemmas.
Context {A : Type} `{!Scalar A}.

Lemma Forall2_same_length_Forall {X Y} (P : X → Y → Prop) (xs : list X) (ys : list Y) :
  length xs = length ys → (∀ i x y, xs !! i = Some x → ys !! i = Some y → P x y) →
  Forall2 P xs ys.
Proof.
  intros Hlen HP. apply Forall2_same_length_lookup_2; [done|]. exact HP.
Qed.

Lemma vzip_returns (f : A → A → A) (x y : list A) n :
  length x = n → length y = n → returns (vzip f x y) (fun z => length z = n).
Proof.
  intros Hx Hy. unfold vzip. rewrite decide_True by congruence.
  apply returns_ok. rewrite length_zip_with. lia.
Qed.

Lemma mzip_returns (f : A → A → A) (x y : list (list A)) n k :
  is_mat n k x → is_mat n k y → returns (mzip f x y) (is_mat n k).
Proof.
  intros [Hx Hxr] [Hy Hyr]. unfold mzip.
  eapply returns_mono.
  - apply (returns_zipM _ (fun z => length z = k)); [congruence|].
    apply Forall2_same_length_Forall; [congruence|].
    intros i r r' Hr Hr'. apply vzip_returns.
    + eapply (Forall_lookup_1 _ _ _ _ Hxr Hr).
    + eapply (Forall_lookup_1 _ _ _ _ Hyr Hr').
  - cbn. intros z [Hl Hz]. split; [congruence|done].
Qed.

Lemma tzip_returns (f : A → A → A) (x y : list (list (list A))) b n k :
  is_t3 b n k x → is_t3 b n k y → returns (tzip f x y) (is_t3 b n k).
Proof.
  intros [Hx Hxr] [Hy Hyr]. unfold tzip.
  eapply returns_mono.
  - apply (returns_zipM _ (is_mat n k)); [congruence|].
    apply Forall2_same_length_Forall; [congruence|].
    intros i r r' Hr Hr'. apply mzip_returns.
    + eapply (Forall_lookup_1 _ _ _ _ Hxr Hr).
    + eapply (Forall_lookup_1 _ _ _ _ Hyr Hr').
  - cbn. intros z [Hl Hz]. split; [congruence|done].
Qed.

(** A function of the last dimension, over a matrix and over a tensor of
    rank 3. *)
Lemma mapM_rows {X Y} (f : list X → result (list Y)) (x : list (list X)) n k k' :
  is_mat n k x →
  (∀ r, length r = k → returns (f r) (fun y => length y = k')) →
  returns (mapM f x) (is_mat n k').
Proof.
  intros [Hx Hr] Hf. eapply returns_mono.
  - apply (returns_mapM _ (fun y => length y = k')).
    eapply Forall_impl; [exact Hr|]. cbn. auto.
  - cbn. intros y [Hl Hy]. split; [congruence|done].
Qed.

Lemma mapM_rows3 {X Y} (f : list X → result (list Y)) (x : list (list (list X))) b n k k' :
  is_t3 b n k x →
  (∀ r, length r = k → returns (f r) (fun y => length y = k')) →
  returns (mapM (mapM f) x) (is_t3 b n k').
Proof.
  intros [Hx Hr] Hf. eapply returns_mono.
  - apply (returns_mapM _ (is_mat n k')).
    eapply Forall_impl; [exact Hr|]. cbn. intros m Hm. by eapply mapM_rows.
  - cbn. intros y [Hl Hy]. split; [congruence|done].
Qed.

(** A function of one entry, over index tensors of rank 2. *)
Lemma mapM_entries {X Y} (f : X → result Y) (Q : Y → Prop) (P : X → Prop)
    (x : list (list X)) n k :
  is_mat n k x → Forall (Forall P) x →
  (∀ v, P v → returns (f v) Q) →
  returns (mapM (mapM f) x) (fun y => is_mat n k y ∧ Forall (Forall Q) y).
Proof.
  intros [Hx Hr] HP Hf. eapply returns_mono.
  - apply (returns_mapM _ (fun r => length r = k ∧ Forall Q r)).
    apply Forall_lookup_2. intros i r Hi.
    eapply returns_mono.
    + apply (returns_mapM _ Q).
      eapply Forall_impl; [exact (Forall_lookup_1 _ _ _ _ HP Hi)|]. cbn. auto.
    + cbn. intros y [Hl Hy]. split; [|done].
      rewrite Hl. exact (Forall_lookup_1 _ _ _ _ Hr Hi).
  - cbn. intros y [Hl Hy]. split; [split; [congruence|]|].
    + eapply Forall_impl; [exact Hy|]. cbn. tauto.
    + eapply Forall_impl; [exact Hy|]. cbn. tauto.
Qed.

Lemma is_t3_of_entries {X} (y : list (list (list X))) b n k :
  is_mat b n y → Forall (Forall (fun r => length r = k)) y → is_t3 b n k y.
Proof.
  intros [Hl Hr] Hk. split; [done|].
  apply Forall_lookup_2. intros i m Hi. split.
  - exact (Forall_lookup_1 _ _ _ _ Hr Hi).
  - exact (Forall_lookup_1 _ _ _ _ Hk Hi).
Qed.

Lemma Forall_imap {X Y} (f : nat → X → Y) (P : X → Prop) (Q : Y → Prop) (l : list X) :
  Forall P l → (∀ i x, P x → Q (f i x)) → Forall Q (imap f l).
Proof.
  intros HP. revert f. induction HP as [|x l Hx _ IH]; intros f Hf; cbn; constructor.
  - by apply Hf.
  - apply IH. intros i y. apply Hf.
Qed.

Lemma Dropout_forward1_length (d : Dropout.t A) md pre (x : list A) :
  length (Dropout.forward1 d md pre x) = length x.
Proof. unfold Dropout.forward1. destruct (training md); [apply length_imap|done]. Qed.

Lemma Dropout_forward2_shape (d : Dropout.t A) md pre (x : list (list A)) n k :
  is_mat n k x → is_mat n k (Dropout.forward2 d md pre x).
Proof.
  intros [Hl Hr]. unfold Dropout.forward2. split; [by rewrite length_imap|].
  eapply Forall_imap; [exact Hr|]. cbn. intros i r Hk.
  by rewrite Dropout_forward1_length.
Qed.

Lemma Dropout_forward3_shape (d : Dropout.t A) md pre (x : list (list (list A))) b n k :
  is_t3 b n k x → is_t3 b n k (Dropout.forward3 d md pre x).
Proof.
  intros [Hl Hr]. unfold Dropout.forward3. split; [by rewrite length_imap|].
  eapply Forall_imap; [exact Hr|]. cbn. intros i r Hk.
  by apply Dropout_forward2_shape.
Qed.

End ShapeLemmas.

(** ** The modules return tensors of the expected shape *)

Section ForwardShapes.
Context {A : Type} `{!Scalar A}.
Implicit Types (h : heap A) (md : mode A).

Lemma Embedding_forward_returns h n d (m : Embedding.t) (i : Z) :
  Embedding_wf h n d m → (0 ≤ i < Z.of_nat n)%Z →
  returns (Embedding.forward h m i) (fun r => length r = d).
Proof.
  intros (Hn & Hd & Hl & Hr) Hi. unfold Embedding.forward.
  rewrite decide_True by (rewrite Hn; exact Hi).
  destruct (lookup_lt_is_Some_2 (hmat h (Embedding.weight m)) (Z.to_nat i)) as [row Hrow];
    [lia|].
  rewrite Hrow. apply returns_ok. exact (Forall_lookup_1 _ _ _ _ Hr Hrow).
Qed.

Lemma Linear_forward_returns h i o (m : Linear.t) (x : list A) :
  Linear_wf h i o m → length x = i →
  returns (Linear.forward h m x) (fun y => length y = o).
Proof.
  intros (Hi & Ho & [Hl Hr] & Hb) Hx. unfold Linear.forward.
  rewrite decide_True by congruence.
  destruct (Linear.bias m) as [b|].
  - apply vzip_returns; [by rewrite length_map|done].
  - apply returns_ok. by rewrite length_map.
Qed.

Lemma LayerNorm_normalize_length (eps : A) (x : list A) :
  length (LayerNorm.normalize eps x) = length x.
Proof. unfold LayerNorm.normalize. by rewrite length_map. Qed.

Lemma LayerNorm_forward_returns h n (m : LayerNorm.t A) (x : list A) :
  LayerNorm_wf h n m → length x = n →
  returns (LayerNorm.forward h m x) (fun y => length y = n).
Proof.
  intros [Hw Hb] Hx. unfold LayerNorm.forward.
  eapply returns_bind.
  - apply (vzip_returns _ _ _ n); [done|by rewrite LayerNorm_normalize_length].
  - cbn. intros wx Hwx. by apply vzip_returns.
Qed.

(** Embedding lookups over a tensor of indices. *)
Lemma Embedding_lookup_returns h n d (m : Embedding.t) (ids : list (list Z)) b k :
  Embedding_wf h n d m → is_mat b k ids → in_range n ids →
  returns (mapM (mapM (Embedding.forward h m)) ids) (is_t3 b k d).
Proof.
  intros Hm Hs Hr. eapply returns_mono.
  - eapply (mapM_entries _ (fun r => length r = d)); [exact Hs|exact Hr|].
    intros i Hi. by eapply Embedding_forward_returns.
  - cbn. intros y [Hy Hk]. by apply is_t3_of_entries.
Qed.

Lemma is_mat_zeros_like {X} (ids : list (list X)) b k :
  is_mat b k ids → is_mat b k (map (map (fun _ => 0%Z)) ids).
Proof.
  intros [Hl Hr]. split; [by rewrite length_map|].
  apply Forall_fmap. eapply Forall_impl; [exact Hr|]. cbn. intros r Hk.
  by rewrite length_map.
Qed.

Lemma in_range_zeros_like {X} (ids : list (list X)) b k n :
  is_mat b k ids → k = 0 ∨ 0 < n → in_range n (map (map (fun _ => 0%Z)) ids).
Proof.
  intros [_ Hr] Hn. apply Forall_fmap. eapply Forall_impl; [exact Hr|]. cbn.
  intros r Hk. destruct Hn as [->|Hn].
  - destruct r; [constructor|done].
  - apply Forall_fmap, Forall_true. intros x. cbn. lia.
Qed.

Lemma in_range_positions {X} (ids : list (list X)) b k n :
  is_mat b k ids → k ≤ n →
  is_mat b k (map (imap (fun j _ => Z.of_nat j)) ids) ∧
  in_range n (map (imap (fun j _ => Z.of_nat j)) ids).
Proof.
  intros [Hl Hr] Hk. split; [split|].
  - by rewrite length_map.
  - apply Forall_fmap. eapply Forall_impl; [exact Hr|]. cbn. intros r Hrk.
    by rewrite length_imap.
  - apply Forall_fmap. eapply Forall_impl; [exact Hr|]. cbn. intros r Hrk.
    apply Forall_lookup_2. intros j z Hj.
    rewrite list_lookup_imap in Hj.
    destruct (r !! j) eqn:Hrj; [|done]. cbn in Hj. simplify_eq.
    apply lookup_lt_Some in Hrj. lia.
Qed.


Lemma segment_default n b k (ids : list (list Z)) seg :
  is_mat b k ids → segment_ok n b k ids seg →
  is_mat b k (default (map (map (fun _ => 0%Z)) ids) seg) ∧
  in_range n (default (map (map (fun _ => 0%Z)) ids) seg).
Proof.
  intros Hs Hseg. destruct seg as [s|]; cbn in *; [done|].
  split; [by apply is_mat_zeros_like | by eapply in_range_zeros_like].
Qed.

Lemma WordEmbeddings_forward_returns h c (m : WordEmbeddings.t A) md ids seg b w :
  WordEmbeddings_wf h c m →
  is_mat b w ids → in_range (LukeConfig.vocab_size c) ids →
  w ≤ LukeConfig.max_position_embeddings c →
  segment_ok (LukeConfig.type_vocab_size c) b w ids seg →
  returns (WordEmbeddings.forward h m md ids seg) (is_t3 b w (LukeConfig.hidden_size c)).
Proof.
  intros (Hwe & Hpe & Hte & Hln) Hs Hr Hw Hseg. unfold WordEmbeddings.forward.
  destruct (segment_default _ _ _ _ _ Hs Hseg) as [Hss Hsr].
  destruct (in_range_positions ids b w _ Hs Hw) as [Hps Hpr].
  eapply returns_bind; [by eapply Embedding_lookup_returns|]. intros we Hwes.
  eapply returns_bind; [by eapply Embedding_lookup_returns|]. intros pe Hpes.
  eapply returns_bind; [by eapply Embedding_lookup_returns|]. intros te Htes.
  eapply returns_bind; [by apply tzip_returns|]. intros e1 He1.
  eapply returns_bind; [by apply tzip_returns|]. intros e2 He2.
  eapply returns_bind.
  { eapply mapM_rows3; [exact He2|]. intros r Hrl. by apply LayerNorm_forward_returns. }
  intros e3 He3. apply returns_ok. by apply Dropout_forward3_shape.
Qed.

Lemma sum_rows_length n (rows : list (list A)) :
  Forall (fun r => length r = n) rows → length (sum_rows n rows) = n.
Proof.
  unfold sum_rows. induction 1 as [|r rows Hr _ IH]; cbn.
  - by rewrite length_replicate.
  - rewrite length_zip_with, IH. lia.
Qed.

Lemma entity_position_returns h n d (m : EntityEmbeddings.t A) (slots : list Z) :
  Embedding_wf h n d (EntityEmbeddings.position_embeddings m) →
  Forall (fun p => (-1 ≤ p < Z.of_nat n)%Z) slots → (slots ≠ [] → 0 < n) →
  returns (EntityEmbeddings.entity_position h m slots) (fun r => length r = d).
Proof.
  intros Hpe Hr Hn. unfold EntityEmbeddings.entity_position.
  eapply returns_bind.
  - apply (returns_mapM _ (fun r => length r = d)).
    apply Forall_lookup_2. intros i p Hi.
    eapply Embedding_forward_returns; [exact Hpe|].
    pose proof (Forall_lookup_1 _ _ _ _ Hr Hi) as Hp. cbn in Hp.
    assert (0 < n) by (apply Hn; intros ->; done). lia.
  - cbn. intros embs [Hl He]. apply returns_ok.
    rewrite length_map. destruct Hpe as (_ & Hd & _). rewrite Hd.
    rewrite sum_rows_length; [done|].
    apply Forall_lookup_2. intros i r Hi.
    apply lookup_zip_with_Some in Hi as (e & mk & -> & He' & _).
    rewrite length_map.
    exact (Forall_lookup_1 _ _ _ _ He He').
Qed.
End ForwardShapes.

Section ForwardShapes2.
Context {A : Type} `{!Scalar A}.
Implicit Types (h : heap A) (md : mode A).


Lemma EntityEmbeddings_forward_returns h c (m : EntityEmbeddings.t A) md ids pos seg b e :
  EntityEmbeddings_wf h c m →
  is_mat b e ids → in_range (LukeConfig.entity_vocab_size c) ids →
  position_ok (LukeConfig.max_position_embeddings c) b e pos →
  0 < LukeConfig.max_position_embeddings c →
  segment_ok (LukeConfig.type_vocab_size c) b e ids seg →
  returns (EntityEmbeddings.forward h m md ids pos seg) (is_t3 b e (LukeConfig.hidden_size c)).
Proof.
  intros (Hce & Hch & Hee & Hpe & Hte & Hd & Hln) Hs Hr [Hps Hpr] Hmax Hseg.
  unfold EntityEmbeddings.forward.
  destruct (segment_default _ _ _ _ _ Hs Hseg) as [Hss Hsr].
  eapply returns_bind; [by eapply Embedding_lookup_returns|]. intros ee Hees.
  eapply (returns_bind _ _ (is_t3 b e (LukeConfig.hidden_size c))).
  { rewrite Hce, Hch. destruct (decide _) as [Hne|Heq].
    - destruct (EntityEmbeddings.entity_dense m) as [d|]; [|done].
      eapply mapM_rows3; [exact Hees|]. intros r Hrl. by eapply Linear_forward_returns.
    - apply returns_ok. apply dec_stable in Heq. by rewrite <- Heq. }
  intros ee' Hees'.
  eapply returns_bind.
  { eapply returns_mono.
    - eapply (mapM_entries _ (fun r => length r = LukeConfig.hidden_size c)
                           (Forall (fun p => (-1 ≤ p < Z.of_nat _)%Z)));
        [exact Hps|exact Hpr|].
      intros slots Hsl. eapply entity_position_returns; [exact Hpe|exact Hsl|done].
    - intros y [Hy Hk]. exact (is_t3_of_entries y _ _ _ Hy Hk). }
  intros pe Hpes.
  eapply returns_bind; [by eapply Embedding_lookup_returns|]. intros te Htes.
  eapply returns_bind; [by apply tzip_returns|]. intros e1 He1.
  eapply returns_bind; [by apply tzip_returns|]. intros e2 He2.
  eapply returns_bind.
  { eapply mapM_rows3; [exact He2|]. intros r Hrl. by apply LayerNorm_forward_returns. }
  intros e3 He3. apply returns_ok. by apply Dropout_forward3_shape.
Qed.

Lemma softmax_length (x : list A) : length (softmax x) = length x.
Proof. unfold softmax. by rewrite !length_map. Qed.

Lemma is_t3_map_entries {X Y} (f : X → Y) (x : list (list (list X))) b n k :
  is_t3 b n k x → is_t3 b n k (map (map (map f)) x).
Proof.
  intros [Hl Hr]. split; [by rewrite length_map|].
  apply Forall_fmap. eapply Forall_impl; [exact Hr|]. cbn. intros m [Hm Hmr].
  split; [by rewrite length_map|].
  apply Forall_fmap. eapply Forall_impl; [exact Hmr|]. cbn. intros r Hk.
  by rewrite length_map.
Qed.

Lemma is_t3_map_rows {X Y} (f : list X → list Y) (x : list (list (list X))) b n k k' :
  (∀ r, length r = k → length (f r) = k') →
  is_t3 b n k x → is_t3 b n k' (map (map f) x).
Proof.
  intros Hf [Hl Hr]. split; [by rewrite length_map|].
  apply Forall_fmap. eapply Forall_impl; [exact Hr|]. cbn. intros m [Hm Hmr].
  split; [by rewrite length_map|].
  apply Forall_fmap. eapply Forall_impl; [exact Hmr|]. cbn. auto.
Qed.

Lemma transpose_for_scores_returns (m : SelfAttention.t A) (x : list (list A)) n :
  is_mat n (SelfAttention.num_attention_heads m * SelfAttention.attention_head_size m) x →
  returns (SelfAttention.transpose_for_scores m x)
          (is_t3 (SelfAttention.num_attention_heads m) n (SelfAttention.attention_head_size m)).
Proof.
  intros [Hl Hr]. unfold SelfAttention.transpose_for_scores.
  rewrite decide_True by done. apply returns_ok. split.
  - by rewrite length_map, length_seq.
  - apply Forall_fmap, Forall_lookup_2. intros i a Hi. cbn.
    apply lookup_seq in Hi as [-> Hi]. split; [by rewrite length_map|].
    apply Forall_fmap. eapply Forall_impl; [exact Hr|]. cbn. intros r Hrl.
    rewrite length_take, length_drop, Hrl. nia.
Qed.

(** Two tensors of rank 3 with the same leading size, combined per leading
    index. *)
Lemma is_t3_zip_with {X Y Z} (f : list (list X) → list (list Y) → list (list Z))
    (x : list (list (list X))) (y : list (list (list Y))) b n k n' k' n'' k'' :
  (∀ u v, is_mat n k u → is_mat n' k' v → is_mat n'' k'' (f u v)) →
  is_t3 b n k x → is_t3 b n' k' y → is_t3 b n'' k'' (zip_with f x y).
Proof.
  intros Hf [Hx Hxr] [Hy Hyr]. split; [rewrite length_zip_with; lia|].
  apply Forall_lookup_2. intros i z Hi.
  apply lookup_zip_with_Some in Hi as (u & v & -> & Hu & Hv).
  apply Hf.
  - exact (Forall_lookup_1 _ _ _ _ Hxr Hu).
  - exact (Forall_lookup_1 _ _ _ _ Hyr Hv).
Qed.

Lemma scaled_scores_returns h hidden (m : SelfAttention.t A) (x : list (list A)) n :
  SelfAttention_wf h hidden m → is_mat n hidden x →
  returns (SelfAttention.scaled_scores h m x)
          (is_t3 (SelfAttention.num_attention_heads m) n n).
Proof.
  intros (Hall & Hq & Hk & Hv) Hx. unfold SelfAttention.scaled_scores.
  eapply returns_bind.
  { eapply mapM_rows; [exact Hx|]. intros r Hr. by eapply Linear_forward_returns. }
  intros q Hqs.
  eapply returns_bind.
  { eapply mapM_rows; [exact Hx|]. intros r Hr. by eapply Linear_forward_returns. }
  intros k Hks. rewrite Hall in Hqs, Hks.
  eapply returns_bind; [by apply transpose_for_scores_returns|]. intros ql Hql.
  eapply returns_bind; [by apply transpose_for_scores_returns|]. intros kl Hkl.
  apply returns_ok. apply is_t3_map_entries.
  eapply (is_t3_zip_with _ _ _ _ _ _ _ _ n n); [|exact Hql|exact Hkl].
  intros u v [Hu _] [Hv' _]. split; [by rewrite length_map|].
  apply Forall_fmap, Forall_true. intros r. cbn. by rewrite length_map.
Qed.

Lemma attention_probs_returns h hidden (m : SelfAttention.t A)
    (x : list (list A)) (mask : list A) n :
  SelfAttention_wf h hidden m → is_mat n hidden x → length mask = n →
  returns (SelfAttention.attention_probs h m x mask)
          (is_t3 (SelfAttention.num_attention_heads m) n n).
Proof.
  intros Hwf Hx Hmask. unfold SelfAttention.attention_probs.
  eapply returns_bind; [by eapply scaled_scores_returns|]. intros sc0 Hsc0.
  eapply returns_bind.
  { eapply (mapM_rows3 _ _ _ n n n); [exact Hsc0|].
    intros r Hr. by apply vzip_returns. }
  intros sc Hsc. apply returns_ok.
  eapply is_t3_map_rows; [|exact Hsc]. intros r Hr. by rewrite softmax_length.
Qed.

Lemma concat_length_const {X} (l : list (list X)) k :
  Forall (fun r => length r = k) l → length (concat l) = length l * k.
Proof. induction 1 as [|r l Hr _ IH]; cbn; [done|]. rewrite length_app, IH, Hr. lia. Qed.

Lemma joint_context_returns h hidden (m : SelfAttention.t A) md
    (x : list (list A)) (mask : list A) n :
  SelfAttention_wf h hidden m → is_mat n hidden x → length mask = n →
  returns (SelfAttention.joint_context h m md x mask)
          (is_mat n (SelfAttention.all_head_size m)).
Proof.
  intros Hwf Hx Hmask. unfold SelfAttention.joint_context.
  eapply returns_bind; [by eapply attention_probs_returns|]. intros pr Hpr.
  destruct Hwf as (Hall & Hq & Hk & Hv).
  eapply returns_bind.
  { eapply mapM_rows; [exact Hx|]. intros r Hr. by eapply Linear_forward_returns. }
  intros v Hvs. rewrite Hall in Hvs.
  eapply returns_bind; [by apply transpose_for_scores_returns|]. intros vl Hvl.
  apply returns_ok.
  set (hs := SelfAttention.attention_head_size m) in *.
  set (ctx := zip_with _ _ vl).
  assert (Hctx : is_t3 (SelfAttention.num_attention_heads m) n hs ctx).
  { eapply (is_t3_zip_with _ _ _ _ n n n hs); [|apply Dropout_forward3_shape; exact Hpr|exact Hvl].
    intros P V [HP HPr] [HV HVr]. split; [by rewrite length_map|].
    apply Forall_fmap, Forall_true. intros p. cbn.
    apply sum_rows_length. apply Forall_lookup_2. intros i r Hi.
    apply lookup_zip_with_Some in Hi as (pj & vj & -> & _ & Hvj).
    rewrite length_map. exact (Forall_lookup_1 _ _ _ _ HVr Hvj). }
  destruct Hx as [Hxl _]. destruct Hctx as [Hcl Hcr].
  split; [by rewrite length_map, length_seq|].
  apply Forall_fmap, Forall_lookup_2. intros j i Hj. cbn.
  apply lookup_seq in Hj as [-> Hj]. cbn.
  rewrite (concat_length_const _ hs).
  - rewrite length_map, Hcl, Hall. done.
  - apply Forall_fmap. eapply Forall_impl; [exact Hcr|]. cbn. intros c [Hc Hcr'].
    destruct (lookup_lt_is_Some_2 c j) as [r Hr]; [lia|].
    rewrite Hr. cbn. exact (Forall_lookup_1 _ _ _ _ Hcr' Hr).
Qed.

End ForwardShapes2.

Section ForwardShapes3.
Context {A : Type} `{!Scalar A}.
Implicit Types (h : heap A) (md : mode A).

Lemma imapM_go_lookup {X Y} (f : nat → X → result Y) (Q : Y → Prop) (l : list X) (i : nat) :
  (∀ j x, l !! j = Some x → returns (f (i + j) x) Q) →
  returns (imapM_go f i l)
          (fun ys => length ys = length l ∧
                     ∀ j x, l !! j = Some x →
                            ∃ y, f (i + j) x = Ok y ∧ ys !! j = Some y ∧ Q y).
Proof.
  revert i. induction l as [|x l IH]; intros i Hf; cbn.
  - apply returns_ok. split; [done|]. intros j x Hj. done.
  - destruct (Hf 0 x eq_refl) as (y & Hy & HQ).
    rewrite Nat.add_0_r in Hy. rewrite Hy. cbn.
    destruct (IH (S i)) as (ys & Hys & Hlen & Hlk).
    { intros j x' Hj. replace (S i + j) with (i + S j) by lia. by apply Hf. }
    rewrite Hys. cbn. apply returns_ok. split; [cbn; by rewrite Hlen|].
    intros [|j] x' Hj; cbn in Hj.
    + simplify_eq. exists y. rewrite Nat.add_0_r. done.
    + destruct (Hlk j x' Hj) as (y' & Hy' & Hl' & HQ').
      exists y'. replace (i + S j) with (S i + j) by lia. done.
Qed.

Lemma imapM_lookup {X Y} (f : nat → X → result Y) (Q : Y → Prop) (l : list X) :
  (∀ j x, l !! j = Some x → returns (f j x) Q) →
  returns (imapM f l)
          (fun ys => length ys = length l ∧
                     ∀ j x, l !! j = Some x → ∃ y, f j x = Ok y ∧ ys !! j = Some y ∧ Q y).
Proof. intros Hf. by apply (imapM_go_lookup f Q l 0). Qed.

Lemma zipM_app {X} (xs ys : list (list X)) :
  length xs = length ys →
  zipM (fun w e => Ok (w ++ e)) xs ys = Ok (zip_with app xs ys).
Proof.
  intros Hlen. unfold zipM. rewrite decide_True by done. clear Hlen.
  revert ys. induction xs as [|x xs IH]; intros [|y ys]; cbn; try done.
  rewrite IH. done.
Qed.

Lemma size1_is_t3 {X} (x : list (list (list X))) b n k :
  is_t3 b n k x → x = [] ∨ size1 x = n.
Proof.
  intros [_ Hr]. destruct x as [|m x]; [by left|right].
  apply Forall_cons in Hr as [[Hm _] _]. exact Hm.
Qed.

(** The statement behind C1, for any scalars and any dropout mode. *)
Lemma SelfAttention_forward_split h hidden (m : SelfAttention.t A) md
    (word entity : list (list (list A))) (mask : list (list A)) b w e :
  SelfAttention_wf h hidden m →
  is_t3 b w hidden word → is_t3 b e hidden entity → is_mat b (w + e) mask →
  ∃ wo eo,
    SelfAttention.forward h m md word entity mask = Ok (wo, eo) ∧
    is_t3 b w (SelfAttention.all_head_size m) wo ∧
    is_t3 b e (SelfAttention.all_head_size m) eo ∧
    ∀ i x y k, word !! i = Some x → entity !! i = Some y → mask !! i = Some k →
      ∃ ctx, SelfAttention.joint_context h m (at_site i md) (x ++ y) k = Ok ctx ∧
             length ctx = w + e ∧
             wo !! i = Some (take w ctx) ∧ eo !! i = Some (drop w ctx).
Proof.
  intros Hwf Hword Hent Hmask.
  pose proof Hword as [Hwl Hwr]. pose proof Hent as [Hel Her]. destruct Hmask as [Hml Hmr].
  unfold SelfAttention.forward. rewrite zipM_app by congruence. cbn.
  rewrite decide_True by (rewrite length_zip_with; lia).
  destruct (imapM_lookup
              (fun b0 xm => SelfAttention.joint_context h m (at_site b0 md) xm.1 xm.2)
              (is_mat (w + e) (SelfAttention.all_head_size m))
              (zip (zip_with app word entity) mask)) as (ctxs & Hctxs & Hlen & Hlk).
  { intros j [x k] Hj. cbn. apply lookup_zip_Some in Hj as [Hx Hk].
    apply lookup_zip_with_Some in Hx as (x1 & x2 & -> & Hx1 & Hx2).
    eapply joint_context_returns; [exact Hwf| |].
    - pose proof (Forall_lookup_1 _ _ _ _ Hwr Hx1) as [H1 H1r].
      pose proof (Forall_lookup_1 _ _ _ _ Her Hx2) as [H2 H2r].
      split; [rewrite length_app; lia|]. by apply Forall_app.
    - exact (Forall_lookup_1 _ _ _ _ Hmr Hk). }
  rewrite Hctxs. cbn. eexists _, _. split; [reflexivity|].
  rewrite length_zip, length_zip_with in Hlen.
  assert (Hshape : Forall (is_mat (w + e) (SelfAttention.all_head_size m)) ctxs).
  { apply Forall_lookup_2. intros i ctx Hi.
    destruct (lookup_lt_is_Some_2 (zip (zip_with app word entity) mask) i) as [[x k] Hxk].
    { rewrite length_zip, length_zip_with. apply lookup_lt_Some in Hi. lia. }
    destruct (Hlk i _ Hxk) as (y & _ & Hy & HQ). by simplify_eq. }
  assert (Hsz : word = [] ∨ size1 word = w) by (by eapply size1_is_t3).
  assert (Hw' : ∀ i ctx, ctxs !! i = Some ctx → size1 word = w).
  { intros i ctx Hi. destruct Hsz as [->|]; [|done].
    apply lookup_lt_Some in Hi. cbn in *. lia. }
  split; [|split].
  - split; [rewrite length_map; lia|].
    apply Forall_lookup_2. intros i r Hi.
    apply list_lookup_fmap_Some in Hi as (ctx & -> & Hi).
    rewrite (Hw' _ _ Hi).
    destruct (Forall_lookup_1 _ _ _ _ Hshape Hi) as [Hc Hcr].
    split; [rewrite length_take; lia|]. by apply Forall_take.
  - split; [rewrite length_map; lia|].
    apply Forall_lookup_2. intros i r Hi.
    apply list_lookup_fmap_Some in Hi as (ctx & -> & Hi).
    rewrite (Hw' _ _ Hi).
    destruct (Forall_lookup_1 _ _ _ _ Hshape Hi) as [Hc Hcr].
    split; [rewrite length_drop; lia|]. by apply Forall_drop.
  - intros i x y k Hx Hy Hk.
    destruct (Hlk i (x ++ y, k)) as (ctx & Hctx & Hi & [Hc Hcr]).
    { apply lookup_zip_Some. split; [|done].
      apply lookup_zip_with_Some. eauto. }
    cbn in Hctx. exists ctx. rewrite !list_lookup_fmap, Hi, (Hw' _ _ Hi). done.
Qed.

Lemma SelfOutput_forward_returns h hidden (m : SelfOutput.t A) md
    (x input : list (list (list A))) b n :
  SelfOutput_wf h hidden m → is_t3 b n hidden x → is_t3 b n hidden input →
  returns (SelfOutput.forward h m md x input) (is_t3 b n hidden).
Proof.
  intros [Hd Hln] Hx Hin. unfold SelfOutput.forward.
  eapply returns_bind.
  { eapply mapM_rows3; [exact Hx|]. intros r Hr. by eapply Linear_forward_returns. }
  intros y Hy.
  eapply returns_bind.
  { apply tzip_returns; [apply Dropout_forward3_shape; exact Hy|exact Hin]. }
  intros z Hz.
  eapply mapM_rows3; [exact Hz|]. intros r Hr. by apply LayerNorm_forward_returns.
Qed.


Lemma Attention_forward_returns h hidden (m : Attention.t A) md word entity mask b w e :
  Attention_wf h hidden m →
  is_t3 b w hidden word → is_t3 b e hidden entity → is_mat b (w + e) mask →
  returns (Attention.forward h m md word entity mask) (streams_shape b w e hidden).
Proof.
  intros (Hself & Hall & Hout) Hword Hent Hmask. unfold Attention.forward.
  destruct (SelfAttention_forward_split h hidden _ (at_site 0 md) word entity mask b w e
              Hself Hword Hent Hmask) as (wo & eo & -> & Hwo & Heo & _).
  cbn. rewrite Hall in Hwo, Heo.
  eapply returns_bind; [by eapply SelfOutput_forward_returns|]. intros wo' Hwo'.
  eapply returns_bind; [by eapply SelfOutput_forward_returns|]. intros eo' Heo'.
  apply returns_ok. done.
Qed.

Lemma Intermediate_forward_returns h i o (m : Intermediate.t) (x : list (list (list A))) b n :
  Linear_wf h i o (Intermediate.dense m) → is_t3 b n i x →
  returns (Intermediate.forward h m x) (is_t3 b n o).
Proof.
  intros Hd Hx. unfold Intermediate.forward.
  eapply returns_bind.
  { eapply mapM_rows3; [exact Hx|]. intros r Hr. by eapply Linear_forward_returns. }
  intros y Hy. apply returns_ok. by apply is_t3_map_entries.
Qed.

Lemma Output_forward_returns h i hidden (m : Output.t A) md
    (x input : list (list (list A))) b n :
  Linear_wf h i hidden (Output.dense m) → LayerNorm_wf h hidden (Output.LayerNorm m) →
  is_t3 b n i x → is_t3 b n hidden input →
  returns (Output.forward h m md x input) (is_t3 b n hidden).
Proof.
  intros Hd Hln Hx Hin. unfold Output.forward.
  eapply returns_bind.
  { eapply mapM_rows3; [exact Hx|]. intros r Hr. by eapply Linear_forward_returns. }
  intros y Hy.
  eapply returns_bind.
  { apply tzip_returns; [apply Dropout_forward3_shape; exact Hy|exact Hin]. }
  intros z Hz.
  eapply mapM_rows3; [exact Hz|]. intros r Hr. by apply LayerNorm_forward_returns.
Qed.

Lemma Layer_forward_returns h hidden (m : Layer.t A) md word entity mask b w e :
  Layer_wf h hidden m →
  is_t3 b w hidden word → is_t3 b e hidden entity → is_mat b (w + e) mask →
  returns (Layer.forward h m md word entity mask) (streams_shape b w e hidden).
Proof.
  intros (Hatt & Hint & Hout & Hln) Hword Hent Hmask. unfold Layer.forward.
  eapply returns_bind; [by eapply Attention_forward_returns|].
  intros [wa ea] [Hwa Hea]. cbn in Hwa, Hea.
  eapply returns_bind; [by eapply Intermediate_forward_returns|]. intros wi Hwi.
  eapply returns_bind; [by eapply Intermediate_forward_returns|]. intros ei Hei.
  eapply returns_bind; [by eapply Output_forward_returns|]. intros wl Hwl.
  eapply returns_bind; [by eapply Output_forward_returns|]. intros el Hel.
  apply returns_ok. done.
Qed.

End ForwardShapes3.

Section ForwardShapes4.
Context {A : Type} `{!Scalar A}.
Implicit Types (h : heap A) (md : mode A).

Lemma forward_loop_apply_layers h md (layers : list (Layer.t A)) k hs mask oa acc :
  Encoder.forward_loop h md layers k hs mask oa acc =
  (outs ← apply_layers h md layers k hs mask;
   Ok (if oa then acc ++ outs else acc, default hs (last outs))).
Proof.
  revert k hs acc. induction layers as [|l layers IH]; intros k hs acc; cbn.
  - destruct oa; by rewrite ?app_nil_r.
  - destruct (Layer.forward h l (at_site k md) hs.1 hs.2 mask) as [hs'|err]; cbn; [|done].
    rewrite IH.
    destruct (apply_layers h md layers (S k) hs' mask) as [outs|err]; cbn; [|done].
    f_equal. f_equal.
    + destruct oa; [|done]. by rewrite <- app_assoc.
    + rewrite last_cons. by destruct (last outs).
Qed.

Lemma apply_layers_returns h hidden md (layers : list (Layer.t A)) k hs mask b w e :
  Forall (Layer_wf h hidden) layers →
  streams_shape b w e hidden hs → is_mat b (w + e) mask →
  returns (apply_layers h md layers k hs mask)
          (fun outs => length outs = length layers ∧
                       Forall (streams_shape b w e hidden) outs).
Proof.
  intros Hwf. revert k hs. induction Hwf as [|l layers Hl _ IH]; intros k hs [Hw He] Hmask; cbn.
  - apply returns_ok. done.
  - eapply returns_bind; [by eapply Layer_forward_returns|]. intros out Hout.
    eapply returns_bind; [by apply IH|]. intros outs [Hlen Houts].
    apply returns_ok. cbn. split; [by rewrite Hlen|by constructor].
Qed.

Lemma Forall_last_Some {X} (P : X → Prop) (l : list X) (x : X) :
  Forall P l → last l = Some x → P x.
Proof.
  intros HP Hl. apply last_Some_elem_of in Hl.
  rewrite Forall_forall in HP. by apply HP.
Qed.

Lemma first_position_returns {X} (x : list (list (list X))) b n k :
  is_t3 b n k x → 0 < n → returns (Pooler.first_position x) (is_mat b k).
Proof.
  intros [Hl Hr] Hn. unfold Pooler.first_position.
  eapply returns_mono.
  - apply (returns_mapM _ (fun r => length r = k)).
    eapply Forall_impl; [exact Hr|]. cbn. intros m [Hm Hmr].
    destruct (lookup_lt_is_Some_2 m 0) as [r Hr0]; [lia|].
    rewrite Hr0. apply returns_ok. exact (Forall_lookup_1 _ _ _ _ Hmr Hr0).
  - cbn. intros y [Hy Hyr]. split; [congruence|done].
Qed.

Lemma Pooler_forward_returns h hidden (m : Pooler.t) (x : list (list (list A))) b n :
  Linear_wf h hidden hidden (Pooler.dense m) → is_t3 b n hidden x → 0 < n →
  returns (Pooler.forward h m x) (is_mat b hidden).
Proof.
  intros Hd Hx Hn. unfold Pooler.forward.
  eapply returns_bind; [by eapply first_position_returns|]. intros p Hp.
  eapply returns_bind.
  { eapply mapM_rows; [exact Hp|]. intros r Hr. by eapply Linear_forward_returns. }
  intros q [Hq Hqr]. apply returns_ok. split; [by rewrite length_map|].
  apply Forall_fmap. eapply Forall_impl; [exact Hqr|]. cbn. intros r Hr.
  by rewrite length_map.
Qed.

Lemma extended_attention_mask_returns (wm em : list (list Z)) b w e :
  is_mat b w wm → is_mat b e em →
  returns (LukeModel.extended_attention_mask (A:=A) wm em) (is_mat b (w + e)).
Proof.
  intros [Hw Hwr] [He Her]. unfold LukeModel.extended_attention_mask.
  rewrite zipM_app by congruence. cbn. apply returns_ok.
  split; [rewrite !length_map, length_zip_with; lia|].
  apply Forall_fmap, Forall_fmap, Forall_lookup_2. intros i r Hi. cbn.
  apply lookup_zip_with_Some in Hi as (x & y & -> & Hx & Hy).
  rewrite !length_map, length_app.
  rewrite (Forall_lookup_1 _ _ _ _ Hwr Hx), (Forall_lookup_1 _ _ _ _ Her Hy). done.
Qed.


Lemma LukeModel_forward_returns h (m : LukeModel.t A) md
    word_ids word_segment_ids word_attention_mask
    entity_ids entity_position_ids entity_segment_ids entity_attention_mask
    output_all_encoded_layers b w e :
  let c := LukeModel.config m in
  LukeModel_wf h m →
  is_mat b w word_ids → in_range (LukeConfig.vocab_size c) word_ids →
  segment_ok (LukeConfig.type_vocab_size c) b w word_ids word_segment_ids →
  is_mat b w word_attention_mask →
  is_mat b e entity_ids → in_range (LukeConfig.entity_vocab_size c) entity_ids →
  position_ok (LukeConfig.max_position_embeddings c) b e entity_position_ids →
  segment_ok (LukeConfig.type_vocab_size c) b e entity_ids entity_segment_ids →
  is_mat b e entity_attention_mask →
  0 < w ≤ LukeConfig.max_position_embeddings c →
  (output_all_encoded_layers = true → Encoder.layer (LukeModel.encoder m) ≠ []) →
  returns (LukeModel.forward h m md word_ids word_segment_ids word_attention_mask
             entity_ids entity_position_ids entity_segment_ids entity_attention_mask
             output_all_encoded_layers)
          (fun r => encoded_shape output_all_encoded_layers b w e (LukeConfig.hidden_size c)
                      (length (Encoder.layer (LukeModel.encoder m))) r.1 ∧
                    is_mat b (LukeConfig.hidden_size c) r.2).
Proof.
  intros c (Henc & Hpool & Hemb & Hent) Hwi Hwr Hws Hwm Hei Her Hep Hes Hem Hw Hlayers.
  unfold LukeModel.forward.
  eapply returns_bind; [by eapply extended_attention_mask_returns|]. intros mask Hmask.
  eapply returns_bind.
  { eapply (WordEmbeddings_forward_returns h c); [exact Hemb|exact Hwi|exact Hwr|lia|exact Hws]. }
  intros we Hwe.
  eapply returns_bind.
  { eapply (EntityEmbeddings_forward_returns h c);
      [exact Hent|exact Hei|exact Her|exact Hep|lia|exact Hes]. }
  intros ee Hee.
  unfold Encoder.forward. rewrite forward_loop_apply_layers.
  destruct (apply_layers_returns h _ (at_site 2 md) _ 0 (we, ee) mask b w e Henc)
    as (outs & -> & Hlen & Houts); [done|done|].
  cbn. destruct output_all_encoded_layers.
  - destruct (last outs) as [final|] eqn:Hlast.
    2:{ apply last_None in Hlast. subst outs. destruct (Encoder.layer _); [|done].
        by destruct Hlayers. }
    unfold Encoder.streams in *. rewrite Hlast.
    assert (Hfin : streams_shape b w e (LukeConfig.hidden_size c) final).
    { by eapply Forall_last_Some. }
    eapply returns_bind; [eapply Pooler_forward_returns; [exact Hpool|apply Hfin|lia]|].
    intros p Hp. apply returns_ok. done.
  - unfold Encoder.streams in *. rewrite last_snoc.
    assert (Hfin : streams_shape b w e (LukeConfig.hidden_size c) (default (we, ee) (last outs))).
    { destruct (last outs) as [final|] eqn:Hlast; cbn; [|done].
      by eapply Forall_last_Some. }
    eapply returns_bind; [eapply Pooler_forward_returns; [exact Hpool|apply Hfin|lia]|].
    intros p Hp. apply returns_ok. done.
Qed.

End ForwardShapes4.

(** * Construction *)

Section ConstructionLemmas.
Context {A : Type} `{!Scalar A}.

Lemma bind_Ok {T U} (c : ctor A T) (k : T → ctor A U) s v s' :
  (c ≫= k) s = Ok (v, s') → ∃ u s1, c s = Ok (u, s1) ∧ k u s1 = Ok (v, s').
Proof.
  unfold mbind, ctor_bind. destruct (c s) as [[u s1]|e]; [|done]. intros Hk. eauto.
Qed.

Lemma ret_Ok {T} (x : T) (s : pstate A) v s' :
  (mret x : ctor A T) s = Ok (v, s') → v = x ∧ s' = s.
Proof. by intros [= <- <-]. Qed.

Lemma pymodule_rect' (P : pymodule → Prop) :
  (∀ k ps ms, Forall (fun p => P p.2) ms → P (PyModule k ps ms)) → ∀ m, P m.
Proof.
  intros H. fix IH 1. intros [k ps ms]. apply H.
  induction ms as [|p ms IHms]; constructor; [apply IH|exact IHms].
Qed.

Lemma grows_ret {T} (x : T) : grows (mret x : ctor A T).
Proof. intros s v s' [= _ <-]. done. Qed.

Lemma grows_bind {T U} (c : ctor A T) (k : T → ctor A U) :
  grows c → (∀ u, grows (k u)) → grows (c ≫= k).
Proof.
  intros Hc Hk s v s' (u & s1 & H1 & H2)%bind_Ok.
  specialize (Hc _ _ _ H1). specialize (Hk _ _ _ _ H2). lia.
Qed.

Lemma grows_throw {T} e : grows (throw e : ctor A T).
Proof. by intros s v s'. Qed.

Lemma grows_alloc t : grows (alloc t : ctor A ref).
Proof. intros s v s' [= _ <-]. cbn. rewrite length_app. lia. Qed.

Lemma grows_draw n : grows (draw n : ctor A (list A)).
Proof. intros s v s' [= _ <-]. done. Qed.

Lemma grows_read r : grows (read r : ctor A _).
Proof. intros s v s' [= _ <-]. done. Qed.

Lemma grows_write r t : grows (write r t : ctor A unit).
Proof. intros s [] s' [= <-]. cbn [cells]. unfold hwrite, heap, ref in *. by rewrite length_insert. Qed.

Lemma grows_draw_rows r c : grows (draw_rows r c : ctor A _).
Proof.
  induction r as [|r IH]; cbn; [apply grows_ret|].
  apply grows_bind; [apply grows_draw|]. intros row.
  apply grows_bind; [exact IH|]. intros rows. apply grows_ret.
Qed.

Lemma grows_draw_like t : grows (draw_like t : ctor A _).
Proof.
  destruct t; cbn.
  - apply grows_bind; [apply grows_draw|]. intros. apply grows_ret.
  - apply grows_bind; [apply grows_draw_rows|]. intros. apply grows_ret.
Qed.

Lemma grows_fill_ r c : grows (fill_ r c : ctor A unit).
Proof.
  apply grows_bind; [apply grows_read|]. intros [t|]; [apply grows_write|apply grows_ret].
Qed.

Lemma grows_normal_ r : grows (normal_ r : ctor A unit).
Proof.
  apply grows_bind; [apply grows_read|]. intros [t|]; [|apply grows_ret].
  apply grows_bind; [apply grows_draw_like|]. intros. apply grows_write.
Qed.

Lemma grows_copy_param r : grows (copy_param r : ctor A ref).
Proof. apply grows_bind; [apply grows_read|]. intros. apply grows_alloc. Qed.

Lemma grows_repeatM {T} n (c : ctor A T) : grows c → grows (repeatM n c).
Proof.
  intros Hc. induction n as [|n IH]; cbn; [apply grows_ret|].
  apply grows_bind; [done|]. intros x. apply grows_bind; [done|]. intros. apply grows_ret.
Qed.

Lemma grows_param_size r i : grows (param_size r i : ctor A nat).
Proof.
  apply grows_bind; [apply grows_read|]. intros o.
  destruct (shape _ !! i); [apply grows_ret|apply grows_throw].
Qed.

Create HintDb grows discriminated.
#[local] Hint Resolve grows_ret grows_throw grows_alloc grows_draw grows_read grows_write
  grows_draw_rows grows_draw_like grows_fill_ grows_normal_ grows_copy_param
  grows_param_size : grows.

Ltac grows :=
  repeat first
    [ progress auto with grows
    | apply grows_bind; [|intros ?]
    | match goal with
      | |- grows (match ?x with _ => _ end) => destruct x
      | |- grows (if ?b then _ else _) => destruct b
      end ].

Lemma grows_Linear_init i o b : grows (Linear.init i o b : ctor A _).
Proof. unfold Linear.init. grows. Qed.

Lemma grows_LayerNorm_init n eps : grows (LayerNorm.init n eps : ctor A _).
Proof. unfold LayerNorm.init. grows. Qed.

#[local] Hint Resolve grows_Linear_init grows_LayerNorm_init : grows.

Lemma grows_PredictionHeadTransform_init c o :
  grows (PredictionHeadTransform.init c o : ctor A _).
Proof. unfold PredictionHeadTransform.init. grows. Qed.

#[local] Hint Resolve grows_PredictionHeadTransform_init : grows.

Lemma grows_LMPredictionHead_init c w : grows (LMPredictionHead.init c w : ctor A _).
Proof. unfold LMPredictionHead.init. grows. Qed.

Lemma grows_EntityPredictionHead_init c w :
  grows (EntityPredictionHead.init c w : ctor A _).
Proof. unfold EntityPredictionHead.init. grows. Qed.

Lemma grows_init_weights m : grows (LukeModel.init_weights m : ctor A unit).
Proof. destruct m as [k ps ms]. unfold LukeModel.init_weights. grows. Qed.

Lemma grows_apply (fn : pymodule → ctor A unit) m :
  (∀ m, grows (fn m)) → grows (LukeModel.apply fn m).
Proof.
  intros Hfn. induction m as [k ps ms IH] using pymodule_rect'. cbn.
  apply grows_bind; [|intros; apply Hfn].
  induction IH as [|[n c] ms Hc _ IHms]; [apply grows_ret|].
  apply grows_bind; [exact Hc|]. intros. exact IHms.
Qed.

End ConstructionLemmas.

(** ** Real arithmetic of the tensor operations *)

Section Real.
Open Scope R_scope.

Lemma vsum_Rsum l : vsum l = Rsum l.
Proof. reflexivity. Qed.

Lemma Rsum_nil : Rsum [] = 0.
Proof. reflexivity. Qed.

Lemma Rsum_cons x l : Rsum (x :: l) = x + Rsum l.
Proof. reflexivity. Qed.

Lemma vmean_mean l : vmean l = mean l.
Proof. unfold vmean, mean. cbn. rewrite <- INR_IZR_INZ. reflexivity. Qed.

Lemma mean_map {X} (f : X → R) l : mean (map f l) = Rsum (map f l) / INR (length l).
Proof. unfold mean. rewrite length_map. reflexivity. Qed.

Lemma Rsum_map_scale c l : Rsum (map (fun x => x * c) l) = Rsum l * c.
Proof.
  induction l as [|x l IH]; cbn [map]; rewrite ?Rsum_nil, ?Rsum_cons; [lra|].
  rewrite IH. lra.
Qed.

Lemma Rsum_map_minus c l : Rsum (map (fun x => x - c) l) = Rsum l - INR (length l) * c.
Proof.
  induction l as [|x l IH]; [cbn; lra|].
  cbn [map length]. rewrite S_INR, !Rsum_cons, IH. lra.
Qed.

Lemma Rsum_nonneg l : Forall (fun x => 0 <= x) l → 0 <= Rsum l.
Proof. induction 1; rewrite ?Rsum_nil, ?Rsum_cons; lra. Qed.

Lemma Rsum_pos l : l ≠ [] → Forall (fun x => 0 < x) l → 0 < Rsum l.
Proof.
  intros Hl HF. destruct HF as [|x l Hx HF]; [done|].
  rewrite Rsum_cons. assert (0 <= Rsum l); [|lra].
  apply Rsum_nonneg. eapply Forall_impl; [exact HF|]. cbn. intros; lra.
Qed.

Lemma INR_length_pos {X} (l : list X) : l ≠ [] → 0 < INR (length l).
Proof. destruct l; [done|]. intros _. apply lt_0_INR. cbn. lia. Qed.

(** *** Layer normalisation *)

Lemma normalize_R eps x :
  LayerNorm.normalize eps x = map (fun xi => (xi - mean x) / sqrt (variance x + eps)) x.
Proof. unfold LayerNorm.normalize. rewrite !vmean_mean. reflexivity. Qed.

Lemma mean_normalize eps x : x ≠ [] → mean (LayerNorm.normalize eps x) = 0.
Proof.
  intros Hx. rewrite normalize_R. unfold mean at 1. rewrite length_map.
  pose proof (INR_length_pos x Hx) as Hn.
  replace (map (fun xi => (xi - mean x) / sqrt (variance x + eps)) x)
    with (map (fun y => y * / sqrt (variance x + eps)) (map (fun xi => xi - mean x) x)).
  2:{ rewrite map_map. reflexivity. }
  rewrite Rsum_map_scale, Rsum_map_minus. unfold mean.
  replace (Rsum x - INR (length x) * (Rsum x / INR (length x))) with 0 by (field; lra).
  unfold Rdiv. ring.
Qed.

Lemma variance_nonneg x : x ≠ [] → 0 <= variance x.
Proof.
  intros Hx. unfold variance, mean at 1. rewrite length_map.
  apply Rmult_le_pos.
  - apply Rsum_nonneg. apply Forall_fmap, Forall_true. intros y. cbn.
    apply Rle_0_sqr.
  - left. apply Rinv_0_lt_compat, INR_length_pos, Hx.
Qed.

Lemma variance_normalize eps x :
  x ≠ [] → 0 < eps →
  variance (LayerNorm.normalize eps x) = variance x / (variance x + eps).
Proof.
  intros Hx Heps. unfold variance at 1. rewrite (mean_normalize _ _ Hx).
  rewrite normalize_R. pose proof (variance_nonneg x Hx) as Hv.
  unfold mean at 1. rewrite !length_map. rewrite map_map.
  pose proof (INR_length_pos x Hx) as Hn.
  assert (Hd : sqrt (variance x + eps) * sqrt (variance x + eps) = variance x + eps)
    by (apply sqrt_sqrt; lra).
  set (d := sqrt (variance x + eps)) in *.
  assert (Hd0 : d ≠ 0) by (intros H0; rewrite H0 in Hd; lra).
  replace (map (fun xi => ((xi - mean x) / d - 0) * ((xi - mean x) / d - 0)) x)
    with (map (fun y => y * / (d * d)) (map (fun xi => (xi - mean x) * (xi - mean x)) x)).
  2:{ rewrite map_map. apply map_ext. intros y. field. exact Hd0. }
  rewrite Rsum_map_scale, Hd.
  assert (Hvar : Rsum (map (fun xi => (xi - mean x) * (xi - mean x)) x)
                 = variance x * INR (length x)).
  { unfold variance. rewrite mean_map. field. lra. }
  rewrite Hvar. field. split; lra.
Qed.

Lemma LayerNorm_forward_R h (m : LayerNorm.t R) (x : list R) n :
  LayerNorm_wf h n m → length x = n →
  LayerNorm.forward h m x =
  Ok (zip_with Rplus
        (zip_with Rmult (hvec h (LayerNorm.weight m))
                  (LayerNorm.normalize (LayerNorm.variance_epsilon m) x))
        (hvec h (LayerNorm.bias m))).
Proof.
  intros [Hw Hb] Hx. unfold LayerNorm.forward, vzip.
  rewrite decide_True by (rewrite LayerNorm_normalize_length; congruence).
  cbn. rewrite decide_True; [done|].
  rewrite length_zip_with, LayerNorm_normalize_length. lia.
Qed.


(** *** The attention mask *)

Lemma softmax_R x : softmax x = map (fun ei => ei / Rsum (map exp x)) (map exp x).
Proof. reflexivity. Qed.

Lemma softmax_pos x : Forall (fun p => 0 < p) (softmax x).
Proof.
  rewrite softmax_R. destruct (decide (x = [])) as [->|Hx]; [constructor|].
  assert (Hs : 0 < Rsum (map exp x)).
  { apply Rsum_pos; [by destruct x|]. apply Forall_fmap, Forall_true. intros y. apply exp_pos. }
  apply Forall_fmap, Forall_fmap, Forall_true. intros y. cbn.
  apply Rdiv_lt_0_compat; [apply exp_pos|exact Hs].
Qed.

Lemma softmax_sum x : x ≠ [] → Rsum (softmax x) = 1.
Proof.
  intros Hx. rewrite softmax_R.
  assert (Hs : 0 < Rsum (map exp x)).
  { apply Rsum_pos; [by destruct x|]. apply Forall_fmap, Forall_true. intros y. apply exp_pos. }
  change (fun ei => ei / Rsum (map exp x)) with (fun ei => ei * / Rsum (map exp x)).
  rewrite Rsum_map_scale. field. lra.
Qed.

(** The additive bias of one mask value: [(1.0 - v) * -10000.0]. *)
Lemma extended_attention_mask_R (wm em : list (list Z)) :
  length wm = length em →
  LukeModel.extended_attention_mask wm em =
  Ok (map (map (fun v => (1 - IZR v) * -10000)) (zip_with app wm em)).
Proof.
  intros Hlen. unfold LukeModel.extended_attention_mask.
  rewrite zipM_app by done. cbn. f_equal.
  rewrite <- list_fmap_compose. apply list_fmap_ext. intros _ row _. cbn.
  rewrite <- list_fmap_compose. reflexivity.
Qed.

(** C5.  [LukeModel.forward] concatenates the word and the entity attention
    mask along the sequence axis and turns every mask value [v] into the
    additive bias [(1 - v) * -10000]: a position with mask value 1 gets bias
    0 and a position with mask value 0 gets bias exactly -10000, a finite
    real number.  In [SelfAttention], the row of biases is added to every
    row of scaled scores, and the probabilities are the softmax of the
    sums. *)
Theorem attention_mask_additive_bias (wm em : list (list Z)) b w e :
  is_mat b w wm → is_mat b e em →
  ∃ ext,
    LukeModel.extended_attention_mask wm em = Ok ext ∧
    is_mat b (w + e) ext ∧
    (∀ i j rw re v, wm !! i = Some rw → em !! i = Some re → (rw ++ re) !! j = Some v →
       ∃ bias, ext !! i ≫= (.!! j) = Some bias ∧
               (v = 1%Z → bias = 0) ∧ (v = 0%Z → bias = -10000)) ∧
    (∀ h (m : SelfAttention.t R) x k probs,
       SelfAttention.attention_probs h m x k = Ok probs →
       ∃ scores, SelfAttention.scaled_scores h m x = Ok scores ∧
                 Forall (Forall (fun row => length row = length k)) scores ∧
                 probs = map (map (fun row => softmax (zip_with Rplus row k))) scores).
Proof.
  intros Hwm Hem.
  destruct (extended_attention_mask_returns (A:=R) wm em b w e Hwm Hem) as (ext & Hext & Hshape).
  exists ext. split; [exact Hext|]. split; [exact Hshape|]. split.
  - intros i j rw re v Hrw Hre Hv.
    rewrite extended_attention_mask_R in Hext by (destruct Hwm, Hem; congruence).
    injection Hext as <-.
    exists ((1 - IZR v) * -10000).
    rewrite list_lookup_fmap.
    rewrite (proj2 (lookup_zip_with_Some app wm em i (rw ++ re))) by eauto.
    cbn. rewrite list_lookup_fmap, Hv. cbn.
    split; [done|]. split; intros ->; lra.
  - intros h m x k probs. unfold SelfAttention.attention_probs.
    destruct (SelfAttention.scaled_scores h m x) as [sc|err]; cbn; [|done].
    destruct (mapM _ sc) as [sc'|err] eqn:Hsc'; cbn; [|done].
    intros [= <-]. exists sc. split; [done|].
    apply mapM_Ok_Forall2 in Hsc'.
    assert (Hrows : Forall2 (fun mt mt' =>
                      Forall (fun row => length row = length k) mt ∧
                      mt' = map (fun row => zip_with Rplus row k) mt) sc sc').
    { eapply Forall2_impl; [exact Hsc'|]. cbn. intros mt mt' Hmt.
      apply mapM_Ok_Forall2 in Hmt. clear Hsc'.
      induction Hmt as [|row row' mt mt' Hrow _ IH]; [by split|].
      destruct IH as [IH1 IH2]. unfold vzip in Hrow.
      destruct (decide (length row = length k)) as [Hl|]; [|done].
      injection Hrow as <-. split; [by constructor|]. cbn. by rewrite IH2. }
    clear Hsc'. induction Hrows as [|mt mt' sc sc' [H1 H2] _ [IH1 IH2]]; [by split|].
    split; [by constructor|]. cbn. rewrite IH2, H2.
    f_equal. rewrite <- list_fmap_compose. reflexivity.
Qed.

(** *** The position embedding of an entity *)

Lemma zip_with_Rplus_zeros n (r : list R) :
  length r = n → zip_with Rplus (replicate n 0) r = r.
Proof.
  revert r. induction n as [|n IH]; intros [|x r] Hl; cbn in *; try done.
  rewrite IH by lia. f_equal. lra.
Qed.

Lemma map_scale_zero (r : list R) : map (fun v => v * 0) r = replicate (length r) 0.
Proof. induction r as [|x r IH]; cbn; [done|]. rewrite IH. f_equal. lra. Qed.

Lemma map_scale_one (r : list R) : map (fun v => v * 1) r = r.
Proof. induction r as [|x r IH]; cbn; [done|]. rewrite IH. f_equal. lra. Qed.

Lemma sum_rows_cons n (r : list R) rows :
  sum_rows n (r :: rows) = zip_with Rplus r (sum_rows n rows).
Proof. reflexivity. Qed.

Lemma sum_rows_nil n : sum_rows n [] = replicate n 0.
Proof. reflexivity. Qed.

Lemma slot_lookup h (m : EntityEmbeddings.t R) n d (p : Z) :
  Embedding_wf h n d (EntityEmbeddings.position_embeddings m) →
  (-1 <= p < Z.of_nat n)%Z → (0 < n)%nat →
  Embedding.forward h (EntityEmbeddings.position_embeddings m) (Z.max p 0)
  = Ok (slot_row h m p) ∧ length (slot_row h m p) = d.
Proof.
  intros (Hn' & Hd & Hl & Hr) Hp Hn. unfold slot_row, Embedding.forward.
  rewrite decide_True by (rewrite Hn'; lia).
  destruct (lookup_lt_is_Some_2
              (hmat h (Embedding.weight (EntityEmbeddings.position_embeddings m)))
              (Z.to_nat (Z.max p 0))) as [row Hrow]; [lia|].
  rewrite Hrow. cbn. split; [done|]. exact (Forall_lookup_1 _ _ _ _ Hr Hrow).
Qed.

Lemma slots_lookup h (m : EntityEmbeddings.t R) n d (slots : list Z) :
  Embedding_wf h n d (EntityEmbeddings.position_embeddings m) →
  Forall (fun p => (-1 <= p < Z.of_nat n)%Z) slots → (0 < n)%nat →
  mapM (fun p => Embedding.forward h (EntityEmbeddings.position_embeddings m) (Z.max p 0))
       slots = Ok (map (slot_row h m) slots).
Proof.
  intros Hwf Hr Hn. induction Hr as [|p slots Hp _ IH]; cbn; [done|].
  destruct (slot_lookup h m n d p Hwf Hp Hn) as [-> _]. cbn. rewrite IH. done.
Qed.

Lemma valid_lookup h (m : EntityEmbeddings.t R) n d (l : list Z) :
  Embedding_wf h n d (EntityEmbeddings.position_embeddings m) →
  Forall (fun p => (0 <= p < Z.of_nat n)%Z) l →
  mapM (Embedding.forward h (EntityEmbeddings.position_embeddings m)) l
  = Ok (map (slot_row h m) l).
Proof.
  intros Hwf Hv. induction Hv as [|p l Hp _ IH]; cbn; [done|].
  destruct (slot_lookup h m n d p Hwf) as [Hrow _]; [lia|lia|].
  rewrite Z.max_l in Hrow by lia. rewrite Hrow. cbn. rewrite IH. done.
Qed.

Lemma filter_all_sentinel (l : list Z) :
  Forall (fun p => p = (-1)%Z) l → filter (fun p => p ≠ (-1)%Z) l = [].
Proof.
  induction 1 as [|p l Hp _ IH]; [done|].
  rewrite filter_cons. destruct (decide (p ≠ (-1)%Z)); [done|exact IH].
Qed.

Lemma map_div_zeros (c : R) (d : nat) :
  map (fun v => v / c) (replicate d 0) = replicate d 0.
Proof.
  induction d as [|d IH]; [done|]. cbn [replicate map]. rewrite IH. f_equal.
  unfold Rdiv. ring.
Qed.

Lemma masked_sum_valid h (m : EntityEmbeddings.t R) n d (slots : list Z) :
  Embedding_wf h n d (EntityEmbeddings.position_embeddings m) →
  Forall (fun p => (-1 <= p < Z.of_nat n)%Z) slots → (0 < n)%nat →
  sum_rows d (zip_with (fun e mk => map (fun v => v * mk) e)
                       (map (slot_row h m) slots)
                       (map EntityEmbeddings.position_embedding_mask slots))
  = sum_rows d (map (slot_row h m) (filter (fun p => p ≠ (-1)%Z) slots)) ∧
  length (sum_rows d (map (slot_row h m) (filter (fun p => p ≠ (-1)%Z) slots))) = d.
Proof.
  intros Hwf Hr Hn. induction Hr as [|p slots Hp _ [IH IHl]].
  - cbn. split; [done|]. by rewrite length_replicate.
  - destruct (slot_lookup h m n d p Hwf Hp Hn) as [_ Hlen].
    cbn [map zip_with]. rewrite sum_rows_cons, IH.
    unfold EntityEmbeddings.position_embedding_mask at 1.
    rewrite filter_cons. destruct (decide (p ≠ (-1)%Z)) as [Hv|Hv].
    + cbn [map]. rewrite sum_rows_cons.
      change (of_Z 1) with 1. rewrite map_scale_one. split; [done|].
      rewrite length_zip_with, IHl, Hlen. lia.
    + change (of_Z 0) with 0. rewrite map_scale_zero, Hlen.
      rewrite zip_with_Rplus_zeros by done. done.
Qed.

Lemma mask_count (slots : list Z) :
  Rsum (map EntityEmbeddings.position_embedding_mask slots)
  = INR (length (filter (fun p => p ≠ (-1)%Z) slots)).
Proof.
  induction slots as [|p slots IH]; [done|].
  cbn [map]. rewrite Rsum_cons, IH, filter_cons.
  unfold EntityEmbeddings.position_embedding_mask.
  destruct (decide (p ≠ (-1)%Z)).
  - cbn [length]. rewrite S_INR. change (of_Z 1) with 1. lra.
  - change (of_Z 0) with 0. lra.
Qed.

(** C4.  In [EntityEmbeddings.forward], the position contribution of an
    entity is the sum of the position embeddings of its valid slots (those
    different from [-1]) divided by their number [k] plus [1e-12].  The
    divisor is never zero, so the division is defined; for an entity whose
    slots are all [-1] every slot is masked, the masked sum is zero and the
    contribution is the zero vector. *)
Theorem entity_position_average h (m : EntityEmbeddings.t R) (slots : list Z) n d :
  Embedding_wf h n d (EntityEmbeddings.position_embeddings m) →
  Forall (fun p => (-1 <= p < Z.of_nat n)%Z) slots → (0 < n)%nat →
  let valid := filter (fun p => p ≠ (-1)%Z) slots in
  let k := length valid in
  INR k + 1e-12 ≠ 0 ∧
  (∃ rows,
      mapM (Embedding.forward h (EntityEmbeddings.position_embeddings m)) valid = Ok rows ∧
      length rows = k ∧
      EntityEmbeddings.entity_position h m slots
      = Ok (map (fun v => v / (INR k + 1e-12)) (sum_rows d rows))) ∧
  (Forall (fun p => p = (-1)%Z) slots →
   EntityEmbeddings.entity_position h m slots = Ok (replicate d 0)).
Proof.
  intros Hwf Hr Hn valid k.
  assert (Hk : 0 <= INR k) by apply pos_INR.
  assert (Hdiv : INR k + 1e-12 ≠ 0) by lra.
  assert (Hpos : EntityEmbeddings.entity_position h m slots
                 = Ok (map (fun v => v / (INR k + 1e-12))
                           (sum_rows d (map (slot_row h m) valid)))).
  { unfold EntityEmbeddings.entity_position.
    rewrite (slots_lookup h m n d slots Hwf Hr Hn). cbn.
    pose proof Hwf as (_ & Hd & _). rewrite Hd.
    destruct (masked_sum_valid h m n d slots Hwf Hr Hn) as [-> _].
    rewrite vsum_Rsum, mask_count. reflexivity. }
  split; [exact Hdiv|]. split.
  - exists (map (slot_row h m) valid). split; [|split; [by rewrite length_map|exact Hpos]].
    assert (Hv : Forall (fun p => (0 <= p < Z.of_nat n)%Z) valid).
    { unfold valid. apply Forall_forall. intros p Hp.
      apply list_elem_of_filter in Hp as [Hne Hin].
      rewrite Forall_forall in Hr. specialize (Hr p Hin). lia. }
    by eapply valid_lookup.
  - intros Hall. rewrite Hpos.
    assert (Hnil : valid = []) by (by apply filter_all_sentinel).
    unfold k. rewrite Hnil. cbn [map]. rewrite sum_rows_nil.
    f_equal. apply map_div_zeros.
Qed.

(** *** Joint attention *)

Lemma attention_probs_distribution h (m : SelfAttention.t R) x k probs :
  SelfAttention.attention_probs h m x k = Ok probs →
  Forall (Forall (fun row => Forall (fun p => 0 < p) row ∧ (row ≠ [] → Rsum row = 1))) probs.
Proof.
  unfold SelfAttention.attention_probs.
  destruct (SelfAttention.scaled_scores h m x) as [sc|err]; cbn; [|done].
  destruct (mapM _ sc) as [sc'|err]; cbn; [|done].
  intros [= <-]. apply Forall_fmap, Forall_true. intros mt. cbn.
  apply Forall_fmap, Forall_true. intros row. cbn. split; [apply softmax_pos|].
  intros Hrow. apply softmax_sum. intros ->. by apply Hrow.
Qed.

Ltac exp_zero :=
  repeat match goal with
         | |- context [exp ?x] =>
             lazymatch x with
             | 0 => fail
             | _ => replace x with 0 by field
             end
         end;
  rewrite ?exp_0.

Lemma attention_1_values (a b : R) :
  SelfAttention.forward attention_1_heap attention_1 eval_mode [[[a]]] [[[b]]] [[0; 0]]
  = Ok ([[[(a + b) / 2]]], [[[(a + b) / 2]]]).
Proof.
  cbv -[Rplus Rmult Rdiv Rminus Rinv exp sqrt IZR].
  rewrite sqrt_1. exp_zero.
  match goal with
  | |- Ok ([[[?X]]], [[[?Y]]]) = _ =>
      replace X with ((a + b) / 2) by field; replace Y with ((a + b) / 2) by field
  end.
  reflexivity.
Qed.

(** C1.  For a word stream of length [w] and an entity stream of length
    [e], [SelfAttention.forward] returns a word output of length [w] and an
    entity output of length [e]: for every batch element they are the [w]
    first and the remaining rows of one context, computed by
    [joint_context] from the concatenation of the two streams, of length
    [w + e].  Every position of that context has a row of attention
    probabilities over all [w + e] positions of the joint sequence, each
    positive, of sum 1.  The outputs depend on both streams: in the block
    [attention_1], the word output changes with the entity stream, and the
    entity output with the word stream. *)
Theorem SelfAttention_forward_joint h hidden (m : SelfAttention.t R) md
    (word entity : list (list (list R))) (mask : list (list R)) b w e :
  SelfAttention_wf h hidden m →
  is_t3 b w hidden word → is_t3 b e hidden entity → is_mat b (w + e) mask →
  (∃ wo eo,
      SelfAttention.forward h m md word entity mask = Ok (wo, eo) ∧
      is_t3 b w (SelfAttention.all_head_size m) wo ∧
      is_t3 b e (SelfAttention.all_head_size m) eo ∧
      ∀ i x y k, word !! i = Some x → entity !! i = Some y → mask !! i = Some k →
        ∃ ctx probs,
          SelfAttention.joint_context h m (at_site i md) (x ++ y) k = Ok ctx ∧
          length ctx = (w + e)%nat ∧
          wo !! i = Some (take w ctx) ∧ eo !! i = Some (drop w ctx) ∧
          SelfAttention.attention_probs h m (x ++ y) k = Ok probs ∧
          is_t3 (SelfAttention.num_attention_heads m) (w + e) (w + e) probs ∧
          Forall (Forall (fun row => Forall (fun p => 0 < p) row ∧ Rsum row = 1)) probs) ∧
  (∀ a b b' : R,
      b ≠ b' →
      ∃ wo eo wo' eo',
        SelfAttention.forward attention_1_heap attention_1 eval_mode
                              [[[a]]] [[[b]]] [[0; 0]] = Ok (wo, eo) ∧
        SelfAttention.forward attention_1_heap attention_1 eval_mode
                              [[[a]]] [[[b']]] [[0; 0]] = Ok (wo', eo') ∧
        SelfAttention.forward attention_1_heap attention_1 eval_mode
                              [[[b]]] [[[a]]] [[0; 0]] = Ok (eo, wo) ∧
        wo ≠ wo' ∧ eo ≠ eo').
Proof.
  intros Hwf Hword Hent Hmask. split.
  - destruct (SelfAttention_forward_split h hidden m md word entity mask b w e
                Hwf Hword Hent Hmask) as (wo & eo & Hfw & Hwo & Heo & Hsplit).
    exists wo, eo. split; [exact Hfw|]. split; [exact Hwo|]. split; [exact Heo|].
    intros i x y k Hx Hy Hk.
    destruct (Hsplit i x y k Hx Hy Hk) as (ctx & Hctx & Hlen & Hwi & Hei).
    assert (Hxy : is_mat (w + e) hidden (x ++ y)).
    { destruct Hword as [_ Hwr], Hent as [_ Her].
      destruct (Forall_lookup_1 _ _ _ _ Hwr Hx) as [H1 H1r].
      destruct (Forall_lookup_1 _ _ _ _ Her Hy) as [H2 H2r].
      split; [rewrite length_app; lia|by apply Forall_app]. }
    assert (Hkl : length k = (w + e)%nat).
    { destruct Hmask as [_ Hmr]. exact (Forall_lookup_1 _ _ _ _ Hmr Hk). }
    destruct (attention_probs_returns h hidden m (x ++ y) k (w + e) Hwf Hxy Hkl)
      as (probs & Hprobs & Hps).
    exists ctx, probs. split_and!; try done.
    pose proof (attention_probs_distribution h m _ _ _ Hprobs) as Hdist.
    destruct Hps as [_ Hpr].
    apply Forall_lookup_2. intros a mt Hmt.
    pose proof (Forall_lookup_1 _ _ _ _ Hdist Hmt) as Hd.
    destruct (Forall_lookup_1 _ _ _ _ Hpr Hmt) as [Hmtl Hmtr].
    apply Forall_lookup_2. intros j row Hrow.
    destruct (Forall_lookup_1 _ _ _ _ Hd Hrow) as [Hp Hs].
    split; [exact Hp|]. apply Hs. intros ->.
    pose proof (Forall_lookup_1 _ _ _ _ Hmtr Hrow) as Hrl. cbn in Hrl.
    apply lookup_lt_Some in Hrow. lia.
  - intros a0 b0 b0' Hne.
    exists [[[(a0 + b0) / 2]]], [[[(a0 + b0) / 2]]], [[[(a0 + b0') / 2]]], [[[(a0 + b0') / 2]]].
    rewrite !attention_1_values.
    split_and!; try done.
    + replace (b0 + a0) with (a0 + b0) by ring. reflexivity.
    + intros [= Heq]. lra.
    + intros [= Heq]. lra.
Qed.

End Real.

(** ** Instances of the statements on real numbers *)



Lemma attention_mask_additive_bias_witness :
  ∃ ext, LukeModel.extended_attention_mask (A:=R) [[1; 0]%Z] [[1]%Z] = Ok ext ∧
         is_mat 1 3 ext.
Proof.
  destruct (attention_mask_additive_bias [[1; 0]%Z] [[1]%Z] 1 2 1) as (ext & H1 & H2 & _).
  - split; [reflexivity|]. repeat constructor.
  - split; [reflexivity|]. repeat constructor.
  - exists ext. split; [exact H1|exact H2].
Defined.

Lemma entity_position_average_witness :
  EntityEmbeddings.entity_position entity_positions_3_heap entity_positions_3
                                   [(-1)%Z; (-1)%Z]
  = Ok [0%R; 0%R].
Proof.
  refine (proj2 (proj2 (entity_position_average entity_positions_3_heap entity_positions_3
                          [(-1)%Z; (-1)%Z] 3 2 _ _ _)) _).
  - split; [reflexivity|]. split; [reflexivity|]. split; [reflexivity|]. repeat constructor.
  - repeat constructor; lia.
  - lia.
  - repeat constructor.
Defined.

Lemma SelfAttention_forward_joint_witness :
  ∃ wo eo,
    SelfAttention.forward attention_1_heap attention_1 eval_mode
                          [[[1%R]; [2%R]]] [[[3%R]]] [[0%R; 0%R; 0%R]] = Ok (wo, eo) ∧
    is_t3 1 2 1 wo ∧ is_t3 1 1 1 eo.
Proof.
  destruct (SelfAttention_forward_joint attention_1_heap 1 attention_1 eval_mode
              [[[1%R]; [2%R]]] [[[3%R]]] [[0%R; 0%R; 0%R]] 1 2 1)
    as [(wo & eo & H1 & H2 & H3 & _) _].
  - split; [reflexivity|]. repeat split; repeat constructor.
  - split; [reflexivity|]. repeat constructor.
  - split; [reflexivity|]. repeat constructor.
  - split; [reflexivity|]. repeat constructor.
  - exists wo, eo. split; [exact H1|]. split; [exact H2|exact H3].
Defined.

(** ** The base model without entities *)

Section EntityFree.
Context {A : Type} `{!Scalar A}.

Lemma is_mat_empty_rows {X} b : is_mat (X:=X) b 0 (replicate b []).
Proof. split; [by rewrite length_replicate|]. apply Forall_replicate. done. Qed.


End EntityFree.



(** ** The masked positions of the pretraining heads *)

Section Masked.
Context {A : Type} `{!Scalar A}.

Lemma zipM_pure {X Y Z} (f : X → Y → Z) (xs : list X) (ys : list Y) :
  length xs = length ys →
  zipM (fun x y => Ok (f x y)) xs ys = Ok (zip_with f xs ys).
Proof.
  intros Hlen. unfold zipM. rewrite decide_True by done. clear Hlen.
  revert ys. induction xs as [|x xs IH]; intros [|y ys]; cbn; try done.
  rewrite IH. done.
Qed.

Lemma select_row {X} (row : list X) (lrow : list Z) :
  length row = length lrow →
  concat (zip_with (fun v (b : bool) => if b then [v] else [])
                   row (map (fun l => bool_decide (l ≠ (-1)%Z)) lrow))
  = map snd (filter (fun p : Z * X => p.1 ≠ (-1)%Z) (zip lrow row)).
Proof.
  revert lrow. induction row as [|v row IH]; intros [|l lrow] Hlen; try done.
  cbn [map zip_with concat]. change (zip (l :: lrow) (v :: row)) with ((l, v) :: zip lrow row).
  rewrite filter_cons. cbn [fst]. rewrite IH by (cbn in Hlen; lia).
  destruct (decide (l ≠ (-1)%Z)) as [Hl|Hl].
  - rewrite bool_decide_true by done. done.
  - rewrite bool_decide_false by done. done.
Qed.

Lemma select_rows {X} (x : list (list X)) (labels : list (list Z)) e :
  Forall (fun r => length r = e) x → Forall (fun r => length r = e) labels →
  length x = length labels →
  concat (concat (zip_with (fun row lrow =>
                    zip_with (fun v (b0 : bool) => if b0 then [v] else [])
                             row (map (fun l => bool_decide (l ≠ (-1)%Z)) lrow))
                  x labels))
  = map snd (filter (fun p : Z * X => p.1 ≠ (-1)%Z) (zip (concat labels) (concat x))).
Proof.
  intros Hxr. revert labels.
  induction Hxr as [|row x Hrow _ IH]; intros [|lrow labels] Hlr Hlen; try done.
  apply Forall_cons in Hlr as [Hlrow Hlr].
  cbn [zip_with concat]. rewrite concat_app, IH by (cbn in Hlen; done || lia).
  rewrite zip_with_app by congruence. rewrite filter_app, map_app.
  rewrite select_row by congruence. done.
Qed.

Lemma select_rows_zipM {X} (x : list (list X)) (labels : list (list Z)) e :
  Forall (fun r => length r = e) x → Forall (fun r => length r = e) labels →
  length x = length labels →
  mapM (fun xy : list X * list bool =>
          zipM (fun v (b0 : bool) => Ok (if b0 then [v] else [])) xy.1 xy.2)
       (zip x (map (map (fun l => bool_decide (l ≠ (-1)%Z))) labels))
  = Ok (zip_with (fun row lrow =>
                    zip_with (fun v (b0 : bool) => if b0 then [v] else [])
                             row (map (fun l => bool_decide (l ≠ (-1)%Z)) lrow))
                 x labels).
Proof.
  intros Hxr. revert labels.
  induction Hxr as [|row x Hrow _ IH]; intros [|lrow labels] Hlr Hlen; try done.
  apply Forall_cons in Hlr as [Hlrow Hlr].
  cbn [map zip zip_with mapM fst snd].
  change (zip (row :: x) (map (fun l => bool_decide (l ≠ (-1)%Z)) lrow ::
                              map (map (fun l => bool_decide (l ≠ (-1)%Z))) labels))
    with ((row, map (fun l => bool_decide (l ≠ (-1)%Z)) lrow) ::
          zip x (map (map (fun l => bool_decide (l ≠ (-1)%Z))) labels)).
  cbn [mapM fst snd].
  rewrite zipM_pure by (rewrite length_map; congruence). cbn.
  rewrite IH by (cbn in Hlen; done || lia). done.
Qed.

Lemma masked_select2_returns {X} (x : list (list X)) (labels : list (list Z)) b e :
  is_mat b e x → is_mat b e labels →
  masked_select2 x (label_mask labels) = Ok (map snd (masked_positions labels x)).
Proof.
  intros [Hx Hxr] [Hl Hlr]. unfold masked_select2, masked_positions, label_mask.
  unfold zipM at 1. rewrite decide_True by (rewrite length_map; congruence).
  rewrite (select_rows_zipM x labels e) by (done || congruence). cbn.
  rewrite (select_rows x labels e) by (done || congruence). done.
Qed.

Lemma masked_positions_labels {X} (x : list (list X)) (labels : list (list Z)) b e :
  is_mat b e x → is_mat b e labels →
  map fst (masked_positions labels x) = filter (fun l => l ≠ (-1)%Z) (concat labels).
Proof.
  intros [Hx Hxr] [Hl Hlr]. unfold masked_positions.
  assert (Hlen : length (concat labels) = length (concat x)).
  { rewrite (concat_length_const _ e), (concat_length_const _ e) by done. congruence. }
  revert Hlen. generalize (concat x) (concat labels). clear.
  intros xs ls. revert xs. induction ls as [|l ls IH]; intros [|v xs] Hlen; try done.
  change (zip (l :: ls) (v :: xs)) with ((l, v) :: zip ls xs).
  rewrite !filter_cons. cbn [fst].
  destruct (decide (l ≠ (-1)%Z)); cbn [map fst]; rewrite IH by (cbn in Hlen; lia); done.
Qed.

Lemma chunks_concat (rows : list (list A)) fuel n :
  0 < n → Forall (fun r => length r = n) rows → length rows ≤ fuel →
  chunks fuel n (concat rows) = rows.
Proof.
  intros Hn Hr. revert fuel. induction Hr as [|r rows Hrl _ IH]; intros fuel Hf; cbn.
  - by destruct fuel.
  - destruct fuel as [|fuel]; [cbn in Hf; lia|]. cbn.
    destruct (r ++ concat rows) eqn:Happ.
    { apply app_eq_nil in Happ as [-> _]. cbn in Hrl. lia. }
    rewrite <- Happ. rewrite take_app_length' by done. rewrite drop_app_length' by done.
    rewrite IH by (cbn in Hf; lia). done.
Qed.

Lemma view_rows_concat (rows : list (list A)) n :
  0 < n → Forall (fun r => length r = n) rows → view_rows n (concat rows) = Ok rows.
Proof.
  intros Hn Hr. unfold view_rows.
  rewrite decide_False by lia.
  rewrite (concat_length_const _ n) by done.
  rewrite decide_True by (apply Nat.Div0.mod_mul).
  rewrite chunks_concat; [done|done|done|]. nia.
Qed.

(** A head acts on every row by itself. *)
Lemma mapM_bind_Ok {X Y Z} (f : X → result Y) (g : Y → result Z) (l : list X) (out : list Z) :
  (mapM f l ≫= mapM g) = Ok out ↔ mapM (fun x => f x ≫= g) l = Ok out.
Proof.
  revert out. induction l as [|x l IH]; intros out; cbn; [done|].
  destruct (f x) as [y|err]; cbn; [|done].
  destruct (mapM f l) as [ys|err] eqn:Hys; cbn in *.
  - destruct (g y) as [z|err]; cbn; [|done].
    destruct (mapM g ys) as [zs|e1], (mapM (fun x0 => f x0 ≫= g) l) as [zs'|e2]; cbn.
    + assert (Ok zs' = Ok zs) as [= ->] by (by apply IH). done.
    + assert (@Raise (list Z) e2 = Ok zs) by (by apply IH). done.
    + assert (@Raise (list Z) e1 = Ok zs') by (by apply IH). done.
    + done.
  - destruct (g y) as [z|e1]; cbn; [|done].
    destruct (mapM (fun x0 => f x0 ≫= g) l) as [zs'|e2]; cbn; [|done].
    assert (@Raise (list Z) err = Ok zs') by (by apply IH). done.
Qed.

Lemma mapM_map_Ok {X Y Z} (f : X → result Y) (g : Y → Z) (l : list X) :
  (ys ← mapM f l; Ok (map g ys)) = mapM (fun x => y ← f x; Ok (g y)) l.
Proof.
  induction l as [|x l IH]; cbn; [done|].
  destruct (f x) as [y|err]; cbn; [|done].
  rewrite <- IH. destruct (mapM f l); done.
Qed.

Lemma map_mapM {X Y Z} (g : X → Y) (f : Y → result Z) (l : list X) :
  mapM f (map g l) = mapM (fun x => f (g x)) l.
Proof. induction l as [|x l IH]; cbn; [done|]. by rewrite IH. Qed.

Lemma mapM_ext_Ok {X Y} (f g : X → result Y) (l : list X) :
  (∀ x, f x = g x) → mapM f l = mapM g l.
Proof. intros Hfg. induction l as [|x l IH]; cbn; [done|]. by rewrite Hfg, IH. Qed.

Lemma mapM_bind_not_Ok {X Y Z} (f : X → result Y) (g : Y → result Z) (l : list X) e zs :
  mapM f l = Raise e → mapM (fun x => f x ≫= g) l ≠ Ok zs.
Proof.
  revert e zs. induction l as [|x l IH]; intros e zs; cbn; [done|].
  destruct (f x) as [y|]; cbn; [|done].
  destruct (mapM f l) as [ys|e'] eqn:E; cbn; [done|]. intros _.
  destruct (g y); cbn; [|done].
  destruct (mapM (fun x0 => f x0 ≫= g) l) as [zs'|] eqn:E2; cbn; [|done].
  exfalso. by eapply (IH e' zs').
Qed.

(** The body that the two prediction heads share is [head_row] on every row. *)
Lemma head_rows h (tr : PredictionHeadTransform.t A) (dec : Linear.t) (bias : ref)
    (rows out : list (list A)) :
  (hs ← PredictionHeadTransform.forward h tr rows;
   hs ← mapM (Linear.forward h dec) hs;
   mapM (fun row => vzip fadd row (hvec h bias)) hs) = Ok out ↔
  mapM (head_row h tr dec bias) rows = Ok out.
Proof.
  unfold PredictionHeadTransform.forward, head_row.
  set (f1 := Linear.forward h (PredictionHeadTransform.dense tr)).
  set (f2 := LayerNorm.forward h (PredictionHeadTransform.LayerNorm tr)).
  set (f3 := Linear.forward h dec).
  set (f4 := fun row => vzip fadd row (hvec h bias)).
  transitivity (mapM (fun x => f1 x ≫= (fun y => f2 (map gelu y))) rows
                ≫= mapM (fun x => f3 x ≫= f4) = Ok out).
  - destruct (mapM f1 rows) as [hs|err] eqn:H1; cbn.
    + rewrite map_mapM.
      assert (Heq : mapM (fun x => f1 x ≫= (fun y => f2 (map gelu y))) rows
                    = mapM (fun x => f2 (map gelu x)) hs).
      { clear -H1. revert hs H1. induction rows as [|r rows IH]; intros hs; cbn.
        - by intros [= <-].
        - destruct (f1 r) as [y|]; cbn; [|done].
          destruct (mapM f1 rows) as [ys|]; cbn; [|done].
          intros [= <-]. cbn. destruct (f2 (map gelu y)); cbn; [|done].
          by rewrite (IH ys). }
      rewrite Heq. destruct (mapM (fun x => f2 (map gelu x)) hs) as [hs2|err]; cbn; [|done].
      apply (mapM_bind_Ok f3 f4).
    + destruct (mapM (fun x => f1 x ≫= (fun y => f2 (map gelu y))) rows) as [zs|] eqn:E; cbn.
      * by destruct (mapM_bind_not_Ok f1 (fun y => f2 (map gelu y)) rows err zs H1).
      * done.
  - rewrite (mapM_bind_Ok _ (fun x => f3 x ≫= f4)).
    erewrite mapM_ext_Ok; [reflexivity|]. intros x. cbn.
    destruct (f1 x); cbn; [|done]. destruct (f2 _); done.
Qed.

Lemma head_row_returns h hidden inner vocab (tr : PredictionHeadTransform.t A) dec bias r :
  head_wf h hidden inner vocab tr dec bias → length r = hidden →
  returns (head_row h tr dec bias r) (fun s => length s = vocab).
Proof.
  intros (Hd & Hln & Hdec & Hb) Hr. unfold head_row.
  eapply returns_bind; [by eapply Linear_forward_returns|]. intros x Hx.
  eapply returns_bind.
  { eapply LayerNorm_forward_returns; [exact Hln|]. by rewrite length_map. }
  intros y Hy.
  eapply returns_bind; [by eapply Linear_forward_returns|]. intros z Hz.
  by apply vzip_returns.
Qed.

Lemma masked_positions_same (labels : list Z) :
  map snd (filter (fun p : Z * Z => p.1 ≠ (-1)%Z) (zip labels labels))
  = filter (fun l => l ≠ (-1)%Z) labels.
Proof.
  induction labels as [|l labels IH]; [done|].
  change (zip (l :: labels) (l :: labels)) with ((l, l) :: zip labels labels).
  rewrite !filter_cons. cbn [fst].
  destruct (decide (l ≠ (-1)%Z)); cbn [map snd]; by rewrite IH.
Qed.

Lemma elem_of_concat {X} (x : X) (ls : list (list X)) :
  x ∈ concat ls → ∃ l, x ∈ l ∧ l ∈ ls.
Proof.
  induction ls as [|l ls IH]; cbn; [by intros ?%elem_of_nil|].
  rewrite elem_of_app. intros [Hx|Hx].
  - exists l. split; [done|by left].
  - destruct (IH Hx) as (l' & ? & ?). exists l'. split; [done|by right].
Qed.

Lemma masked_positions_rows {X} (x : list (list (list X))) (labels : list (list Z)) b e k :
  is_t3 b e k x → Forall (fun p => length p.2 = k) (masked_positions labels x).
Proof.
  intros [_ Hr]. unfold masked_positions.
  apply Forall_forall. intros [l r] Hin. cbn.
  apply list_elem_of_filter in Hin as [_ Hin].
  apply elem_of_zip_r in Hin.
  apply elem_of_concat in Hin as (mt & Hrm & Hmt).
  rewrite Forall_forall in Hr. destruct (Hr mt Hmt) as [_ Hmr].
  rewrite Forall_forall in Hmr. by apply Hmr.
Qed.

(** The scores and the labels of the masked positions: one score row per
    masked position, computed from its hidden state, in the order of the
    labels. *)
Lemma masked_scores_aligned h hidden inner vocab (tr : PredictionHeadTransform.t A) dec bias
    (head : list (list A) → result (list (list A)))
    (seq : list (list (list A))) (labels : list (list Z)) b e :
  (∀ rows out, head rows = Ok out ↔ mapM (head_row h tr dec bias) rows = Ok out) →
  head_wf h hidden inner vocab tr dec bias → 0 < hidden → 0 < vocab →
  is_t3 b e hidden seq → is_mat b e labels →
  ∃ scores,
    LukePretrainingModel.masked_scores head hidden vocab seq labels
    = Ok (scores, map fst (masked_positions labels seq)) ∧
    Forall2 (fun p s => head_row h tr dec bias p.2 = Ok s) (masked_positions labels seq) scores ∧
    Forall (fun s => length s = vocab) scores ∧
    length scores = count_masked labels ∧
    length (map fst (masked_positions labels seq)) = count_masked labels.
Proof.
  intros Hhead Hwf Hh Hv Hseq Hlab.
  assert (Hmat : is_mat b e seq).
  { destruct Hseq as [Hl Hr]. split; [done|].
    eapply Forall_impl; [exact Hr|]. by intros mt [? _]. }
  pose proof (masked_positions_rows seq labels b e hidden Hseq) as Hrows.
  pose proof (masked_positions_labels seq labels b e Hmat Hlab) as Hfst.
  set (pos := masked_positions labels seq) in *.
  destruct (returns_mapM (head_row h tr dec bias) (fun s => length s = vocab) (map snd pos))
    as (scores & Hscores & Hlen & Hsl).
  { apply Forall_fmap. eapply Forall_impl; [exact Hrows|]. cbn.
    intros p Hp. by eapply head_row_returns. }
  exists scores.
  assert (Hcount : length pos = count_masked labels).
  { unfold count_masked. rewrite <- Hfst. by rewrite length_map. }
  split; [|split; [|split; [exact Hsl|split]]].
  - unfold LukePretrainingModel.masked_scores, masked_select3.
    fold (label_mask labels).
    rewrite (masked_select2_returns seq labels b e Hmat Hlab). fold pos. cbn.
    rewrite view_rows_concat; [|done|].
    2:{ apply Forall_fmap. exact Hrows. }
    cbn. rewrite (proj2 (Hhead _ _) Hscores). cbn.
    rewrite view_rows_concat by done. cbn.
    rewrite (masked_select2_returns labels labels b e Hlab Hlab). cbn.
    unfold masked_positions. rewrite masked_positions_same.
    fold (masked_positions labels seq). fold pos. by rewrite Hfst.
  - apply mapM_Ok_Forall2 in Hscores.
    apply Forall2_fmap_l in Hscores. exact Hscores.
  - rewrite Hlen, length_map. exact Hcount.
  - rewrite length_map. exact Hcount.
Qed.

Lemma nll_row_returns (x : list A) (l : Z) :
  (-1 ≤ l < Z.of_nat (length x))%Z → ∃ o, nll_row x l = Ok o.
Proof.
  intros Hl. unfold nll_row. destruct (decide (l = (-1)%Z)); [by eexists|].
  rewrite decide_True by lia.
  destruct (lookup_lt_is_Some_2 x (Z.to_nat l)) as [xc ->]; [lia|]. by eexists.
Qed.

Lemma loss_fn_returns (scores : list (list A)) (labels : list Z) vocab :
  Forall (fun s => length s = vocab) scores → length scores = length labels →
  Forall (fun l => (-1 ≤ l < Z.of_nat vocab)%Z) labels →
  ∃ loss, loss_fn scores labels = Ok loss.
Proof.
  intros Hs Hlen Hl. unfold loss_fn. rewrite decide_True by done.
  destruct (returns_mapM (fun xl : list A * Z => nll_row xl.1 xl.2) (fun _ => True)
              (zip scores labels)) as (terms & -> & _).
  { apply Forall_forall. intros [x l] Hin. cbn.
    destruct (nll_row_returns x l) as [o Ho]; [|rewrite Ho; by apply returns_ok].
    pose proof (proj1 (Forall_forall _ _) Hs x (elem_of_zip_l _ _ _ _ Hin)) as Hx.
    pose proof (proj1 (Forall_forall _ _) Hl l (elem_of_zip_r _ _ _ _ Hin)) as Hll.
    cbn in Hx, Hll. rewrite Hx. exact Hll. }
  cbn. by eexists.
Qed.

Lemma count_correct_returns (scores : list (list A)) (labels : list Z) vocab :
  Forall (fun s => length s = vocab) scores → length scores = length labels → 0 < vocab →
  ∃ n, count_correct scores labels = Ok n.
Proof.
  intros Hs Hlen Hv. unfold count_correct.
  destruct (returns_mapM argmax (fun _ => True) scores) as (pred & -> & Hpl & _).
  { eapply Forall_impl; [exact Hs|]. cbn. intros [|y x] Hx; [cbn in Hx; lia|].
    by apply returns_ok. }
  cbn. rewrite zipM_pure by congruence. cbn. by eexists.
Qed.

Lemma filter_bool_decide_id (labels : list Z) :
  Forall (fun l => l ≠ (-1)%Z) labels →
  List.filter (fun l => bool_decide (l ≠ (-1)%Z)) labels = labels.
Proof.
  induction 1 as [|l labels Hl _ IH]; cbn; [done|].
  rewrite bool_decide_true by done. by rewrite IH.
Qed.

Lemma masked_prediction_returns h hidden inner vocab (tr : PredictionHeadTransform.t A)
    dec bias (head : list (list A) → result (list (list A)))
    (seq : list (list (list A))) (labels : list (list Z)) b e :
  (∀ rows out, head rows = Ok out ↔ mapM (head_row h tr dec bias) rows = Ok out) →
  head_wf h hidden inner vocab tr dec bias → 0 < hidden → 0 < vocab →
  is_t3 b e hidden seq → is_mat b e labels → labels_ok vocab labels →
  returns (LukePretrainingModel.masked_prediction head hidden vocab seq labels)
          (fun r => r.2 = Z.of_nat (count_masked labels)).
Proof.
  intros Hhead Hwf Hh Hv Hseq Hlab Hok.
  destruct (masked_scores_aligned h hidden inner vocab tr dec bias head seq labels b e
              Hhead Hwf Hh Hv Hseq Hlab) as (scores & Hsc & _ & Hsl & Hn1 & Hn2).
  unfold LukePretrainingModel.masked_prediction. rewrite Hsc. cbn.
  set (sel := map fst (masked_positions labels seq)) in *.
  assert (Hsel : sel = filter (fun l => l ≠ (-1)%Z) (concat labels)).
  { unfold sel. eapply masked_positions_labels; [|exact Hlab].
    destruct Hseq as [Hl Hr]. split; [done|].
    eapply Forall_impl; [exact Hr|]. by intros mt [? _]. }
  assert (Hne : Forall (fun l => l ≠ (-1)%Z) sel).
  { rewrite Hsel. apply Forall_forall. intros l Hin.
    by apply list_elem_of_filter in Hin as [? _]. }
  assert (Hrange : Forall (fun l => (-1 ≤ l < Z.of_nat vocab)%Z) sel).
  { rewrite Hsel. apply Forall_forall. intros l Hin.
    apply list_elem_of_filter in Hin as [_ Hin].
    apply elem_of_concat in Hin as (row & Hl & Hrow).
    unfold labels_ok in Hok. rewrite Forall_forall in Hok.
    specialize (Hok row Hrow). rewrite Forall_forall in Hok. by apply Hok. }
  destruct (loss_fn_returns scores sel vocab) as [loss ->]; [done|congruence|done|].
  destruct (count_correct_returns scores sel vocab) as [n ->]; [done|congruence|done|].
  cbn. apply returns_ok. cbn. rewrite filter_bool_decide_id by done. by rewrite Hn2.
Qed.

(** *** The dict of results *)

Lemma dict_get_set_eq {V} (d : dict V) k v : dict_get (dict_set d k v) k = Some v.
Proof.
  induction d as [|[k' v'] d IH]; cbn.
  - by rewrite decide_True.
  - destruct (decide (k' = k)) as [->|Hne]; cbn.
    + by rewrite decide_True.
    + by rewrite decide_False.
Qed.

Lemma dict_get_set_ne {V} (d : dict V) k k' v :
  k ≠ k' → dict_get (dict_set d k v) k' = dict_get d k'.
Proof.
  intros Hne. induction d as [|[k0 v0] d IH]; cbn.
  - by rewrite decide_False.
  - destruct (decide (k0 = k)) as [->|Hne0]; cbn.
    + by rewrite !decide_False.
    + destruct (decide (k0 = k')); [done|exact IH].
Qed.

Lemma item_set_new k o (st : LukePretrainingModel.out A) :
  LukePretrainingModel.item (LukePretrainingModel.set_new k o st) k = Some o.
Proof.
  unfold LukePretrainingModel.item, LukePretrainingModel.set_new. cbn.
  rewrite dict_get_set_eq. apply list_lookup_middle. done.
Qed.

Lemma item_set_item_ne k k' v (st : LukePretrainingModel.out A) :
  k ≠ k' →
  LukePretrainingModel.item (LukePretrainingModel.set_item k v st) k'
  = LukePretrainingModel.item st k'.
Proof.
  intros Hne. unfold LukePretrainingModel.item, LukePretrainingModel.set_item. cbn.
  by rewrite dict_get_set_ne.
Qed.

Lemma entity_branch_total h (m : LukePretrainingModel.t A) seq labels st loss correct total :
  LukePretrainingModel.masked_entity h m seq labels = Ok (loss, correct, total) →
  returns (LukePretrainingModel.entity_branch h m seq (Some labels) st)
          (fun st' => LukePretrainingModel.item st' "masked_entity_total"
                      = Some (LukePretrainingModel.Long total)).
Proof.
  intros Hres. unfold LukePretrainingModel.entity_branch. rewrite Hres. cbn.
  rewrite !dict_get_set_ne by done. rewrite dict_get_set_eq.
  apply returns_ok. unfold LukePretrainingModel.item. cbn.
  rewrite dict_get_set_ne by done. rewrite dict_get_set_eq.
  by apply list_lookup_middle.
Qed.

Lemma lm_branch_total h (m : LukePretrainingModel.t A) seq labels st loss correct total :
  LukePretrainingModel.masked_lm h m seq labels = Ok (loss, correct, total) →
  loss_ok st →
  returns (LukePretrainingModel.lm_branch h m seq (Some labels) st)
          (fun st' => LukePretrainingModel.item st' "masked_lm_total"
                      = Some (LukePretrainingModel.Long total)).
Proof.
  intros Hres Hok. unfold LukePretrainingModel.lm_branch. rewrite Hres. cbn.
  unfold LukePretrainingModel.accumulate_loss. cbn.
  rewrite !dict_get_set_ne by done. rewrite dict_get_set_eq.
  unfold loss_ok in Hok.
  destruct (dict_get (LukePretrainingModel.ret st) "loss") as [[r|]|]; [| |done].
  - destruct Hok as [a Ha].
    assert (Hr : r < length (LukePretrainingModel.objs st)) by (by eapply lookup_lt_Some).
    unfold ref in *. rewrite <- !app_assoc. rewrite (lookup_app_l _ _ r) by done. rewrite Ha.
    cbn [app]. rewrite list_lookup_middle by done.
    apply returns_ok. unfold LukePretrainingModel.item. cbn.
    rewrite dict_get_set_ne by done. rewrite dict_get_set_eq.
    rewrite list_lookup_insert_ne by (rewrite ?length_app; cbn; lia).
    rewrite length_app, lookup_app_r by lia.
    by replace (_ + _ - _) with 2 by (cbn; lia).
  - apply returns_ok. unfold LukePretrainingModel.item. cbn.
    rewrite dict_get_set_ne by done. rewrite dict_get_set_eq.
    by apply list_lookup_middle.
Qed.

Lemma EntityPredictionHead_rows h (m : EntityPredictionHead.t A) rows out :
  EntityPredictionHead.forward h m rows = Ok out ↔
  mapM (head_row h (EntityPredictionHead.transform m) (EntityPredictionHead.decoder m)
                 (EntityPredictionHead.bias m)) rows = Ok out.
Proof. apply head_rows. Qed.

Lemma LMPredictionHead_rows h (m : LMPredictionHead.t A) rows out :
  LMPredictionHead.forward h m rows = Ok out ↔
  mapM (head_row h (LMPredictionHead.transform m) (LMPredictionHead.decoder m)
                 (LMPredictionHead.bias m)) rows = Ok out.
Proof. apply head_rows. Qed.

(** C10.  When [masked_entity_labels] is present, the hidden states and the
    labels that [forward] gathers are those of the positions whose label
    differs from [-1], in the same row-major order: the [i]-th row of the
    entity scores is the entity head applied to the hidden state of the
    [i]-th masked position, and the [i]-th gathered label is the label of
    that position.  The number of score rows, the number of gathered
    labels and the reported [masked_entity_total] are the number of labels
    different from [-1].  The same holds for the masked-word branch, with
    the word head, [masked_lm_labels] and [masked_lm_total]. *)
Theorem masked_positions_aligned h (m : LukePretrainingModel.t A)
    (entity_sequence_output word_sequence_output : list (list (list A)))
    (masked_entity_labels masked_lm_labels : list (list Z)) (b e w inner : nat) :
  let c := LukeModel.config (LukePretrainingModel.base m) in
  let ep := LukePretrainingModel.entity_predictions m in
  let lp := BertPreTrainingHeads.predictions (LukePretrainingModel.cls m) in
  let hidden := LukeConfig.hidden_size c in
  head_wf h hidden inner (LukeConfig.entity_vocab_size c) (EntityPredictionHead.transform ep)
          (EntityPredictionHead.decoder ep) (EntityPredictionHead.bias ep) →
  head_wf h hidden hidden (LukeConfig.vocab_size c) (LMPredictionHead.transform lp)
          (LMPredictionHead.decoder lp) (LMPredictionHead.bias lp) →
  0 < hidden → 0 < LukeConfig.entity_vocab_size c → 0 < LukeConfig.vocab_size c →
  is_t3 b e hidden entity_sequence_output → is_mat b e masked_entity_labels →
  labels_ok (LukeConfig.entity_vocab_size c) masked_entity_labels →
  is_t3 b w hidden word_sequence_output → is_mat b w masked_lm_labels →
  labels_ok (LukeConfig.vocab_size c) masked_lm_labels →
  (aligned (EntityPredictionHead.forward h ep)
           (head_row h (EntityPredictionHead.transform ep) (EntityPredictionHead.decoder ep)
                     (EntityPredictionHead.bias ep))
           hidden (LukeConfig.entity_vocab_size c) entity_sequence_output
           masked_entity_labels ∧
   returns (LukePretrainingModel.masked_entity h m entity_sequence_output masked_entity_labels)
           (fun r => r.2 = Z.of_nat (count_masked masked_entity_labels)) ∧
   ∀ st, returns (LukePretrainingModel.entity_branch h m entity_sequence_output
                    (Some masked_entity_labels) st)
                 (fun st' => LukePretrainingModel.item st' "masked_entity_total"
                             = Some (LukePretrainingModel.Long
                                       (Z.of_nat (count_masked masked_entity_labels))))) ∧
  (aligned (LMPredictionHead.forward h lp)
           (head_row h (LMPredictionHead.transform lp) (LMPredictionHead.decoder lp)
                     (LMPredictionHead.bias lp))
           hidden (LukeConfig.vocab_size c) word_sequence_output masked_lm_labels ∧
   returns (LukePretrainingModel.masked_lm h m word_sequence_output masked_lm_labels)
           (fun r => r.2 = Z.of_nat (count_masked masked_lm_labels)) ∧
   ∀ st, loss_ok st →
         returns (LukePretrainingModel.lm_branch h m word_sequence_output
                    (Some masked_lm_labels) st)
                 (fun st' => LukePretrainingModel.item st' "masked_lm_total"
                             = Some (LukePretrainingModel.Long
                                       (Z.of_nat (count_masked masked_lm_labels))))).
Proof.
  intros c ep lp hidden Hep Hlp Hh Hev Hv Hes Hel Helo Hws Hwl Hwlo. split.
  - assert (Hret :
      returns (LukePretrainingModel.masked_entity h m entity_sequence_output
                 masked_entity_labels)
              (fun r => r.2 = Z.of_nat (count_masked masked_entity_labels))).
    { eapply masked_prediction_returns; eauto. apply EntityPredictionHead_rows. }
    split; [|split; [exact Hret|]].
    + destruct (masked_scores_aligned h hidden inner _ _ _ _
                  (EntityPredictionHead.forward h ep) entity_sequence_output
                  masked_entity_labels b e (EntityPredictionHead_rows h ep) Hep Hh Hev Hes Hel)
        as (scores & H1 & H2 & _ & H3 & H4).
      exists scores. done.
    + intros st. destruct Hret as ([[loss correct] total] & Hres & Htot). cbn in Htot.
      subst total. by eapply entity_branch_total.
  - assert (Hret :
      returns (LukePretrainingModel.masked_lm h m word_sequence_output masked_lm_labels)
              (fun r => r.2 = Z.of_nat (count_masked masked_lm_labels))).
    { eapply masked_prediction_returns; eauto. apply LMPredictionHead_rows. }
    split; [|split; [exact Hret|]].
    + destruct (masked_scores_aligned h hidden hidden _ _ _ _
                  (LMPredictionHead.forward h lp) word_sequence_output
                  masked_lm_labels b w (LMPredictionHead_rows h lp) Hlp Hh Hv Hws Hwl)
        as (scores & H1 & H2 & _ & H3 & H4).
      exists scores. done.
    + intros st Hok. destruct Hret as ([[loss correct] total] & Hres & Htot). cbn in Htot.
      subst total. by eapply lm_branch_total.
Qed.

End Masked.
Lemma masked_positions_aligned_witness :
  ∃ m s,
    LukePretrainingModel.init tiny_config tiny_state = Ok (m, s) ∧
    returns (LukePretrainingModel.masked_entity (cells s) m tiny_entity_output
               [[1]; [-1]]%Z)
            (fun r => r.2 = 1%Z) ∧
    returns (LukePretrainingModel.masked_lm (cells s) m tiny_word_output
               [[-1; 2; -1]; [4; -1; 0]]%Z)
            (fun r => r.2 = 3%Z).
Proof.
  eexists _, _. split; [vm_compute; reflexivity|].
  refine ((fun H1 H2 H3 H4 H5 H6 H7 H8 H9 H10 H11 =>
             match masked_positions_aligned (cells _) _ tiny_entity_output
                     tiny_word_output [[1]; [-1]]%Z [[-1; 2; -1]; [4; -1; 0]]%Z
                     2 1 3 2 H1 H2 H3 H4 H5 H6 H7 H8 H9 H10 H11
             with
             | conj (conj _ (conj He _)) (conj _ (conj Hw _)) => conj He Hw
             end) _ _ _ _ _ _ _ _ _ _ _).
  - compute_done.
  - compute_done.
  - cbn. lia.
  - cbn. lia.
  - cbn. lia.
  - compute_done.
  - compute_done.
  - compute_done.
  - compute_done.
  - compute_done.
  - compute_done.
Defined.

Section PretrainingLoss.
Context {A : Type} `{!Scalar A}.

Lemma nsp_returns h (m : LukePretrainingModel.t A) b hidden
    (pooled_output : list (list A)) (is_random_next : list Z) :
  Linear_wf h hidden 2 (BertPreTrainingHeads.seq_relationship (LukePretrainingModel.cls m)) →
  is_mat b hidden pooled_output →
  length is_random_next = b → Forall (fun x => (-1 ≤ x < 2)%Z) is_random_next →
  ∃ r, LukePretrainingModel.nsp h m b pooled_output is_random_next = Ok r.
Proof.
  intros Hl Hp Hn Hr. unfold LukePretrainingModel.nsp.
  destruct (mapM_rows (Linear.forward h
              (BertPreTrainingHeads.seq_relationship (LukePretrainingModel.cls m)))
              pooled_output b hidden 2 Hp) as (score & -> & Hb & Hs).
  { intros r Hlen. by eapply Linear_forward_returns. }
  cbn.
  destruct (loss_fn_returns score is_random_next 2) as [loss ->]; [done|lia|done|].
  cbn.
  destruct (count_correct_returns score is_random_next 2) as [n ->]; [done|lia|lia|].
  cbn. eauto.
Qed.

Lemma masked_branch_result (f : list (list Z) → result (A * Z * Z)) b k n labels :
  (∀ l, is_mat b k l → labels_ok n l → ∃ r, f l = Ok r) →
  labels_shape b k n labels → ∃ r, branch_result f labels r.
Proof.
  intros Hf Hl. destruct labels as [l|]; cbn in *.
  - destruct Hl as [H1 H2]. destruct (Hf l H1 H2) as [r Hr]. by exists (Some r).
  - by exists None.
Qed.

(** The dictionary that [forward] builds from what its branches compute. *)
Lemma forward_loss_of_branches h (m : LukePretrainingModel.t A) md
    word_ids word_segment_ids word_attention_mask
    entity_ids entity_position_ids entity_segment_ids entity_attention_mask
    masked_entity_labels masked_lm_labels is_random_next
    word_sequence_output entity_sequence_output pooled_output re rl rn :
  LukeModel.forward h (LukePretrainingModel.base m) md word_ids word_segment_ids
    word_attention_mask entity_ids entity_position_ids entity_segment_ids
    entity_attention_mask false
  = Ok (LukeModel.LastLayer (word_sequence_output, entity_sequence_output), pooled_output) →
  branch_result (LukePretrainingModel.masked_entity h m entity_sequence_output)
                masked_entity_labels re →
  branch_result (LukePretrainingModel.masked_lm h m word_sequence_output)
                masked_lm_labels rl →
  branch_result (LukePretrainingModel.nsp h m (length word_ids) pooled_output)
                is_random_next rn →
  ∃ st,
    LukePretrainingModel.forward h m md word_ids word_segment_ids word_attention_mask
      entity_ids entity_position_ids entity_segment_ids entity_attention_mask
      masked_entity_labels masked_lm_labels is_random_next = Ok st ∧
    dict_get (LukePretrainingModel.ret st) "loss" ≠ None ∧
    LukePretrainingModel.item st "loss"
    = LukePretrainingModel.Float <$> sum_present [term re; term rl; term rn] ∧
    (masked_entity_labels = None → masked_lm_labels = None → is_random_next = None →
     st = initial_out).
Proof.
  intros Hfw He Hl Hn. unfold LukePretrainingModel.forward. rewrite Hfw. cbn.
  destruct masked_entity_labels as [le|], re as [[[e1 e2] e3]|]; try done;
    destruct masked_lm_labels as [ll|], rl as [[[l1 l2] l3]|]; try done;
    destruct is_random_next as [ln|], rn as [[[n1 n2] n3]|]; try done;
    cbn in He, Hl, Hn; cbn; rewrite ?He; cbn; rewrite ?Hl; cbn; rewrite ?Hn; cbn;
    (eexists; split; [reflexivity|]; split; [done|]; split; [reflexivity|done]).
Qed.

(** C2.  On well-formed inputs [LukePretrainingModel.forward] returns a
    mapping with a [loss] entry.  The entry is [None], and the mapping
    holds nothing else, when the three label arguments are absent: no
    exception is raised then.  Otherwise the entry is the sum of the
    cross-entropy losses of the branches whose labels are present, in the
    order masked entity, masked word, next sentence; with
    [masked_entity_labels] alone it is the masked-entity loss itself. *)
Theorem LukePretrainingModel_forward_loss h (m : LukePretrainingModel.t A) md
    word_ids word_segment_ids word_attention_mask
    entity_ids entity_position_ids entity_segment_ids entity_attention_mask
    masked_entity_labels masked_lm_labels is_random_next b w e :
  let c := LukeModel.config (LukePretrainingModel.base m) in
  LukePretrainingModel_wf h m →
  is_mat b w word_ids → in_range (LukeConfig.vocab_size c) word_ids →
  segment_ok (LukeConfig.type_vocab_size c) b w word_ids word_segment_ids →
  is_mat b w word_attention_mask →
  is_mat b e entity_ids → in_range (LukeConfig.entity_vocab_size c) entity_ids →
  position_ok (LukeConfig.max_position_embeddings c) b e entity_position_ids →
  segment_ok (LukeConfig.type_vocab_size c) b e entity_ids entity_segment_ids →
  is_mat b e entity_attention_mask →
  0 < w ≤ LukeConfig.max_position_embeddings c →
  labels_shape b e (LukeConfig.entity_vocab_size c) masked_entity_labels →
  labels_shape b w (LukeConfig.vocab_size c) masked_lm_labels →
  next_shape b is_random_next →
  ∃ word_sequence_output entity_sequence_output pooled_output re rl rn st,
    LukeModel.forward h (LukePretrainingModel.base m) md word_ids word_segment_ids
      word_attention_mask entity_ids entity_position_ids entity_segment_ids
      entity_attention_mask false
    = Ok (LukeModel.LastLayer (word_sequence_output, entity_sequence_output),
          pooled_output) ∧
    branch_result (LukePretrainingModel.masked_entity h m entity_sequence_output)
                  masked_entity_labels re ∧
    branch_result (LukePretrainingModel.masked_lm h m word_sequence_output)
                  masked_lm_labels rl ∧
    branch_result (LukePretrainingModel.nsp h m (length word_ids) pooled_output)
                  is_random_next rn ∧
    LukePretrainingModel.forward h m md word_ids word_segment_ids word_attention_mask
      entity_ids entity_position_ids entity_segment_ids entity_attention_mask
      masked_entity_labels masked_lm_labels is_random_next = Ok st ∧
    dict_get (LukePretrainingModel.ret st) "loss" ≠ None ∧
    LukePretrainingModel.item st "loss"
    = LukePretrainingModel.Float <$> sum_present [term re; term rl; term rn] ∧
    (masked_lm_labels = None → is_random_next = None →
     LukePretrainingModel.item st "loss" = LukePretrainingModel.Float <$> term re) ∧
    (masked_entity_labels = None → masked_lm_labels = None → is_random_next = None →
     st = initial_out).
Proof.
  intros c (Hbase & Hep & Hlp & Hsr & Hh & Hv & Hev) Hw1 Hw2 Hw3 Hw4 He1 He2 He3 He4 He5
         Hlen Hme Hml Hnx.
  destruct (LukeModel_forward_returns h (LukePretrainingModel.base m) md word_ids
              word_segment_ids word_attention_mask entity_ids entity_position_ids
              entity_segment_ids entity_attention_mask false b w e Hbase Hw1 Hw2 Hw3 Hw4
              He1 He2 He3 He4 He5 Hlen ltac:(done))
    as ([enc pooled] & Hfw & Henc & Hpooled).
  cbn in Henc, Hpooled. destruct enc as [l|[wso eso]]; [by destruct Henc|].
  destruct Henc as (_ & Hws & Hes). cbn in Hws, Hes.
  destruct (masked_branch_result (LukePretrainingModel.masked_entity h m eso) b e
              (LukeConfig.entity_vocab_size c) masked_entity_labels) as [re Hre]; [|done|].
  { intros l H1 H2.
    destruct (masked_prediction_returns h _ _ _ _ _ _
                (EntityPredictionHead.forward h (LukePretrainingModel.entity_predictions m))
                eso l b e (EntityPredictionHead_rows h _) Hep Hh Hev Hes H1 H2)
      as (r & Hr & _).
    by exists r. }
  destruct (masked_branch_result (LukePretrainingModel.masked_lm h m wso) b w
              (LukeConfig.vocab_size c) masked_lm_labels) as [rl Hrl]; [|done|].
  { intros l H1 H2.
    destruct (masked_prediction_returns h _ _ _ _ _ _
                (LMPredictionHead.forward h
                   (BertPreTrainingHeads.predictions (LukePretrainingModel.cls m)))
                wso l b w (LMPredictionHead_rows h _) Hlp Hh Hv Hws H1 H2)
      as (r & Hr & _).
    by exists r. }
  assert (∃ rn, branch_result (LukePretrainingModel.nsp h m (length word_ids) pooled)
                              is_random_next rn) as [rn Hrn].
  { destruct is_random_next as [l|]; [|by exists None].
    destruct Hnx as [H1 H2]. destruct Hw1 as [Hb _].
    destruct (nsp_returns h m (length word_ids) _ pooled l Hsr) as [r Hr];
      [by rewrite Hb|by rewrite Hb|done|].
    by exists (Some r). }
  destruct (forward_loss_of_branches h m md word_ids word_segment_ids word_attention_mask
              entity_ids entity_position_ids entity_segment_ids entity_attention_mask
              masked_entity_labels masked_lm_labels is_random_next wso eso pooled
              re rl rn Hfw Hre Hrl Hrn) as (st & Hst & Hkey & Hloss & Hnone).
  exists wso, eso, pooled, re, rl, rn, st. repeat split; try done.
  intros -> ->. rewrite Hloss. destruct rl, rn; try done. cbn. by destruct (term re).
Qed.

End PretrainingLoss.
Lemma LukePretrainingModel_forward_loss_witness :
  ∃ m s,
    LukePretrainingModel.init tiny_config tiny_state = Ok (m, s) ∧
    ∃ st,
      LukePretrainingModel.forward (cells s) m eval_mode tiny_word_ids (Some tiny_type_ids)
        tiny_mask tiny_entity_ids tiny_entity_position_ids None tiny_entity_mask
        (Some [[1]; [-1]]%Z) None (Some [0; 1]%Z) = Ok st ∧
      dict_get (LukePretrainingModel.ret st) "loss" ≠ None.
Proof.
  eexists _, _. split; [vm_compute; reflexivity|].
  refine ((fun H1 H2 H3 H4 H5 H6 H7 H8 H9 H10 H11 H12 H13 H14 =>
             match LukePretrainingModel_forward_loss (cells _) _ eval_mode tiny_word_ids
                     (Some tiny_type_ids) tiny_mask tiny_entity_ids
                     tiny_entity_position_ids None tiny_entity_mask
                     (Some [[1]; [-1]]%Z) None (Some [0; 1]%Z) 2 3 1
                     H1 H2 H3 H4 H5 H6 H7 H8 H9 H10 H11 H12 H13 H14
             with
             | ex_intro _ _ (ex_intro _ _ (ex_intro _ _ (ex_intro _ _ (ex_intro _ _
                 (ex_intro _ _ (ex_intro _ st
                    (conj _ (conj _ (conj _ (conj _ (conj Hst (conj Hkey _)))))))))))) =>
                 ex_intro _ st (conj Hst Hkey)
             end) _ _ _ _ _ _ _ _ _ _ _ _ _ _).
  - compute_done.
  - compute_done.
  - compute_done.
  - compute_done.
  - compute_done.
  - compute_done.
  - compute_done.
  - compute_done.
  - cbn. lia.
  - compute_done.
  - cbn. lia.
  - compute_done.
  - compute_done.
  - compute_done.
Defined.

(** * Weight tying *)

Section Tying.
Context {A : Type} `{!Scalar A}.

Ltac inv_bind H :=
  let u := fresh "u" in let s := fresh "s" in let Hu := fresh "Hu" in
  apply bind_Ok in H as (u & s & Hu & H).

Lemma param_size_allocated (r : ref) (s : pstate A) n s' :
  param_size r 1 s = Ok (n, s') → r < length (cells s) ∧ s' = s.
Proof.
  unfold param_size. intros H. inv_bind H. injection Hu as <- <-.
  destruct (cells s !! r) as [t|] eqn:Hr; [|done].
  split; [by eapply lookup_lt_Some|].
  destruct (shape _ !! 1); [by injection H as _ <-|done].
Qed.

Lemma param_size_state (r : ref) i (s : pstate A) n s' :
  param_size r i s = Ok (n, s') → s' = s.
Proof.
  unfold param_size. intros H. inv_bind H. injection Hu as <- <-.
  destruct (shape _ !! i); [by injection H as _ <-|done].
Qed.

Lemma Linear_init_no_bias i o (s : pstate A) d s' :
  Linear.init i o false s = Ok (d, s') → Linear.bias d = None.
Proof.
  unfold Linear.init. intros H. inv_bind H. inv_bind H. by injection H as <- _.
Qed.

Lemma alloc_fresh (t : tensor A) s r s' :
  alloc t s = Ok (r, s') → r = length (cells s) ∧ length (cells s') = S (length (cells s)).
Proof. intros [= <- <-]. cbn. rewrite length_app. cbn. lia. Qed.

Lemma LMPredictionHead_init_tied config (w : ref) (s : pstate A) lp s' :
  LMPredictionHead.init config w s = Ok (lp, s') →
  Linear.weight (LMPredictionHead.decoder lp) = w ∧
  Linear.bias (LMPredictionHead.decoder lp) = None ∧
  w < LMPredictionHead.bias lp < length (cells s').
Proof.
  unfold LMPredictionHead.init. intros H.
  inv_bind H. inv_bind H. inv_bind H. inv_bind H. inv_bind H. injection H as <- <-.
  apply param_size_allocated in Hu0 as [Hw ->]. apply param_size_state in Hu1 as ->.
  pose proof (grows_Linear_init _ _ _ _ _ _ Hu2) as Hg.
  apply Linear_init_no_bias in Hu2. apply alloc_fresh in Hu3 as [-> Hlen].
  cbn. repeat split; [done|lia|lia].
Qed.

Lemma EntityPredictionHead_init_tied config (w : ref) (s : pstate A) ep s' :
  EntityPredictionHead.init config w s = Ok (ep, s') →
  Linear.weight (EntityPredictionHead.decoder ep) = w ∧
  Linear.bias (EntityPredictionHead.decoder ep) = None ∧
  w < EntityPredictionHead.bias ep < length (cells s').
Proof.
  unfold EntityPredictionHead.init. intros H.
  inv_bind H. inv_bind H. inv_bind H. inv_bind H. inv_bind H. injection H as <- <-.
  apply param_size_allocated in Hu as [Hw ->]. apply param_size_state in Hu1 as ->.
  pose proof (grows_PredictionHeadTransform_init _ _ _ _ _ Hu0) as Hg0.
  pose proof (grows_Linear_init _ _ _ _ _ _ Hu2) as Hg.
  apply Linear_init_no_bias in Hu2. apply alloc_fresh in Hu3 as [-> Hlen].
  cbn. repeat split; [done|lia|lia].
Qed.

Lemma hmat_hwrite (h : heap A) (r : ref) t :
  r < length h → hmat (hwrite h r (Mat t)) r = t.
Proof.
  intros Hr. unfold hmat, hwrite, heap, ref in *. by rewrite list_lookup_insert_eq.
Qed.

Lemma hvec_hwrite_ne (h : heap A) (r r' : ref) t :
  r ≠ r' → hvec (hwrite h r t) r' = hvec h r'.
Proof.
  intros Hr. unfold hvec, hwrite, heap, ref in *. by rewrite list_lookup_insert_ne.
Qed.

(** C3.  In the model that [LukePretrainingModel.__init__] returns, weight
    initialisation included, the weight of the decoder of the word
    prediction head is the storage of the word embedding matrix, and the
    weight of the decoder of the entity prediction head is the storage of
    the entity embedding matrix; both are allocated.  So a matrix written
    in place to an embedding weight is what the decoder weight reads.  The
    decoders have no bias of their own, and the bias of each head is
    another, allocated, parameter, which such a write leaves unchanged. *)
Theorem decoder_weights_tied (config : LukeConfig.t A) (s s' : pstate A)
    (m : LukePretrainingModel.t A) :
  LukePretrainingModel.init config s = Ok (m, s') →
  let word := Embedding.weight (WordEmbeddings.word_embeddings
                                  (LukeModel.embeddings (LukePretrainingModel.base m))) in
  let entity := Embedding.weight (EntityEmbeddings.entity_embeddings
                                    (LukeModel.entity_embeddings
                                       (LukePretrainingModel.base m))) in
  let lp := BertPreTrainingHeads.predictions (LukePretrainingModel.cls m) in
  let ep := LukePretrainingModel.entity_predictions m in
  (Linear.weight (LMPredictionHead.decoder lp) = word ∧
   Linear.weight (EntityPredictionHead.decoder ep) = entity) ∧
  (word < length (cells s') ∧ entity < length (cells s')) ∧
  (Linear.bias (LMPredictionHead.decoder lp) = None ∧
   Linear.bias (EntityPredictionHead.decoder ep) = None) ∧
  (LMPredictionHead.bias lp ≠ word ∧ LMPredictionHead.bias lp < length (cells s') ∧
   EntityPredictionHead.bias ep ≠ entity ∧
   EntityPredictionHead.bias ep < length (cells s')) ∧
  (∀ (h : heap A) t, word < length h →
     hmat (hwrite h word (Mat t)) (Linear.weight (LMPredictionHead.decoder lp)) = t ∧
     hvec (hwrite h word (Mat t)) (LMPredictionHead.bias lp)
     = hvec h (LMPredictionHead.bias lp)) ∧
  (∀ (h : heap A) t, entity < length h →
     hmat (hwrite h entity (Mat t)) (Linear.weight (EntityPredictionHead.decoder ep)) = t ∧
     hvec (hwrite h entity (Mat t)) (EntityPredictionHead.bias ep)
     = hvec h (EntityPredictionHead.bias ep)).
Proof.
  unfold LukePretrainingModel.init. intros H.
  inv_bind H. inv_bind H. inv_bind H. inv_bind H. injection H as <- <-.
  rename u into b, u0 into c, u1 into e.
  unfold BertPreTrainingHeads.init in Hu0. inv_bind Hu0. inv_bind Hu0.
  injection Hu0 as <- <-. rename u into lp, u0 into sr.
  pose proof (grows_Linear_init _ _ _ _ _ _ Hu4) as Hg1.
  apply LMPredictionHead_init_tied in Hu3 as (Hlw & Hlb & Hl1 & Hl2).
  pose proof (grows_EntityPredictionHead_init _ _ _ _ _ Hu1) as Hg3.
  apply EntityPredictionHead_init_tied in Hu1 as (Hew & Heb & He1 & He2).
  pose proof (grows_apply _ _ grows_init_weights _ _ _ Hu2) as Hg2.
  cbn. unfold ref in *. repeat split; try done; try lia.
  - rewrite Hlw. by apply hmat_hwrite.
  - apply hvec_hwrite_ne. lia.
  - rewrite Hew. by apply hmat_hwrite.
  - apply hvec_hwrite_ne. lia.
Qed.

End Tying.
Lemma decoder_weights_tied_witness :
  ∃ m s,
    LukePretrainingModel.init tiny_config tiny_state = Ok (m, s) ∧
    Linear.weight (LMPredictionHead.decoder
                     (BertPreTrainingHeads.predictions (LukePretrainingModel.cls m)))
    = Embedding.weight (WordEmbeddings.word_embeddings
                          (LukeModel.embeddings (LukePretrainingModel.base m))).
Proof.
  eexists _, _. split; [vm_compute; reflexivity|].
  refine ((fun H => proj1 (proj1 (decoder_weights_tied tiny_config tiny_state _ _ H))) _).
  vm_compute. reflexivity.
Defined.

(** * The layers of the encoder *)

Section EncoderLayers.
Context {A : Type} `{!Scalar A}.

Ltac inv_bind H :=
  let u := fresh "u" in let s := fresh "s" in let Hu := fresh "Hu" in
  apply bind_Ok in H as (u & s & Hu & H).

Lemma named_parameters_prefix m p q :
  map snd (named_parameters p m) = map snd (named_parameters q m).
Proof.
  revert p q. induction m as [k ps ms IH] using pymodule_rect'. intros p q. cbn.
  rewrite !map_app, !map_map. f_equal.
  induction IH as [|[n c] ms Hc _ IHms]; [done|].
  rewrite !map_app. f_equal; [apply Hc|apply IHms].
Qed.

Lemma parameters_node k ps ms :
  parameters (PyModule k ps ms)
  = map snd (local_params ps) ++ concat (map (fun c => parameters c.2) ms).
Proof.
  unfold parameters. cbn. rewrite map_app, map_map. f_equal.
  induction ms as [|[n c] ms IH]; [done|].
  rewrite map_app, IH. cbn. f_equal. apply named_parameters_prefix.
Qed.

Lemma within_node lo hi k ps ms :
  Forall (fun r => lo ≤ r < hi) (map snd (local_params ps)) →
  Forall (fun c => within lo hi c.2) ms →
  within lo hi (PyModule k ps ms).
Proof.
  intros Hps Hms. unfold within. rewrite parameters_node. apply Forall_app. split; [done|].
  induction Hms as [|c ms Hc _ IH]; cbn; [constructor|]. apply Forall_app. by split.
Qed.

Lemma within_mono lo hi lo' hi' m :
  within lo hi m → lo' ≤ lo → hi ≤ hi' → within lo' hi' m.
Proof. unfold within. intros Hm H1 H2. eapply Forall_impl; [exact Hm|]. cbn. lia. Qed.

Lemma copy_param_fresh (r : ref) (s : pstate A) r' s' :
  copy_param r s = Ok (r', s') →
  r' = length (cells s) ∧ length (cells s') = S (length (cells s)).
Proof.
  unfold copy_param. intros H. inv_bind H. injection Hu as <- <-.
  by apply alloc_fresh in H.
Qed.

Lemma within_leaf lo hi k ps :
  Forall (fun r => lo ≤ r < hi) (map snd (local_params ps)) → within lo hi (PyModule k ps []).
Proof. intros Hps. apply within_node; [done|constructor]. Qed.

Lemma Linear_deepcopy_copies (m m' : Linear.t) (s s' : pstate A) :
  Linear.deepcopy m s = Ok (m', s') → copies Linear.modules m m' s s'.
Proof.
  unfold Linear.deepcopy. intros H. inv_bind H. inv_bind H. injection H as <- <-.
  apply copy_param_fresh in Hu as [-> Hlen].
  destruct (Linear.bias m) as [b|] eqn:Hb.
  - inv_bind Hu0. injection Hu0 as <- <-. apply copy_param_fresh in Hu as [-> Hlen'].
    split; [lia|split].
    + apply within_leaf. cbn. repeat constructor; lia.
    + unfold Linear.modules. cbn. by rewrite Hb.
  - injection Hu0 as <- <-.
    split; [lia|split].
    + apply within_leaf. cbn. repeat constructor; lia.
    + unfold Linear.modules. cbn. by rewrite Hb.
Qed.

Lemma LayerNorm_deepcopy_copies (m m' : LayerNorm.t A) (s s' : pstate A) :
  LayerNorm.deepcopy m s = Ok (m', s') → copies LayerNorm.modules m m' s s'.
Proof.
  unfold LayerNorm.deepcopy. intros H. inv_bind H. inv_bind H. injection H as <- <-.
  apply copy_param_fresh in Hu as [-> Hlen]. apply copy_param_fresh in Hu0 as [-> Hlen'].
  split; [lia|split; [|done]]. apply within_leaf. cbn. repeat constructor; lia.
Qed.

Lemma within_Dropout lo hi (d : Dropout.t A) : within lo hi (Dropout.modules d).
Proof. apply within_leaf. constructor. Qed.

(** A child that was copied between two states of a longer construction. *)
Lemma copies_within {T} (modules : T → pymodule) (m m' : T) (s1 s2 : pstate A) lo hi :
  copies modules m m' s1 s2 → lo ≤ length (cells s1) → length (cells s2) ≤ hi →
  within lo hi (modules m').
Proof. intros (_ & Hw & _) H1 H2. by eapply within_mono. Qed.

Ltac copied :=
  repeat match goal with
         | H : Linear.deepcopy _ _ = Ok _ |- _ => apply Linear_deepcopy_copies in H
         | H : LayerNorm.deepcopy _ _ = Ok _ |- _ => apply LayerNorm_deepcopy_copies in H
         end.

Ltac lengths :=
  repeat match goal with
         | H : copies _ _ _ _ _ |- _ =>
             let Hl := fresh "Hl" in pose proof (proj1 H) as Hl; revert H
         end; intros.

Ltac node :=
  split; [lia|split];
  [ apply within_node; [constructor|];
    repeat (constructor;
            [cbn; first [apply within_Dropout
                        | eapply copies_within; [eassumption|lia..]]|]);
    constructor
  | repeat match goal with H : copies _ _ _ _ _ |- _ => destruct H as (_ & _ & H) end;
    cbn in *; congruence ].

Lemma SelfAttention_deepcopy_copies (m m' : SelfAttention.t A) (s s' : pstate A) :
  SelfAttention.deepcopy m s = Ok (m', s') → copies SelfAttention.modules m m' s s'.
Proof.
  unfold SelfAttention.deepcopy. intros H. inv_bind H. inv_bind H. inv_bind H.
  injection H as <- <-. copied. lengths. node.
Qed.

Lemma SelfOutput_deepcopy_copies (m m' : SelfOutput.t A) (s s' : pstate A) :
  SelfOutput.deepcopy m s = Ok (m', s') → copies SelfOutput.modules m m' s s'.
Proof.
  unfold SelfOutput.deepcopy. intros H. inv_bind H. inv_bind H.
  injection H as <- <-. copied. lengths. node.
Qed.

Lemma Attention_deepcopy_copies (m m' : Attention.t A) (s s' : pstate A) :
  Attention.deepcopy m s = Ok (m', s') → copies Attention.modules m m' s s'.
Proof.
  unfold Attention.deepcopy. intros H. inv_bind H. inv_bind H.
  injection H as <- <-.
  apply SelfAttention_deepcopy_copies in Hu. apply SelfOutput_deepcopy_copies in Hu0.
  lengths. node.
Qed.

Lemma Intermediate_deepcopy_copies (m m' : Intermediate.t) (s s' : pstate A) :
  Intermediate.deepcopy m s = Ok (m', s') → copies Intermediate.modules m m' s s'.
Proof.
  unfold Intermediate.deepcopy. intros H. inv_bind H.
  injection H as <- <-. copied. lengths. node.
Qed.

Lemma Output_deepcopy_copies (m m' : Output.t A) (s s' : pstate A) :
  Output.deepcopy m s = Ok (m', s') → copies Output.modules m m' s s'.
Proof.
  unfold Output.deepcopy. intros H. inv_bind H. inv_bind H.
  injection H as <- <-. copied. lengths. node.
Qed.

Lemma Layer_deepcopy_copies (m m' : Layer.t A) (s s' : pstate A) :
  Layer.deepcopy m s = Ok (m', s') → copies Layer.modules m m' s s'.
Proof.
  unfold Layer.deepcopy. intros H. inv_bind H. inv_bind H. inv_bind H.
  injection H as <- <-.
  apply Attention_deepcopy_copies in Hu. apply Intermediate_deepcopy_copies in Hu0.
  apply Output_deepcopy_copies in Hu1.
  lengths. node.
Qed.

Lemma repeatM_deepcopy (l : Layer.t A) n (s s' : pstate A) ls :
  repeatM n (Layer.deepcopy l) s = Ok (ls, s') →
  length ls = n ∧
  separated (length (cells s)) (length (cells s')) (map Layer.modules ls) ∧
  Forall (fun l' => skeleton (Layer.modules l') = skeleton (Layer.modules l)) ls.
Proof.
  revert s ls. induction n as [|n IH]; intros s ls H; cbn in H.
  - injection H as <- <-. cbn. repeat split; [lia|constructor].
  - inv_bind H. inv_bind H. injection H as <- <-.
    apply Layer_deepcopy_copies in Hu as (Hlen & Hw & Hsk).
    destruct (IH _ _ Hu0) as (Hn & Hsep & Hall).
    cbn. repeat split; [by rewrite Hn| |by constructor].
    exists (length (cells s0)). done.
Qed.

Lemma separated_le lo hi ms : separated lo hi ms → lo ≤ hi.
Proof.
  revert lo. induction ms as [|m ms IH]; intros lo; cbn; [done|].
  intros (mid & Hmid & _ & Hs). specialize (IH _ Hs). lia.
Qed.

Lemma separated_within lo hi ms j mj r :
  separated lo hi ms → ms !! j = Some mj → r ∈ parameters mj → lo ≤ r < hi.
Proof.
  revert lo j. induction ms as [|m ms IH]; intros lo j Hs Hj Hr; [done|].
  destruct Hs as (mid & Hmid & Hw & Hs). pose proof (separated_le _ _ _ Hs) as Hle.
  destruct j as [|j]; cbn in Hj.
  - injection Hj as ->. unfold within in Hw. rewrite Forall_forall in Hw.
    specialize (Hw _ Hr). lia.
  - specialize (IH _ _ Hs Hj Hr). lia.
Qed.

Lemma separated_lt lo hi ms i j mi mj r r' :
  separated lo hi ms → i < j → ms !! i = Some mi → ms !! j = Some mj →
  r ∈ parameters mi → r' ∈ parameters mj → r < r'.
Proof.
  revert lo i j. induction ms as [|m ms IH]; intros lo i j Hs Hij Hi Hj Hr Hr'; [done|].
  destruct Hs as (mid & Hmid & Hw & Hs).
  destruct j as [|j]; [lia|]. cbn in Hj. destruct i as [|i]; cbn in Hi.
  - injection Hi as ->. unfold within in Hw. rewrite Forall_forall in Hw.
    specialize (Hw _ Hr). pose proof (separated_within _ _ _ _ _ _ Hs Hj Hr'). lia.
  - eapply (IH mid i j); eauto. lia.
Qed.

Lemma separated_ne lo hi ms i j mi mj r r' :
  separated lo hi ms → i ≠ j → ms !! i = Some mi → ms !! j = Some mj →
  r ∈ parameters mi → r' ∈ parameters mj → r ≠ r'.
Proof.
  intros Hs Hij Hi Hj Hr Hr'. destruct (decide (i < j)).
  - pose proof (separated_lt _ _ _ _ _ _ _ _ _ Hs ltac:(eassumption) Hi Hj Hr Hr'). lia.
  - assert (Hji : j < i) by lia.
    pose proof (separated_lt _ _ _ _ _ _ _ _ _ Hs Hji Hj Hi Hr' Hr). lia.
Qed.

(** Each layer is applied to the pair that the previous one returned, the
    first to the input pair. *)
Lemma apply_layers_lookup h md (layers : list (Layer.t A)) k hs mask outs :
  apply_layers h md layers k hs mask = Ok outs →
  length outs = length layers ∧
  ∀ i l, layers !! i = Some l →
    ∃ prev o, (hs :: outs) !! i = Some prev ∧ outs !! i = Some o ∧
              Layer.forward h l (at_site (k + i) md) prev.1 prev.2 mask = Ok o.
Proof.
  revert k hs outs. induction layers as [|l0 layers IH]; intros k hs outs H; cbn in H.
  - injection H as <-. split; [done|]. intros i l Hl. done.
  - destruct (Layer.forward h l0 (at_site k md) hs.1 hs.2 mask) as [out|] eqn:Hout;
      [|done].
    cbn in H. destruct (apply_layers h md layers (S k) out mask) as [outs'|] eqn:Houts;
      [|done].
    cbn in H. injection H as <-. destruct (IH _ _ _ Houts) as [Hlen Hi].
    split; [cbn; by rewrite Hlen|]. intros [|i] l Hl; cbn in Hl.
    + injection Hl as <-. exists hs, out. rewrite Nat.add_0_r. done.
    + destruct (Hi i l Hl) as (prev & o & H1 & H2 & H3).
      exists prev, o. cbn. replace (k + S i) with (S k + i) by lia. done.
Qed.

(** C9.  The encoder that [Encoder.__init__] returns holds
    [num_hidden_layers] layers, all of the structure of one [Layer].  Their
    parameters are allocated and not shared: a parameter of one layer and a
    parameter of another are stored at different references, so that a
    write to the first leaves the second unchanged.  [forward] applies the
    layers one after the other, each to the (word, entity) pair that the
    previous one returned; with [output_all_encoded_layers] it returns the
    pair of every layer in order, and without it the list of the last pair
    alone. *)
Theorem Encoder_layers_unshared (config : LukeConfig.t A) (s s' : pstate A)
    (enc : Encoder.t A) :
  Encoder.init config s = Ok (enc, s') →
  length (Encoder.layer enc) = LukeConfig.num_hidden_layers config ∧
  (∀ l l', l ∈ Encoder.layer enc → l' ∈ Encoder.layer enc →
     skeleton (Layer.modules l) = skeleton (Layer.modules l')) ∧
  (∀ i j li lj r r', i ≠ j →
     Encoder.layer enc !! i = Some li → Encoder.layer enc !! j = Some lj →
     r ∈ parameters (Layer.modules li) → r' ∈ parameters (Layer.modules lj) →
     r ≠ r' ∧ r < length (cells s') ∧ r' < length (cells s') ∧
     ∀ (h : heap A) t, hwrite h r t !! r' = h !! r') ∧
  (∀ h md word_hidden_states entity_hidden_states attention_mask,
     Encoder.forward h enc md word_hidden_states entity_hidden_states attention_mask true
     = apply_layers h md (Encoder.layer enc) 0 (word_hidden_states, entity_hidden_states)
                    attention_mask ∧
     Encoder.forward h enc md word_hidden_states entity_hidden_states attention_mask false
     = (outs ← apply_layers h md (Encoder.layer enc) 0
                 (word_hidden_states, entity_hidden_states) attention_mask;
        Ok [default (word_hidden_states, entity_hidden_states) (last outs)]) ∧
     ∀ outs,
       apply_layers h md (Encoder.layer enc) 0 (word_hidden_states, entity_hidden_states)
                    attention_mask = Ok outs →
       length outs = length (Encoder.layer enc) ∧
       ∀ i l, Encoder.layer enc !! i = Some l →
         ∃ prev o,
           ((word_hidden_states, entity_hidden_states) :: outs) !! i = Some prev ∧
           outs !! i = Some o ∧
           Layer.forward h l (at_site i md) prev.1 prev.2 attention_mask = Ok o) ∧
  (∀ h md hidden b w e word_hidden_states entity_hidden_states attention_mask,
     Forall (Layer_wf h hidden) (Encoder.layer enc) →
     is_t3 b w hidden word_hidden_states → is_t3 b e hidden entity_hidden_states →
     is_mat b (w + e) attention_mask →
     returns (Encoder.forward h enc md word_hidden_states entity_hidden_states
                attention_mask true)
             (fun outs => length outs = LukeConfig.num_hidden_layers config) ∧
     returns (Encoder.forward h enc md word_hidden_states entity_hidden_states
                attention_mask false)
             (fun outs => length outs = 1)).
Proof.
  unfold Encoder.init. intros H. inv_bind H. inv_bind H. injection H as <- <-.
  rename u into layer, u0 into layers.
  apply repeatM_deepcopy in Hu0 as (Hn & Hsep & Hsk). cbn [Encoder.layer].
  split; [done|]. split; [|split; [|split]].
  - intros l l' Hl Hl'. rewrite Forall_forall in Hsk.
    by rewrite (Hsk _ Hl), (Hsk _ Hl').
  - intros i j li lj r r' Hij Hi Hj Hr Hr'.
    assert (Hmi : map Layer.modules layers !! i = Some (Layer.modules li))
      by (by rewrite list_lookup_fmap, Hi).
    assert (Hmj : map Layer.modules layers !! j = Some (Layer.modules lj))
      by (by rewrite list_lookup_fmap, Hj).
    pose proof (separated_ne _ _ _ _ _ _ _ _ _ Hsep Hij Hmi Hmj Hr Hr') as Hne.
    pose proof (separated_within _ _ _ _ _ _ Hsep Hmi Hr) as Hri.
    pose proof (separated_within _ _ _ _ _ _ Hsep Hmj Hr') as Hrj.
    repeat split; [done|lia|lia|].
    intros h t. unfold hwrite, heap, ref in *. by apply list_lookup_insert_ne.
  - intros h md w e mask. unfold Encoder.forward. cbn [Encoder.layer].
    rewrite !forward_loop_apply_layers. split; [|split].
    + destruct (apply_layers h md layers 0 (w, e) mask); done.
    + destruct (apply_layers h md layers 0 (w, e) mask); done.
    + intros outs Houts. apply apply_layers_lookup in Houts as [Hlen Hi]. done.
  - intros h md hidden b w e ws es mask Hwf Hws Hes Hmask.
    destruct (apply_layers_returns h hidden md layers 0 (ws, es) mask b w e Hwf)
      as (outs & Houts & Hlen & _); [done|done|].
    unfold Encoder.forward. cbn [Encoder.layer]. rewrite !forward_loop_apply_layers.
    rewrite Houts. cbn. split; apply returns_ok; [lia|done].
Qed.

End EncoderLayers.
Lemma Encoder_layers_unshared_witness :
  ∃ enc s,
    Encoder.init two_layer_config tiny_state = Ok (enc, s) ∧
    length (Encoder.layer enc) = 2.
Proof.
  eexists _, _. split; [vm_compute; reflexivity|].
  refine ((fun H => proj1 (Encoder_layers_unshared two_layer_config tiny_state _ _ H)) _).
  vm_compute. reflexivity.
Defined.

(** * Checkpoints *)

Section Rename.
Context {A : Type} `{!Scalar A}.

Lemma dict_get_del_ne {V} (d : dict V) k k' :
  k ≠ k' → dict_get (dict_del d k) k' = dict_get d k'.
Proof.
  intros Hne. induction d as [|[k0 v0] d IH]; cbn; [done|].
  destruct (decide (k0 = k)) as [->|Hne0]; cbn.
  - by rewrite decide_False.
  - destruct (decide (k0 = k')); [done|exact IH].
Qed.

Lemma dict_get_None {V} (d : dict V) k : k ∉ dict_keys d → dict_get d k = None.
Proof.
  induction d as [|[k0 v0] d IH]; cbn; [done|]. intros Hk.
  rewrite not_elem_of_cons in Hk. destruct Hk as [Hne Hk].
  rewrite decide_False by done. by apply IH.
Qed.

Lemma dict_get_Some {V} (d : dict V) k : k ∈ dict_keys d → ∃ v, dict_get d k = Some v.
Proof.
  induction d as [|[k0 v0] d IH]; cbn; [by intros ?%elem_of_nil|].
  intros Hk. destruct (decide (k0 = k)); [eauto|].
  apply elem_of_cons in Hk as [->|Hk]; [done|]. by apply IH.
Qed.

Lemma dict_keys_del {V} (d : dict V) k x : x ∈ dict_keys (dict_del d k) → x ∈ dict_keys d.
Proof.
  induction d as [|[k0 v0] d IH]; cbn; [done|].
  destruct (decide (k0 = k)); cbn.
  - intros Hx. by apply list_elem_of_further.
  - intros [->|Hx]%elem_of_cons; [apply list_elem_of_here|].
    apply list_elem_of_further. by apply IH.
Qed.

Lemma dict_get_del_eq {V} (d : dict V) k :
  NoDup (dict_keys d) → dict_get (dict_del d k) k = None.
Proof.
  induction d as [|[k0 v0] d IH]; cbn; [done|]. intros [Hk0 Hd]%NoDup_cons.
  destruct (decide (k0 = k)) as [->|Hne]; cbn.
  - by apply dict_get_None.
  - rewrite decide_False by done. by apply IH.
Qed.

Lemma dict_keys_set {V} (d : dict V) k v x :
  x ∈ dict_keys (dict_set d k v) → x = k ∨ x ∈ dict_keys d.
Proof.
  induction d as [|[k0 v0] d IH]; cbn.
  - intros [->|?%elem_of_nil]%elem_of_cons; [by left|done].
  - destruct (decide (k0 = k)) as [->|Hne]; cbn.
    + intros [->|Hx]%elem_of_cons; [by left|]. right. by apply list_elem_of_further.
    + intros [->|Hx]%elem_of_cons; [right; apply list_elem_of_here|].
      destruct (IH Hx) as [->|Hd]; [by left|]. right. by apply list_elem_of_further.
Qed.

Lemma NoDup_dict_set {V} (d : dict V) k v :
  NoDup (dict_keys d) → NoDup (dict_keys (dict_set d k v)).
Proof.
  induction d as [|[k0 v0] d IH]; cbn.
  - intros _. apply NoDup_singleton.
  - intros [Hk0 Hd]%NoDup_cons. destruct (decide (k0 = k)) as [->|Hne]; cbn.
    + by apply NoDup_cons.
    + apply NoDup_cons. split; [|by apply IH].
      intros [->|Hx]%dict_keys_set; done.
Qed.

Lemma NoDup_dict_del {V} (d : dict V) k :
  NoDup (dict_keys d) → NoDup (dict_keys (dict_del d k)).
Proof.
  induction d as [|[k0 v0] d IH]; cbn; [done|].
  intros [Hk0 Hd]%NoDup_cons. destruct (decide (k0 = k)); cbn; [done|].
  apply NoDup_cons. split; [|by apply IH]. intros Hx%dict_keys_del. done.
Qed.

Lemma NoDup_map_inj {X Y} (f : X → Y) (l : list X) x y :
  NoDup (map f l) → x ∈ l → y ∈ l → f x = f y → x = y.
Proof.
  induction l as [|z l IH]; cbn; [by intros _ ?%elem_of_nil|].
  intros [Hz Hl]%NoDup_cons [->|Hx]%elem_of_cons [->|Hy]%elem_of_cons Hf; [done| | |by apply IH].
  - exfalso. apply Hz. rewrite Hf. by apply (list_elem_of_fmap_2 f).
  - exfalso. apply Hz. rewrite <- Hf. by apply (list_elem_of_fmap_2 f).
Qed.

Lemma rename_loop_spec (sd0 : dict (tensor A)) :
  rename_safe (dict_keys sd0) →
  ∀ rest done sd,
    dict_keys sd0 = done ++ rest →
    NoDup (dict_keys sd) →
    (∀ k, k ∈ done → dict_get sd (LukeModel.new_key k) = dict_get sd0 k) →
    (∀ k, k ∈ rest → dict_get sd k = dict_get sd0 k) →
    (∀ x, x ∉ map LukeModel.new_key done → x ∉ rest → dict_get sd x = None) →
    ∃ sd', LukeModel.rename_loop rest sd = Ok sd' ∧
           NoDup (dict_keys sd') ∧
           (∀ k, k ∈ dict_keys sd0 → dict_get sd' (LukeModel.new_key k) = dict_get sd0 k) ∧
           (∀ x, x ∉ map LukeModel.new_key (dict_keys sd0) → dict_get sd' x = None).
Proof.
  intros (Hnd & Hinj & Hsafe). rewrite Forall_forall in Hsafe.
  induction rest as [|k rest IH]; intros done sd Hkeys Hsd Ha Hb Hc.
  - rewrite app_nil_r in Hkeys. subst done. exists sd. cbn. repeat split; [done|done|].
    intros x Hx. apply Hc; [done|]. by intros ?%elem_of_nil.
  - assert (Hk : k ∈ dict_keys sd0)
      by (rewrite Hkeys; apply elem_of_app; right; apply list_elem_of_here).
    assert (Hkd : k ∉ done).
    { rewrite Hkeys in Hnd. apply NoDup_app in Hnd as (_ & Hd & _).
      intros Hin. apply (Hd _ Hin). apply list_elem_of_here. }
    assert (Hkr : k ∉ rest).
    { rewrite Hkeys in Hnd. apply NoDup_app in Hnd as (_ & _ & Hr).
      by apply NoDup_cons in Hr as [Hr _]. }
    assert (Hin : ∀ x, x ∈ done ∨ x ∈ rest → x ∈ dict_keys sd0 ∧ x ≠ k).
    { intros x Hx. split.
      - rewrite Hkeys. apply elem_of_app.
        destruct Hx; [by left|right; by apply list_elem_of_further].
      - intros ->. by destruct Hx. }
    cbn. unfold LukeModel.rename_key.
    destruct (decide (k ≠ LukeModel.new_key k)) as [Hne|Heq].
    + destruct (dict_get_Some sd0 k Hk) as [v Hv].
      rewrite (Hb k (list_elem_of_here _ _)), Hv. cbn.
      assert (Hnk : LukeModel.new_key k ∉ dict_keys sd0).
      { destruct (Hsafe k Hk) as [Hs|Hs]; [by rewrite Hs in Hne|done]. }
      apply (IH (done ++ [k])).
      * by rewrite <- app_assoc.
      * by apply NoDup_dict_del, NoDup_dict_set.
      * intros k' [Hk'|Hk']%elem_of_app; [|apply list_elem_of_singleton in Hk' as ->].
        -- destruct (Hin k' (or_introl Hk')) as [Hk'0 Hk'k].
           rewrite dict_get_del_ne, dict_get_set_ne; [by apply Ha| |].
           ++ intros Heq'. apply Hk'k. symmetry.
              by apply (NoDup_map_inj LukeModel.new_key (dict_keys sd0)).
           ++ intros Heq'. destruct (Hsafe k' Hk'0) as [Hs|Hs].
              ** apply Hk'k. by rewrite <- Hs.
              ** apply Hs. by rewrite <- Heq'.
        -- rewrite dict_get_del_ne by done. by rewrite dict_get_set_eq.
      * intros k' Hk'. destruct (Hin k' (or_intror Hk')) as [Hk'0 Hk'k].
        rewrite dict_get_del_ne by done. rewrite dict_get_set_ne.
        -- apply Hb. by apply list_elem_of_further.
        -- intros Heq'. apply Hnk. by rewrite Heq'.
      * intros x Hx Hxr. rewrite fmap_app, elem_of_app in Hx.
        destruct (decide (x = k)) as [->|Hxk].
        -- by apply dict_get_del_eq, NoDup_dict_set.
        -- rewrite dict_get_del_ne by done. rewrite dict_get_set_ne.
           ++ apply Hc; [tauto|]. by intros [->|?]%elem_of_cons.
           ++ intros <-. apply Hx. right. cbn. apply list_elem_of_here.
    + assert (Heq' : LukeModel.new_key k = k) by (by destruct (decide (LukeModel.new_key k = k)); [|exfalso; apply Heq]).
      cbn. apply (IH (done ++ [k])).
      * by rewrite <- app_assoc.
      * done.
      * intros k' [Hk'|Hk']%elem_of_app; [by apply Ha|].
        apply list_elem_of_singleton in Hk' as ->. rewrite Heq'. apply Hb. apply list_elem_of_here.
      * intros k' Hk'. apply Hb. by apply list_elem_of_further.
      * intros x Hx Hxr. rewrite fmap_app, elem_of_app in Hx.
        apply Hc; [tauto|]. intros [->|?]%elem_of_cons; [|done].
        apply Hx. right. cbn. rewrite Heq'. apply list_elem_of_here.
Qed.

(** Renaming never raises on the keys of a dictionary, and, on keys that
    it keeps apart, files every entry under its renamed key. *)
Lemma rename_keys_spec (sd : dict (tensor A)) :
  rename_safe (dict_keys sd) →
  ∃ sd', LukeModel.rename_keys sd = Ok sd' ∧
         NoDup (dict_keys sd') ∧
         (∀ k, k ∈ dict_keys sd → dict_get sd' (LukeModel.new_key k) = dict_get sd k) ∧
         (∀ x, x ∉ map LukeModel.new_key (dict_keys sd) → dict_get sd' x = None).
Proof.
  intros Hsafe. unfold LukeModel.rename_keys.
  apply (rename_loop_spec sd Hsafe (dict_keys sd) [] sd); try done.
  - by destruct Hsafe.
  - intros k ?%elem_of_nil. done.
  - intros x _ Hx. by apply dict_get_None.
Qed.

End Rename.

Section Load.
Context {A : Type} `{!Scalar A}.
Implicit Types (sd : dict (tensor A)) (st : LukeModel.load_state A).

Lemma load_param_prefix sd prefix st (p : string * ref) :
  LukeModel.load_param sd prefix st p
  = LukeModel.load_param sd "" st (prefix +:+ p.1, p.2).
Proof. done. Qed.

Lemma strip_load_param sd prefix st p :
  strip (LukeModel.load_param sd prefix st p) = LukeModel.load_param sd prefix (strip st) p.
Proof.
  unfold LukeModel.load_param, strip. cbn.
  destruct (dict_get sd _) as [t|]; [|done].
  by destruct (decide _).
Qed.

Lemma strip_foldl sd prefix st l :
  strip (foldl (LukeModel.load_param sd prefix) st l)
  = foldl (LukeModel.load_param sd prefix) (strip st) l.
Proof.
  revert st. induction l as [|p l IH]; intros st; cbn; [done|].
  by rewrite IH, strip_load_param.
Qed.

Lemma foldl_load_param_prefix sd prefix st (l : list (string * ref)) :
  foldl (LukeModel.load_param sd prefix) st l
  = loaded sd st (map (fun p => (prefix +:+ p.1, p.2)) l).
Proof.
  unfold loaded. revert st. induction l as [|p l IH]; intros st; cbn; [done|].
  by rewrite IH.
Qed.

Lemma loaded_app sd st l1 l2 : loaded sd st (l1 ++ l2) = loaded sd (loaded sd st l1) l2.
Proof. unfold loaded. by rewrite foldl_app. Qed.

(** What [load] does to the parameters, the missing keys and the error
    messages is to load the named parameters of the module in order. *)
Lemma strip_load sd m prefix st :
  strip (LukeModel.load sd m prefix st) = loaded sd (strip st) (named_parameters prefix m).
Proof.
  revert prefix st. induction m as [k ps ms IH] using pymodule_rect'. intros prefix st.
  cbn [LukeModel.load named_parameters mod_modules]. rewrite loaded_app.
  rewrite <- foldl_load_param_prefix, <- strip_foldl.
  assert (Hst : strip (LukeModel._load_from_state_dict (PyModule k ps ms) sd prefix st)
                = strip (foldl (LukeModel.load_param sd prefix) st (local_params ps))) by done.
  rewrite <- Hst.
  generalize (LukeModel._load_from_state_dict (PyModule k ps ms) sd prefix st).
  clear Hst. induction IH as [|[n c] ms Hc _ IHms]; intros st1; [done|].
  rewrite loaded_app, <- Hc. apply IHms.
Qed.

Lemma unexpected_load_mono sd m prefix st key :
  key ∈ LukeModel.unexpected_keys st →
  key ∈ LukeModel.unexpected_keys (LukeModel.load sd m prefix st).
Proof.
  revert prefix st. induction m as [k ps ms IH] using pymodule_rect'. intros prefix st Hkey.
  cbn [LukeModel.load mod_modules].
  assert (Hst : key ∈ LukeModel.unexpected_keys
                        (LukeModel._load_from_state_dict (PyModule k ps ms) sd prefix st)).
  { unfold LukeModel._load_from_state_dict. cbn [LukeModel.unexpected_keys].
    apply elem_of_app. left.
    assert (Hfold : ∀ l st0, LukeModel.unexpected_keys
                               (foldl (LukeModel.load_param sd prefix) st0 l)
                             = LukeModel.unexpected_keys st0).
    { induction l as [|p l IHl]; intros st0; cbn; [done|]. rewrite IHl.
      unfold LukeModel.load_param. destruct (dict_get sd _); [|done]. by destruct (decide _). }
    by rewrite Hfold. }
  revert Hst. generalize (LukeModel._load_from_state_dict (PyModule k ps ms) sd prefix st).
  induction IH as [|[n c] ms Hc _ IHms]; intros st1 Hst1; [done|].
  apply IHms. by apply Hc.
Qed.

Lemma load_unfold sd k ps ms prefix st :
  LukeModel.load sd (PyModule k ps ms) prefix st
  = foldl (fun st1 c => LukeModel.load sd c.2 (prefix +:+ c.1 +:+ ".") st1)
          (LukeModel._load_from_state_dict (PyModule k ps ms) sd prefix st) ms.
Proof.
  cbn [LukeModel.load mod_modules].
  generalize (LukeModel._load_from_state_dict (PyModule k ps ms) sd prefix st).
  induction ms as [|[n c] ms IH]; intros st1; [done|]. apply IH.
Qed.

Lemma unexpected_children_mono sd prefix (ms : list (string * pymodule)) st key :
  key ∈ LukeModel.unexpected_keys st →
  key ∈ LukeModel.unexpected_keys
          (foldl (fun st1 c => LukeModel.load sd c.2 (prefix +:+ c.1 +:+ ".") st1) st ms).
Proof.
  revert st. induction ms as [|c ms IH]; intros st Hkey; [done|].
  cbn. apply IH. by apply unexpected_load_mono.
Qed.

(** A key of the checkpoint whose path leaves the module tree is
    collected. *)
Lemma leaves_unexpected sd m prefix key :
  leaves m prefix key → key ∈ dict_keys sd →
  ∀ st, key ∈ LukeModel.unexpected_keys (LukeModel.load sd m prefix st).
Proof.
  intros Hleaves Hkey. induction Hleaves as [m prefix key Hun|m prefix key name child Hin _ IH];
    intros st; destruct m as [k ps ms]; rewrite load_unfold.
  - apply unexpected_children_mono. unfold LukeModel._load_from_state_dict.
    cbn [LukeModel.unexpected_keys]. apply elem_of_app. right.
    apply list_elem_of_In, filter_In. split; [by apply list_elem_of_In|done].
  - cbn in Hin. apply list_elem_of_split in Hin as (l1 & l2 & ->).
    rewrite foldl_app. cbn. apply unexpected_children_mono. by apply IH.
Qed.

Lemma hwrite_lookup_eq (h : heap A) (r : ref) t :
  r < length h → hwrite h r t !! r = Some t.
Proof. intros Hr. unfold hwrite, heap, ref in *. by apply list_lookup_insert_eq. Qed.

Lemma hwrite_lookup_ne (h : heap A) (r r' : ref) t : r ≠ r' → hwrite h r t !! r' = h !! r'.
Proof. intros Hr. unfold hwrite, heap, ref in *. by apply list_lookup_insert_ne. Qed.

Lemma load_param_root sd st (p : string) (r : ref) :
  LukeModel.load_param sd "" st (p, r)
  = match dict_get sd p with
    | Some input_param =>
        if decide (Some (shape input_param) = shape <$> (LukeModel.params st !! r))
        then {| LukeModel.params := hwrite (LukeModel.params st) r input_param;
                LukeModel.missing_keys := LukeModel.missing_keys st;
                LukeModel.unexpected_keys := LukeModel.unexpected_keys st;
                LukeModel.error_msgs := LukeModel.error_msgs st |}
        else {| LukeModel.params := LukeModel.params st;
                LukeModel.missing_keys := LukeModel.missing_keys st;
                LukeModel.unexpected_keys := LukeModel.unexpected_keys st;
                LukeModel.error_msgs := LukeModel.error_msgs st ++ [p] |}
    | None =>
        {| LukeModel.params := LukeModel.params st;
           LukeModel.missing_keys := LukeModel.missing_keys st ++ [p];
           LukeModel.unexpected_keys := LukeModel.unexpected_keys st;
           LukeModel.error_msgs := LukeModel.error_msgs st |}
    end.
Proof. done. Qed.

Lemma loaded_shape sd (l : list (string * ref)) st (r : ref) :
  shape <$> (LukeModel.params (loaded sd st l) !! r) = shape <$> (LukeModel.params st !! r).
Proof.
  unfold loaded. revert st. induction l as [|[p r'] l IH]; intros st; cbn [foldl]; [done|].
  rewrite IH. rewrite load_param_root.
  destruct (dict_get sd p) as [t|]; [|done].
  destruct (decide _) as [Hshape|]; [|done]. cbn [LukeModel.params].
  destruct (decide (r' = r)) as [->|Hne]; [|by rewrite hwrite_lookup_ne].
  destruct (LukeModel.params st !! r) as [t0|] eqn:Hr; [|done].
  rewrite hwrite_lookup_eq by (by eapply lookup_lt_Some). cbn in *. congruence.
Qed.

(** A parameter stored under one path only, whose path is in the
    checkpoint with a tensor of its shape, holds that tensor after
    loading. *)
Lemma loaded_lookup sd (l : list (string * ref)) st p (r : ref) t :
  (p, r) ∈ l → (∀ p', (p', r) ∈ l → p' = p) →
  dict_get sd p = Some t → Some (shape t) = shape <$> (LukeModel.params st !! r) →
  LukeModel.params (loaded sd st l) !! r = Some t.
Proof.
  induction l as [|[p0 r0] l IH] using rev_ind; [by intros ?%elem_of_nil|].
  intros Hin Huniq Hget Hshape. rewrite loaded_app. cbn.
  unfold loaded at 1. cbn [foldl]. rewrite load_param_root.
  destruct (decide (r0 = r)) as [->|Hne].
  - assert (p0 = p) as -> by (apply Huniq, elem_of_app; right; apply list_elem_of_here).
    rewrite Hget. rewrite <- (loaded_shape sd l st r) in Hshape.
    rewrite decide_True by done. cbn.
    destruct (LukeModel.params (loaded sd st l) !! r) as [t0|] eqn:Hr; [|done].
    apply hwrite_lookup_eq. by eapply lookup_lt_Some.
  - assert (Hl : (p, r) ∈ l).
    { apply elem_of_app in Hin as [Hin|Hin]; [done|].
      apply list_elem_of_singleton in Hin. congruence. }
    assert (IH' : LukeModel.params (loaded sd st l) !! r = Some t).
    { apply IH; try done. intros p' Hp'. apply Huniq, elem_of_app. by left. }
    destruct (dict_get sd p0) as [t0|]; [|done].
    destruct (decide _); [|done]. cbn. by rewrite hwrite_lookup_ne.
Qed.

(** Storage none of whose paths is in the checkpoint keeps its value. *)
Lemma loaded_untouched sd (l : list (string * ref)) st (r : ref) :
  (∀ p, (p, r) ∈ l → dict_get sd p = None) →
  LukeModel.params (loaded sd st l) !! r = LukeModel.params st !! r.
Proof.
  unfold loaded. revert st. induction l as [|[p0 r0] l IH]; intros st Hnone; cbn [foldl]; [done|].
  rewrite IH by (intros p Hp; apply Hnone; by apply list_elem_of_further).
  rewrite load_param_root.
  destruct (dict_get sd p0) as [t0|] eqn:Hp0; [|done].
  destruct (decide _); [|done]. cbn. apply hwrite_lookup_ne. intros ->.
  specialize (Hnone p0 (list_elem_of_here _ _)). congruence.
Qed.

Lemma loaded_missing_mono sd (l : list (string * ref)) st key :
  key ∈ LukeModel.missing_keys st → key ∈ LukeModel.missing_keys (loaded sd st l).
Proof.
  unfold loaded. revert st. induction l as [|[p0 r0] l IH]; intros st Hkey; cbn [foldl]; [done|].
  apply IH. rewrite load_param_root.
  destruct (dict_get sd p0) as [t0|]; [by destruct (decide _)|].
  cbn. apply elem_of_app. by left.
Qed.

(** A parameter whose path is not in the checkpoint is missing. *)
Lemma loaded_missing sd (l : list (string * ref)) st p r :
  (p, r) ∈ l → dict_get sd p = None → p ∈ LukeModel.missing_keys (loaded sd st l).
Proof.
  unfold loaded. revert st. induction l as [|[p0 r0] l IH]; intros st Hin Hnone;
    [by apply elem_of_nil in Hin|].
  cbn [foldl]. apply elem_of_cons in Hin as [[= <- <-]|Hin]; [|by apply IH].
  apply (loaded_missing_mono sd l). rewrite load_param_root. rewrite Hnone.
  cbn. apply elem_of_app. right. apply list_elem_of_here.
Qed.

End Load.

Section LoadBertWeights.
Context {A : Type} `{!Scalar A}.

Lemma dict_get_keys {V} (d : dict V) k v : dict_get d k = Some v → k ∈ dict_keys d.
Proof.
  induction d as [|[k0 v0] d IH]; cbn; [done|].
  destruct (decide (k0 = k)) as [->|Hne]; [intros _; apply list_elem_of_here|].
  intros Hget. apply list_elem_of_further. by apply IH.
Qed.

Lemma dict_keys_set_mono {V} (d : dict V) k v x :
  x ∈ dict_keys d → x ∈ dict_keys (dict_set d k v).
Proof.
  induction d as [|[k0 v0] d IH]; cbn; [by intros ?%elem_of_nil|].
  destruct (decide (k0 = k)) as [->|Hne]; cbn.
  - intros [->|Hx]%elem_of_cons; [apply list_elem_of_here|by apply list_elem_of_further].
  - intros [->|Hx]%elem_of_cons; [apply list_elem_of_here|].
    apply list_elem_of_further. by apply IH.
Qed.

Lemma dict_keys_del_ne {V} (d : dict V) k x :
  x ∈ dict_keys d → x ≠ k → x ∈ dict_keys (dict_del d k).
Proof.
  induction d as [|[k0 v0] d IH]; cbn; [done|].
  intros Hx Hne. destruct (decide (k0 = k)) as [->|Hne0]; cbn.
  - apply elem_of_cons in Hx as [->|Hx]; done.
  - apply elem_of_cons in Hx as [->|Hx]; [apply list_elem_of_here|].
    apply list_elem_of_further. by apply IH.
Qed.

Lemma unique_path (l : list (string * ref)) (r : ref) q :
  Forall (fun x => x.2 = r → x.1 = q) l → ∀ p, (p, r) ∈ l → p = q.
Proof. rewrite Forall_forall. intros Hl p Hp. exact (Hl (p, r) Hp eq_refl). Qed.

(** The loop over the keys never raises: a key is deleted in its own turn
    only. *)
Lemma rename_loop_total (rest : list string) (sd : dict (tensor A)) :
  NoDup rest → (∀ k, k ∈ rest → k ∈ dict_keys sd) →
  ∃ sd', LukeModel.rename_loop rest sd = Ok sd'.
Proof.
  revert sd. induction rest as [|k rest IH]; intros sd Hnd Hin; cbn; [eauto|].
  apply NoDup_cons in Hnd as [Hk Hnd]. unfold LukeModel.rename_key.
  destruct (decide (k ≠ LukeModel.new_key k)) as [Hne|Heq]; cbn.
  - destruct (dict_get_Some sd k (Hin k (list_elem_of_here _ _))) as [v ->]. cbn.
    apply IH; [done|]. intros k' Hk'. apply dict_keys_del_ne; [|by intros ->].
    apply dict_keys_set_mono, Hin. by apply list_elem_of_further.
  - apply IH; [done|]. intros k' Hk'. apply Hin. by apply list_elem_of_further.
Qed.


End LoadBertWeights.


(** * The forward pass of the base model *)

Section Forward.
Context {A : Type} `{!Scalar A}.

(** X1.  On well-formed parameters and inputs of batch size [b], [w] words
    (at least one, at most [max_position_embeddings]) and [e] entities,
    [LukeModel.forward] returns: with [output_all_encoded_layers], which
    needs a layer, the list of one (word, entity) pair per layer, and
    without it the last pair alone; every word output has shape
    (b, w, hidden), every entity output (b, e, hidden), and the pooled
    output (b, hidden). *)
Theorem LukeModel_forward_shapes h (m : LukeModel.t A) md
    word_ids word_segment_ids word_attention_mask
    entity_ids entity_position_ids entity_segment_ids entity_attention_mask
    output_all_encoded_layers b w e :
  let c := LukeModel.config m in
  LukeModel_wf h m →
  is_mat b w word_ids → in_range (LukeConfig.vocab_size c) word_ids →
  segment_ok (LukeConfig.type_vocab_size c) b w word_ids word_segment_ids →
  is_mat b w word_attention_mask →
  is_mat b e entity_ids → in_range (LukeConfig.entity_vocab_size c) entity_ids →
  position_ok (LukeConfig.max_position_embeddings c) b e entity_position_ids →
  segment_ok (LukeConfig.type_vocab_size c) b e entity_ids entity_segment_ids →
  is_mat b e entity_attention_mask →
  0 < w ≤ LukeConfig.max_position_embeddings c →
  (output_all_encoded_layers = true → Encoder.layer (LukeModel.encoder m) ≠ []) →
  ∃ enc pooled,
    LukeModel.forward h m md word_ids word_segment_ids word_attention_mask
      entity_ids entity_position_ids entity_segment_ids entity_attention_mask
      output_all_encoded_layers = Ok (enc, pooled) ∧
    is_mat b (LukeConfig.hidden_size c) pooled ∧
    match enc with
    | LukeModel.AllLayers l =>
        output_all_encoded_layers = true ∧
        length l = length (Encoder.layer (LukeModel.encoder m)) ∧
        Forall (fun p => is_t3 b w (LukeConfig.hidden_size c) p.1 ∧
                         is_t3 b e (LukeConfig.hidden_size c) p.2) l
    | LukeModel.LastLayer p =>
        output_all_encoded_layers = false ∧
        is_t3 b w (LukeConfig.hidden_size c) p.1 ∧ is_t3 b e (LukeConfig.hidden_size c) p.2
    end.
Proof.
  intros c Hwf Hwi Hwr Hws Hwm Hei Her Hep Hes Hem Hw Hlayers.
  destruct (LukeModel_forward_returns h m md word_ids word_segment_ids word_attention_mask
              entity_ids entity_position_ids entity_segment_ids entity_attention_mask
              output_all_encoded_layers b w e Hwf Hwi Hwr Hws Hwm Hei Her Hep Hes Hem Hw
              Hlayers) as ([enc pooled] & Hfw & Henc & Hpooled).
  exists enc, pooled. split; [exact Hfw|]. split; [exact Hpooled|].
  destruct enc as [l|p]; exact Henc.
Qed.

(** X2.  A model without layers: with [output_all_encoded_layers] the
    encoder returns the empty list and [encoded_layers[-1]] raises
    [IndexError]; without it the pair that [forward] returns is the pair of
    the embedding outputs, and the pooled output is computed from the word
    embeddings. *)
Theorem LukeModel_forward_no_layers h (m : LukeModel.t A) md
    word_ids word_segment_ids word_attention_mask
    entity_ids entity_position_ids entity_segment_ids entity_attention_mask b w e :
  let c := LukeModel.config m in
  LukeModel_wf h m → Encoder.layer (LukeModel.encoder m) = [] →
  is_mat b w word_ids → in_range (LukeConfig.vocab_size c) word_ids →
  segment_ok (LukeConfig.type_vocab_size c) b w word_ids word_segment_ids →
  is_mat b w word_attention_mask →
  is_mat b e entity_ids → in_range (LukeConfig.entity_vocab_size c) entity_ids →
  position_ok (LukeConfig.max_position_embeddings c) b e entity_position_ids →
  segment_ok (LukeConfig.type_vocab_size c) b e entity_ids entity_segment_ids →
  is_mat b e entity_attention_mask →
  0 < w ≤ LukeConfig.max_position_embeddings c →
  LukeModel.forward h m md word_ids word_segment_ids word_attention_mask
    entity_ids entity_position_ids entity_segment_ids entity_attention_mask true
  = Raise IndexError ∧
  ∃ we ee pooled,
    WordEmbeddings.forward h (LukeModel.embeddings m) (at_site 0 md) word_ids
      word_segment_ids = Ok we ∧
    EntityEmbeddings.forward h (LukeModel.entity_embeddings m) (at_site 1 md) entity_ids
      entity_position_ids entity_segment_ids = Ok ee ∧
    Pooler.forward h (LukeModel.pooler m) we = Ok pooled ∧
    LukeModel.forward h m md word_ids word_segment_ids word_attention_mask
      entity_ids entity_position_ids entity_segment_ids entity_attention_mask false
    = Ok (LukeModel.LastLayer (we, ee), pooled).
Proof.
  intros c (Henc & Hpool & Hemb & Hent) Hnil Hwi Hwr Hws Hwm Hei Her Hep Hes Hem Hw.
  unfold LukeModel.forward.
  destruct (extended_attention_mask_returns (A:=A) word_attention_mask
              entity_attention_mask b w e Hwm Hem) as (mask & -> & _).
  destruct (WordEmbeddings_forward_returns h c (LukeModel.embeddings m) (at_site 0 md)
              word_ids word_segment_ids b w Hemb Hwi Hwr ltac:(lia) Hws)
    as (we & Hwe & Hwes).
  destruct (EntityEmbeddings_forward_returns h c (LukeModel.entity_embeddings m)
              (at_site 1 md) entity_ids entity_position_ids entity_segment_ids b e
              Hent Hei Her Hep ltac:(lia) Hes) as (ee & Hee & _).
  destruct (Pooler_forward_returns h _ (LukeModel.pooler m) we b w Hpool Hwes ltac:(lia))
    as (pooled & Hpooled & _).
  rewrite Hwe, Hee. cbn -[Pooler.forward]. unfold Encoder.forward. rewrite Hnil.
  cbn -[Pooler.forward]. split; [done|]. exists we, ee, pooled. by rewrite Hpooled.
Qed.

(** X3.  A layer keeps the shapes of the two streams: on well-formed
    parameters, word states of shape (b, w, hidden), entity states of shape
    (b, e, hidden) and a mask of shape (b, w + e), [Layer.forward] returns
    word and entity states of the same shapes, so that layers compose. *)
Theorem Layer_forward_keeps_shapes h hidden (m : Layer.t A) md
    (word_hidden_states entity_hidden_states : list (list (list A)))
    (attention_mask : list (list A)) b w e :
  Layer_wf h hidden m →
  is_t3 b w hidden word_hidden_states → is_t3 b e hidden entity_hidden_states →
  is_mat b (w + e) attention_mask →
  ∃ word_layer_output entity_layer_output,
    Layer.forward h m md word_hidden_states entity_hidden_states attention_mask
    = Ok (word_layer_output, entity_layer_output) ∧
    is_t3 b w hidden word_layer_output ∧ is_t3 b e hidden entity_layer_output.
Proof.
  intros Hwf Hw He Hmask.
  destruct (Layer_forward_returns h hidden m md word_hidden_states entity_hidden_states
              attention_mask b w e Hwf Hw He Hmask) as ([wo eo] & Hfw & Hwo & Heo).
  by exists wo, eo.
Qed.

End Forward.
Lemma LukeModel_forward_shapes_witness :
  ∃ m s,
    LukeModel.init tiny_config tiny_state = Ok (m, s) ∧
    ∃ enc pooled,
      LukeModel.forward (cells s) m eval_mode tiny_word_ids (Some tiny_type_ids) tiny_mask
        tiny_entity_ids tiny_entity_position_ids None tiny_entity_mask true
      = Ok (enc, pooled) ∧
      is_mat 2 4 pooled.
Proof.
  eexists _, _. split; [vm_compute; reflexivity|].
  refine ((fun H1 H2 H3 H4 H5 H6 H7 H8 H9 H10 H11 H12 =>
             match LukeModel_forward_shapes (cells _) _ eval_mode tiny_word_ids
                     (Some tiny_type_ids) tiny_mask tiny_entity_ids
                     tiny_entity_position_ids None tiny_entity_mask true 2 3 1
                     H1 H2 H3 H4 H5 H6 H7 H8 H9 H10 H11 H12
             with
             | ex_intro _ enc (ex_intro _ pooled (conj Hfw (conj Hp _))) =>
                 ex_intro _ enc (ex_intro _ pooled (conj Hfw Hp))
             end) _ _ _ _ _ _ _ _ _ _ _ _).
  - compute_done.
  - compute_done.
  - compute_done.
  - compute_done.
  - compute_done.
  - compute_done.
  - compute_done.
  - compute_done.
  - cbn. lia.
  - compute_done.
  - cbn. lia.
  - intros _. cbn. done.
Defined.

Lemma LukeModel_forward_no_layers_witness :
  ∃ m s,
    LukeModel.init no_layer_config tiny_state = Ok (m, s) ∧
    LukeModel.forward (cells s) m eval_mode tiny_word_ids (Some tiny_type_ids) tiny_mask
      tiny_entity_ids tiny_entity_position_ids None tiny_entity_mask true
    = Raise IndexError.
Proof.
  eexists _, _. split; [vm_compute; reflexivity|].
  refine ((fun H1 H2 H3 H4 H5 H6 H7 H8 H9 H10 H11 H12 =>
             proj1 (LukeModel_forward_no_layers (cells _) _ eval_mode tiny_word_ids
                      (Some tiny_type_ids) tiny_mask tiny_entity_ids
                      tiny_entity_position_ids None tiny_entity_mask 2 3 1
                      H1 H2 H3 H4 H5 H6 H7 H8 H9 H10 H11 H12))
            _ _ _ _ _ _ _ _ _ _ _ _).
  - compute_done.
  - reflexivity.
  - compute_done.
  - compute_done.
  - compute_done.
  - compute_done.
  - compute_done.
  - compute_done.
  - compute_done.
  - cbn. lia.
  - compute_done.
  - cbn. lia.
Defined.

Lemma Layer_forward_keeps_shapes_witness :
  ∃ m s l,
    LukeModel.init tiny_config tiny_state = Ok (m, s) ∧
    Encoder.layer (LukeModel.encoder m) !! 0 = Some l ∧
    ∃ wo eo,
      Layer.forward (cells s) l eval_mode tiny_word_output tiny_entity_output tiny_bias
      = Ok (wo, eo) ∧
      is_t3 2 3 4 wo ∧ is_t3 2 1 4 eo.
Proof.
  eexists _, _, _. split; [vm_compute; reflexivity|]. split; [reflexivity|].
  apply (Layer_forward_keeps_shapes (cells _) 4 _ eval_mode tiny_word_output
           tiny_entity_output tiny_bias 2 3 1); compute_done.
Defined.

(** * Bounds of the embeddings and of the pooler *)

Section Bounds.
Context {A : Type} `{!Scalar A}.

Lemma raises_only_mapM {X Y} (f : X → result Y) (l : list X) e :
  (∀ x, raises_only e (f x)) → raises_only e (mapM f l).
Proof.
  intros Hf. induction l as [|x l IH]; intros e' He'; cbn in He'; [done|].
  destruct (f x) as [y|e0] eqn:Hx; cbn in He'.
  - destruct (mapM f l) as [ys|e1]; cbn in He'; [done|].
    injection He' as <-. by apply IH.
  - injection He' as <-. by apply (Hf x).
Qed.

Lemma mapM_Exists_not_Ok {X Y} (f : X → result Y) (l : list X) :
  Exists (fun x => ∀ y, f x ≠ Ok y) l → ∀ ys, mapM f l ≠ Ok ys.
Proof.
  intros Hex ys Hys. apply mapM_Ok_Forall2 in Hys.
  induction Hys as [|x y l ys Hxy _ IH]; inversion Hex as [? ? Hx|? ? Hl]; subst.
  - by apply (Hx y).
  - by apply IH.
Qed.

(** A list of computations one of which fails, all of which raise [e] only,
    raises [e]. *)
Lemma mapM_raises {X Y} (f : X → result Y) (l : list X) e :
  (∀ x, raises_only e (f x)) → Exists (fun x => ∀ y, f x ≠ Ok y) l →
  mapM f l = Raise e.
Proof.
  intros Hf Hex. destruct (mapM f l) as [ys|e'] eqn:Hl.
  - by destruct (mapM_Exists_not_Ok f l Hex ys).
  - f_equal. by apply (raises_only_mapM f l e Hf).
Qed.

Lemma raises_only_Embedding_forward (h : heap A) (m : Embedding.t) (i : Z) :
  raises_only IndexError (Embedding.forward h m i).
Proof.
  intros e. unfold Embedding.forward. destruct (decide _); [|by intros [= <-]].
  destruct (_ !! _); [done|by intros [= <-]].
Qed.

Lemma Embedding_forward_out_of_range (h : heap A) (m : Embedding.t) (i : Z) :
  ¬ (0 ≤ i < Z.of_nat (Embedding.num_embeddings m))%Z →
  ∀ y, Embedding.forward h m i ≠ Ok y.
Proof. intros Hi y. unfold Embedding.forward. by rewrite decide_False. Qed.

Lemma Embedding_lookup_raises (h : heap A) (m : Embedding.t) (ids : list (list Z)) :
  Exists (Exists (fun i => ¬ (0 ≤ i < Z.of_nat (Embedding.num_embeddings m))%Z)) ids →
  mapM (mapM (Embedding.forward h m)) ids = Raise IndexError.
Proof.
  intros Hex. apply mapM_raises.
  - intros row. apply raises_only_mapM. intros i. apply raises_only_Embedding_forward.
  - eapply Exists_impl; [exact Hex|]. intros row Hrow.
    apply mapM_Exists_not_Ok. eapply Exists_impl; [exact Hrow|]. cbn.
    intros i Hi. by apply Embedding_forward_out_of_range.
Qed.

(** X4.  [WordEmbeddings.forward] raises [IndexError] when a word id is not
    an index of the word embedding table, and when a row of [input_ids] is
    longer than the position embedding table, whatever the segment ids. *)
Theorem WordEmbeddings_forward_index_error h (m : WordEmbeddings.t A) md
    (input_ids : list (list Z)) (token_type_ids : option (list (list Z))) :
  Exists (Exists (fun i => ¬ (0 ≤ i < Z.of_nat (Embedding.num_embeddings
                                                   (WordEmbeddings.word_embeddings m)))%Z))
         input_ids ∨
  Exists (fun row => Embedding.num_embeddings (WordEmbeddings.position_embeddings m)
                     < length row) input_ids →
  WordEmbeddings.forward h m md input_ids token_type_ids = Raise IndexError.
Proof.
  intros Hbad. unfold WordEmbeddings.forward.
  destruct (mapM (mapM (Embedding.forward h (WordEmbeddings.word_embeddings m))) input_ids)
    as [words|e] eqn:Hwords.
  - destruct Hbad as [Hids|Hlong]; [by rewrite Embedding_lookup_raises in Hwords|].
    cbn. rewrite (Embedding_lookup_raises h (WordEmbeddings.position_embeddings m));
      [reflexivity|].
    apply Exists_fmap. eapply Exists_impl; [exact Hlong|]. cbn. intros row Hrow.
    apply Exists_exists.
    exists (Z.of_nat (Embedding.num_embeddings (WordEmbeddings.position_embeddings m))).
    split; [|lia]. apply list_elem_of_lookup.
    exists (Embedding.num_embeddings (WordEmbeddings.position_embeddings m)).
    rewrite list_lookup_imap. destruct (row !! _) eqn:Hr; [done|].
    apply lookup_ge_None in Hr. lia.
  - cbn. f_equal.
    apply (raises_only_mapM (mapM (Embedding.forward h (WordEmbeddings.word_embeddings m)))
             input_ids IndexError); [|done].
    intros row. apply raises_only_mapM. intros i. apply raises_only_Embedding_forward.
Qed.

(** X5.  [Pooler.forward] takes the first position of every sequence: it
    raises [IndexError] when a sequence of the batch is empty. *)
Theorem Pooler_forward_empty_sequence (h : heap A) (m : Pooler.t)
    (word_hidden_states : list (list (list A))) :
  Exists (fun sequence => sequence = []) word_hidden_states →
  Pooler.forward h m word_hidden_states = Raise IndexError.
Proof.
  intros Hex. unfold Pooler.forward, Pooler.first_position.
  rewrite (mapM_raises _ word_hidden_states IndexError); [done| |].
  - intros row e. destruct (row !! 0); [done|by intros [= <-]].
  - eapply Exists_impl; [exact Hex|]. cbn. by intros row -> y.
Qed.

End Bounds.

Section RealBounds.
Open Scope R_scope.

Lemma tanh_bounds (x : R) : -1 < tanh x < 1.
Proof.
  unfold tanh, sinh, cosh.
  pose proof (exp_pos x) as Hx. pose proof (exp_pos (- x)) as Hnx.
  assert (Hc : 0 < (exp x + exp (- x)) / 2) by lra.
  split.
  - apply (Rmult_lt_reg_r ((exp x + exp (- x)) / 2)); [exact Hc|].
    unfold Rdiv at 2. rewrite Rmult_assoc, Rinv_l by lra. lra.
  - apply (Rmult_lt_reg_r ((exp x + exp (- x)) / 2)); [exact Hc|].
    unfold Rdiv at 1. rewrite Rmult_assoc, Rinv_l by lra. lra.
Qed.


End RealBounds.
Lemma WordEmbeddings_forward_index_error_witness :
  ∃ m s,
    LukeModel.init tiny_config tiny_state = Ok (m, s) ∧
    WordEmbeddings.forward (cells s) (LukeModel.embeddings m) eval_mode [[1; 5]]%Z None
    = Raise IndexError.
Proof.
  eexists _, _. split; [vm_compute; reflexivity|].
  apply WordEmbeddings_forward_index_error. left. compute_done.
Defined.

Lemma Pooler_forward_empty_sequence_witness :
  ∃ m s,
    LukeModel.init tiny_config tiny_state = Ok (m, s) ∧
    Pooler.forward (cells s) (LukeModel.pooler m) [[[1; 2; 3; 4]]; []]%R
    = Raise IndexError.
Proof.
  eexists _, _. split; [vm_compute; reflexivity|].
  apply Pooler_forward_empty_sequence. compute_done.
Defined.


(** * What the pretraining model reports *)

Section Reports.
Context {A : Type} `{!Scalar A}.

Lemma List_filter_length_le {X} (f : X → bool) (l : list X) :
  length (List.filter f l) ≤ length l.
Proof. induction l as [|x l IH]; cbn; [done|]. destruct (f x); cbn; lia. Qed.

Lemma mapM_Ok_length {X Y} (f : X → result Y) (l : list X) ys :
  mapM f l = Ok ys → length ys = length l.
Proof. intros Hys%mapM_Ok_Forall2. symmetry. by eapply Forall2_length. Qed.

Lemma zipM_Ok_length {X Y Z} (f : X → Y → result Z) xs ys zs :
  zipM f xs ys = Ok zs → length xs = length ys ∧ length zs = length ys.
Proof.
  unfold zipM. destruct (decide (length xs = length ys)) as [Hlen|]; [|done].
  intros Hzs%mapM_Ok_length. split; [done|]. rewrite Hzs, length_zip. lia.
Qed.

Lemma count_correct_bounds (scores : list (list A)) (labels : list Z) n :
  count_correct scores labels = Ok n → (0 ≤ n ≤ Z.of_nat (length labels))%Z.
Proof.
  unfold count_correct. destruct (mapM argmax scores) as [predicted|]; [|done]. cbn.
  destruct (zipM _ predicted labels) as [hits|] eqn:Hhits; [|done]. cbn.
  intros [= <-]. apply zipM_Ok_length in Hhits as [_ Hlen].
  pose proof (List_filter_length_le (fun b : bool => b) hits). lia.
Qed.

Lemma masked_select2_labels (labels : list (list Z)) b e :
  is_mat b e labels →
  masked_select2 labels (label_mask labels)
  = Ok (filter (fun l => l ≠ (-1)%Z) (concat labels)).
Proof.
  intros Hlab. rewrite (masked_select2_returns labels labels b e Hlab Hlab).
  unfold masked_positions. by rewrite masked_positions_same.
Qed.

(** Whatever the scores, the counts that a masked branch reports are
    consistent. *)
Lemma masked_counts_consistent (head : list (list A) → result (list (list A)))
    (hidden_size vocab_size : nat) (sequence_output : list (list (list A)))
    (labels : list (list Z)) (b e : nat) loss correct total :
  is_mat b e labels →
  LukePretrainingModel.masked_prediction head hidden_size vocab_size sequence_output labels
  = Ok (loss, correct, total) →
  total = Z.of_nat (count_masked labels) ∧ (0 ≤ correct ≤ total)%Z.
Proof.
  intros Hlab. unfold LukePretrainingModel.masked_prediction,
    LukePretrainingModel.masked_scores.
  destruct (masked_select3 sequence_output _) as [selected|]; [|done]. cbn.
  destruct (view_rows hidden_size selected) as [rows|]; [|done]. cbn.
  destruct (head rows) as [scores0|]; [|done]. cbn.
  destruct (view_rows vocab_size (concat scores0)) as [scores|]; [|done]. cbn.
  fold (label_mask labels). rewrite (masked_select2_labels labels b e Hlab). cbn.
  set (sel := filter (fun l => l ≠ (-1)%Z) (concat labels)).
  destruct (loss_fn scores sel) as [l|]; [|done]. cbn.
  destruct (count_correct scores sel) as [n|] eqn:Hn; [|done]. cbn.
  intros [= <- <- <-]. apply count_correct_bounds in Hn.
  assert (Hsel : List.filter (fun l => bool_decide (l ≠ (-1)%Z)) sel = sel).
  { apply filter_bool_decide_id, Forall_forall. intros x Hx.
    by apply list_elem_of_filter in Hx as [? _]. }
  rewrite Hsel. unfold count_masked. fold sel. split; [done|lia].
Qed.

(** The counts of the next-sentence branch. *)
Lemma nsp_counts (h : heap A) (m : LukePretrainingModel.t A) (batch_size : nat)
    (pooled_output : list (list A)) (is_random_next : list Z) loss correct total :
  LukePretrainingModel.nsp h m batch_size pooled_output is_random_next
  = Ok (loss, correct, total) →
  total = Z.of_nat batch_size ∧
  (0 ≤ correct ≤ Z.of_nat (length is_random_next))%Z ∧
  length is_random_next = length pooled_output.
Proof.
  unfold LukePretrainingModel.nsp.
  destruct (mapM _ pooled_output) as [score|] eqn:Hscore; [|done]. cbn.
  destruct (loss_fn score is_random_next) as [l|] eqn:Hl; [|done]. cbn.
  destruct (count_correct score is_random_next) as [n|] eqn:Hn; [|done]. cbn.
  intros [= <- <- <-]. apply count_correct_bounds in Hn.
  apply mapM_Ok_length in Hscore. unfold loss_fn in Hl.
  destruct (decide (length score = length is_random_next)); [|done].
  repeat split; [lia..|congruence].
Qed.

(** The encoder output and the three branches on well-formed inputs. *)
Lemma forward_branches_return h (m : LukePretrainingModel.t A) md
    word_ids word_segment_ids word_attention_mask
    entity_ids entity_position_ids entity_segment_ids entity_attention_mask
    masked_entity_labels masked_lm_labels is_random_next b w e :
  let c := LukeModel.config (LukePretrainingModel.base m) in
  LukePretrainingModel_wf h m →
  is_mat b w word_ids → in_range (LukeConfig.vocab_size c) word_ids →
  segment_ok (LukeConfig.type_vocab_size c) b w word_ids word_segment_ids →
  is_mat b w word_attention_mask →
  is_mat b e entity_ids → in_range (LukeConfig.entity_vocab_size c) entity_ids →
  position_ok (LukeConfig.max_position_embeddings c) b e entity_position_ids →
  segment_ok (LukeConfig.type_vocab_size c) b e entity_ids entity_segment_ids →
  is_mat b e entity_attention_mask →
  0 < w ≤ LukeConfig.max_position_embeddings c →
  labels_shape b e (LukeConfig.entity_vocab_size c) masked_entity_labels →
  labels_shape b w (LukeConfig.vocab_size c) masked_lm_labels →
  next_shape b is_random_next →
  ∃ word_sequence_output entity_sequence_output pooled_output re rl rn,
    LukeModel.forward h (LukePretrainingModel.base m) md word_ids word_segment_ids
      word_attention_mask entity_ids entity_position_ids entity_segment_ids
      entity_attention_mask false
    = Ok (LukeModel.LastLayer (word_sequence_output, entity_sequence_output),
          pooled_output) ∧
    branch_result (LukePretrainingModel.masked_entity h m entity_sequence_output)
                  masked_entity_labels re ∧
    branch_result (LukePretrainingModel.masked_lm h m word_sequence_output)
                  masked_lm_labels rl ∧
    branch_result (LukePretrainingModel.nsp h m (length word_ids) pooled_output)
                  is_random_next rn.
Proof.
  intros c (Hbase & Hep & Hlp & Hsr & Hh & Hv & Hev) Hw1 Hw2 Hw3 Hw4 He1 He2 He3 He4 He5
         Hlen Hme Hml Hnx.
  destruct (LukeModel_forward_returns h (LukePretrainingModel.base m) md word_ids
              word_segment_ids word_attention_mask entity_ids entity_position_ids
              entity_segment_ids entity_attention_mask false b w e Hbase Hw1 Hw2 Hw3 Hw4
              He1 He2 He3 He4 He5 Hlen ltac:(done))
    as ([enc pooled] & Hfw & Henc & Hpooled).
  cbn in Henc, Hpooled. destruct enc as [l|[wso eso]]; [by destruct Henc|].
  destruct Henc as (_ & Hws & Hes). cbn in Hws, Hes.
  destruct (masked_branch_result (LukePretrainingModel.masked_entity h m eso) b e
              (LukeConfig.entity_vocab_size c) masked_entity_labels) as [re Hre]; [|done|].
  { intros l H1 H2.
    destruct (masked_prediction_returns h _ _ _ _ _ _
                (EntityPredictionHead.forward h (LukePretrainingModel.entity_predictions m))
                eso l b e (EntityPredictionHead_rows h _) Hep Hh Hev Hes H1 H2)
      as (r & Hr & _).
    by exists r. }
  destruct (masked_branch_result (LukePretrainingModel.masked_lm h m wso) b w
              (LukeConfig.vocab_size c) masked_lm_labels) as [rl Hrl]; [|done|].
  { intros l H1 H2.
    destruct (masked_prediction_returns h _ _ _ _ _ _
                (LMPredictionHead.forward h
                   (BertPreTrainingHeads.predictions (LukePretrainingModel.cls m)))
                wso l b w (LMPredictionHead_rows h _) Hlp Hh Hv Hws H1 H2)
      as (r & Hr & _).
    by exists r. }
  assert (∃ rn, branch_result (LukePretrainingModel.nsp h m (length word_ids) pooled)
                              is_random_next rn) as [rn Hrn].
  { destruct is_random_next as [l|]; [|by exists None].
    destruct Hnx as [H1 H2]. destruct Hw1 as [Hb _].
    destruct (nsp_returns h m (length word_ids) _ pooled l Hsr) as [r Hr];
      [by rewrite Hb|by rewrite Hb|done|].
    by exists (Some r). }
  by exists wso, eso, pooled, re, rl, rn.
Qed.

(** The mapping that [forward] builds from what its branches compute: its
    keys and the losses that it holds. *)
Lemma forward_reports_of_branches h (m : LukePretrainingModel.t A) md
    word_ids word_segment_ids word_attention_mask
    entity_ids entity_position_ids entity_segment_ids entity_attention_mask
    masked_entity_labels masked_lm_labels is_random_next
    word_sequence_output entity_sequence_output pooled_output re rl rn :
  LukeModel.forward h (LukePretrainingModel.base m) md word_ids word_segment_ids
    word_attention_mask entity_ids entity_position_ids entity_segment_ids
    entity_attention_mask false
  = Ok (LukeModel.LastLayer (word_sequence_output, entity_sequence_output), pooled_output) →
  branch_result (LukePretrainingModel.masked_entity h m entity_sequence_output)
                masked_entity_labels re →
  branch_result (LukePretrainingModel.masked_lm h m word_sequence_output)
                masked_lm_labels rl →
  branch_result (LukePretrainingModel.nsp h m (length word_ids) pooled_output)
                is_random_next rn →
  ∃ st,
    LukePretrainingModel.forward h m md word_ids word_segment_ids word_attention_mask
      entity_ids entity_position_ids entity_segment_ids entity_attention_mask
      masked_entity_labels masked_lm_labels is_random_next = Ok st ∧
    dict_keys (LukePretrainingModel.ret st)
    = "loss" :: branch_keys "masked_entity" re ++ branch_keys "masked_lm" rl
             ++ branch_keys "nsp" rn ∧
    LukePretrainingModel.item st "masked_entity_loss"
    = match re with
      | Some _ => LukePretrainingModel.Float <$> sum_present [term re; term rl; term rn]
      | None => None
      end ∧
    LukePretrainingModel.item st "masked_lm_loss"
    = match rl, re with
      | Some _, None =>
          LukePretrainingModel.Float <$> sum_present [term re; term rl; term rn]
      | Some _, Some _ => LukePretrainingModel.Float <$> term rl
      | None, _ => None
      end ∧
    LukePretrainingModel.item st "nsp_loss"
    = match rn with
      | Some _ => LukePretrainingModel.Float <$> term rn
      | None => None
      end.
Proof.
  intros Hfw He Hl Hn. unfold LukePretrainingModel.forward. rewrite Hfw. cbn.
  destruct masked_entity_labels as [le|], re as [[[e1 e2] e3]|]; try done;
    destruct masked_lm_labels as [ll|], rl as [[[l1 l2] l3]|]; try done;
    destruct is_random_next as [ln|], rn as [[[n1 n2] n3]|]; try done;
    cbn in He, Hl, Hn; cbn; rewrite ?He; cbn; rewrite ?Hl; cbn; rewrite ?Hn; cbn;
    (eexists; split; [reflexivity|]; repeat split; reflexivity).
Qed.

(** X7.  The counts that the three branches of
    [LukePretrainingModel.forward] report are consistent.  On well-formed
    parameters, hidden states and labels, the masked-entity and the
    masked-word branch return a total equal to the number of their labels
    different from [-1] and a number of correct predictions between zero
    and that total; the next-sentence branch returns the batch size as its
    total and a number of correct predictions between zero and it. *)
Theorem reported_counts_consistent h (m : LukePretrainingModel.t A)
    (entity_sequence_output word_sequence_output : list (list (list A)))
    (pooled_output : list (list A))
    (masked_entity_labels masked_lm_labels : list (list Z)) (is_random_next : list Z)
    (b e w : nat) :
  let c := LukeModel.config (LukePretrainingModel.base m) in
  LukePretrainingModel_wf h m →
  is_t3 b e (LukeConfig.hidden_size c) entity_sequence_output →
  is_mat b e masked_entity_labels →
  labels_ok (LukeConfig.entity_vocab_size c) masked_entity_labels →
  is_t3 b w (LukeConfig.hidden_size c) word_sequence_output →
  is_mat b w masked_lm_labels →
  labels_ok (LukeConfig.vocab_size c) masked_lm_labels →
  is_mat b (LukeConfig.hidden_size c) pooled_output →
  length is_random_next = b → Forall (fun x => (-1 ≤ x < 2)%Z) is_random_next →
  (∃ loss correct total,
     LukePretrainingModel.masked_entity h m entity_sequence_output masked_entity_labels
     = Ok (loss, correct, total) ∧
     total = Z.of_nat (count_masked masked_entity_labels) ∧ (0 ≤ correct ≤ total)%Z) ∧
  (∃ loss correct total,
     LukePretrainingModel.masked_lm h m word_sequence_output masked_lm_labels
     = Ok (loss, correct, total) ∧
     total = Z.of_nat (count_masked masked_lm_labels) ∧ (0 ≤ correct ≤ total)%Z) ∧
  (∃ loss correct total,
     LukePretrainingModel.nsp h m b pooled_output is_random_next
     = Ok (loss, correct, total) ∧
     total = Z.of_nat b ∧ (0 ≤ correct ≤ total)%Z).
Proof.
  intros c (Hbase & Hep & Hlp & Hsr & Hh & Hv & Hev) Hes Hel Helo Hws Hwl Hwlo Hp Hn Hnr.
  split; [|split].
  - destruct (masked_prediction_returns h _ _ _ _ _ _
                (EntityPredictionHead.forward h (LukePretrainingModel.entity_predictions m))
                entity_sequence_output masked_entity_labels b e
                (EntityPredictionHead_rows h _) Hep Hh Hev Hes Hel Helo)
      as ([[loss correct] total] & Hr & _).
    exists loss, correct, total. split; [exact Hr|].
    by eapply masked_counts_consistent.
  - destruct (masked_prediction_returns h _ _ _ _ _ _
                (LMPredictionHead.forward h
                   (BertPreTrainingHeads.predictions (LukePretrainingModel.cls m)))
                word_sequence_output masked_lm_labels b w
                (LMPredictionHead_rows h _) Hlp Hh Hv Hws Hwl Hwlo)
      as ([[loss correct] total] & Hr & _).
    exists loss, correct, total. split; [exact Hr|].
    by eapply masked_counts_consistent.
  - destruct (nsp_returns h m b _ pooled_output is_random_next Hsr Hp Hn Hnr)
      as [[[loss correct] total] Hr].
    exists loss, correct, total. split; [exact Hr|].
    apply nsp_counts in Hr as (Ht & Hc & _). subst b. split; [done|lia].
Qed.

Lemma branch_keys_result {L} (f : L → result (A * Z * Z)) name labels r :
  branch_result f labels r → branch_keys name r = branch_keys name labels.
Proof. by destruct labels, r. Qed.

(** X8.  On well-formed inputs the mapping that
    [LukePretrainingModel.forward] returns holds [loss] and then, for each
    label argument that is present and in the order masked entity, masked
    word, next sentence, the three entries of its branch: loss, number
    correct and total; it holds no other key. *)
Theorem LukePretrainingModel_forward_keys h (m : LukePretrainingModel.t A) md
    word_ids word_segment_ids word_attention_mask
    entity_ids entity_position_ids entity_segment_ids entity_attention_mask
    masked_entity_labels masked_lm_labels is_random_next b w e :
  let c := LukeModel.config (LukePretrainingModel.base m) in
  LukePretrainingModel_wf h m →
  is_mat b w word_ids → in_range (LukeConfig.vocab_size c) word_ids →
  segment_ok (LukeConfig.type_vocab_size c) b w word_ids word_segment_ids →
  is_mat b w word_attention_mask →
  is_mat b e entity_ids → in_range (LukeConfig.entity_vocab_size c) entity_ids →
  position_ok (LukeConfig.max_position_embeddings c) b e entity_position_ids →
  segment_ok (LukeConfig.type_vocab_size c) b e entity_ids entity_segment_ids →
  is_mat b e entity_attention_mask →
  0 < w ≤ LukeConfig.max_position_embeddings c →
  labels_shape b e (LukeConfig.entity_vocab_size c) masked_entity_labels →
  labels_shape b w (LukeConfig.vocab_size c) masked_lm_labels →
  next_shape b is_random_next →
  ∃ st,
    LukePretrainingModel.forward h m md word_ids word_segment_ids word_attention_mask
      entity_ids entity_position_ids entity_segment_ids entity_attention_mask
      masked_entity_labels masked_lm_labels is_random_next = Ok st ∧
    dict_keys (LukePretrainingModel.ret st)
    = "loss" :: branch_keys "masked_entity" masked_entity_labels
             ++ branch_keys "masked_lm" masked_lm_labels
             ++ branch_keys "nsp" is_random_next.
Proof.
  intros c Hwf Hw1 Hw2 Hw3 Hw4 He1 He2 He3 He4 He5 Hlen Hme Hml Hnx.
  destruct (forward_branches_return h m md word_ids word_segment_ids word_attention_mask
              entity_ids entity_position_ids entity_segment_ids entity_attention_mask
              masked_entity_labels masked_lm_labels is_random_next b w e
              Hwf Hw1 Hw2 Hw3 Hw4 He1 He2 He3 He4 He5 Hlen Hme Hml Hnx)
    as (wso & eso & pooled & re & rl & rn & Hfw & Hre & Hrl & Hrn).
  destruct (forward_reports_of_branches h m md word_ids word_segment_ids
              word_attention_mask entity_ids entity_position_ids entity_segment_ids
              entity_attention_mask masked_entity_labels masked_lm_labels is_random_next
              wso eso pooled re rl rn Hfw Hre Hrl Hrn) as (st & Hst & Hkeys & _).
  exists st. split; [exact Hst|]. rewrite Hkeys.
  by rewrite (branch_keys_result _ _ _ _ Hre), (branch_keys_result _ _ _ _ Hrl),
    (branch_keys_result _ _ _ _ Hrn).
Qed.

(** X9.  [ret['loss']] is first bound to the loss tensor of the first
    branch that runs, and [+=] then adds the later losses to that tensor
    in place.  So on well-formed inputs the entry [masked_entity_loss],
    when masked entity labels are given, is the object of the entry
    [loss] and holds the sum of all the losses that are present, not the
    masked-entity loss alone; without entity labels the same holds of
    [masked_lm_loss].  The entries of the branches that run later hold
    their own loss. *)
Theorem LukePretrainingModel_forward_loss_aliased h (m : LukePretrainingModel.t A) md
    word_ids word_segment_ids word_attention_mask
    entity_ids entity_position_ids entity_segment_ids entity_attention_mask
    masked_entity_labels masked_lm_labels is_random_next b w e :
  let c := LukeModel.config (LukePretrainingModel.base m) in
  LukePretrainingModel_wf h m →
  is_mat b w word_ids → in_range (LukeConfig.vocab_size c) word_ids →
  segment_ok (LukeConfig.type_vocab_size c) b w word_ids word_segment_ids →
  is_mat b w word_attention_mask →
  is_mat b e entity_ids → in_range (LukeConfig.entity_vocab_size c) entity_ids →
  position_ok (LukeConfig.max_position_embeddings c) b e entity_position_ids →
  segment_ok (LukeConfig.type_vocab_size c) b e entity_ids entity_segment_ids →
  is_mat b e entity_attention_mask →
  0 < w ≤ LukeConfig.max_position_embeddings c →
  labels_shape b e (LukeConfig.entity_vocab_size c) masked_entity_labels →
  labels_shape b w (LukeConfig.vocab_size c) masked_lm_labels →
  next_shape b is_random_next →
  ∃ word_sequence_output entity_sequence_output pooled_output re rl rn st,
    LukeModel.forward h (LukePretrainingModel.base m) md word_ids word_segment_ids
      word_attention_mask entity_ids entity_position_ids entity_segment_ids
      entity_attention_mask false
    = Ok (LukeModel.LastLayer (word_sequence_output, entity_sequence_output),
          pooled_output) ∧
    branch_result (LukePretrainingModel.masked_entity h m entity_sequence_output)
                  masked_entity_labels re ∧
    branch_result (LukePretrainingModel.masked_lm h m word_sequence_output)
                  masked_lm_labels rl ∧
    branch_result (LukePretrainingModel.nsp h m (length word_ids) pooled_output)
                  is_random_next rn ∧
    LukePretrainingModel.forward h m md word_ids word_segment_ids word_attention_mask
      entity_ids entity_position_ids entity_segment_ids entity_attention_mask
      masked_entity_labels masked_lm_labels is_random_next = Ok st ∧
    (masked_entity_labels ≠ None →
     LukePretrainingModel.item st "masked_entity_loss"
     = LukePretrainingModel.Float <$> sum_present [term re; term rl; term rn] ∧
     LukePretrainingModel.item st "masked_entity_loss" = LukePretrainingModel.item st "loss" ∧
     LukePretrainingModel.item st "masked_lm_loss" = LukePretrainingModel.Float <$> term rl) ∧
    (masked_entity_labels = None → masked_lm_labels ≠ None →
     LukePretrainingModel.item st "masked_lm_loss"
     = LukePretrainingModel.Float <$> sum_present [term re; term rl; term rn] ∧
     LukePretrainingModel.item st "masked_lm_loss" = LukePretrainingModel.item st "loss") ∧
    LukePretrainingModel.item st "nsp_loss" = LukePretrainingModel.Float <$> term rn.
Proof.
  intros c Hwf Hw1 Hw2 Hw3 Hw4 He1 He2 He3 He4 He5 Hlen Hme Hml Hnx.
  destruct (forward_branches_return h m md word_ids word_segment_ids word_attention_mask
              entity_ids entity_position_ids entity_segment_ids entity_attention_mask
              masked_entity_labels masked_lm_labels is_random_next b w e
              Hwf Hw1 Hw2 Hw3 Hw4 He1 He2 He3 He4 He5 Hlen Hme Hml Hnx)
    as (wso & eso & pooled & re & rl & rn & Hfw & Hre & Hrl & Hrn).
  destruct (forward_reports_of_branches h m md word_ids word_segment_ids
              word_attention_mask entity_ids entity_position_ids entity_segment_ids
              entity_attention_mask masked_entity_labels masked_lm_labels is_random_next
              wso eso pooled re rl rn Hfw Hre Hrl Hrn)
    as (st & Hst & _ & Hel & Hll & Hnl).
  destruct (forward_loss_of_branches h m md word_ids word_segment_ids
              word_attention_mask entity_ids entity_position_ids entity_segment_ids
              entity_attention_mask masked_entity_labels masked_lm_labels is_random_next
              wso eso pooled re rl rn Hfw Hre Hrl Hrn)
    as (st' & Hst' & _ & Hloss & _).
  assert (st' = st) as -> by congruence.
  exists wso, eso, pooled, re, rl, rn, st. repeat split; try done.
  - destruct masked_entity_labels, re; done.
  - destruct masked_entity_labels, re; try done. by rewrite Hel, Hloss.
  - destruct masked_entity_labels, re; try done. rewrite Hll. by destruct rl.
  - destruct masked_entity_labels, re; try done. destruct masked_lm_labels, rl; done.
  - destruct masked_entity_labels, re; try done.
    destruct masked_lm_labels, rl; try done. by rewrite Hll, Hloss.
  - rewrite Hnl. by destruct rn.
Qed.

End Reports.
Lemma reported_counts_consistent_witness :
  ∃ m s,
    LukePretrainingModel.init tiny_config tiny_state = Ok (m, s) ∧
    ∃ loss correct total,
      LukePretrainingModel.masked_lm (cells s) m tiny_word_output
        [[-1; 2; -1]; [4; -1; 0]]%Z = Ok (loss, correct, total) ∧
      total = 3%Z ∧ (0 ≤ correct ≤ total)%Z.
Proof.
  eexists _, _. split; [vm_compute; reflexivity|].
  refine ((fun H1 H2 H3 H4 H5 H6 H7 H8 H9 H10 =>
             proj1 (proj2 (reported_counts_consistent (cells _) _ tiny_entity_output
                             tiny_word_output tiny_pooled_output [[1]; [-1]]%Z
                             [[-1; 2; -1]; [4; -1; 0]]%Z [0; 1]%Z 2 1 3
                             H1 H2 H3 H4 H5 H6 H7 H8 H9 H10)))
            _ _ _ _ _ _ _ _ _ _); compute_done.
Defined.

Lemma LukePretrainingModel_forward_keys_witness :
  ∃ m s,
    LukePretrainingModel.init tiny_config tiny_state = Ok (m, s) ∧
    ∃ st,
      LukePretrainingModel.forward (cells s) m eval_mode tiny_word_ids (Some tiny_type_ids)
        tiny_mask tiny_entity_ids tiny_entity_position_ids None tiny_entity_mask
        (Some [[1]; [-1]]%Z) None (Some [0; 1]%Z) = Ok st ∧
      dict_keys (LukePretrainingModel.ret st)
      = ["loss"; "masked_entity_loss"; "masked_entity_correct"; "masked_entity_total";
         "nsp_loss"; "nsp_correct"; "nsp_total"].
Proof.
  eexists _, _. split; [vm_compute; reflexivity|].
  refine ((fun H1 H2 H3 H4 H5 H6 H7 H8 H9 H10 H11 H12 H13 H14 =>
             LukePretrainingModel_forward_keys (cells _) _ eval_mode tiny_word_ids
               (Some tiny_type_ids) tiny_mask tiny_entity_ids tiny_entity_position_ids None
               tiny_entity_mask (Some [[1]; [-1]]%Z) None (Some [0; 1]%Z) 2 3 1
               H1 H2 H3 H4 H5 H6 H7 H8 H9 H10 H11 H12 H13 H14)
            _ _ _ _ _ _ _ _ _ _ _ _ _ _).
  - compute_done.
  - compute_done.
  - compute_done.
  - compute_done.
  - compute_done.
  - compute_done.
  - compute_done.
  - compute_done.
  - cbn. lia.
  - compute_done.
  - cbn. lia.
  - compute_done.
  - compute_done.
  - compute_done.
Defined.

Lemma LukePretrainingModel_forward_loss_aliased_witness :
  ∃ m s,
    LukePretrainingModel.init tiny_config tiny_state = Ok (m, s) ∧
    ∃ st,
      LukePretrainingModel.forward (cells s) m eval_mode tiny_word_ids (Some tiny_type_ids)
        tiny_mask tiny_entity_ids tiny_entity_position_ids None tiny_entity_mask
        (Some [[1]; [-1]]%Z) (Some [[-1; 2; -1]; [4; -1; 0]]%Z) None = Ok st ∧
      LukePretrainingModel.item st "masked_entity_loss"
      = LukePretrainingModel.item st "loss".
Proof.
  eexists _, _. split; [vm_compute; reflexivity|].
  refine ((fun H1 H2 H3 H4 H5 H6 H7 H8 H9 H10 H11 H12 H13 H14 =>
             match LukePretrainingModel_forward_loss_aliased (cells _) _ eval_mode
                     tiny_word_ids (Some tiny_type_ids) tiny_mask tiny_entity_ids
                     tiny_entity_position_ids None tiny_entity_mask
                     (Some [[1]; [-1]]%Z) (Some [[-1; 2; -1]; [4; -1; 0]]%Z) None 2 3 1
                     H1 H2 H3 H4 H5 H6 H7 H8 H9 H10 H11 H12 H13 H14
             with
             | ex_intro _ _ (ex_intro _ _ (ex_intro _ _ (ex_intro _ _ (ex_intro _ _
                 (ex_intro _ _ (ex_intro _ st
                    (conj _ (conj _ (conj _ (conj _ (conj Hst (conj He _)))))))))))) =>
                 ex_intro _ st
                   (conj Hst (proj1 (proj2 (He ltac:(discriminate)))))
             end) _ _ _ _ _ _ _ _ _ _ _ _ _ _).
  - compute_done.
  - compute_done.
  - compute_done.
  - compute_done.
  - compute_done.
  - compute_done.
  - compute_done.
  - compute_done.
  - cbn. lia.
  - compute_done.
  - cbn. lia.
  - compute_done.
  - compute_done.
  - compute_done.
Defined.

(** * More on loading checkpoints *)

Section LoadMore.
Context {A : Type} `{!Scalar A}.
Implicit Types (sd : dict (tensor A)) (st : LukeModel.load_state A).

Lemma shapes_length (h h' : heap A) :
  (∀ r : ref, shape <$> (h' !! r) = shape <$> (h !! r)) → length h' = length h.
Proof.
  intros Hs.
  assert (Hle : ∀ (a b : heap A),
            (∀ r : ref, shape <$> (a !! r) = shape <$> (b !! r)) → length a ≤ length b).
  { intros a b Hab. destruct (decide (length a ≤ length b)) as [|Hgt]; [done|].
    specialize (Hab (length b)). unfold heap, ref in *.
    rewrite (lookup_ge_None_2 b (length b)) in Hab by done.
    destruct (lookup_lt_is_Some_2 a (length b)) as [t Ht]; [lia|].
    by rewrite Ht in Hab. }
  apply Nat.le_antisymm; apply Hle; [done|]. intros r. by rewrite Hs.
Qed.

(** X10.  [load_bert_weights] never raises and never changes the shape of a
    parameter, whatever the shapes of the tensors of the checkpoint: it
    returns for every checkpoint, the heap keeps its size, and every
    storage cell keeps its shape. *)
Theorem load_bert_weights_keeps_shapes (self : pymodule) (h : heap A)
    (state_dict : dict (tensor A)) :
  NoDup (dict_keys state_dict) →
  ∃ st log,
    LukeModel.load_bert_weights self h state_dict = Ok (st, log) ∧
    length (LukeModel.params st) = length h ∧
    ∀ r : ref, shape <$> (LukeModel.params st !! r) = shape <$> (h !! r).
Proof.
  intros Hnd.
  destruct (rename_loop_total (dict_keys state_dict) state_dict Hnd) as [renamed Hren];
    [done|].
  unfold LukeModel.load_bert_weights, LukeModel.rename_keys. rewrite Hren. cbn.
  eexists _, _. split; [reflexivity|].
  assert (Hshape : ∀ r : ref,
            shape <$> (LukeModel.params (LukeModel.load renamed self "" (initial_load h)) !! r)
            = shape <$> (h !! r)).
  { intros r. pose proof (strip_load renamed self "" (initial_load h)) as Hstrip.
    change (LukeModel.params (LukeModel.load renamed self "" (initial_load h)))
      with (LukeModel.params (strip (LukeModel.load renamed self "" (initial_load h)))).
    rewrite Hstrip. apply loaded_shape. }
  split; [|exact Hshape]. by apply shapes_length.
Qed.

Lemma loaded_errors_mono sd (l : list (string * ref)) st key :
  key ∈ LukeModel.error_msgs st → key ∈ LukeModel.error_msgs (loaded sd st l).
Proof.
  unfold loaded. revert st. induction l as [|[p0 r0] l IH]; intros st Hkey; cbn [foldl]; [done|].
  apply IH. rewrite load_param_root.
  destruct (dict_get sd p0) as [t0|]; [|done].
  destruct (decide _); [done|]. cbn. apply elem_of_app. by left.
Qed.

(** A parameter stored under one path only, whose path is in the
    checkpoint with a tensor of another shape, keeps its value; its path is
    recorded as an error. *)
Lemma loaded_mismatch sd (l : list (string * ref)) st p (r : ref) t :
  (p, r) ∈ l → (∀ p', (p', r) ∈ l → p' = p) →
  dict_get sd p = Some t → Some (shape t) ≠ shape <$> (LukeModel.params st !! r) →
  LukeModel.params (loaded sd st l) !! r = LukeModel.params st !! r ∧
  p ∈ LukeModel.error_msgs (loaded sd st l).
Proof.
  unfold loaded. revert st. induction l as [|[p0 r0] l IH]; intros st Hin Huniq Hget Hshape;
    [by apply elem_of_nil in Hin|].
  cbn [foldl]. rewrite load_param_root.
  destruct (decide (r0 = r)) as [->|Hne].
  - assert (p0 = p) as -> by (apply Huniq, list_elem_of_here).
    rewrite Hget, decide_False by done.
    set (st1 := {| LukeModel.params := LukeModel.params st;
                   LukeModel.missing_keys := LukeModel.missing_keys st;
                   LukeModel.unexpected_keys := LukeModel.unexpected_keys st;
                   LukeModel.error_msgs := LukeModel.error_msgs st ++ [p] |}).
    assert (Herr : p ∈ LukeModel.error_msgs (loaded sd st1 l)).
    { apply loaded_errors_mono. cbn. apply elem_of_app. right. apply list_elem_of_here. }
    split; [|exact Herr].
    destruct (decide ((p, r) ∈ l)) as [Hl|Hl].
    + apply (IH st1); try done. intros p' Hp'. apply Huniq. by apply list_elem_of_further.
    + change (LukeModel.params st) with (LukeModel.params st1).
      apply loaded_untouched. intros p' Hp'.
      assert (p' = p) as -> by (apply Huniq; by apply list_elem_of_further). done.
  - apply elem_of_cons in Hin as [[= -> ->]|Hin]; [done|].
    assert (Huniq' : ∀ p', (p', r) ∈ l → p' = p)
      by (intros p' Hp'; apply Huniq; by apply list_elem_of_further).
    destruct (dict_get sd p0) as [t0|].
    + destruct (decide _).
      * destruct (IH {| LukeModel.params := hwrite (LukeModel.params st) r0 t0;
                        LukeModel.missing_keys := LukeModel.missing_keys st;
                        LukeModel.unexpected_keys := LukeModel.unexpected_keys st;
                        LukeModel.error_msgs := LukeModel.error_msgs st |})
          as [H1 H2]; try done.
        { cbn. by rewrite hwrite_lookup_ne. }
        split; [|exact H2]. rewrite H1. cbn. by apply hwrite_lookup_ne.
      * by apply (IH {| LukeModel.params := LukeModel.params st;
                        LukeModel.missing_keys := LukeModel.missing_keys st;
                        LukeModel.unexpected_keys := LukeModel.unexpected_keys st;
                        LukeModel.error_msgs := LukeModel.error_msgs st ++ [p0] |}).
    + by apply (IH {| LukeModel.params := LukeModel.params st;
                      LukeModel.missing_keys := LukeModel.missing_keys st ++ [p0];
                      LukeModel.unexpected_keys := LukeModel.unexpected_keys st;
                      LukeModel.error_msgs := LukeModel.error_msgs st |}).
Qed.

(** X11.  A checkpoint entry whose tensor has not the shape of the
    parameter that its renamed key addresses is not loaded: the parameter
    keeps its value, the key is recorded in [error_msgs], and
    [load_bert_weights] still returns; it logs the unexpected keys only, so
    the mismatch is reported nowhere. *)
Theorem load_bert_weights_shape_mismatch (self : pymodule) (h : heap A)
    (state_dict : dict (tensor A)) k t (r : ref) :
  rename_safe (dict_keys state_dict) →
  dict_get state_dict k = Some t →
  (LukeModel.new_key k, r) ∈ named_parameters "" self →
  (∀ p, (p, r) ∈ named_parameters "" self → p = LukeModel.new_key k) →
  Some (shape t) ≠ shape <$> (h !! r) →
  ∃ st,
    LukeModel.load_bert_weights self h state_dict
    = Ok (st, if decide (0 < length (LukeModel.unexpected_keys st))
              then [sorted (LukeModel.unexpected_keys st)] else []) ∧
    LukeModel.params st !! r = h !! r ∧
    LukeModel.new_key k ∈ LukeModel.error_msgs st.
Proof.
  intros Hsafe Hk Hin Huniq Hshape.
  destruct (rename_keys_spec state_dict Hsafe) as (renamed & Hren & _ & Hget & _).
  exists (LukeModel.load renamed self "" (initial_load h)).
  split; [unfold LukeModel.load_bert_weights; by rewrite Hren|].
  pose proof (strip_load renamed self "" (initial_load h)) as Hstrip.
  assert (Hparams : LukeModel.params (LukeModel.load renamed self "" (initial_load h))
                    = LukeModel.params (loaded renamed (strip (initial_load h))
                                          (named_parameters "" self)))
    by (by rewrite <- Hstrip).
  assert (Herrors : LukeModel.error_msgs (LukeModel.load renamed self "" (initial_load h))
                    = LukeModel.error_msgs (loaded renamed (strip (initial_load h))
                                              (named_parameters "" self)))
    by (by rewrite <- Hstrip).
  rewrite Hparams, Herrors.
  destruct (loaded_mismatch renamed (named_parameters "" self) (strip (initial_load h))
              (LukeModel.new_key k) r t) as [H1 H2]; try done.
  rewrite Hget; [done|]. by eapply dict_get_keys.
Qed.

Lemma replace_from_absent old new s :
  contains old s = false → replace_from old new 0 s = s.
Proof.
  induction s as [|c s IH]; [done|]. cbn [contains replace_from].
  intros [Hp Hc]%orb_false_elim. rewrite Hp. f_equal. by apply IH.
Qed.

(** X12.  A key that holds neither [gamma] nor [beta] and does not start
    with [bert.] is its own renamed key, and its turn of the renaming loop
    leaves the dictionary as it is. *)
Theorem new_key_fixed (key : string) (state_dict : dict (tensor A)) :
  contains "gamma" key = false → contains "beta" key = false →
  String.prefix "bert." key = false →
  LukeModel.new_key key = key ∧ LukeModel.rename_key state_dict key = Ok state_dict.
Proof.
  intros Hg Hb Hp.
  assert (Hkey : LukeModel.new_key key = key).
  { unfold LukeModel.new_key, replace.
    rewrite (replace_from_absent "gamma" "weight" key Hg).
    rewrite (replace_from_absent "beta" "bias" key Hb). by rewrite Hp. }
  split; [exact Hkey|]. unfold LukeModel.rename_key. rewrite Hkey.
  by rewrite decide_False by (by intros ?).
Qed.

Lemma rename_loop_fixed (keys : list string) sd :
  Forall (fun k => LukeModel.new_key k = k) keys → LukeModel.rename_loop keys sd = Ok sd.
Proof.
  induction 1 as [|k keys Hk _ IH]; cbn; [done|].
  unfold LukeModel.rename_key. rewrite Hk.
  rewrite decide_False by (by intros ?). exact IH.
Qed.

Lemma own_state_keys (l : list (string * ref)) (h : heap A) :
  Forall (fun p => p.2 < length h) l →
  dict_keys (omap (fun p => t ← h !! p.2; Some (p.1, t)) l) = map fst l.
Proof.
  induction 1 as [|[p r] l Hr _ IH]; [done|]. cbn in Hr.
  destruct (lookup_lt_is_Some_2 h r Hr) as [t Ht]. cbn. unfold heap, ref in *.
  rewrite Ht. cbn. f_equal. exact IH.
Qed.

Lemma own_state_get (l : list (string * ref)) (h : heap A) p (r : ref) t :
  NoDup (map fst l) → (p, r) ∈ l → h !! r = Some t →
  dict_get (omap (fun q => t ← h !! q.2; Some (q.1, t)) l) p = Some t.
Proof.
  induction l as [|[p0 r0] l IH]; [by intros _ ?%elem_of_nil|].
  intros [Hp0 Hnd]%NoDup_cons [[= -> ->]|Hin]%elem_of_cons Ht.
  - cbn. unfold heap, ref in *. rewrite Ht. cbn. by rewrite decide_True.
  - assert (Hne : p0 ≠ p).
    { intros ->. apply Hp0. by apply (list_elem_of_fmap_2 fst l (p, r)). }
    cbn. unfold heap, ref in *. destruct (h !! r0) as [t0|] eqn:Hr0; cbn.
    + rewrite decide_False by done. by apply IH.
    + by apply IH.
Qed.

Lemma hwrite_same (h : heap A) (r : ref) t : h !! r = Some t → hwrite h r t = h.
Proof. intros Hr. unfold hwrite, heap, ref in *. by apply list_insert_id. Qed.

Lemma loaded_same sd (l : list (string * ref)) st :
  Forall (fun p => ∃ t, dict_get sd p.1 = Some t ∧ LukeModel.params st !! p.2 = Some t) l →
  loaded sd st l = st.
Proof.
  unfold loaded. induction 1 as [|[p r] l (t & Hget & Hr) _ IH]; [done|].
  cbn [foldl]. rewrite load_param_root. cbn in Hget, Hr. rewrite Hget.
  rewrite decide_True by (by rewrite Hr). rewrite (hwrite_same _ _ _ Hr).
  destruct st. exact IH.
Qed.

(** X13.  Loading the state of a module into the module itself changes
    nothing.  When the paths of the parameters are distinct and are their
    own renamed keys, and the parameters are allocated,
    [load_bert_weights] on the module's own state returns with the heap as
    it was, without missing key and without error message. *)
Theorem load_bert_weights_own_state (self : pymodule) (h : heap A) :
  NoDup (map fst (named_parameters "" self)) →
  Forall (fun p => LukeModel.new_key p.1 = p.1 ∧ p.2 < length h)
         (named_parameters "" self) →
  ∃ st log,
    LukeModel.load_bert_weights self h (own_state self h) = Ok (st, log) ∧
    LukeModel.params st = h ∧
    LukeModel.missing_keys st = [] ∧ LukeModel.error_msgs st = [].
Proof.
  intros Hnd Hall.
  assert (Hkeys : dict_keys (own_state self h) = map fst (named_parameters "" self)).
  { apply own_state_keys. eapply Forall_impl; [exact Hall|]. by intros p [_ ?]. }
  assert (Hren : LukeModel.rename_keys (own_state self h) = Ok (own_state self h)).
  { unfold LukeModel.rename_keys. apply rename_loop_fixed. rewrite Hkeys.
    apply Forall_fmap. eapply Forall_impl; [exact Hall|]. by intros p [? _]. }
  set (L := LukeModel.load (own_state self h) self "" (initial_load h)).
  assert (Hstrip : strip L = strip (initial_load h)).
  { unfold L. rewrite strip_load. apply loaded_same.
    apply Forall_forall. intros [p r] Hin. rewrite Forall_forall in Hall.
    destruct (Hall _ Hin) as [_ Hr]. cbn in Hr.
    destruct (lookup_lt_is_Some_2 h r Hr) as [t Ht].
    exists t. split; [|exact Ht]. by apply (own_state_get _ h p r t). }
  exists L, (if decide (0 < length (LukeModel.unexpected_keys L))
             then [sorted (LukeModel.unexpected_keys L)] else []).
  split; [unfold LukeModel.load_bert_weights; by rewrite Hren|].
  split; [exact (f_equal LukeModel.params Hstrip)|].
  split; [exact (f_equal LukeModel.missing_keys Hstrip)|].
  exact (f_equal LukeModel.error_msgs Hstrip).
Qed.

End LoadMore.
Lemma load_bert_weights_keeps_shapes_witness :
  ∃ m s,
    LukeModel.init tiny_config tiny_state = Ok (m, s) ∧
    ∃ st log,
      LukeModel.load_bert_weights (LukeModel.modules m) (cells s) short_checkpoint
      = Ok (st, log) ∧
      length (LukeModel.params st) = length (cells s).
Proof.
  eexists _, _. split; [vm_compute; reflexivity|].
  refine ((fun H =>
             match load_bert_weights_keeps_shapes (LukeModel.modules _) (cells _)
                     short_checkpoint H
             with
             | ex_intro _ st (ex_intro _ log (conj H1 (conj H2 _))) =>
                 ex_intro _ st (ex_intro _ log (conj H1 H2))
             end) _).
  compute_done.
Defined.

Lemma load_bert_weights_shape_mismatch_witness :
  ∃ m s,
    LukeModel.init tiny_config tiny_state = Ok (m, s) ∧
    ∃ st,
      LukeModel.load_bert_weights (LukeModel.modules m) (cells s) short_checkpoint
      = Ok (st, if decide (0 < length (LukeModel.unexpected_keys st))
                then [sorted (LukeModel.unexpected_keys st)] else []) ∧
      LukeModel.params st
        !! LayerNorm.weight (WordEmbeddings.LayerNorm (LukeModel.embeddings m))
      = cells s !! LayerNorm.weight (WordEmbeddings.LayerNorm (LukeModel.embeddings m)) ∧
      "embeddings.LayerNorm.weight" ∈ LukeModel.error_msgs st.
Proof.
  eexists _, _. split; [vm_compute; reflexivity|].
  apply (load_bert_weights_shape_mismatch (LukeModel.modules _) (cells _) short_checkpoint
           "bert.embeddings.LayerNorm.gamma" (Vec [7; 7]%R)).
  - compute_done.
  - reflexivity.
  - compute_done.
  - apply unique_path. compute_done.
  - compute_done.
Defined.

Lemma new_key_fixed_witness :
  LukeModel.new_key "embeddings.LayerNorm.weight" = "embeddings.LayerNorm.weight" ∧
  LukeModel.rename_key tiny_checkpoint "embeddings.LayerNorm.weight" = Ok tiny_checkpoint.
Proof.
  apply (new_key_fixed "embeddings.LayerNorm.weight" tiny_checkpoint); reflexivity.
Defined.

Lemma load_bert_weights_own_state_witness :
  ∃ m s,
    LukeModel.init tiny_config tiny_state = Ok (m, s) ∧
    ∃ st log,
      LukeModel.load_bert_weights (LukeModel.modules m) (cells s)
        (own_state (LukeModel.modules m) (cells s)) = Ok (st, log) ∧
      LukeModel.params st = cells s ∧
      LukeModel.missing_keys st = [] ∧ LukeModel.error_msgs st = [].
Proof.
  eexists _, _. split; [vm_compute; reflexivity|].
  apply load_bert_weights_own_state; compute_done.
Defined.

(** * What the constructors build *)

Section Constructors.
Context {A : Type} `{!Scalar A}.
Implicit Types (h : heap A) (s : pstate A).

Lemma refines_refl h : refines h h.
Proof. by split. Qed.

Lemma refines_trans h1 h2 h3 : refines h1 h2 → refines h2 h3 → refines h1 h3.
Proof. intros [M1 V1] [M2 V2]. split; eauto. Qed.

Lemma refines_app h new : refines h (h ++ new).
Proof.
  split.
  - intros r o i (m & Hr & Hm). exists m. split; [|done]. by apply lookup_app_l_Some.
  - intros r n (v & Hr & Hv). exists v. split; [|done]. by apply lookup_app_l_Some.
Qed.

(** A write that keeps the shape of the cell. *)
Lemma refines_hwrite h (r : ref) t :
  (∀ o i, mat_at h r o i → ∃ m, t = Mat m ∧ is_mat o i m) →
  (∀ n, vec_at h r n → ∃ v, t = Vec v ∧ length v = n) →
  refines h (hwrite h r t).
Proof.
  intros HM HV. split.
  - intros r' o i Hat. destruct (decide (r = r')) as [<-|Hne].
    + destruct (HM o i Hat) as (m & -> & Hm). destruct Hat as (m0 & Hr & _).
      exists m. split; [|done]. apply hwrite_lookup_eq. by eapply lookup_lt_Some.
    + destruct Hat as (m & Hr & Hm). exists m. split; [|done].
      by rewrite hwrite_lookup_ne.
  - intros r' n Hat. destruct (decide (r = r')) as [<-|Hne].
    + destruct (HV n Hat) as (v & -> & Hv). destruct Hat as (v0 & Hr & _).
      exists v. split; [|done]. apply hwrite_lookup_eq. by eapply lookup_lt_Some.
    + destruct Hat as (v & Hr & Hv). exists v. split; [|done].
      by rewrite hwrite_lookup_ne.
Qed.

Lemma draw_rows_Ok (r c : nat) s :
  ∃ rows s', draw_rows r c s = Ok (rows, s') ∧ cells s' = cells s ∧ is_mat r c rows.
Proof.
  revert s. induction r as [|r IH]; intros s; cbn.
  - exists [], s. repeat split; constructor.
  - unfold mbind, ctor_bind. cbn.
    destruct (IH (PState (cells s) (fun i => rng s (c + i)))) as (rows & s' & -> & Hc & Hl & Hr).
    cbn. eexists _, _. split; [reflexivity|]. split; [exact Hc|]. split; [cbn; by rewrite Hl|].
    constructor; [by rewrite length_map, length_seq|exact Hr].
Qed.

Lemma triple_ret {T} (P : heap A → Prop) (Q : heap A → T → Prop) (v : T) :
  (∀ h, P h → Q h v) → triple P (mret v) Q.
Proof. intros HPQ s HP. exists v, s. split; [done|]. split; [apply refines_refl|auto]. Qed.

Lemma triple_bind {T U} (P : heap A → Prop) (c : ctor A T) (Q : heap A → T → Prop)
    (k : T → ctor A U) (R : heap A → U → Prop) :
  triple P c Q → (∀ v, triple (fun h => Q h v) (k v) R) → triple P (c ≫= k) R.
Proof.
  intros Hc Hk s HP. destruct (Hc s HP) as (v & s1 & Hv & Hr1 & HQ).
  destruct (Hk v s1 HQ) as (u & s2 & Hu & Hr2 & HR).
  exists u, s2. split; [|split; [by eapply refines_trans|done]].
  unfold mbind, ctor_bind. by rewrite Hv.
Qed.

Lemma triple_conseq {T} (P P' : heap A → Prop) (c : ctor A T) (Q Q' : heap A → T → Prop) :
  triple P c Q → (∀ h, P' h → P h) → (∀ h v, Q h v → Q' h v) → triple P' c Q'.
Proof.
  intros Hc HP HQ s HP'. destruct (Hc s (HP _ HP')) as (v & s' & Hv & Hr & HQv).
  exists v, s'. auto.
Qed.

(** What holds before and is kept by every heap that keeps the shapes
    holds after. *)
Lemma triple_frame {T} (P F : heap A → Prop) (c : ctor A T) (Q : heap A → T → Prop) :
  (∀ h h', refines h h' → F h → F h') →
  triple P c Q → triple (fun h => P h ∧ F h) c (fun h v => Q h v ∧ F h).
Proof.
  intros HF Hc s [HP HFs]. destruct (Hc s HP) as (v & s' & Hv & Hr & HQ).
  exists v, s'. eauto.
Qed.

Lemma triple_alloc_mat (m : list (list A)) o i :
  is_mat o i m → triple (fun _ => True) (alloc (Mat m)) (fun h r => mat_at h r o i).
Proof.
  intros Hm s _. eexists _, _. split; [reflexivity|]. cbn. split; [apply refines_app|].
  exists m. split; [|done]. by apply list_lookup_middle.
Qed.

Lemma triple_alloc_vec (v : list A) n :
  length v = n → triple (fun _ => True) (alloc (Vec v)) (fun h r => vec_at h r n).
Proof.
  intros Hv s _. eexists _, _. split; [reflexivity|]. cbn. split; [apply refines_app|].
  exists v. split; [|done]. by apply list_lookup_middle.
Qed.

Lemma triple_draw n :
  triple (fun _ => True) (draw n) (fun _ (v : list A) => length v = n).
Proof.
  intros s _. eexists _, _. split; [reflexivity|]. cbn. split; [apply refines_refl|].
  by rewrite length_map, length_seq.
Qed.

Lemma triple_draw_rows r c :
  triple (fun _ => True) (draw_rows r c) (fun _ (m : list (list A)) => is_mat r c m).
Proof.
  intros s _. destruct (draw_rows_Ok r c s) as (rows & s' & Hrows & Hc & Hm).
  exists rows, s'. split; [done|]. rewrite Hc. split; [apply refines_refl|done].
Qed.

Lemma mat_at_stable h h' (r : ref) o i : refines h h' → mat_at h r o i → mat_at h' r o i.
Proof. intros [HM _]. apply HM. Qed.

Lemma vec_at_stable h h' (r : ref) n : refines h h' → vec_at h r n → vec_at h' r n.
Proof. intros [_ HV]. apply HV. Qed.

Lemma Linear_built_stable h h' i o l :
  refines h h' → Linear_built h i o l → Linear_built h' i o l.
Proof.
  intros Hr (H1 & H2 & H3 & H4). repeat split; [done|done|by eapply mat_at_stable|].
  destruct (Linear.bias l); cbn in *; [by eapply vec_at_stable|done].
Qed.

Lemma LayerNorm_built_stable h h' n m :
  refines h h' → LayerNorm_built h n m → LayerNorm_built h' n m.
Proof. intros Hr [H1 H2]. split; by eapply vec_at_stable. Qed.

Lemma Embedding_built_stable h h' n d m :
  refines h h' → Embedding_built h n d m → Embedding_built h' n d m.
Proof. intros Hr (H1 & H2 & H3). repeat split; [done|done|by eapply mat_at_stable]. Qed.

Lemma WordEmbeddings_built_stable h h' c m :
  refines h h' → WordEmbeddings_built h c m → WordEmbeddings_built h' c m.
Proof.
  intros Hr (H1 & H2 & H3 & H4). unfold WordEmbeddings_built.
  split_and!; eauto using Embedding_built_stable, LayerNorm_built_stable.
Qed.

Lemma EntityEmbeddings_built_stable h h' c m :
  refines h h' → EntityEmbeddings_built h c m → EntityEmbeddings_built h' c m.
Proof.
  intros Hr (H0 & H1 & H2 & H3 & H4 & H5). unfold EntityEmbeddings_built.
  split; [done|]. repeat (split; [by eapply Embedding_built_stable|]).
  split; [|by eapply LayerNorm_built_stable].
  destruct (EntityEmbeddings.entity_dense m); [|done].
  destruct H4. split; [done|by eapply Linear_built_stable].
Qed.

Lemma SelfAttention_built_stable h h' hidden heads m :
  refines h h' → SelfAttention_built h hidden heads m → SelfAttention_built h' hidden heads m.
Proof.
  intros Hr (H1 & H2 & H3 & H4 & H5 & H6). unfold SelfAttention_built.
  split_and!; eauto using Linear_built_stable.
Qed.

Lemma SelfOutput_built_stable h h' hidden m :
  refines h h' → SelfOutput_built h hidden m → SelfOutput_built h' hidden m.
Proof.
  intros Hr [H1 H2]. split; eauto using Linear_built_stable, LayerNorm_built_stable.
Qed.

Lemma Attention_built_stable h h' hidden heads m :
  refines h h' → Attention_built h hidden heads m → Attention_built h' hidden heads m.
Proof.
  intros Hr [H1 H2].
  split; eauto using SelfAttention_built_stable, SelfOutput_built_stable.
Qed.

Lemma Layer_built_stable h h' hidden heads inter m :
  refines h h' → Layer_built h hidden heads inter m → Layer_built h' hidden heads inter m.
Proof.
  intros Hr (H1 & H2 & H3 & H4). unfold Layer_built.
  split_and!;
    eauto using Attention_built_stable, Linear_built_stable, LayerNorm_built_stable.
Qed.

Lemma LukeModel_built_stable h h' c m :
  refines h h' → LukeModel_built h c m → LukeModel_built h' c m.
Proof.
  intros Hr (H0 & H1 & H2 & H3 & H4 & H5). unfold LukeModel_built.
  split_and!; eauto using Linear_built_stable, WordEmbeddings_built_stable,
    EntityEmbeddings_built_stable.
  eapply Forall_impl; [exact H2|]. intros l. by apply Layer_built_stable.
Qed.

(** One statement of a constructor: the facts about the state that it
    leaves hold of the state from which the rest runs. *)
Lemma triple_step {T U} (P : heap A → Prop) (c : ctor A T) (Q : heap A → T → Prop)
    (k : T → ctor A U) (R : pstate A → U → Prop) s0 s :
  triple P c Q → P (cells s) → refines (cells s0) (cells s) →
  (∀ u s1, refines (cells s0) (cells s1) → refines (cells s) (cells s1) → Q (cells s1) u →
     ∃ v s', k u s1 = Ok (v, s') ∧ refines (cells s0) (cells s') ∧ R s' v) →
  ∃ v s', (c ≫= k) s = Ok (v, s') ∧ refines (cells s0) (cells s') ∧ R s' v.
Proof.
  intros Hc HP Hr0 Hk. destruct (Hc s HP) as (u & s1 & Hu & Hr & HQ).
  destruct (Hk u s1 (refines_trans _ _ _ Hr0 Hr) Hr HQ) as (v & s' & Hv & Hr' & HR).
  exists v, s'. split; [|done]. unfold mbind, ctor_bind. by rewrite Hu.
Qed.

Lemma triple_start {T} (P : heap A → Prop) (c : ctor A T) (Q : heap A → T → Prop) :
  (∀ s, P (cells s) → refines (cells s) (cells s) →
     ∃ v s', c s = Ok (v, s') ∧ refines (cells s) (cells s') ∧
             (fun s' v => Q (cells s') v) s' v) →
  triple P c Q.
Proof. intros H s HP. apply H; [done|apply refines_refl]. Qed.

Lemma triple_pure {T} (x : T) :
  triple (fun _ => True) (mret x : ctor A T) (fun _ v => v = x).
Proof. intros s _. exists x, s. split; [done|]. split; [apply refines_refl|done]. Qed.

Lemma triple_copy_vec (r : ref) n :
  triple (fun h => vec_at h r n) (copy_param r) (fun h r' => vec_at h r' n).
Proof.
  intros s (v & Hr & Hv). eexists _, _. split.
  { unfold copy_param, mbind, ctor_bind, read. unfold heap, ref in *. rewrite Hr. reflexivity. }
  cbn. split; [apply refines_app|]. exists v. split; [|done]. by apply list_lookup_middle.
Qed.

Lemma triple_copy_mat (r : ref) o i :
  triple (fun h => mat_at h r o i) (copy_param r) (fun h r' => mat_at h r' o i).
Proof.
  intros s (m & Hr & Hm). eexists _, _. split.
  { unfold copy_param, mbind, ctor_bind, read. unfold heap, ref in *. rewrite Hr. reflexivity. }
  cbn. split; [apply refines_app|]. exists m. split; [|done]. by apply list_lookup_middle.
Qed.

Lemma Layers_built_stable h h' hidden heads inter (ls : list (Layer.t A)) :
  refines h h' → Forall (Layer_built h hidden heads inter) ls →
  Forall (Layer_built h' hidden heads inter) ls.
Proof.
  intros Hr Hls. eapply Forall_impl; [exact Hls|]. intros l. by apply Layer_built_stable.
Qed.

Lemma triple_done {T} (R : pstate A → T → Prop) s0 s (v : T) :
  refines (cells s0) (cells s) → R s v →
  ∃ v' s', (mret v : ctor A T) s = Ok (v', s') ∧ refines (cells s0) (cells s') ∧ R s' v'.
Proof. intros Hr HR. by exists v, s. Qed.

End Constructors.

(** The facts about the heap before a statement, after it. *)
Ltac transport Hr :=
  repeat match goal with
         | H : mat_at _ _ _ _ |- _ => apply (mat_at_stable _ _ _ _ _ Hr) in H
         | H : vec_at _ _ _ |- _ => apply (vec_at_stable _ _ _ _ Hr) in H
         | H : Linear_built _ _ _ _ |- _ => apply (Linear_built_stable _ _ _ _ _ Hr) in H
         | H : LayerNorm_built _ _ _ |- _ => apply (LayerNorm_built_stable _ _ _ _ Hr) in H
         | H : Embedding_built _ _ _ _ |- _ =>
             apply (Embedding_built_stable _ _ _ _ _ Hr) in H
         | H : WordEmbeddings_built _ _ _ |- _ =>
             apply (WordEmbeddings_built_stable _ _ _ _ Hr) in H
         | H : EntityEmbeddings_built _ _ _ |- _ =>
             apply (EntityEmbeddings_built_stable _ _ _ _ Hr) in H
         | H : SelfAttention_built _ _ _ _ |- _ =>
             apply (SelfAttention_built_stable _ _ _ _ _ Hr) in H
         | H : SelfOutput_built _ _ _ |- _ =>
             apply (SelfOutput_built_stable _ _ _ _ Hr) in H
         | H : Attention_built _ _ _ _ |- _ =>
             apply (Attention_built_stable _ _ _ _ _ Hr) in H
         | H : Layer_built _ _ _ _ _ |- _ =>
             apply (Layer_built_stable _ _ _ _ _ _ Hr) in H
         | H : Forall (Layer_built _ _ _ _) _ |- _ =>
             apply (Layers_built_stable _ _ _ _ _ _ Hr) in H
         | H : LukeModel_built _ _ _ |- _ =>
             apply (LukeModel_built_stable _ _ _ _ Hr) in H
         end.

(** Run the next statement of a constructor by its triple [tr], whose
    precondition [tac] proves. *)
Tactic Notation "step_with" uconstr(tr) tactic3(tac) :=
  let u := fresh "u" in let s1 := fresh "s" in
  let Hr0 := fresh "Hr0" in let Hr := fresh "Hr" in let Hu := fresh "Hu" in
  eapply (triple_step _ _ _ _ _ _ _ tr); [tac|eassumption|];
  intros u s1 Hr0 Hr Hu; cbv beta in Hu;
  repeat match goal with H : _ ∧ _ |- _ => destruct H end;
  transport Hr; clear Hr;
  repeat match goal with
         | H : refines _ _ |- _ => lazymatch H with Hr0 => fail | _ => clear H end
         end.

Ltac finish := apply triple_done; [eassumption|cbv beta].

Section Inits.
Context {A : Type} `{!Scalar A}.
Implicit Types (h : heap A) (s : pstate A).

Lemma Linear_init_built i o (with_bias : bool) :
  triple (fun _ => True) (Linear.init i o with_bias)
         (fun h l => Linear_built h i o l ∧ (with_bias = false → Linear.bias l = None)).
Proof.
  apply triple_start. intros s _ Hs. unfold Linear.init.
  step_with (triple_draw_rows o i) (exact I).
  step_with (triple_alloc_mat u o i Hu) (exact I).
  destruct with_bias.
  - step_with (triple_draw o) (exact I).
    step_with (triple_alloc_vec u1 o Hu1) (exact I).
    finish. split; [|done]. by repeat split.
  - finish. split; [|done]. by repeat split.
Qed.

Lemma LayerNorm_init_built n (eps : A) :
  triple (fun _ => True) (LayerNorm.init n eps) (fun h m => LayerNorm_built h n m).
Proof.
  apply triple_start. intros s _ Hs. unfold LayerNorm.init.
  step_with (triple_alloc_vec (replicate n (of_Z 1)) n (length_replicate _ _)) (exact I).
  step_with (triple_alloc_vec (replicate n (of_Z 0)) n (length_replicate _ _)) (exact I).
  finish. by split.
Qed.

Lemma Embedding_init_built num dim (pad : option nat) :
  from_option (fun i => i < num) True pad →
  triple (fun _ => True) (Embedding.init (A:=A) num dim pad)
         (fun h m => Embedding_built h num dim m).
Proof.
  intros Hpad. apply triple_start. intros s _ Hs. unfold Embedding.init.
  step_with (triple_draw_rows num dim) (exact I).
  destruct pad as [i|]; cbn in Hpad.
  - rewrite decide_True by done.
    step_with (triple_pure (<[i:=replicate dim (of_Z 0)]> u)) (exact I). subst u0.
    assert (Hm : is_mat num dim (<[i:=replicate dim (of_Z 0)]> u)).
    { destruct Hu as [Hl Hrows]. split; [by rewrite length_insert|].
      apply Forall_insert; [done|]. by rewrite length_replicate. }
    step_with (triple_alloc_mat _ num dim Hm) (exact I).
    finish. by repeat split.
  - step_with (triple_pure u) (exact I). subst u0.
    step_with (triple_alloc_mat u num dim Hu) (exact I).
    finish. by repeat split.
Qed.

Lemma Linear_deepcopy_built i o (m : Linear.t) :
  triple (fun h => Linear_built h i o m) (Linear.deepcopy m)
         (fun h m' => Linear_built h i o m').
Proof.
  apply triple_start. intros s (Hi & Ho & Hw & Hb) Hs. unfold Linear.deepcopy.
  destruct (Linear.bias m) as [b|]; cbn in Hb.
  - step_with (triple_copy_mat (Linear.weight m) o i) (exact Hw).
    step_with (triple_bind _ _ _ (fun b' => mret (Some b')) _
                 (triple_copy_vec b o)
                 (fun b' => triple_ret _ (fun h v => from_option (fun b => vec_at h b o) True v)
                               (Some b') (fun h Hb' => Hb')))
              (exact Hb).
    finish. by repeat split.
  - step_with (triple_copy_mat (Linear.weight m) o i) (exact Hw).
    step_with (triple_pure (None : option ref)) (exact I). subst u0.
    finish. by repeat split.
Qed.

Lemma LayerNorm_deepcopy_built n (m : LayerNorm.t A) :
  triple (fun h => LayerNorm_built h n m) (LayerNorm.deepcopy m)
         (fun h m' => LayerNorm_built h n m').
Proof.
  apply triple_start. intros s [Hw Hb] Hs. unfold LayerNorm.deepcopy.
  step_with (triple_copy_vec (LayerNorm.weight m) n) (exact Hw).
  step_with (triple_copy_vec (LayerNorm.bias m) n) (exact Hb).
  finish. by split.
Qed.

Lemma SelfAttention_init_built (c : LukeConfig.t A) :
  0 < LukeConfig.num_attention_heads c →
  triple (fun _ => True) (SelfAttention.init c)
         (fun h m => SelfAttention_built h (LukeConfig.hidden_size c)
                       (LukeConfig.num_attention_heads c) m).
Proof.
  intros Hheads. apply triple_start. intros s _ Hs. unfold SelfAttention.init.
  rewrite decide_False by lia. cbv zeta.
  step_with (Linear_init_built (LukeConfig.hidden_size c) _ true) (exact I).
  step_with (Linear_init_built (LukeConfig.hidden_size c) _ true) (exact I).
  step_with (Linear_init_built (LukeConfig.hidden_size c) _ true) (exact I).
  finish. unfold SelfAttention_built. by split_and!.
Qed.

Lemma SelfAttention_deepcopy_built hidden heads (m : SelfAttention.t A) :
  triple (fun h => SelfAttention_built h hidden heads m) (SelfAttention.deepcopy m)
         (fun h m' => SelfAttention_built h hidden heads m').
Proof.
  apply triple_start. intros s (H1 & H2 & H3 & Hq & Hk & Hv) Hs.
  unfold SelfAttention.deepcopy.
  step_with (Linear_deepcopy_built hidden _ (SelfAttention.query m)) (exact Hq).
  step_with (Linear_deepcopy_built hidden _ (SelfAttention.key m)) (exact Hk).
  step_with (Linear_deepcopy_built hidden _ (SelfAttention.value m)) (exact Hv).
  finish. unfold SelfAttention_built. by split_and!.
Qed.

Lemma SelfOutput_init_built (c : LukeConfig.t A) :
  triple (fun _ => True) (SelfOutput.init c)
         (fun h m => SelfOutput_built h (LukeConfig.hidden_size c) m).
Proof.
  apply triple_start. intros s _ Hs. unfold SelfOutput.init.
  step_with (Linear_init_built (LukeConfig.hidden_size c) (LukeConfig.hidden_size c) true)
            (exact I).
  step_with (LayerNorm_init_built (LukeConfig.hidden_size c) lit_1e_12) (exact I).
  finish. by split.
Qed.

Lemma SelfOutput_deepcopy_built hidden (m : SelfOutput.t A) :
  triple (fun h => SelfOutput_built h hidden m) (SelfOutput.deepcopy m)
         (fun h m' => SelfOutput_built h hidden m').
Proof.
  apply triple_start. intros s [Hd Hl] Hs. unfold SelfOutput.deepcopy.
  step_with (Linear_deepcopy_built hidden hidden (SelfOutput.dense m)) (exact Hd).
  step_with (LayerNorm_deepcopy_built hidden (SelfOutput.LayerNorm m)) (exact Hl).
  finish. by split.
Qed.

Lemma Attention_init_built (c : LukeConfig.t A) :
  0 < LukeConfig.num_attention_heads c →
  triple (fun _ => True) (Attention.init c)
         (fun h m => Attention_built h (LukeConfig.hidden_size c)
                       (LukeConfig.num_attention_heads c) m).
Proof.
  intros Hheads. apply triple_start. intros s _ Hs. unfold Attention.init.
  step_with (SelfAttention_init_built c Hheads) (exact I).
  step_with (SelfOutput_init_built c) (exact I).
  finish. by split.
Qed.

Lemma Attention_deepcopy_built hidden heads (m : Attention.t A) :
  triple (fun h => Attention_built h hidden heads m) (Attention.deepcopy m)
         (fun h m' => Attention_built h hidden heads m').
Proof.
  apply triple_start. intros s [Hs1 Ho] Hs. unfold Attention.deepcopy.
  step_with (SelfAttention_deepcopy_built hidden heads (Attention.self m)) (exact Hs1).
  step_with (SelfOutput_deepcopy_built hidden (Attention.output m)) (exact Ho).
  finish. by split.
Qed.

Lemma Intermediate_init_built (c : LukeConfig.t A) :
  triple (fun _ => True) (Intermediate.init c)
         (fun h m => Linear_built h (LukeConfig.hidden_size c)
                       (LukeConfig.intermediate_size c) (Intermediate.dense m)).
Proof.
  apply triple_start. intros s _ Hs. unfold Intermediate.init.
  step_with (Linear_init_built (LukeConfig.hidden_size c) (LukeConfig.intermediate_size c)
               true) (exact I).
  finish. done.
Qed.

Lemma Intermediate_deepcopy_built i o (m : Intermediate.t) :
  triple (fun h : heap A => Linear_built h i o (Intermediate.dense m))
         (Intermediate.deepcopy m)
         (fun h m' => Linear_built h i o (Intermediate.dense m')).
Proof.
  apply triple_start. intros s Hd Hs. unfold Intermediate.deepcopy.
  step_with (Linear_deepcopy_built i o (Intermediate.dense m)) (exact Hd).
  finish. done.
Qed.

Lemma Output_init_built (c : LukeConfig.t A) :
  triple (fun _ => True) (Output.init c)
         (fun h m => Linear_built h (LukeConfig.intermediate_size c)
                       (LukeConfig.hidden_size c) (Output.dense m) ∧
                     LayerNorm_built h (LukeConfig.hidden_size c) (Output.LayerNorm m)).
Proof.
  apply triple_start. intros s _ Hs. unfold Output.init.
  step_with (Linear_init_built (LukeConfig.intermediate_size c) (LukeConfig.hidden_size c)
               true) (exact I).
  step_with (LayerNorm_init_built (LukeConfig.hidden_size c) lit_1e_12) (exact I).
  finish. by split.
Qed.

Lemma Output_deepcopy_built i o (m : Output.t A) :
  triple (fun h => Linear_built h i o (Output.dense m) ∧
                   LayerNorm_built h o (Output.LayerNorm m))
         (Output.deepcopy m)
         (fun h m' => Linear_built h i o (Output.dense m') ∧
                      LayerNorm_built h o (Output.LayerNorm m')).
Proof.
  apply triple_start. intros s [Hd Hl] Hs. unfold Output.deepcopy.
  step_with (Linear_deepcopy_built i o (Output.dense m)) (exact Hd).
  step_with (LayerNorm_deepcopy_built o (Output.LayerNorm m)) (exact Hl).
  finish. by split.
Qed.

Lemma Layer_init_built (c : LukeConfig.t A) :
  0 < LukeConfig.num_attention_heads c →
  triple (fun _ => True) (Layer.init c)
         (fun h m => Layer_built h (LukeConfig.hidden_size c)
                       (LukeConfig.num_attention_heads c)
                       (LukeConfig.intermediate_size c) m).
Proof.
  intros Hheads. apply triple_start. intros s _ Hs. unfold Layer.init.
  step_with (Attention_init_built c Hheads) (exact I).
  step_with (Intermediate_init_built c) (exact I).
  step_with (Output_init_built c) (exact I).
  finish. unfold Layer_built. by split_and!.
Qed.

Lemma Layer_deepcopy_built hidden heads inter (m : Layer.t A) :
  triple (fun h => Layer_built h hidden heads inter m) (Layer.deepcopy m)
         (fun h m' => Layer_built h hidden heads inter m' ∧
                      Layer_built h hidden heads inter m).
Proof.
  apply triple_start. intros s Hm Hs. unfold Layer.deepcopy.
  pose proof Hm as (Ha & Hi & Ho & Hl).
  step_with (Attention_deepcopy_built hidden heads (Layer.attention m)) (exact Ha).
  step_with (Intermediate_deepcopy_built hidden inter (Layer.intermediate m)) (exact Hi).
  step_with (Output_deepcopy_built inter hidden (Layer.output m)) (by split).
  finish. split; [|done]. unfold Layer_built. by split_and!.
Qed.

Lemma repeatM_deepcopy_built hidden heads inter (m : Layer.t A) n :
  triple (fun h => Layer_built h hidden heads inter m) (repeatM n (Layer.deepcopy m))
         (fun h ls => Forall (Layer_built h hidden heads inter) ls ∧ length ls = n).
Proof.
  induction n as [|n IH]; apply triple_start; intros s Hm Hs; cbn [repeatM].
  - finish. by split.
  - step_with (Layer_deepcopy_built hidden heads inter m) (exact Hm).
    step_with IH (assumption).
    finish. split; [by constructor|]. cbn. congruence.
Qed.

Lemma Encoder_init_built (c : LukeConfig.t A) :
  0 < LukeConfig.num_attention_heads c →
  triple (fun _ => True) (Encoder.init c)
         (fun h m => Forall (Layer_built h (LukeConfig.hidden_size c)
                               (LukeConfig.num_attention_heads c)
                               (LukeConfig.intermediate_size c)) (Encoder.layer m) ∧
                     length (Encoder.layer m) = LukeConfig.num_hidden_layers c).
Proof.
  intros Hheads. apply triple_start. intros s _ Hs. unfold Encoder.init.
  step_with (Layer_init_built c Hheads) (exact I).
  step_with (repeatM_deepcopy_built _ _ _ u (LukeConfig.num_hidden_layers c)) (exact Hu).
  finish. by split.
Qed.

Lemma Pooler_init_built (c : LukeConfig.t A) :
  triple (fun _ => True) (Pooler.init c)
         (fun h m => Linear_built h (LukeConfig.hidden_size c) (LukeConfig.hidden_size c)
                       (Pooler.dense m)).
Proof.
  apply triple_start. intros s _ Hs. unfold Pooler.init.
  step_with (Linear_init_built (LukeConfig.hidden_size c) (LukeConfig.hidden_size c) true)
            (exact I).
  finish. done.
Qed.

Lemma WordEmbeddings_init_built (c : LukeConfig.t A) :
  0 < LukeConfig.vocab_size c →
  triple (fun _ => True) (WordEmbeddings.init c) (fun h m => WordEmbeddings_built h c m).
Proof.
  intros Hv. apply triple_start. intros s _ Hs. unfold WordEmbeddings.init.
  step_with (Embedding_init_built (LukeConfig.vocab_size c) (LukeConfig.hidden_size c)
               (Some 0) Hv) (exact I).
  step_with (Embedding_init_built (LukeConfig.max_position_embeddings c)
               (LukeConfig.hidden_size c) None I) (exact I).
  step_with (Embedding_init_built (LukeConfig.type_vocab_size c)
               (LukeConfig.hidden_size c) None I) (exact I).
  step_with (LayerNorm_init_built (LukeConfig.hidden_size c) lit_1e_12) (exact I).
  finish. unfold WordEmbeddings_built. by split_and!.
Qed.

Lemma EntityEmbeddings_init_built (c : LukeConfig.t A) :
  0 < LukeConfig.entity_vocab_size c →
  triple (fun _ => True) (EntityEmbeddings.init c)
         (fun h m => EntityEmbeddings_built h c m).
Proof.
  intros Hv. apply triple_start. intros s _ Hs. unfold EntityEmbeddings.init.
  step_with (Embedding_init_built (LukeConfig.entity_vocab_size c)
               (LukeConfig.entity_emb_size c) (Some 0) Hv) (exact I).
  step_with (Embedding_init_built (LukeConfig.max_position_embeddings c)
               (LukeConfig.hidden_size c) None I) (exact I).
  step_with (Embedding_init_built (LukeConfig.type_vocab_size c)
               (LukeConfig.hidden_size c) None I) (exact I).
  destruct (decide (LukeConfig.entity_emb_size c ≠ LukeConfig.hidden_size c)) as [Hne|Heq].
  - step_with (triple_bind _ _ _ (fun d => mret (Some d)) _
                 (Linear_init_built (LukeConfig.entity_emb_size c)
                    (LukeConfig.hidden_size c) false)
                 (fun d => triple_ret _
                             (fun h v => from_option
                                           (Linear_built h (LukeConfig.entity_emb_size c)
                                              (LukeConfig.hidden_size c)) False v)
                             (Some d) (fun h Hd => proj1 Hd)))
              (exact I).
    destruct u2 as [d|]; cbn in Hu2; [|done].
    step_with (LayerNorm_init_built (LukeConfig.hidden_size c) lit_1e_12) (exact I).
    finish. unfold EntityEmbeddings_built. cbn. by split_and!.
  - step_with (triple_pure (None : option Linear.t)) (exact I). subst u2.
    step_with (LayerNorm_init_built (LukeConfig.hidden_size c) lit_1e_12) (exact I).
    finish. unfold EntityEmbeddings_built. cbn. split_and!; try done.
    by destruct (decide (LukeConfig.entity_emb_size c = LukeConfig.hidden_size c)).
Qed.

(** The model that [LukeModel.__init__] builds from a configuration with a
    head and non-empty vocabularies. *)
Lemma LukeModel_init_built (c : LukeConfig.t A) :
  0 < LukeConfig.num_attention_heads c →
  0 < LukeConfig.vocab_size c → 0 < LukeConfig.entity_vocab_size c →
  triple (fun _ => True) (LukeModel.init c) (fun h m => LukeModel_built h c m).
Proof.
  intros Hheads Hv Hev. apply triple_start. intros s _ Hs. unfold LukeModel.init.
  step_with (Encoder_init_built c Hheads) (exact I).
  step_with (Pooler_init_built c) (exact I).
  step_with (WordEmbeddings_init_built c Hv) (exact I).
  step_with (EntityEmbeddings_init_built c Hev) (exact I).
  finish. unfold LukeModel_built. by split_and!.
Qed.

End Inits.

(** ** What the constructors build is well-shaped *)
Section BuiltWf.
Context {A : Type} `{!Scalar A}.

Lemma mat_at_hmat (h : heap A) (r : ref) o i : mat_at h r o i → is_mat o i (hmat h r).
Proof. intros (m & Hm & Hs). unfold hmat. by rewrite Hm. Qed.

Lemma vec_at_hvec (h : heap A) (r : ref) n : vec_at h r n → length (hvec h r) = n.
Proof. intros (v & Hv & Hs). unfold hvec. by rewrite Hv. Qed.

Lemma Linear_built_wf (h : heap A) i o l : Linear_built h i o l → Linear_wf h i o l.
Proof.
  intros (Hi & Ho & Hw & Hb). unfold Linear_wf. split_and!; try done.
  - by apply mat_at_hmat.
  - destruct (Linear.bias l); [by apply vec_at_hvec|done].
Qed.

Lemma LayerNorm_built_wf (h : heap A) n m : LayerNorm_built h n m → LayerNorm_wf h n m.
Proof. intros [Hw Hb]. split; by apply vec_at_hvec. Qed.

Lemma Embedding_built_wf (h : heap A) n d m : Embedding_built h n d m → Embedding_wf h n d m.
Proof. intros (Hn & Hd & Hw). unfold Embedding_wf. split_and!; try done. by apply mat_at_hmat. Qed.

Lemma WordEmbeddings_built_wf (h : heap A) c m :
  WordEmbeddings_built h c m → WordEmbeddings_wf h c m.
Proof.
  intros (H1 & H2 & H3 & H4). unfold WordEmbeddings_wf.
  split_and!; auto using Embedding_built_wf, LayerNorm_built_wf.
Qed.

Lemma EntityEmbeddings_built_wf (h : heap A) c m :
  EntityEmbeddings_built h c m → EntityEmbeddings_wf h c m.
Proof.
  intros (Hc & H1 & H2 & H3 & H4 & H5). unfold EntityEmbeddings_wf. rewrite Hc.
  split_and!; auto using Embedding_built_wf, LayerNorm_built_wf.
  destruct (EntityEmbeddings.entity_dense m); [|done].
  apply Linear_built_wf, H4.
Qed.

Lemma heads_fill (hidden heads : nat) :
  0 < heads → hidden `mod` heads = 0 → heads * (hidden / heads) = hidden.
Proof. intros Hh Hm. pose proof (Nat.div_mod_eq hidden heads). lia. Qed.

Lemma Layer_built_wf (h : heap A) hidden heads inter m :
  0 < heads → hidden `mod` heads = 0 →
  Layer_built h hidden heads inter m → Layer_wf h hidden m.
Proof.
  intros Hh Hmod ([(Hn & Hs & Ha & Hq & Hk & Hv) [Hd Hl]] & Hi & Ho & Hln).
  pose proof (heads_fill _ _ Hh Hmod) as Hfill. rewrite Hfill in *.
  pose proof Hi as (_ & Hio & _).
  unfold Layer_wf, Attention_wf, SelfAttention_wf, SelfOutput_wf. rewrite Hio, Ha.
  split_and!; auto using Linear_built_wf, LayerNorm_built_wf.
  rewrite Hn, Hs. done.
Qed.

Lemma LukeModel_built_wf (h : heap A) c m :
  0 < LukeConfig.num_attention_heads c →
  LukeConfig.hidden_size c `mod` LukeConfig.num_attention_heads c = 0 →
  LukeModel_built h c m → LukeModel_wf h m.
Proof.
  intros Hh Hmod (Hc & Hlen & Hl & Hp & Hw & He). unfold LukeModel_wf. rewrite Hc.
  split_and!; auto using Linear_built_wf, WordEmbeddings_built_wf, EntityEmbeddings_built_wf.
  eapply Forall_impl; [exact Hl|]. intros l. by apply Layer_built_wf.
Qed.


(** X15.  Without attention heads the constructors divide by zero:
    [LukeModel(config)] and [LukePretrainingModel(config)] raise
    [ZeroDivisionError], whatever the rest of the configuration. *)
Theorem LukeModel_init_zero_heads (c : LukeConfig.t A) (s : pstate A) :
  LukeConfig.num_attention_heads c = 0 →
  LukeModel.init c s = Raise ZeroDivisionError ∧
  LukePretrainingModel.init c s = Raise ZeroDivisionError.
Proof.
  intros Hz.
  assert (LukeModel.init c s = Raise ZeroDivisionError) as Hl.
  { unfold LukeModel.init, Encoder.init, Layer.init, Attention.init, SelfAttention.init.
    rewrite decide_True by done. done. }
  split; [done|]. unfold LukePretrainingModel.init, mbind, ctor_bind. by rewrite Hl.
Qed.

End BuiltWf.

(** ** [init_weights] *)
Section InitWeights.
Context {A : Type} `{!Scalar A}.

Lemma keeps_ret w : keeps w (mret tt : ctor A unit).
Proof. intros s. exists s. split_and!; [done|apply refines_refl|done|done]. Qed.

Lemma keeps_bind w (c k : ctor A unit) : keeps w c → keeps w k → keeps w (c ≫= fun _ => k).
Proof.
  intros Hc Hk s. destruct (Hc s) as (s1 & H1 & Hr1 & Hs1 & Hf1).
  destruct (Hk s1) as (s2 & H2 & Hr2 & Hs2 & Hf2).
  exists s2. unfold mbind, ctor_bind. rewrite H1. split_and!; [done| | |].
  - by eapply refines_trans.
  - intros r. by rewrite Hs2.
  - intros r Hr. by rewrite Hf2, Hf1.
Qed.

Lemma keeps_mono w w' (c : ctor A unit) : w ⊆ w' → keeps w c → keeps w' c.
Proof.
  intros Hw Hc s. destruct (Hc s) as (s' & H1 & Hr & Hs & Hf).
  exists s'. split_and!; try done. intros r Hr'. apply Hf. intros Hin. by apply Hr', Hw.
Qed.

(** A write of a tensor of the shape of the cell. *)
Lemma keeps_write (r : ref) (t t' : tensor A) (s : pstate A) :
  cells s !! r = Some t → shape t' = shape t →
  (∀ m o i, t = Mat m → is_mat o i m → ∃ m', t' = Mat m' ∧ is_mat o i m') →
  (∀ v, t = Vec v → ∃ v', t' = Vec v' ∧ length v' = length v) →
  let s' := PState (hwrite (cells s) r t') (rng s) in
  refines (cells s) (cells s') ∧
  (∀ r' : ref, shape <$> (cells s' !! r') = shape <$> (cells s !! r')) ∧
  (∀ r' : ref, r' ∉ [r] → cells s' !! r' = cells s !! r').
Proof.
  intros Hr Hsh HM HV s'. subst s'. cbn [cells]. split_and!.
  - apply refines_hwrite.
    + intros o i (m & Hm & Him). rewrite Hr in Hm. injection Hm as ->. by eapply HM.
    + intros n (v & Hv & Hn). rewrite Hr in Hv. injection Hv as ->.
      destruct (HV v eq_refl) as (v' & -> & Hl). exists v'. split; [done|]. congruence.
  - intros r'. destruct (decide (r = r')) as [<-|Hne].
    + rewrite hwrite_lookup_eq by (by eapply lookup_lt_Some). rewrite Hr. cbn. by f_equal.
    + by rewrite hwrite_lookup_ne.
  - intros r' Hr'. apply hwrite_lookup_ne. intros ->. apply Hr'. by left.
Qed.

Lemma keeps_fill_ (r : ref) (c : A) : keeps [r] (fill_ r c).
Proof.
  intros s. unfold fill_, read, mbind, ctor_bind.
  destruct (cells s !! r) as [t|] eqn:Hr.
  - eexists. split; [reflexivity|]. apply (keeps_write r t); [done| | |].
    + destruct t as [v|m]; cbn; [by rewrite length_map|].
      rewrite length_map. destruct m; cbn; [done|by rewrite length_map].
    + intros m o i -> [Hl Hrows]. eexists. split; [reflexivity|].
      split; [by rewrite length_map|]. apply Forall_fmap.
      eapply Forall_impl; [exact Hrows|]. intros row Hrow. cbn. by rewrite length_map.
    + intros v ->. eexists. split; [reflexivity|]. by rewrite length_map.
  - exists s. split_and!; [done|apply refines_refl|done|done].
Qed.

Lemma draw_like_Ok (t : tensor A) (s : pstate A) :
  ∃ t' s', draw_like t s = Ok (t', s') ∧ cells s' = cells s ∧ shape t' = shape t ∧
    (∀ m o i, t = Mat m → is_mat o i m → ∃ m', t' = Mat m' ∧ is_mat o i m') ∧
    (∀ v, t = Vec v → ∃ v', t' = Vec v' ∧ length v' = length v).
Proof.
  destruct t as [v|m]; cbn [draw_like].
  - eexists _, _. split; [reflexivity|]. cbn. split_and!; try done.
    + by rewrite length_map, length_seq.
    + intros v' [= <-]. eexists. split; [reflexivity|]. by rewrite length_map, length_seq.
  - destruct (draw_rows_Ok (length m) (length (default [] (head m))) s)
      as (rows & s' & Hrows & Hc & Hl & Hall).
    exists (Mat rows), s'. unfold mbind, ctor_bind. rewrite Hrows.
    split_and!; try done.
    + cbn. rewrite Hl. f_equal. f_equal. destruct rows as [|row rows]; cbn.
      * by destruct m.
      * by inversion Hall.
    + intros m' o i [= <-] [Ho Hi]. exists rows. split; [done|]. split; [congruence|].
      destruct m as [|row0 m]; [by destruct rows|]. cbn in Hall.
      apply Forall_cons in Hi as [Hrow0 _]. by rewrite Hrow0 in Hall.
Qed.

Lemma keeps_normal_ (r : ref) : keeps [r] (normal_ r : ctor A unit).
Proof.
  intros s. unfold normal_, read. unfold mbind at 1, ctor_bind at 1.
  destruct (cells s !! r) as [t|] eqn:Hr.
  - destruct (draw_like_Ok t s) as (t' & s1 & Hd & Hc & Hsh & HM & HV).
    unfold mbind, ctor_bind. rewrite Hd. unfold write. rewrite Hc.
    eexists. split; [reflexivity|].
    pose proof (keeps_write r t t' s Hr Hsh HM HV) as Hk. cbn zeta in Hk. exact Hk.
  - exists s. split_and!; [done|apply refines_refl|done|done].
Qed.

Lemma dict_get_local_params (ps : list (string * option ref)) k (r : ref) :
  dict_get ps k = Some (Some r) → r ∈ map snd (local_params ps).
Proof.
  induction ps as [|[k' o] ps IH]; [done|]. cbn.
  destruct (decide (k' = k)) as [->|Hne].
  - intros [= ->]. cbn. left.
  - intros Hg. unfold local_params in *. cbn.
    destruct o as [r'|]; cbn; [right|]; by apply IH.
Qed.

Lemma keeps_param (w : list ref) (ps : list (string * option ref)) k
    (f : ref → ctor A unit) :
  (∀ r, keeps [r] (f r)) → map snd (local_params ps) ⊆ w →
  keeps w (match dict_get ps k with Some (Some r) => f r | _ => mret tt end).
Proof.
  intros Hf Hw. destruct (dict_get ps k) as [[r|]|] eqn:Hg; try apply keeps_ret.
  eapply keeps_mono; [|apply Hf]. intros r' ->%list_elem_of_singleton.
  by eapply Hw, dict_get_local_params.
Qed.

Lemma keeps_init_weights (module : pymodule) :
  keeps (map snd (local_params (mod_parameters module))) (LukeModel.init_weights module).
Proof.
  destruct module as [k ps ms]. unfold LukeModel.init_weights. cbn [mod_parameters].
  apply keeps_bind.
  - destruct k; try apply keeps_ret.
    + apply keeps_param; [apply keeps_normal_|done].
    + apply keeps_param; [apply keeps_normal_|done].
    + apply keeps_bind; apply keeps_param; try done; intros r; apply keeps_fill_.
  - destruct k; try apply keeps_ret.
    apply keeps_param; [intros r; apply keeps_fill_|done].
Qed.

Lemma keeps_apply_init_weights (module : pymodule) :
  keeps (parameters module) (LukeModel.apply LukeModel.init_weights module).
Proof.
  induction module as [k ps ms IH] using pymodule_rect'.
  rewrite parameters_node. cbn [LukeModel.apply]. apply keeps_bind.
  - eapply keeps_mono; [by apply list_subseteq_app_r|]. clear k ps. 
    induction IH as [|[n c] ms Hc _ IHms]; [apply keeps_ret|].
    cbn [map concat]. apply keeps_bind.
    + eapply keeps_mono; [by apply list_subseteq_app_l|exact Hc].
    + eapply keeps_mono; [by apply list_subseteq_app_r|exact IHms].
  - eapply keeps_mono; [by apply list_subseteq_app_l|].
    apply (keeps_init_weights (PyModule k ps ms)).
Qed.


End InitWeights.

(** ** The pretraining model as its constructor builds it *)
Section PretrainingInit.
Context {A : Type} `{!Scalar A}.

Lemma triple_param_size0 (r : ref) n d :
  triple (fun h : heap A => mat_at h r n d) (param_size r 0) (fun _ v => v = n).
Proof.
  intros s (m & Hm & Hl & Hrows). exists n, s.
  unfold param_size, read, mbind, ctor_bind. rewrite Hm. cbn. rewrite Hl.
  split; [done|]. split; [apply refines_refl|done].
Qed.

(** The second dimension is read off the first row. *)
Lemma triple_param_size1 (r : ref) n d :
  0 < n →
  triple (fun h : heap A => mat_at h r n d) (param_size r 1) (fun _ v => v = d).
Proof.
  intros Hn s (m & Hm & Hl & Hrows). exists d, s.
  unfold param_size, read, mbind, ctor_bind. rewrite Hm. cbn.
  destruct m as [|row m]; [cbn in Hl; lia|]. apply Forall_cons in Hrows as [<- _].
  split; [done|]. split; [apply refines_refl|done].
Qed.

Lemma PredictionHeadTransform_init_built (c : LukeConfig.t A) (o : option nat) :
  triple (fun _ => True) (PredictionHeadTransform.init c o)
         (fun h m => Linear_built h (LukeConfig.hidden_size c)
                       (default (LukeConfig.hidden_size c) o)
                       (PredictionHeadTransform.dense m) ∧
                     LayerNorm_built h (default (LukeConfig.hidden_size c) o)
                       (PredictionHeadTransform.LayerNorm m)).
Proof.
  apply triple_start. intros s _ Hs. unfold PredictionHeadTransform.init. cbv zeta.
  step_with (Linear_init_built (LukeConfig.hidden_size c)
               (default (LukeConfig.hidden_size c) o) true) (exact I).
  step_with (LayerNorm_init_built (default (LukeConfig.hidden_size c) o) lit_1e_12)
            (exact I).
  finish. by split.
Qed.

Lemma LMPredictionHead_init_built (c : LukeConfig.t A) (w : ref) vocab :
  0 < vocab →
  triple (fun h => mat_at h w vocab (LukeConfig.hidden_size c))
         (LMPredictionHead.init c w)
         (fun h m =>
            Linear_built h (LukeConfig.hidden_size c) (LukeConfig.hidden_size c)
              (PredictionHeadTransform.dense (LMPredictionHead.transform m)) ∧
            LayerNorm_built h (LukeConfig.hidden_size c)
              (PredictionHeadTransform.LayerNorm (LMPredictionHead.transform m)) ∧
            Linear_built h (LukeConfig.hidden_size c) vocab (LMPredictionHead.decoder m) ∧
            vec_at h (LMPredictionHead.bias m) vocab).
Proof.
  intros Hv. apply triple_start. intros s Hw Hs. unfold LMPredictionHead.init.
  step_with (PredictionHeadTransform_init_built c None) (exact I). cbn [default] in *.
  step_with (triple_param_size1 w vocab (LukeConfig.hidden_size c) Hv) (exact Hw).
  subst u0.
  step_with (triple_param_size0 w vocab (LukeConfig.hidden_size c)) (exact Hw).
  subst u0.
  step_with (Linear_init_built (LukeConfig.hidden_size c) vocab false) (exact I).
  cbv zeta.
  step_with (triple_alloc_vec (replicate vocab (of_Z 0)) vocab (length_replicate _ _))
            (exact I).
  finish. split_and!; try done.
  match goal with H : Linear_built _ _ _ u0 |- _ => destruct H as (Hi & Ho & _ & _) end.
  match goal with H : false = false → _ |- _ => specialize (H eq_refl) end.
  unfold Linear_built. cbn. split_and!; try done.
  match goal with H : Linear.bias u0 = None |- _ => by rewrite H end.
Qed.

Lemma EntityPredictionHead_init_built (c : LukeConfig.t A) (w : ref) vocab inner :
  0 < vocab →
  triple (fun h => mat_at h w vocab inner)
         (EntityPredictionHead.init c w)
         (fun h m =>
            Linear_built h (LukeConfig.hidden_size c) inner
              (PredictionHeadTransform.dense (EntityPredictionHead.transform m)) ∧
            LayerNorm_built h inner
              (PredictionHeadTransform.LayerNorm (EntityPredictionHead.transform m)) ∧
            Linear_built h inner vocab (EntityPredictionHead.decoder m) ∧
            vec_at h (EntityPredictionHead.bias m) vocab).
Proof.
  intros Hv. apply triple_start. intros s Hw Hs. unfold EntityPredictionHead.init.
  step_with (triple_param_size1 w vocab inner Hv) (exact Hw). subst u.
  step_with (PredictionHeadTransform_init_built c (Some inner)) (exact I).
  cbn [default] in *.
  step_with (triple_param_size0 w vocab inner) (exact Hw). subst u0.
  step_with (Linear_init_built inner vocab false) (exact I). cbv zeta.
  step_with (triple_alloc_vec (replicate vocab (of_Z 0)) vocab (length_replicate _ _))
            (exact I).
  finish. split_and!; try done.
  match goal with H : Linear_built _ _ _ u0 |- _ => destruct H as (Hi & Ho & _ & _) end.
  match goal with H : false = false → _ |- _ => specialize (H eq_refl) end.
  unfold Linear_built. cbn. split_and!; try done.
  match goal with H : Linear.bias u0 = None |- _ => by rewrite H end.
Qed.

Lemma BertPreTrainingHeads_init_built (c : LukeConfig.t A) (w : ref) vocab :
  0 < vocab →
  triple (fun h => mat_at h w vocab (LukeConfig.hidden_size c))
         (BertPreTrainingHeads.init c w)
         (fun h m =>
            Linear_built h (LukeConfig.hidden_size c) (LukeConfig.hidden_size c)
              (PredictionHeadTransform.dense
                 (LMPredictionHead.transform (BertPreTrainingHeads.predictions m))) ∧
            LayerNorm_built h (LukeConfig.hidden_size c)
              (PredictionHeadTransform.LayerNorm
                 (LMPredictionHead.transform (BertPreTrainingHeads.predictions m))) ∧
            Linear_built h (LukeConfig.hidden_size c) vocab
              (LMPredictionHead.decoder (BertPreTrainingHeads.predictions m)) ∧
            vec_at h (LMPredictionHead.bias (BertPreTrainingHeads.predictions m)) vocab ∧
            Linear_built h (LukeConfig.hidden_size c) 2
              (BertPreTrainingHeads.seq_relationship m)).
Proof.
  intros Hv. apply triple_start. intros s Hw Hs. unfold BertPreTrainingHeads.init.
  step_with (LMPredictionHead_init_built c w vocab Hv) (exact Hw).
  step_with (Linear_init_built (LukeConfig.hidden_size c) 2 true) (exact I).
  finish. by split_and!.
Qed.

Lemma triple_keeps w (c : ctor A unit) :
  keeps w c → triple (fun _ => True) c (fun _ _ => True).
Proof.
  intros Hc s _. destruct (Hc s) as (s' & Hs & Hr & _). exists tt, s'. by split_and!.
Qed.

Lemma head_built_wf (h : heap A) hidden inner vocab tr dec (bias : ref) :
  Linear_built h hidden inner (PredictionHeadTransform.dense tr) →
  LayerNorm_built h inner (PredictionHeadTransform.LayerNorm tr) →
  Linear_built h inner vocab dec → vec_at h bias vocab →
  head_wf h hidden inner vocab tr dec bias.
Proof.
  intros H1 H2 H3 H4. unfold head_wf.
  split_and!; auto using Linear_built_wf, LayerNorm_built_wf, vec_at_hvec.
Qed.


End PretrainingInit.


Lemma LukeModel_init_zero_heads_witness :
  LukeConfig.num_attention_heads no_head_config = 0 ∧
  LukeModel.init no_head_config tiny_state = Raise ZeroDivisionError ∧
  LukePretrainingModel.init no_head_config tiny_state = Raise ZeroDivisionError.
Proof.
  split; [reflexivity|].
  exact (LukeModel_init_zero_heads no_head_config tiny_state eq_refl).
Defined.


(** ** Heads that do not divide the hidden size *)
Section HeadsMismatch.
Context {A : Type} `{!Scalar A}.

Lemma SelfAttention_built_wf (h : heap A) hidden heads m :
  SelfAttention_built h hidden heads m → SelfAttention_wf h hidden m.
Proof.
  intros (Hn & Hs & Ha & Hq & Hk & Hv). unfold SelfAttention_wf. rewrite Hn, Hs, Ha.
  split_and!; auto using Linear_built_wf.
Qed.

(** The dense layer of [SelfOutput] rejects rows of another width. *)
Lemma SelfOutput_forward_width h (m : SelfOutput.t A) md
    (x input : list (list (list A))) b n k :
  is_t3 b n k x → 0 < b → 0 < n → k ≠ Linear.in_features (SelfOutput.dense m) →
  SelfOutput.forward h m md x input = Raise RuntimeError.
Proof.
  intros [Hb Hx] Hbpos Hn Hk. unfold SelfOutput.forward.
  destruct x as [|x0 x]; [cbn in Hb; lia|].
  apply Forall_cons in Hx as [[Hn0 Hx0] _].
  destruct x0 as [|r0 x0]; [cbn in Hn0; lia|].
  apply Forall_cons in Hx0 as [Hr0 _].
  assert (Linear.forward h (SelfOutput.dense m) r0 = Raise RuntimeError) as Hraise.
  { unfold Linear.forward. by rewrite decide_False by congruence. }
  cbn -[Linear.forward]. by rewrite Hraise.
Qed.

Lemma Attention_forward_width h hidden (m : Attention.t A) md
    (word entity : list (list (list A))) (mask : list (list A)) b w e :
  SelfAttention_wf h hidden (Attention.self m) →
  SelfAttention.all_head_size (Attention.self m)
    ≠ Linear.in_features (SelfOutput.dense (Attention.output m)) →
  is_t3 b w hidden word → is_t3 b e hidden entity → is_mat b (w + e) mask →
  0 < b → 0 < w →
  Attention.forward h m md word entity mask = Raise RuntimeError.
Proof.
  intros Hself Hne Hword Hent Hmask Hb Hw. unfold Attention.forward.
  destruct (SelfAttention_forward_split h hidden _ (at_site 0 md) word entity mask b w e
              Hself Hword Hent Hmask) as (wo & eo & -> & Hwo & Heo & _).
  cbn. by rewrite (SelfOutput_forward_width h _ _ wo word b w _ Hwo Hb Hw Hne).
Qed.

Lemma LukeModel_forward_width h c (m : LukeModel.t A) md
    word_ids word_segment_ids word_attention_mask
    entity_ids entity_position_ids entity_segment_ids entity_attention_mask
    output_all_encoded_layers b w e :
  LukeModel_built h c m →
  0 < LukeConfig.num_attention_heads c →
  LukeConfig.hidden_size c `mod` LukeConfig.num_attention_heads c ≠ 0 →
  0 < LukeConfig.num_hidden_layers c →
  is_mat b w word_ids → in_range (LukeConfig.vocab_size c) word_ids →
  segment_ok (LukeConfig.type_vocab_size c) b w word_ids word_segment_ids →
  is_mat b w word_attention_mask →
  is_mat b e entity_ids → in_range (LukeConfig.entity_vocab_size c) entity_ids →
  position_ok (LukeConfig.max_position_embeddings c) b e entity_position_ids →
  segment_ok (LukeConfig.type_vocab_size c) b e entity_ids entity_segment_ids →
  is_mat b e entity_attention_mask →
  0 < b → 0 < w ≤ LukeConfig.max_position_embeddings c →
  LukeModel.forward h m md word_ids word_segment_ids word_attention_mask
    entity_ids entity_position_ids entity_segment_ids entity_attention_mask
    output_all_encoded_layers = Raise RuntimeError.
Proof.
  intros (Hc & Hlen & Hl & Hp & Hemb & Hent) Hh Hmod Hlayers
         Hwi Hwr Hws Hwm Hei Her Hep Hes Hem Hb Hw.
  unfold LukeModel.forward.
  destruct (extended_attention_mask_returns (A:=A) word_attention_mask
              entity_attention_mask b w e Hwm Hem) as (mask & -> & Hmask).
  cbn.
  destruct (WordEmbeddings_forward_returns h c (LukeModel.embeddings m) (at_site 0 md)
              word_ids word_segment_ids b w) as (we & -> & Hwe);
    [by apply WordEmbeddings_built_wf|exact Hwi|exact Hwr|lia|exact Hws|].
  cbn.
  destruct (EntityEmbeddings_forward_returns h c (LukeModel.entity_embeddings m)
              (at_site 1 md) entity_ids entity_position_ids entity_segment_ids b e)
    as (ee & -> & Hee);
    [by apply EntityEmbeddings_built_wf|exact Hei|exact Her|exact Hep|lia|exact Hes|].
  cbn. unfold Encoder.forward.
  destruct (Encoder.layer (LukeModel.encoder m)) as [|l ls]; [cbn in Hlen; lia|].
  apply Forall_cons in Hl as [([Hself Hout] & _) _].
  cbn [Encoder.forward_loop]. unfold Layer.forward.
  rewrite (Attention_forward_width h (LukeConfig.hidden_size c) _ _ we ee mask b w e);
    [done|by eapply SelfAttention_built_wf| |done|done|done|done|lia].
  destruct Hself as (_ & _ & -> & _). destruct Hout as [(-> & _) _].
  pose proof (Nat.div_mod_eq (LukeConfig.hidden_size c) (LukeConfig.num_attention_heads c)).
  lia.
Qed.


End HeadsMismatch.


(** ** Evaluation mode *)
Section EvalMode.
Context {A : Type} `{!Scalar A}.

Local Tactic Notation "funext" ident(x) :=
  apply FunctionalExtensionality.functional_extensionality; intros x.

Lemma Dropout_forward3_eval (d : Dropout.t A) md md' :
  training md = false → training md' = false →
  Dropout.forward3 d md = Dropout.forward3 d md'.
Proof.
  intros H H'. funext pre. funext x.
  unfold Dropout.forward3, Dropout.forward2, Dropout.forward1. by rewrite H, H'.
Qed.

Lemma imapM_go_ext {X Y} (f g : nat → X → result Y) (l : list X) i :
  (∀ j x, f j x = g j x) → imapM_go f i l = imapM_go g i l.
Proof.
  intros Hfg. revert i. induction l as [|x l IH]; intros i; [done|].
  cbn. by rewrite Hfg, IH.
Qed.

Lemma WordEmbeddings_forward_eval h (m : WordEmbeddings.t A) md md' :
  training md = false → training md' = false →
  WordEmbeddings.forward h m md = WordEmbeddings.forward h m md'.
Proof.
  intros H H'. unfold WordEmbeddings.forward.
  by rewrite (Dropout_forward3_eval _ md md').
Qed.

Lemma EntityEmbeddings_forward_eval h (m : EntityEmbeddings.t A) md md' :
  training md = false → training md' = false →
  EntityEmbeddings.forward h m md = EntityEmbeddings.forward h m md'.
Proof.
  intros H H'. unfold EntityEmbeddings.forward.
  by rewrite (Dropout_forward3_eval _ md md').
Qed.

Lemma joint_context_eval h (m : SelfAttention.t A) md md' :
  training md = false → training md' = false →
  SelfAttention.joint_context h m md = SelfAttention.joint_context h m md'.
Proof.
  intros H H'. unfold SelfAttention.joint_context.
  by rewrite (Dropout_forward3_eval _ md md').
Qed.

Lemma SelfAttention_forward_eval h (m : SelfAttention.t A) md md' :
  training md = false → training md' = false →
  SelfAttention.forward h m md = SelfAttention.forward h m md'.
Proof.
  intros H H'. funext word. funext entity. funext mask. unfold SelfAttention.forward.
  destruct (zipM _ word entity) as [hs|]; [|done]. cbn.
  destruct (decide _); [|done]. unfold imapM.
  rewrite (imapM_go_ext _ (fun b xm => SelfAttention.joint_context h m (at_site b md')
                                         xm.1 xm.2)); [done|].
  intros j x. by rewrite (joint_context_eval h m (at_site j md) (at_site j md')).
Qed.

Lemma SelfOutput_forward_eval h (m : SelfOutput.t A) md md' :
  training md = false → training md' = false →
  SelfOutput.forward h m md = SelfOutput.forward h m md'.
Proof.
  intros H H'. unfold SelfOutput.forward. by rewrite (Dropout_forward3_eval _ md md').
Qed.

Lemma Attention_forward_eval h (m : Attention.t A) md md' :
  training md = false → training md' = false →
  Attention.forward h m md = Attention.forward h m md'.
Proof.
  intros H H'. unfold Attention.forward.
  rewrite (SelfAttention_forward_eval h _ (at_site 0 md) (at_site 0 md')) by done.
  rewrite (SelfOutput_forward_eval h _ (at_site 1 md) (at_site 1 md')) by done.
  by rewrite (SelfOutput_forward_eval h _ (at_site 2 md) (at_site 2 md')).
Qed.

Lemma Output_forward_eval h (m : Output.t A) md md' :
  training md = false → training md' = false →
  Output.forward h m md = Output.forward h m md'.
Proof.
  intros H H'. unfold Output.forward. by rewrite (Dropout_forward3_eval _ md md').
Qed.

Lemma Layer_forward_eval h (m : Layer.t A) md md' :
  training md = false → training md' = false →
  Layer.forward h m md = Layer.forward h m md'.
Proof.
  intros H H'. unfold Layer.forward.
  rewrite (Attention_forward_eval h _ (at_site 0 md) (at_site 0 md')) by done.
  rewrite (Output_forward_eval h _ (at_site 1 md) (at_site 1 md')) by done.
  by rewrite (Output_forward_eval h _ (at_site 2 md) (at_site 2 md')).
Qed.

Lemma forward_loop_eval h md md' (layers : list (Layer.t A)) k hs mask oa acc :
  training md = false → training md' = false →
  Encoder.forward_loop h md layers k hs mask oa acc
  = Encoder.forward_loop h md' layers k hs mask oa acc.
Proof.
  intros H H'. revert k hs acc. induction layers as [|l layers IH]; intros k hs acc; [done|].
  cbn [Encoder.forward_loop].
  rewrite (Layer_forward_eval h l (at_site k md) (at_site k md')) by done.
  destruct (Layer.forward _ _ _ _ _ _) as [hs'|]; [|done]. cbn. apply IH.
Qed.

Lemma Encoder_forward_eval h (m : Encoder.t A) md md' :
  training md = false → training md' = false →
  Encoder.forward h m md = Encoder.forward h m md'.
Proof.
  intros H H'. funext word. funext entity. funext mask. funext oa. unfold Encoder.forward.
  by rewrite (forward_loop_eval h md md').
Qed.

(** X19.  In evaluation mode the forward pass does not read the dropout
    noise: with [training] off, [LukeModel.forward] and
    [LukePretrainingModel.forward] return the same result, or raise the
    same error, whatever the noise. *)
Theorem forward_eval_mode_noise_free h (m : LukePretrainingModel.t A) md md'
    word_ids word_segment_ids word_attention_mask
    entity_ids entity_position_ids entity_segment_ids entity_attention_mask
    output_all_encoded_layers masked_entity_labels masked_lm_labels is_random_next :
  training md = false → training md' = false →
  LukeModel.forward h (LukePretrainingModel.base m) md
    word_ids word_segment_ids word_attention_mask
    entity_ids entity_position_ids entity_segment_ids entity_attention_mask
    output_all_encoded_layers
  = LukeModel.forward h (LukePretrainingModel.base m) md'
      word_ids word_segment_ids word_attention_mask
      entity_ids entity_position_ids entity_segment_ids entity_attention_mask
      output_all_encoded_layers ∧
  LukePretrainingModel.forward h m md
    word_ids word_segment_ids word_attention_mask
    entity_ids entity_position_ids entity_segment_ids entity_attention_mask
    masked_entity_labels masked_lm_labels is_random_next
  = LukePretrainingModel.forward h m md'
      word_ids word_segment_ids word_attention_mask
      entity_ids entity_position_ids entity_segment_ids entity_attention_mask
      masked_entity_labels masked_lm_labels is_random_next.
Proof.
  intros H H'.
  assert (Hbase : LukeModel.forward h (LukePretrainingModel.base m) md
                  = LukeModel.forward h (LukePretrainingModel.base m) md').
  { unfold LukeModel.forward.
    rewrite (WordEmbeddings_forward_eval h _ (at_site 0 md) (at_site 0 md')) by done.
    rewrite (EntityEmbeddings_forward_eval h _ (at_site 1 md) (at_site 1 md')) by done.
    by rewrite (Encoder_forward_eval h _ (at_site 2 md) (at_site 2 md')). }
  split; [by rewrite Hbase|]. unfold LukePretrainingModel.forward. by rewrite Hbase.
Qed.

End EvalMode.

(** ** Position ids below [-1] *)
Section NegativePositions.
Context {A : Type} `{!Scalar A}.

Lemma mapM_fmap_ext {X Y W} (f : X → result Y) (g : W → result Y) (k : W → X)
    (l : list W) :
  (∀ x, f (k x) = g x) → mapM f (k <$> l) = mapM g l.
Proof. intros Hfg. induction l as [|x l IH]; [done|]. cbn. by rewrite Hfg, IH. Qed.

(** X20.  A position id below [-1] is not padding: [clamp(min=0)] turns it
    into position 0 and the mask, which tests for [-1] alone, keeps it.  The
    position contribution of an entity is the one of the slots in which
    every id below [-1] is replaced by 0, so such a slot adds the embedding
    of position 0 and counts as a mention. *)
Theorem entity_position_below_minus_one h (m : EntityEmbeddings.t A) (slots : list Z) :
  EntityEmbeddings.entity_position h m slots
  = EntityEmbeddings.entity_position h m
      ((fun p => if decide (p < -1)%Z then 0%Z else p) <$> slots).
Proof.
  unfold EntityEmbeddings.entity_position.
  rewrite (mapM_fmap_ext _
             (fun p => Embedding.forward h (EntityEmbeddings.position_embeddings m)
                         (Z.max p 0))).
  2:{ intros p. destruct (decide (p < -1)%Z); [|done]. f_equal. lia. }
  replace (map EntityEmbeddings.position_embedding_mask
               ((fun p => if decide (p < -1)%Z then 0%Z else p) <$> slots))
    with (map (EntityEmbeddings.position_embedding_mask (A:=A)) slots); [done|].
  rewrite <- list_fmap_compose. apply list_fmap_ext. intros i p _. cbn.
  unfold EntityEmbeddings.position_embedding_mask.
  destruct (decide (p < -1)%Z); [|done].
  rewrite !decide_True by lia. done.
Qed.

End NegativePositions.

Lemma forward_eval_mode_noise_free_witness :
  ∃ m s,
    LukePretrainingModel.init tiny_config tiny_state = Ok (m, s) ∧
    LukeModel.forward (cells s) (LukePretrainingModel.base m) eval_mode
      tiny_word_ids (Some tiny_type_ids) tiny_mask
      tiny_entity_ids tiny_entity_position_ids None tiny_entity_mask true
    = LukeModel.forward (cells s) (LukePretrainingModel.base m) (Mode false (fun _ => 0%R))
        tiny_word_ids (Some tiny_type_ids) tiny_mask
        tiny_entity_ids tiny_entity_position_ids None tiny_entity_mask true.
Proof.
  eexists _, _. split; [vm_compute; reflexivity|].
  exact (proj1 (forward_eval_mode_noise_free (cells _) _ eval_mode
                  (Mode false (fun _ => 0%R))
                  tiny_word_ids (Some tiny_type_ids) tiny_mask
                  tiny_entity_ids tiny_entity_position_ids None tiny_entity_mask true
                  None None None eq_refl eq_refl)).
Defined.

(** ** A constant added to the attention mask *)
Section MaskShift.
Open Scope R_scope.

Lemma softmax_shift (c : R) (r : list R) : softmax (map (fun v => v + c) r) = softmax r.
Proof.
  rewrite !softmax_R.
  assert (He : map exp (map (fun v => v + c) r) = map (fun y => y * exp c) (map exp r)).
  { rewrite <- !list_fmap_compose. apply list_fmap_ext. intros i v _. cbn. apply exp_plus. }
  rewrite He, Rsum_map_scale, <- list_fmap_compose.
  apply list_fmap_ext. intros i y _. cbn.
  pose proof (exp_pos c) as Hc.
  unfold Rdiv. rewrite Rinv_mult.
  transitivity (y * / Rsum (map exp r) * (exp c * / exp c)); [ring|].
  rewrite Rinv_r by lra. ring.
Qed.

Lemma mapM_post {X Y} (g : Y → Y) (f f' : X → result Y) (l : list X) :
  (∀ x, f' x = match f x with Ok y => Ok (g y) | Raise e => Raise e end) →
  mapM f' l = match mapM f l with Ok ys => Ok (map g ys) | Raise e => Raise e end.
Proof.
  intros Hf. induction l as [|x l IH]; [done|]. cbn. rewrite Hf, IH.
  destruct (f x) as [y|e]; cbn; [|done]. by destruct (mapM f l).
Qed.

Lemma vzip_shift (c : R) (row k : list R) :
  vzip fadd row (map (fun v => v + c) k)
  = match vzip fadd row k with
    | Ok r => Ok (map (fun v => v + c) r)
    | Raise e => Raise e
    end.
Proof.
  unfold vzip. rewrite length_map. destruct (decide _); [|done]. f_equal.
  clear. revert k. induction row as [|x row IH]; intros [|y k]; cbn; [done..|].
  rewrite IH. f_equal. change (x + (y + c) = x + y + c). ring.
Qed.

Lemma attention_probs_shift h (m : SelfAttention.t R) (x : list (list R)) (k : list R) c :
  SelfAttention.attention_probs h m x (map (fun v => v + c) k)
  = SelfAttention.attention_probs h m x k.
Proof.
  unfold SelfAttention.attention_probs.
  destruct (SelfAttention.scaled_scores h m x) as [sc|e]; [|done]. cbn.
  rewrite (mapM_post (map (map (fun v => v + c)))
             (mapM (fun row => vzip fadd row k))).
  2:{ intros mt. apply mapM_post. intros row. apply vzip_shift. }
  destruct (mapM _ sc) as [sc'|e]; [|done]. cbn. f_equal.
  rewrite <- list_fmap_compose. apply list_fmap_ext. intros i mt _. cbn.
  rewrite <- list_fmap_compose. apply list_fmap_ext. intros j row _. cbn.
  apply softmax_shift.
Qed.

Lemma joint_context_shift h (m : SelfAttention.t R) md (x : list (list R)) (k : list R) c :
  SelfAttention.joint_context h m md x (map (fun v => v + c) k)
  = SelfAttention.joint_context h m md x k.
Proof. unfold SelfAttention.joint_context. by rewrite attention_probs_shift. Qed.

Lemma imapM_go_zip_shift {X K Y} (F : nat → X → K → result Y) (g : K → K)
    (xs : list X) (ks : list K) i :
  (∀ b x k, F b x (g k) = F b x k) →
  imapM_go (fun b xk => F b xk.1 xk.2) i (zip xs (map g ks))
  = imapM_go (fun b xk => F b xk.1 xk.2) i (zip xs ks).
Proof.
  intros HF. revert ks i. induction xs as [|x xs IH]; intros [|k ks] i; cbn; [done..|].
  by rewrite HF, IH.
Qed.

Lemma SelfAttention_forward_shift h (m : SelfAttention.t R) md
    (word entity : list (list (list R))) (mask : list (list R)) c :
  SelfAttention.forward h m md word entity (map (map (fun v => v + c)) mask)
  = SelfAttention.forward h m md word entity mask.
Proof.
  unfold SelfAttention.forward.
  destruct (zipM _ word entity) as [hs|e]; [|done]. cbn. rewrite length_map.
  destruct (decide _); [|done]. unfold imapM.
  rewrite (imapM_go_zip_shift
             (fun b x k => SelfAttention.joint_context h m (at_site b md) x k)); [done|].
  intros b x k. apply joint_context_shift.
Qed.

Lemma forward_loop_shift h md (layers : list (Layer.t R)) k hs (mask : list (list R)) c
    oa acc :
  Encoder.forward_loop h md layers k hs (map (map (fun v => v + c)) mask) oa acc
  = Encoder.forward_loop h md layers k hs mask oa acc.
Proof.
  revert k hs acc. induction layers as [|l layers IH]; intros k hs acc; [done|].
  cbn [Encoder.forward_loop]. unfold Layer.forward, Attention.forward.
  rewrite SelfAttention_forward_shift.
  match goal with |- (?a ≫= _) = _ => destruct a as [hs'|e] end; [|done]. cbn. apply IH.
Qed.

Lemma zip_with_app_const {X} (a : X) (xs ys : list (list X)) :
  zip_with app (map (map (fun _ => a)) xs) (map (map (fun _ => a)) ys)
  = map (map (fun _ => a)) (zip_with app xs ys).
Proof.
  revert ys. induction xs as [|x xs IH]; intros [|y ys]; cbn; [done..|].
  by rewrite IH, map_app.
Qed.


End MaskShift.

(** ** The values of the encoder's layers *)
Section LayerValues.
Context {A : Type} `{!Scalar A}.

Ltac inv_bind H :=
  let u := fresh "u" in let s := fresh "s" in let Hu := fresh "Hu" in
  apply bind_Ok in H as (u & s & Hu & H).

Lemma copy_at_stable (h h' : heap A) (r r' : ref) :
  copy_at h r r' → h `prefix_of` h' → copy_at h' r r'.
Proof.
  intros [[t Ht] Hr] Hp. rewrite Ht in Hr. split.
  - exists t. by eapply prefix_lookup_Some.
  - transitivity (Some t); [|symmetry]; by eapply prefix_lookup_Some.
Qed.

Lemma copies_stable (h h' : heap A) (rs rs' : list ref) :
  Forall2 (copy_at h) rs rs' → h `prefix_of` h' → Forall2 (copy_at h') rs rs'.
Proof. intros Hc Hp. eapply Forall2_impl; [exact Hc|]. intros r r' Hr. by eapply copy_at_stable. Qed.

Lemma copy_param_value (r : ref) (s : pstate A) r' s' :
  copy_param r s = Ok (r', s') → r < length (cells s) →
  cells s `prefix_of` cells s' ∧ copy_at (cells s') r r'.
Proof.
  unfold copy_param, read, alloc, mbind, ctor_bind. intros [= <- <-] Hr. cbn [cells].
  unfold heap, ref in *.
  destruct (lookup_lt_is_Some_2 (cells s) r Hr) as [t Ht].
  split; [by apply prefix_app_r|]. rewrite Ht. cbn. split.
  - exists t. by apply lookup_app_l_Some.
  - rewrite (lookup_app_l_Some _ _ _ _ Ht). by apply list_lookup_middle.
Qed.

Lemma within_children lo hi k ps ms :
  within lo hi (PyModule k ps ms) →
  Forall (fun r => lo ≤ r < hi) (map snd (local_params ps)) ∧
  Forall (fun c => within lo hi c.2) ms.
Proof.
  unfold within. rewrite parameters_node, Forall_app. intros [Hps Hms]. split; [done|].
  induction ms as [|c ms IH]; [constructor|]. cbn in Hms. apply Forall_app in Hms as [Hc Hms].
  constructor; [done|by apply IH].
Qed.

Lemma within_prefix (s s' : pstate A) m :
  within 0 (length (cells s)) m → cells s `prefix_of` cells s' →
  within 0 (length (cells s')) m.
Proof. intros Hw Hp%prefix_length. eapply within_mono; [exact Hw|lia|lia]. Qed.

Lemma Linear_deepcopy_values (m m' : Linear.t) (s s' : pstate A) :
  Linear.deepcopy m s = Ok (m', s') → within 0 (length (cells s)) (Linear.modules m) →
  value_copy Linear.modules m m' s s'.
Proof.
  unfold Linear.deepcopy. intros H Hw. inv_bind H. inv_bind H. injection H as <- <-.
  apply within_children in Hw as [Hw _]. unfold value_copy, parameters. cbn in Hw |- *.
  apply Forall_cons in Hw as [Hrw Hw].
  apply copy_param_value in Hu as [Hp Hc]; [|lia].
  destruct (Linear.bias m) as [b|] eqn:Hb; cbn in Hw |- *.
  - apply Forall_cons in Hw as [Hrb _].
    inv_bind Hu0. injection Hu0 as <- <-.
    apply copy_param_value in Hu as [Hp' Hc']; [|apply prefix_length in Hp; lia].
    split; [by etrans|]. cbn. constructor; [by eapply copy_at_stable|].
    constructor; [done|constructor].
  - injection Hu0 as <- <-. split; [done|]. cbn. constructor; [done|constructor].
Qed.

Lemma LayerNorm_deepcopy_values (m m' : LayerNorm.t A) (s s' : pstate A) :
  LayerNorm.deepcopy m s = Ok (m', s') → within 0 (length (cells s)) (LayerNorm.modules m) →
  value_copy LayerNorm.modules m m' s s'.
Proof.
  unfold LayerNorm.deepcopy. intros H Hw. inv_bind H. inv_bind H. injection H as <- <-.
  apply within_children in Hw as [Hw _]. unfold value_copy, parameters. cbn in Hw |- *.
  apply Forall_cons in Hw as [Hrw Hw]. apply Forall_cons in Hw as [Hrb _].
  apply copy_param_value in Hu as [Hp Hc]; [|lia].
  apply copy_param_value in Hu0 as [Hp' Hc']; [|apply prefix_length in Hp; lia].
  split; [by etrans|]. constructor; [by eapply copy_at_stable|].
  constructor; [done|constructor].
Qed.

(** The parameters of a module with two children that hold some. *)
Lemma value_copy_pair {T1 T2} (mods1 : T1 → pymodule) (mods2 : T2 → pymodule)
    (a a' : T1) (b b' : T2) (s s1 s' : pstate A) (ps ps' : list ref) :
  ps = parameters (mods1 a) ++ parameters (mods2 b) →
  ps' = parameters (mods1 a') ++ parameters (mods2 b') →
  value_copy mods1 a a' s s1 → value_copy mods2 b b' s1 s' →
  cells s `prefix_of` cells s' ∧ Forall2 (copy_at (cells s')) ps ps'.
Proof.
  intros -> -> [Hp1 Hc1] [Hp2 Hc2]. split; [by etrans|].
  apply Forall2_app; [by eapply copies_stable|done].
Qed.

Lemma parameters_pair k n1 m1 n2 m2 rest :
  Forall (fun c => parameters c.2 = []) rest →
  parameters (PyModule k [] ((n1, m1) :: (n2, m2) :: rest)) = parameters m1 ++ parameters m2.
Proof.
  intros Hrest. rewrite parameters_node. cbn. f_equal.
  replace (concat (map (fun c => parameters c.2) rest)) with (@nil ref);
    [by rewrite app_nil_r|].
  induction Hrest as [|c rest Hc _ IH]; [done|]. cbn. by rewrite Hc.
Qed.

Lemma parameters_single k n1 m1 :
  parameters (PyModule k [] [(n1, m1)]) = parameters m1.
Proof. rewrite parameters_node. cbn. by rewrite app_nil_r. Qed.

Lemma parameters_triple k n1 m1 n2 m2 n3 m3 rest :
  Forall (fun c => parameters c.2 = []) rest →
  parameters (PyModule k [] ((n1, m1) :: (n2, m2) :: (n3, m3) :: rest))
  = parameters m1 ++ parameters m2 ++ parameters m3.
Proof.
  intros Hrest. rewrite parameters_node. cbn. do 2 f_equal.
  replace (concat (map (fun c => parameters c.2) rest)) with (@nil ref);
    [by rewrite app_nil_r|].
  induction Hrest as [|c rest Hc _ IH]; [done|]. cbn. by rewrite Hc.
Qed.

Lemma within_pair lo hi k n1 m1 n2 m2 rest :
  within lo hi (PyModule k [] ((n1, m1) :: (n2, m2) :: rest)) →
  within lo hi m1 ∧ within lo hi m2.
Proof.
  intros [_ Hms]%within_children.
  apply Forall_cons in Hms as [H1 Hms]. apply Forall_cons in Hms as [H2 _]. done.
Qed.

Lemma SelfOutput_deepcopy_values (m m' : SelfOutput.t A) (s s' : pstate A) :
  SelfOutput.deepcopy m s = Ok (m', s') →
  within 0 (length (cells s)) (SelfOutput.modules m) →
  value_copy SelfOutput.modules m m' s s'.
Proof.
  unfold SelfOutput.deepcopy. intros H Hw. inv_bind H. inv_bind H. injection H as <- <-.
  apply within_pair in Hw as [Hw1 Hw2].
  apply Linear_deepcopy_values in Hu; [|done].
  apply LayerNorm_deepcopy_values in Hu0; [|eapply within_prefix; [done|apply Hu]].
  eapply (value_copy_pair Linear.modules LayerNorm.modules); [| |exact Hu|exact Hu0];
    apply parameters_pair; by repeat constructor.
Qed.

Lemma Output_deepcopy_values (m m' : Output.t A) (s s' : pstate A) :
  Output.deepcopy m s = Ok (m', s') →
  within 0 (length (cells s)) (Output.modules m) →
  value_copy Output.modules m m' s s'.
Proof.
  unfold Output.deepcopy. intros H Hw. inv_bind H. inv_bind H. injection H as <- <-.
  apply within_pair in Hw as [Hw1 Hw2].
  apply Linear_deepcopy_values in Hu; [|done].
  apply LayerNorm_deepcopy_values in Hu0; [|eapply within_prefix; [done|apply Hu]].
  eapply (value_copy_pair Linear.modules LayerNorm.modules); [| |exact Hu|exact Hu0];
    apply parameters_pair; by repeat constructor.
Qed.

Lemma Intermediate_deepcopy_values (m m' : Intermediate.t) (s s' : pstate A) :
  Intermediate.deepcopy m s = Ok (m', s') →
  within 0 (length (cells s)) (Intermediate.modules m) →
  value_copy Intermediate.modules m m' s s'.
Proof.
  unfold Intermediate.deepcopy. intros H Hw. inv_bind H. injection H as <- <-.
  apply within_children in Hw as [_ Hw]. apply Forall_cons in Hw as [Hw _].
  apply Linear_deepcopy_values in Hu as [Hp Hc]; [|done].
  split; [done|]. unfold Intermediate.modules. by rewrite !parameters_single.
Qed.

Lemma SelfAttention_deepcopy_values (m m' : SelfAttention.t A) (s s' : pstate A) :
  SelfAttention.deepcopy m s = Ok (m', s') →
  within 0 (length (cells s)) (SelfAttention.modules m) →
  value_copy SelfAttention.modules m m' s s'.
Proof.
  unfold SelfAttention.deepcopy. intros H Hw. inv_bind H. inv_bind H. inv_bind H.
  injection H as <- <-.
  apply within_children in Hw as [_ Hw].
  apply Forall_cons in Hw as [Hq Hw]. apply Forall_cons in Hw as [Hk Hw].
  apply Forall_cons in Hw as [Hv _]. cbn in Hq, Hk, Hv.
  apply Linear_deepcopy_values in Hu as [Hp1 Hc1]; [|done].
  apply Linear_deepcopy_values in Hu0 as [Hp2 Hc2]; [|by eapply within_prefix].
  apply Linear_deepcopy_values in Hu1 as [Hp3 Hc3];
    [|eapply within_prefix; [done|by etrans]].
  split; [by etrans; [|etrans]|].
  unfold SelfAttention.modules. rewrite !parameters_triple by (by repeat constructor).
  apply Forall2_app; [eapply copies_stable; [exact Hc1|by etrans]|].
  apply Forall2_app; [by eapply copies_stable|done].
Qed.

Lemma Attention_deepcopy_values (m m' : Attention.t A) (s s' : pstate A) :
  Attention.deepcopy m s = Ok (m', s') →
  within 0 (length (cells s)) (Attention.modules m) →
  value_copy Attention.modules m m' s s'.
Proof.
  unfold Attention.deepcopy. intros H Hw. inv_bind H. inv_bind H. injection H as <- <-.
  apply within_pair in Hw as [Hw1 Hw2].
  apply SelfAttention_deepcopy_values in Hu; [|done].
  apply SelfOutput_deepcopy_values in Hu0; [|eapply within_prefix; [done|apply Hu]].
  eapply (value_copy_pair SelfAttention.modules SelfOutput.modules);
    [| |exact Hu|exact Hu0]; apply parameters_pair; by repeat constructor.
Qed.

Lemma Layer_deepcopy_values (m m' : Layer.t A) (s s' : pstate A) :
  Layer.deepcopy m s = Ok (m', s') →
  within 0 (length (cells s)) (Layer.modules m) →
  value_copy Layer.modules m m' s s'.
Proof.
  unfold Layer.deepcopy. intros H Hw. inv_bind H. inv_bind H. inv_bind H.
  injection H as <- <-.
  apply within_children in Hw as [_ Hw].
  apply Forall_cons in Hw as [Ha Hw]. apply Forall_cons in Hw as [Hi Hw].
  apply Forall_cons in Hw as [Ho _]. cbn in Ha, Hi, Ho.
  apply Attention_deepcopy_values in Hu as [Hp1 Hc1]; [|done].
  apply Intermediate_deepcopy_values in Hu0 as [Hp2 Hc2]; [|by eapply within_prefix].
  apply Output_deepcopy_values in Hu1 as [Hp3 Hc3];
    [|eapply within_prefix; [done|by etrans]].
  split; [by etrans; [|etrans]|].
  unfold Layer.modules. rewrite !parameters_triple by constructor.
  apply Forall2_app; [eapply copies_stable; [exact Hc1|by etrans]|].
  apply Forall2_app; [by eapply copies_stable|done].
Qed.

Lemma repeatM_deepcopy_values (l : Layer.t A) n (s s' : pstate A) ls :
  repeatM n (Layer.deepcopy l) s = Ok (ls, s') →
  within 0 (length (cells s)) (Layer.modules l) →
  cells s `prefix_of` cells s' ∧
  Forall (fun l' => Forall2 (copy_at (cells s')) (parameters (Layer.modules l))
                            (parameters (Layer.modules l'))) ls.
Proof.
  revert s ls. induction n as [|n IH]; intros s ls H Hw; cbn in H.
  - injection H as <- <-. split; [done|constructor].
  - inv_bind H. inv_bind H. injection H as <- <-.
    apply Layer_deepcopy_values in Hu as [Hp Hc]; [|done].
    destruct (IH _ _ Hu0) as [Hp' Hall]; [by eapply within_prefix|].
    split; [by etrans|]. constructor; [by eapply copies_stable|done].
Qed.

Lemma mat_at_allocated (h : heap A) (r : ref) o i : mat_at h r o i → 0 ≤ r < length h.
Proof. intros (m & Hm & _). apply lookup_lt_Some in Hm. lia. Qed.

Lemma vec_at_allocated (h : heap A) (r : ref) n : vec_at h r n → 0 ≤ r < length h.
Proof. intros (v & Hv & _). apply lookup_lt_Some in Hv. lia. Qed.

Lemma Linear_built_within (h : heap A) i o (m : Linear.t) :
  Linear_built h i o m → Forall (fun r => 0 ≤ r < length h) (parameters (Linear.modules m)).
Proof.
  intros (_ & _ & Hw & Hb). unfold parameters. cbn.
  constructor; [by eapply mat_at_allocated|].
  destruct (Linear.bias m) as [b|]; cbn; [|constructor].
  constructor; [by eapply vec_at_allocated|constructor].
Qed.

Lemma LayerNorm_built_within (h : heap A) n (m : LayerNorm.t A) :
  LayerNorm_built h n m →
  Forall (fun r => 0 ≤ r < length h) (parameters (LayerNorm.modules m)).
Proof.
  intros [Hw Hb]. unfold parameters. cbn.
  constructor; [by eapply vec_at_allocated|].
  constructor; [by eapply vec_at_allocated|constructor].
Qed.

Lemma Layer_built_within (h : heap A) hidden heads inter (m : Layer.t A) :
  Layer_built h hidden heads inter m → within 0 (length h) (Layer.modules m).
Proof.
  intros ([(_ & _ & _ & Hq & Hk & Hv) [Hd Hl]] & Hi & Ho & Hln).
  unfold within, Layer.modules, Attention.modules, SelfAttention.modules,
    SelfOutput.modules, Intermediate.modules, Output.modules.
  rewrite parameters_triple by constructor.
  rewrite parameters_pair by constructor.
  rewrite !parameters_triple by (by repeat constructor).
  rewrite parameters_single.
  repeat (apply Forall_app; split);
    first [by eapply Linear_built_within|by eapply LayerNorm_built_within|constructor].
Qed.


End LayerValues.

